(* ===== verification/_CoqProject ===== *)
-Q . S2P
Prelude.v
Interleave.v
CircularBuffer.v
Memory.v
Driver.v
DriverSpec.v
DriverWrite.v
DriverFaults.v
DriverRead.v
DriverSession.v
DriverModule.v
DriverLifecycle.v
Linearize.v
DriverShared.v
DriverConcurrent.v
DriverLines.v
SList.v
QueueMem.v
QueueOps.v
SimpleQ.v
STailQ.v
XSimpleQ.v
TailQ.v
ListQ.v
OutputFile.v
Process.v
Worker.v
WorkerSpec.v
WorkerReceive.v
WorkerSend.v
WorkerMain.v
Server.v
ServerSpec.v
ServerWorkers.v
ServerAccept.v
ServerRun.v
WorkerPool.v
WorkerOwn.v
OwnRules.v
WorkersEcho.v
WorkersLines.v
ServerPool.v
PoolWorker.v
PoolMain.v
PoolServer.v
ServerConcurrent.v
Daemon.v
Writer.v
SystemCalls.v
Threading.v
AutotestValidate.v
