(* ===== verification/Prelude.v ===== *)
(** * AESD assignments: a verification development

    The repository holds four programs and some examples. The device
    [/dev/aesdchar] is a Linux character driver ([src/aesd-char-driver]) that
    keeps the last ten newline-terminated lines written to it. The server
    [aesdsocket] ([src/server]) takes one line from each client, appends it to
    the output file (the device, or a plain file) and sends the whole file back,
    with one thread per client. [writer] ([src/finder-app/writer.c]) writes a
    string to a file. [src/examples] holds functions that run commands and one
    that starts a thread. The server keeps its workers in a list of [queue.h],
    whose other five kinds of lists and queues are modelled as well.

    ** How the code is modelled

    Functions without effects are Gallina functions that return [res]: [Ok], or
    [Err] with the kind of undefined behaviour met ([fault]). Everything else is
    a program, [prog S A]: [Act] is one access to the state that the code shares,
    [Ask] is a call of code outside the repository (the kernel, the C library,
    another thread that sets a flag), and [Crash] is undefined behaviour. A
    component has a signature [S]: its state and its questions. An environment
    answers the questions and [run] executes a program in one. What the code
    relies on of the environment is a [contract], a relation between state,
    question and answer; [respects] says that an environment keeps to it, and
    every contract used is shown to have an environment that does.

    [wp] and [wpr] are weakest preconditions under a contract: [wp] for programs
    that meet no fault, [wpr] over every ending. [wp_run] and [wpr_run] turn
    them into statements on [run], which is what the theorems are stated with. A
    theorem that lists the endings of a function holds of every contract [C] within
    what the kernel or POSIX promises, and each ending that is not a success comes
    with what [C] allows that leads there, so that on a system that excludes the cause
    the ending is excluded. [recorded] adds to an environment a record of the calls,
    for statements about which calls a program makes and in which states.

    Unsigned and signed integers are [Z], wrapped to their width where the
    code computes ([u8], [u64], [i32], [i64], for a 64-bit target). Memory is a
    map from addresses to blocks, and an access outside a live block is a fault;
    so is unlocking a mutex that is not held, or freeing what is not allocated.
    Locking a held mutex is [Deadlock]: of a program run alone, because nobody
    else would release it; in a pool of threads ([Interleave]) the thread waits.
    [recv] on a connection from which nothing more comes is [Silent] in the same way:
    it does not return, and the thread waits for its client for good. A peer that has
    closed its side is something else ([RxEnd]): [recv] then gives no bytes, each time.
    A signal that ends the process is [Killed].

    ** The files

    - [Prelude]: results, programs, environments, contracts, weakest
      preconditions, machine integers and lemmas on lists and maps.
    - [CircularBuffer] is [aesd-circular-buffer.c] and [.h]. A buffer represents
      the queue of its live entries ([cb_rep]). An insertion is a push on a queue
      of at most ten ([add_entry_refines], [add_entries_history]) and the offset
      search finds the entry and byte of the concatenated data ([find_refines]).
    - [Memory]: blocks and the accesses to them.
    - [Driver] models [aesd-char-driver/main.c] and [aesdchar.h] over the two
      files before; [DriverSpec] has the abstract device ([dspec]), the relation
      [represents] and the rules for the kernel calls. [DriverWrite]: every ending
      of [aesd_write], and that it implements the abstract write. [DriverRead]:
      every ending of [aesd_read], and that reading to the end gives all committed
      data. [DriverModule]: loading and unloading. [DriverFaults]: what the
      error paths leave behind. [DriverSession]: what is written in any pieces is
      what is read back. [DriverLifecycle]: loading, a client that goes through
      [g_aesd_fops], and unloading, in one run ([device_lifecycle]).
    - [Interleave]: programs that run at the same time over one state, step by
      step, what one of them may count on between its steps, and a scheduler that
      executes a pool.
    - [Linearize]: objects that threads call at the same time, the atomic objects
      they stand for, and the class [Protocol]: what a locking discipline provides
      so that a proof about each operation ([tsim]) is one about every execution.
    - [DriverShared] is the protocol of the device's two mutexes;
      [DriverConcurrent] proves [aesd_read] and [aesd_write] under it;
      [DriverLines] is about clients that write lines.
    - [SList]: the [SLIST] macros of [queue.h], over a class for the link field,
      with the refinement to operations on Gallina lists.
    - [QueueMem]: memory of words with addresses, for the types of [queue.h] that
      keep the address of a link. [holds] describes a memory by a list of cells at
      different addresses, so that putting descriptions together with [++] says
      that they are separate; [mem_step] runs a macro on a described memory.
    - [QueueOps]: the classes [QueueImpl] and [QueueLaws], what a type of queue
      has and promises, and from the laws the refinement of sequences of
      operations on any number of queues to operations on lists.
    - [SimpleQ], [STailQ], [XSimpleQ], [TailQ], [ListQ]: the [SIMPLEQ], [STAILQ],
      [XSIMPLEQ], [TAILQ] and [LIST] macros, each an instance of the two classes.
      Offsets of entries in their structures are arguments, and the cookie of an
      XOR queue is what the random generator gave.
    - [OutputFile]: the class of what the server relies on of its output, with
      the plain file and the abstract device as instances. The theorems on the
      server hold for any instance.
    - [Process]: the server's process (memory, workers, list entries, mutexes,
      threads, files, descriptors, connections, the log) and the library and
      system calls, with the contracts [posix] (what POSIX promises) and
      [posix_ok] (and nothing fails).
    - [Worker] models [aesd_worker.c] and [aesd_worker.h]. [WorkerSpec] says what
      a worker makes of the arrivals ([received]) and the states of its critical
      region; [WorkerReceive], [WorkerSend] and [WorkerMain] have the theorems on
      [receive_data], [send_response] and the whole thread.
    - [WorkerPool]: any number of workers and timer signals over one process,
      interleaved step by step, whatever fails.
    - [WorkerOwn]: the same threads when nothing fails, with the history of the
      output file as a list of commits. [proves] is what is shown of one thread,
      which knows its own structure, buffer and connection and a part of the
      history; [pool_inv] is what follows for all. [OwnRules] has a rule of
      [proves] for each call. [WorkersEcho] proves [aesd_worker_main] and
      [alarm_handler] under it and has the theorems; [WorkersLines] is about
      clients that send lines to a server over the device.
    - [Server] models [aesd_server.c] and [aesd_server.h]. [ServerSpec] has the
      invariant [pool]: the server owns a list entry, a worker, a buffer and a
      thread for each client, and nothing else. [ServerWorkers]: reaping and
      shutdown. [ServerAccept]: accepting. [ServerRun]: binding, the main loop,
      the whole run and the timestamp timer.
    - [ServerPool]: the server's main thread, the workers it starts and the signal
      of its timer, step by step: the step of a thread ([thread_step]), the arrival
      of the signal ([signal_step]), and the runs they make ([server_run]), which
      keep the thread that locked the mutex last; the class [Delivery] says which
      threads the signal may interrupt; what is proved of a worker or the handler
      ([wsafe]) and of the main thread ([msafe]) alone, and that together it holds
      in every interleaving ([server_inv_run]). [PoolWorker] proves the one of
      [aesd_worker_main] and [alarm_handler]; [PoolMain] has the rules of the other
      and [PoolServer] the proofs about the functions of [Server], with the same
      invariant [pool]; [ServerConcurrent] has the theorems, and a scheduler that
      executes the model.
    - [Daemon] models [aesdsocket.c]: [main] from its arguments to its status. Its
      state has the server's process as a part, and [lift] runs the server's
      programs on that part.
    - [Writer], [SystemCalls] and [Threading] model [writer.c], [systemcalls.c]
      and [threading.c]; [AutotestValidate] the three constants of
      [autotest-validate] and their test.

    Definitions have the names they have in C. Loops over data have the data's
    length as their bound. The loops of the worker, the server and the writer
    have fuel, and [OutOfFuel] is an ending of its own. The theorems on them
    either say that fuel above a stated bound suffices ([read_stream_all],
    [receive_data_message], [aesd_worker_main_echo], [device_echo],
    [workers_echo], [main_terminates]), or that the loop does not end whatever the fuel
    ([receive_data_spins], [early_signal_lost]), or list [OutOfFuel] among the
    endings with the reason for it, as [aesd_server_run_outcomes] (no stop signal need
    come) and [main_writes] (a write may be interrupted) do. In the pool of the server
    a thread whose loop has used up its fuel is one that would go on
    ([out_of_fuel]). The search of the circular buffer has fuel
    ten, [SLIST_REMOVE] one more than the number of allocated elements and
    [STAILQ_REMOVE] the number of words in memory; all are shown never to run
    out. The loops over queues have fuel, and the length of the queue is enough.

    ** What the theorems show

    The functional theorems say what each program does when its calls succeed:
    the device holds the last ten lines, the worker appends the client's line
    and sends everything back, the server reaps exactly the workers that are
    done and gives everything back when it stops, the writer leaves exactly the
    string in its file. Sequences of queue operations do to memory what they do to
    lists ([tailq_ops_refine] and the like), loops visit the elements in order
    and can remove them as they go ([tailq_foreach_directions], [tailq_drain]),
    and an XOR queue is a simple queue encoded ([xsimpleq_equiv]). Of threads at
    the same time: every history of concurrent reads and writes of the device is
    one of the device that does each call at once ([device_linearizable]), no call
    faults and none wait for each other, so that all return ([device_completes]), and
    lines stay whole ([device_lines]); the output file grows by whole critical regions
    ([workers_serialize]) and the holder of the mutex never waits for a mutex
    ([workers_no_deadlock]). When no call fails, the threads always come to an end
    ([workers_complete]): each message is then in the output file once and whole,
    and each client was sent the file as it was at one time after its own message
    ([workers_echo]), which over the device is ten lines, the client's own among
    them when there are at most ten clients ([device_workers_echo]). The main
    thread frees what a worker uses only after the worker has returned, and leaves
    nothing when it does, whichever threads the signal interrupts
    ([server_pool_safe]); and while the signal goes to the main thread there is no
    deadlock: a thread that waits does so, directly or through one other, for a thread
    that waits for no thread ([server_pool_progress]). That thread may be a worker that
    waits for its client or loops with the mutex held ([receive_data_waits],
    [receive_data_spins]), and then the others do wait for ever. The theorems named
    [_outcomes] say how a function can end, whatever fails, what it leaves and why it
    ends so. Others state what goes wrong: the dangling pointer after a failed append
    ([aesd_write_fault_dangles], [dangling_write_faults]), the write of no bytes
    ([aesd_write_empty_faults]), the retried write ([aesd_write_retry_duplicates]),
    the padding of short deliveries ([receive_data_pads]), the client that keeps the
    mutex from the others by sending nothing ([receive_data_waits]), the worker that
    never notices its client is gone ([receive_data_spins]), the crash when a thread
    cannot be made ([accept_client_no_thread]), the signal handler that waits for
    its own thread ([alarm_handler_deadlocks], and in the pool of threads
    [interrupted_worker_hangs]), the client that ends the server by closing its
    connection early ([worker_killed]), the timer that outlives its server
    ([null_timer_outlives]), the signal that comes too early
    ([early_signal_lost]), the insertion that inserts nothing
    ([stailq_insert_after_lost]), and those of the examples.

    ** What is not modelled

    The theorems on one run of the server or of [main] have one thread, which reads
    the flags other threads set from the environment, as do those on one worker. The
    interleavings are of the device's clients, of workers and timestamps, and of the
    server's main thread and its workers. Among workers and timestamps the handler
    runs in threads of its own, though in the program it interrupts the main thread or
    a worker. Among the server's threads the timer's signal does: it may
    interrupt the main thread and, as [Delivery] says, any worker, even in the
    handler, which is more than a system does; the timer's identifier is not null
    ([null_timer_outlives]), creating a thread succeeds
    ([accept_client_no_thread]) and no client is gone before its response
    ([worker_killed]): these are what [posix_threads] adds to [posix]. What clients are sent is shown of workers that exist from the
    start, without a shutdown and when no call fails ([workers_echo]); with failing
    calls it is shown of one worker ([aesd_worker_main_outcomes]). That the device is
    linearizable and that its calls all return is shown for user buffers that can be
    read and writes that are not empty: after a copy fails on an append the device is
    dangling ([dangling_write_faults]), and an empty write faults
    ([aesd_write_empty_faults]). Memory is sequentially consistent. Messages to the
    terminal are left out, as are the texts of log messages, file modes and socket
    options, and the debugging option of [queue.h] that invalidates the links of
    removed elements. The shell scripts and the build files are left out. *)

From Stdlib Require Export Strings.Byte.
From stdpp Require Export prelude gmap list.

#[export] Set Default Goal Selector "!".
Open Scope Z_scope.

(* ================================================================== *)
(** ** Bytes *)

#[export] Instance byte_eq_dec : EqDecision Byte.byte := Byte.byte_eq_dec.
#[export] Instance byte_countable : Countable Byte.byte :=
  inj_countable Byte.to_N Byte.of_N Byte.of_to_N.

(** The two bytes the sources name: ['\n'] and the zero byte [memset] and
    [kzalloc] fill with. *)
Definition newline : Byte.byte := Byte.x0a.
Definition nul : Byte.byte := Byte.x00.

Abbreviation bytes := (list Byte.byte).

(* ================================================================== *)
(** ** Machine integers *)

(** Conversion to an unsigned type of [w] bits, and to the signed one (two's
    complement). [uint8_t], [size_t] and [ssize_t]/[loff_t] on a 64-bit
    target. *)
Definition to_unsigned (w z : Z) : Z := z mod 2 ^ w.
Definition to_signed (w z : Z) : Z :=
  (z + 2 ^ (w - 1)) mod 2 ^ w - 2 ^ (w - 1).

Definition u8 (z : Z) : Z := to_unsigned 8 z.
Definition u32 (z : Z) : Z := to_unsigned 32 z.
Definition u64 (z : Z) : Z := to_unsigned 64 z.
Definition i32 (z : Z) : Z := to_signed 32 z.
Definition i64 (z : Z) : Z := to_signed 64 z.

(** Loads and stores are range-checked; these are the facts the components
    use of the conversions. *)
Lemma to_unsigned_small w z : 0 <= z < 2 ^ w -> to_unsigned w z = z.
Proof. apply Z.mod_small. Qed.

Lemma to_unsigned_range w z : 0 <= w -> 0 <= to_unsigned w z < 2 ^ w.
Proof. intros. apply Z.mod_pos_bound. lia. Qed.

Lemma to_signed_small w z :
  0 < w -> - 2 ^ (w - 1) <= z < 2 ^ (w - 1) -> to_signed w z = z.
Proof.
  intros Hw Hz. unfold to_signed.
  assert (2 ^ w = 2 * 2 ^ (w - 1)) as Hp.
  { rewrite <- Z.pow_succ_r by lia. f_equal. lia. }
  rewrite Z.mod_small by lia. lia.
Qed.

Lemma u8_small z : 0 <= z < 2 ^ 8 -> u8 z = z.
Proof. apply to_unsigned_small. Qed.
Lemma u64_small z : 0 <= z < 2 ^ 64 -> u64 z = z.
Proof. apply to_unsigned_small. Qed.
Lemma i64_small z : - 2 ^ 63 <= z < 2 ^ 63 -> i64 z = z.
Proof. intros. by apply to_signed_small. Qed.
Lemma i32_small z : - 2 ^ 31 <= z < 2 ^ 31 -> i32 z = z.
Proof. intros. by apply to_signed_small. Qed.

(* ================================================================== *)
(** ** Results of C code *)

(** What C leaves undefined, or what never returns. *)
Inductive fault : Type :=
| OutOfBounds      (* access outside an array or an allocated block *)
| NullDeref        (* access through a null pointer *)
| BadFree          (* free of something that is not an allocated block *)
| BadUnlock        (* unlock of a mutex that is not held *)
| SignedOverflow   (* overflow of a signed integer type *)
| Deadlock         (* waiting for a lock that is never released *)
| Silent           (* waiting for a peer from which nothing comes any more *)
| OutOfFuel        (* the fuel of a loop ran out *)
| Killed.          (* the process ended by a signal *)

#[export] Instance fault_eq_dec : EqDecision fault.
Proof. solve_decision. Defined.

Inductive res (A : Type) : Type :=
| Ok (a : A)
| Err (f : fault).
Arguments Ok {A} a.
Arguments Err {A} f.

#[export] Instance res_ret : MRet res := @Ok.
#[export] Instance res_bind : MBind res :=
  fun A B k m => match m with Ok a => k a | Err f => Err f end.

(** [arr[i]] on an array of known length: out of range is undefined. *)
Definition arr_get {A} (l : list A) (i : Z) : res A :=
  if decide (0 <= i) then
    match l !! Z.to_nat i with Some x => Ok x | None => Err OutOfBounds end
  else Err OutOfBounds.

Definition arr_set {A} (l : list A) (i : Z) (x : A) : res (list A) :=
  if decide (0 <= i < Z.of_nat (length l)) then Ok (<[Z.to_nat i := x]> l)
  else Err OutOfBounds.

Lemma arr_get_nat {A} (l : list A) (n : nat) :
  arr_get l (Z.of_nat n) =
    match l !! n with Some x => Ok x | None => Err OutOfBounds end.
Proof. unfold arr_get. rewrite decide_True by lia. by rewrite Nat2Z.id. Qed.

Lemma arr_set_nat {A} (l : list A) (n : nat) x :
  (n < length l)%nat -> arr_set l (Z.of_nat n) x = Ok (<[n := x]> l).
Proof. intros. unfold arr_set. rewrite decide_True by lia. by rewrite Nat2Z.id. Qed.

(* ================================================================== *)
(** ** Lists *)

(** The last [n] elements. *)
Definition lastn {A} (n : nat) (l : list A) : list A := drop (length l - n) l.

Section lists.
Context {A : Type}.
Implicit Types l : list A.

Lemma length_lastn n l : length (lastn n l) = (n `min` length l)%nat.
Proof. unfold lastn. rewrite length_drop. lia. Qed.

Lemma lastn_all n l : (length l <= n)%nat -> lastn n l = l.
Proof. intros. unfold lastn. by replace (length l - n)%nat with 0%nat by lia. Qed.

Lemma lastn_app_skip n l k : (n <= length k)%nat -> lastn n (l ++ k) = lastn n k.
Proof.
  intros. unfold lastn. rewrite length_app, drop_app.
  rewrite drop_ge by lia. simpl. f_equal. lia.
Qed.

Lemma lastn_app_r n l k : lastn n (lastn n l ++ k) = lastn n (l ++ k).
Proof.
  destruct (decide (length l <= n)%nat); [by rewrite (lastn_all n l)|].
  rewrite <- (take_drop (length l - n) l) at 2. rewrite <- app_assoc.
  rewrite (lastn_app_skip n (take _ _)); [done|].
  rewrite length_app, length_drop. lia.
Qed.

Lemma lastn_app_full n l x :
  length l = n -> (0 < n)%nat -> lastn n (l ++ [x]) = tail l ++ [x].
Proof.
  intros Hl Hn. unfold lastn. rewrite length_app; simpl.
  replace (length l + 1 - n)%nat with 1%nat by lia.
  destruct l; [simpl in *; lia | done].
Qed.

Lemma rotate_mod n l : rotate (n `mod` length l) l = rotate n l.
Proof. unfold rotate. by rewrite Nat.Div0.mod_mod. Qed.

Lemma rotate_split l k : rotate (length l) (l ++ k) = k ++ l.
Proof.
  unfold rotate. rewrite length_app. destruct k as [|x k].
  - simpl. rewrite Nat.add_0_r, Nat.Div0.mod_same. simpl. by rewrite !app_nil_r.
  - rewrite Nat.mod_small by (simpl; lia). by rewrite drop_app_length, take_app_length.
Qed.

(** Overwriting the head of a rotated array and moving the head on. *)
Lemma rotate_next n l x :
  (n < length l)%nat -> rotate (S n) (<[n := x]> l) = tail (rotate n l) ++ [x].
Proof.
  intros Hn. destruct (lookup_lt_is_Some_2 l n Hn) as [y Hy].
  rewrite (insert_take_drop l n x Hn).
  rewrite <- (take_drop_middle l n y Hy) at 3.
  assert (length (take n l) = n) as Ht by (rewrite length_take; lia).
  revert Ht. generalize (take n l) as l1, (drop (S n) l) as l2. intros l1 l2 <-.
  rewrite rotate_split. simpl.
  rewrite (cons_middle x l1 l2), app_assoc.
  replace (S (length l1)) with (length (l1 ++ [x])) by (rewrite length_app; simpl; lia).
  by rewrite rotate_split, app_assoc.
Qed.

End lists.

(** What is before and after the first [x] of a list. *)
Fixpoint split_at (x : Z) (l : list Z) : option (list Z * list Z) :=
  match l with
  | [] => None
  | y :: l =>
      if decide (y = x) then Some ([], l)
      else '(l1, l2) ← split_at x l; Some (y :: l1, l2)
  end.

Lemma split_at_app x l l1 l2 : split_at x l = Some (l1, l2) -> l = l1 ++ x :: l2.
Proof.
  revert l1 l2. induction l as [|y l IH]; intros l1 l2; simpl; [done|].
  case_decide as Hd; [intros; by simplify_eq|].
  intros ([k1 k2] & Hk & ?)%bind_Some. simplify_eq. simpl. f_equal. by apply IH.
Qed.

(** A key above every key of a map and above [lo]: where an allocator could
    place something new. *)
Definition next_key {A} (lo : Z) (m : gmap Z A) : Z :=
  1 + map_fold (fun k _ n => Z.max k n) lo m.

Lemma next_key_gt {A} lo (m : gmap Z A) : lo < next_key lo m.
Proof. unfold next_key. apply (map_fold_weak_ind (fun n _ => lo < 1 + n)); lia. Qed.

Lemma next_key_fresh {A} lo (m : gmap Z A) : m !! next_key lo m = None.
Proof.
  destruct (m !! next_key lo m) as [a|] eqn:Hl; [|done]. exfalso. revert Hl.
  assert (forall k b, m !! k = Some b -> k < next_key lo m) as Hlt; [|by intros ?%Hlt; lia].
  unfold next_key.
  apply (map_fold_weak_ind (fun n m => forall k b, m !! k = Some b -> k < 1 + n)).
  - intros k b. by rewrite lookup_empty.
  - intros i y m' n Hi IH k b. rewrite lookup_insert. case_decide; [lia|]. intros Hk%IH. lia.
Qed.

(* ================================================================== *)
(** ** Programs *)

(** A signature: the state the code shares, and the questions it asks of code
    that is not under [src/] (the kernel, the C library, other threads), each
    with the type of its answer. *)
Record sig : Type := Sig {
  st : Type;
  query : Type;
  answer : query -> Type
}.

(** A program over a signature. [Ask] calls the environment; [Act] is one
    access of the shared state; [Crash] is undefined behaviour or a loop whose
    fuel ran out. *)
Inductive prog (S : sig) (A : Type) : Type :=
| Ret (a : A)
| Ask (q : query S) (k : answer S q -> prog S A)
| Act (B : Type) (f : st S -> res (B * st S)) (k : B -> prog S A)
| Crash (f : fault).
Arguments Ret {S A} a.
Arguments Ask {S A} q k.
Arguments Act {S A B} f k.
Arguments Crash {S A} f.

Fixpoint prog_bindF {S A B} (k : A -> prog S B) (p : prog S A) : prog S B :=
  match p with
  | Ret a => k a
  | Ask q h => Ask q (fun a => prog_bindF k (h a))
  | Act f h => Act f (fun b => prog_bindF k (h b))
  | Crash f => Crash f
  end.

#[export] Instance prog_ret S : MRet (prog S) := fun A a => Ret a.
#[export] Instance prog_bind S : MBind (prog S) := fun A B k p => prog_bindF k p.

(** The primitives the models use. *)
Definition ask {S} (q : query S) : prog S (answer S q) := Ask q Ret.
Definition act {S B} (f : st S -> res (B * st S)) : prog S B := Act f Ret.
Definition get {S A} (f : st S -> A) : prog S A := act (fun s => Ok (f s, s)).
Definition modify {S} (f : st S -> st S) : prog S unit :=
  act (fun s => Ok (tt, f s)).
Definition of_res {S A} (r : res A) : prog S A :=
  match r with Ok a => Ret a | Err f => Crash f end.

(* ================================================================== *)
(** ** Execution *)

(** An environment answers each question from the current state and a state
    [X] of its own. *)
Definition env (S : sig) (X : Type) : Type :=
  st S -> X -> forall q : query S, answer S q * X.

Fixpoint run {S X A} (o : env S X) (p : prog S A) (s : st S) (x : X)
    : res (A * st S * X) :=
  match p with
  | Ret a => Ok (a, s, x)
  | Ask q k => let '(a, x') := o s x q in run o (k a) s x'
  | Act f k =>
      match f s with
      | Ok (b, s') => run o (k b) s' x
      | Err e => Err e
      end
  | Crash e => Err e
  end.

(** What the code relies on from the environment. *)
Definition contract (S : sig) : Type := st S -> forall q : query S, answer S q -> Prop.

Definition respects {S X} (C : contract S) (o : env S X) : Prop :=
  forall s x q, C s q (fst (o s x q)).

(** The environments the components' examples use are registered here with the
    contracts they respect. *)
Create HintDb envs.

(** An environment that keeps a record of the calls: the state each was made in, and
    its answer. *)
Record call (S : sig) : Type := Call {
  cl_state : st S;
  cl_query : query S;
  cl_answer : answer S cl_query
}.
Arguments Call {S} cl_state cl_query cl_answer.

Definition recorded {S X} (o : env S X) : env S (X * list (call S)) := fun s x q =>
  let '(a, x') := o s x.1 q in (a, (x', x.2 ++ [Call s q a])).

Lemma respects_mono {S X} (C C' : contract S) (o : env S X) :
  respects C o -> (forall s q a, C s q a -> C' s q a) -> respects C' o.
Proof. intros Ho HC s x q. apply HC, Ho. Qed.

(** Weakest precondition for total correctness: the program meets no fault and
    ends in a result and a state satisfying [Q], whatever answers the contract
    allows. *)
Fixpoint wp {S A} (C : contract S) (p : prog S A) (Q : A -> st S -> Prop)
    (s : st S) : Prop :=
  match p with
  | Ret a => Q a s
  | Ask q k => forall a, C s q a -> wp C (k a) Q s
  | Act f k =>
      match f s with
      | Ok (b, s') => wp C (k b) Q s'
      | Err _ => False
      end
  | Crash _ => False
  end.

(** The same over every ending, faults included. *)
Fixpoint wpr {S A} (C : contract S) (p : prog S A) (Q : res (A * st S) -> Prop)
    (s : st S) : Prop :=
  match p with
  | Ret a => Q (Ok (a, s))
  | Ask q k => forall a, C s q a -> wpr C (k a) Q s
  | Act f k =>
      match f s with
      | Ok (b, s') => wpr C (k b) Q s'
      | Err e => Q (Err e)
      end
  | Crash e => Q (Err e)
  end.

(* ================================================================== *)
(** ** Lemmas on programs *)

Section programs.
Context {S : sig}.
Implicit Types (C : contract S) (s : st S).

Lemma wp_bind {A B} C (p : prog S A) (k : A -> prog S B) Q s :
  wp C p (fun a s' => wp C (k a) Q s') s -> wp C (p ≫= k) Q s.
Proof.
  revert s; induction p as [a|q h IH|T f h IH|e]; intros s; simpl; [auto|naive_solver| |done].
  destruct (f s) as [[b s']|]; naive_solver.
Qed.

Lemma wp_mono {A} C (p : prog S A) (Q Q' : A -> st S -> Prop) s :
  (forall a s', Q a s' -> Q' a s') -> wp C p Q s -> wp C p Q' s.
Proof.
  intros HQ; revert s; induction p as [a|q h IH|T f h IH|e]; intros s; simpl; [auto|naive_solver| |done].
  destruct (f s) as [[b s']|]; naive_solver.
Qed.

Lemma wp_weaken {A} C C' (p : prog S A) Q s :
  (forall s q a, C' s q a -> C s q a) -> wp C p Q s -> wp C' p Q s.
Proof.
  intros HC; revert s; induction p as [a|q h IH|T f h IH|e]; intros s; simpl; [auto|naive_solver| |done].
  destruct (f s) as [[b s']|]; naive_solver.
Qed.

Lemma wp_conj {A} C (p : prog S A) (Q Q' : A -> st S -> Prop) s :
  wp C p Q s -> wp C p Q' s -> wp C p (fun a s' => Q a s' /\ Q' a s') s.
Proof.
  revert s; induction p as [a|q h IH|T f h IH|e]; intros s; simpl; [auto|naive_solver| |done].
  destruct (f s) as [[b s']|]; naive_solver.
Qed.

(** No access of the program changes the part [v] of the state. *)
Fixpoint keeps {B A} (v : st S -> B) (p : prog S A) : Prop :=
  match p with
  | Ret _ | Crash _ => True
  | Ask _ k => forall a, keeps v (k a)
  | Act f k => (forall s b s', f s = Ok (b, s') -> v s' = v s) /\ forall b, keeps v (k b)
  end.

Lemma keeps_bind {B A A'} (v : st S -> B) (p : prog S A) (k : A -> prog S A') :
  keeps v p -> (forall a, keeps v (k a)) -> keeps v (p ≫= k).
Proof. intros Hp Hk. revert Hp. induction p; simpl; naive_solver. Qed.

Lemma wp_keeps {B A} (v : st S -> B) C (p : prog S A) (Q : A -> st S -> Prop) s :
  keeps v p -> wp C p Q s -> wp C p (fun a s' => Q a s' /\ v s' = v s) s.
Proof.
  revert s; induction p as [a|q h IH|T f h IH|e]; intros s; simpl; [done|naive_solver| |done].
  intros [Hf Hk]. destruct (f s) as [[b s']|] eqn:He; [|done]. intros Hw.
  eapply wp_mono; [|by apply IH]. intros a s2 [HQ Hv]. by rewrite Hv, (Hf s b s').
Qed.

Lemma wp_ret {A} C (a : A) (Q : A -> st S -> Prop) s : Q a s -> wp C (mret a) Q s.
Proof. done. Qed.

Lemma wp_ask C q (Q : answer S q -> st S -> Prop) s :
  (forall a, C s q a -> Q a s) -> wp C (ask q) Q s.
Proof. done. Qed.

Lemma wp_act {B} C f (Q : B -> st S -> Prop) s b s' :
  f s = Ok (b, s') -> Q b s' -> wp C (act f) Q s.
Proof. simpl. by intros ->. Qed.

Lemma wp_get {A} C (f : st S -> A) Q s : Q (f s) s -> wp C (get f) Q s.
Proof. done. Qed.

Lemma wp_modify C f (Q : unit -> st S -> Prop) s : Q tt (f s) -> wp C (modify f) Q s.
Proof. done. Qed.

Lemma wp_of_res {A} C (r : res A) (a : A) Q s : r = Ok a -> Q a s -> wp C (of_res r) Q s.
Proof. by intros ->. Qed.

(** Soundness: an environment within the contract runs the program to the end,
    in a result the postcondition holds of. *)
Lemma wp_run {X A} C (o : env S X) (p : prog S A) Q s x :
  respects C o -> wp C p Q s ->
  exists a s' x', run o p s x = Ok (a, s', x') /\ Q a s'.
Proof.
  intros Ho; revert s x; induction p as [a|q h IH|T f h IH|e]; intros s x; simpl.
  - eauto.
  - intros H. specialize (Ho s x q). destruct (o s x q) as [a x']. eauto.
  - destruct (f s) as [[b s']|]; [eauto | done].
  - done.
Qed.

Lemma wpr_run {X A} C (o : env S X) (p : prog S A) Q s x :
  respects C o -> wpr C p Q s ->
  match run o p s x with
  | Ok (a, s', x') => Q (Ok (a, s'))
  | Err e => Q (Err e)
  end.
Proof.
  intros Ho; revert s x; induction p as [a|q h IH|T f h IH|e]; intros s x; simpl; [done| | |done].
  - intros H. specialize (Ho s x q). destruct (o s x q) as [a x']. by apply IH, H.
  - destruct (f s) as [[b s']|]; [apply IH | done].
Qed.

(** Keeping a record of the calls changes nothing else. *)
Lemma run_recorded {X A} (o : env S X) (p : prog S A) s x l :
  match run (recorded o) p s (x, l) with
  | Ok (a, s', (x', _)) => run o p s x = Ok (a, s', x')
  | Err e => run o p s x = Err e
  end.
Proof.
  revert s x l; induction p as [a|q h IH|T f h IH|e]; intros s x l; simpl; [done| | |done].
  - unfold recorded at 1. simpl. destruct (o s x q) as [a x']. apply IH.
  - destruct (f s) as [[b s']|]; [apply IH|done].
Qed.

(** A prefix that cannot fault is handled by the rules for [wp]. *)
Lemma wpr_wp {A} C (p : prog S A) (Q : res (A * st S) -> Prop) s :
  wp C p (fun a s' => Q (Ok (a, s'))) s -> wpr C p Q s.
Proof.
  revert s; induction p as [a|q h IH|T f h IH|e]; intros s; simpl; [done|by intros H a Ha; apply IH, H| |done].
  destruct (f s) as [[b s']|]; [apply IH | done].
Qed.

Lemma wpr_mono {A} C (p : prog S A) (Q Q' : res (A * st S) -> Prop) s :
  (forall r, Q r -> Q' r) -> wpr C p Q s -> wpr C p Q' s.
Proof.
  intros HQ; revert s; induction p as [a|q h IH|T f h IH|e]; intros s; simpl;
    [by auto|by auto| |by auto].
  destruct (f s) as [[b s']|]; by auto.
Qed.

Lemma wpr_weaken {A} C C' (p : prog S A) (Q : res (A * st S) -> Prop) s :
  (forall s q a, C' s q a -> C s q a) -> wpr C p Q s -> wpr C' p Q s.
Proof.
  intros HC; revert s; induction p as [a|q h IH|T f h IH|e]; intros s; simpl; [done|naive_solver| |done].
  destruct (f s) as [[b s']|]; by auto.
Qed.

Lemma wpr_bind {A B} C (p : prog S A) (k : A -> prog S B) Q s :
  wpr C p (fun r => match r with
                    | Ok (a, s') => wpr C (k a) Q s'
                    | Err e => Q (Err e)
                    end) s ->
  wpr C (p ≫= k) Q s.
Proof.
  revert s; induction p as [a|q h IH|T f h IH|e]; intros s; simpl; [done|by intros H a Ha; apply IH, H| |done].
  destruct (f s) as [[b s']|]; [apply IH | done].
Qed.

Lemma wpr_bind_wp {A B} C (p : prog S A) (k : A -> prog S B) Q s :
  wp C p (fun a s' => wpr C (k a) Q s') s -> wpr C (p ≫= k) Q s.
Proof. intros H. by apply wpr_bind, wpr_wp. Qed.

(** A program that cannot fault after all. *)
Lemma wp_of_wpr {A} C (p : prog S A) (Q : res (A * st S) -> Prop) s :
  (forall e, ~ Q (Err e)) -> wpr C p Q s -> wp C p (fun a s' => Q (Ok (a, s'))) s.
Proof.
  intros HQ. revert s; induction p as [a|q h IH|T f h IH|e]; intros s; simpl; [done| | |apply HQ].
  - intros H a Ha. by apply IH, H.
  - destruct (f s) as [[b s']|]; [apply IH | apply HQ].
Qed.

Lemma wpr_act_err {B} C f (Q : res (B * st S) -> Prop) s e :
  f s = Err e -> Q (Err e) -> wpr C (act f) Q s.
Proof. simpl. by intros ->. Qed.

Lemma run_bind {X A B} (o : env S X) (p : prog S A) (k : A -> prog S B) s x :
  run o (p ≫= k) s x =
    match run o p s x with
    | Ok (a, s', x') => run o (k a) s' x'
    | Err e => Err e
    end.
Proof.
  revert s x; induction p as [a|q h IH|T f h IH|e]; intros s x; simpl; auto.
  - destruct (o s x q). apply IH.
  - destruct (f s) as [[b s']|]; auto. apply IH.
Qed.

End programs.

(** ** Programs over a part of the state *)

(** A program over [S] as one over [S'], whose state has a part [view] that is a
    state of [S] and whose questions include those of [S]. *)
Section lift.
Context {S S' : sig} (view : st S' -> st S) (put : st S -> st S' -> st S').
Context (inj : query S -> query S') (proj : forall q, answer S' (inj q) -> answer S q).
Context (view_put : forall t s, view (put t s) = t)
  (put_put : forall t t' s, put t (put t' s) = put t s)
  (put_view : forall s, put (view s) s = s).

Fixpoint lift {A} (p : prog S A) : prog S' A :=
  match p with
  | Ret a => Ret a
  | Ask q k => Ask (inj q) (fun a => lift (k (proj q a)))
  | Act f k => Act (fun s => '(b, t) ← f (view s); mret (b, put t s)) (fun b => lift (k b))
  | Crash e => Crash e
  end.

(** The ending of a lifted program. *)
Definition lifted {A} (s : st S') (Q : res (A * st S) -> Prop) (r : res (A * st S')) : Prop :=
  match r with
  | Ok (a, s') => exists t, s' = put t s /\ Q (Ok (a, t))
  | Err e => Q (Err e)
  end.

Lemma wpr_lift {A} (C : contract S) (C' : contract S') (p : prog S A) Q s :
  (forall s q a, C' s (inj q) a -> C (view s) q (proj q a)) ->
  wpr C p Q (view s) -> wpr C' (lift p) (lifted s Q) s.
Proof.
  intros HC. revert s. induction p as [a|q k IH|B f k IH|e]; intros s; cbn.
  - intros HQ. exists (view s). by rewrite put_view.
  - intros Hk a Ha. apply IH, Hk, HC, Ha.
  - destruct (f (view s)) as [[b t]|e] eqn:Hf; cbn; [|done]. intros Hk.
    specialize (IH b (put t s)). rewrite view_put in IH. eapply wpr_mono; [|by apply IH].
    intros [[a s']|e]; cbn; [|done]. intros (t' & -> & HQ). exists t'. by rewrite put_put.
  - done.
Qed.

End lift.

(** A function that may end the process instead of returning. *)
Inductive outcome (A : Type) : Type :=
| Return (a : A)
| Exit (status : Z).
Arguments Return {A} a.
Arguments Exit {A} status.

(** The rest of the caller, when the function returns. *)
Definition when_returned {S A B} (p : prog S (outcome A)) (k : A -> prog S (outcome B))
    : prog S (outcome B) :=
  o ← p;
  match o : outcome A with
  | Return a => k a
  | Exit status => mret (Exit status)
  end.

#[global] Arguments wp : simpl never.
#[global] Arguments wpr : simpl never.
#[global] Arguments run : simpl never.

(** The steps of a weakest-precondition proof that need no choice: sequencing
    and the primitives that cannot fail. [wp_hook] lets a component add its
    own. *)
Ltac wp_hook := fail.
Ltac wp_step :=
  cbn beta iota; lazymatch goal with
  | |- wp _ (mbind _ _) _ _ => apply wp_bind
  | |- wp _ (mret _) _ _ => apply wp_ret
  | |- wp _ (Ret _) _ _ => apply wp_ret
  | |- wp _ (get _) _ _ => apply wp_get
  | |- wp _ (modify _) _ _ => apply wp_modify
  | |- wp _ _ _ _ => wp_hook
  end; cbn beta iota zeta.
Ltac wp_steps := repeat wp_step.
