(* ===== verification/Interleave.v ===== *)
(** * Threads

    Programs that run at the same time over one state. A step is one access or
    one question of one thread; between any two steps of a thread the others may
    take any number of steps. A thread that waits for a mutex does not move. *)

From S2P Require Import Prelude.

Module Interleave.

Section interleave.
Context {S : sig} (C : contract S).

Inductive step {A} : prog S A -> st S -> prog S A -> st S -> Prop :=
| step_ask q k a s : C s q a -> step (Ask q k) s (k a) s
| step_act B (f : st S -> res (B * st S)) k s b s' :
    f s = Ok (b, s') -> step (Act f k) s (k b) s'.

(** The threads and the state they share. *)
Definition config : Type := list (prog S unit) * st S.

Inductive pool_step (i : nat) : config -> config -> Prop :=
| PoolStep ts s p p' s' :
    ts !! i = Some p -> step p s p' s' -> pool_step i (ts, s) (<[i := p']> ts, s').

(** An execution, with the thread that took each step. *)
Inductive execution (c : config) : list nat -> config -> Prop :=
| exec_start : execution c [] c
| exec_step tr c1 i c2 :
    execution c tr c1 -> pool_step i c1 c2 -> execution c (tr ++ [i]) c2.

(** One more access by the thread [i]. *)
Lemma exec_act c tr ts s i B (f : st S -> res (B * st S)) k b s' :
  execution c tr (ts, s) -> ts !! i = Some (Act f k) -> f s = Ok (b, s') ->
  execution c (tr ++ [i]) (<[i := k b]> ts, s').
Proof. intros He Hi Hf. eapply exec_step; [exact He|]. by eapply PoolStep, step_act. Qed.

(** The thread waits for a mutex; it has run to its end. *)
Definition blocked {A} (p : prog S A) (s : st S) : Prop :=
  match p with Act f _ => f s = Err Deadlock | _ => False end.
Definition returned {A} (p : prog S A) : Prop :=
  match p with Ret _ => True | _ => False end.

(** An invariant of every execution. *)
Lemma execution_invariant (I : list nat -> config -> Prop) c tr c' :
  I [] c ->
  (forall tr c1 i c2, I tr c1 -> pool_step i c1 c2 -> I (tr ++ [i]) c2) ->
  execution c tr c' -> I tr c'.
Proof. intros H0 Hs. induction 1; eauto. Qed.

(** A property of each thread that its own steps re-establish and the others'
    keep. *)
Lemma forall_threads_step (P P' : nat -> prog S unit -> Prop) (ts : list (prog S unit)) i p' :
  (forall j p, ts !! j = Some p -> P j p) -> P' i p' ->
  (forall j p, j <> i -> P j p -> P' j p) ->
  forall j p, <[i := p']> ts !! j = Some p -> P' j p.
Proof.
  intros HP Hi Hj j p Hp. apply list_lookup_insert_Some in Hp as [(<- & <- & _)|[Hne Hp]]; eauto.
Qed.

End interleave.

(** A thread moves when its access succeeds. *)
Lemma step_ok {S A} (C : contract S) (p p' : prog S A) s s' :
  step C p s p' s' ->
  match p with
  | Ask _ _ => True
  | Act f _ => exists b, f s = Ok (b, s')
  | Ret _ | Crash _ => False
  end.
Proof. intros Hst. destruct Hst; [done|by eexists]. Qed.

(** A thread can step unless it waits, has ended or faults. *)
Lemma step_progress {S A} (C : contract S) (p : prog S A) s :
  (forall q, exists a, C s q a) -> ~ blocked p s -> ~ returned p ->
  (exists p' s', step C p s p' s')
  \/ (exists e, p = Crash e)
  \/ (exists B (f : st S -> res (B * st S)) k e, p = Act f k /\ f s = Err e).
Proof.
  intros HC Hb Hr. destruct p as [a|q k|B f k|e]; [by destruct Hr| | |by eauto].
  - destruct (HC q) as [a Ha]. left. eexists _, _. by apply step_ask.
  - destruct (f s) as [[b s']|e] eqn:Hf; [|by right; right; eauto 6].
    left. eexists _, _. by apply step_act.
Qed.

(** ** Running a schedule

    The threads that are to move, one after the other, with answers from [ans]; one
    that cannot is passed over. *)
Section schedule.
Context {S : sig} (C : contract S).
Context (ans : st S -> forall q, answer S q) (Hans : forall s q, C s q (ans s q)).

Definition thread_next {A} (p : prog S A) (s : st S) : option (prog S A * st S) :=
  match p with
  | Ask q k => Some (k (ans s q), s)
  | Act f k => match f s with Ok (b, s') => Some (k b, s') | Err _ => None end
  | _ => None
  end.

Fixpoint pool_schedule (sched : list nat) (c : config) : list nat * config :=
  match sched with
  | [] => ([], c)
  | i :: sched =>
      match p ← c.1 !! i; thread_next p c.2 with
      | Some (p', s') =>
          let '(tr, c') := pool_schedule sched (<[i := p']> c.1, s') in (i :: tr, c')
      | None => pool_schedule sched c
      end
  end.

Lemma thread_next_step {A} (p p' : prog S A) s s' :
  thread_next p s = Some (p', s') -> step C p s p' s'.
Proof.
  destruct p as [a|q k|B f k|e]; cbn; [done| | |done].
  - intros [= <- <-]. by apply step_ask.
  - destruct (f s) as [[b s2]|] eqn:Hf; [|done]. intros [= <- <-]. by apply step_act.
Qed.

Lemma pool_schedule_exec sched c0 tr c tr' c' :
  execution C c0 tr c -> pool_schedule sched c = (tr', c') -> execution C c0 (tr ++ tr') c'.
Proof.
  revert tr c tr'. induction sched as [|i sched IH]; intros tr [ts s] tr' He; cbn.
  { intros [= <- <-]. by rewrite app_nil_r. }
  destruct (ts !! i) as [p|] eqn:Hp; cbn; [|by apply IH].
  destruct (thread_next p s) as [[p' s']|] eqn:Hn; [|by apply IH].
  destruct (pool_schedule sched (<[i:=p']> ts, s')) as [tr2 c2] eqn:Hs. intros [= <- <-].
  rewrite cons_middle, app_assoc. eapply IH; [|exact Hs].
  eapply exec_step; [exact He|]. eapply PoolStep; [exact Hp|]. by apply thread_next_step.
Qed.

End schedule.

(** ** One thread between the steps of others *)

Section interference.
Context {S : sig} (C : contract S).

(** [wp] with a relation [R] on the states before and after every access: what
    the others may count on while the program runs. *)
Fixpoint wps {A} (R : st S -> st S -> Prop) (p : prog S A) (Q : A -> st S -> Prop)
    (s : st S) : Prop :=
  match p with
  | Ret a => Q a s
  | Ask q k => forall a, C s q a -> wps R (k a) Q s
  | Act f k =>
      match f s with
      | Ok (b, s') => R s s' /\ wps R (k b) Q s'
      | Err _ => False
      end
  | Crash _ => False
  end.

(** The program only reads, and only what [J] says of the state: its results
    are the same in every state of [J], and may come from different ones. *)
Fixpoint reads {A} (J : st S -> Prop) (p : prog S A) (Q : A -> Prop) : Prop :=
  match p with
  | Ret a => Q a
  | Ask q k => forall s a, J s -> C s q a -> reads J (k a) Q
  | Act f k => exists b, (forall s, J s -> f s = Ok (b, s)) /\ reads J (k b) Q
  | Crash _ => False
  end.

(** The program neither sees nor changes what [g] changes. *)
Fixpoint ignores {A} (g : st S -> st S) (p : prog S A) : Prop :=
  match p with
  | Ret _ | Crash _ => True
  | Ask _ k => forall a, ignores g (k a)
  | Act f k =>
      (forall s b s', f s = Ok (b, s') -> f (g s) = Ok (b, g s'))
      /\ forall b, ignores g (k b)
  end.

Lemma wps_bind {A B} R (p : prog S A) (k : A -> prog S B) Q s :
  wps R p (fun a s' => wps R (k a) Q s') s -> wps R (p ≫= k) Q s.
Proof.
  revert s; induction p as [a|q h IH|T f h IH|e]; intros s; simpl; [auto|eauto| |done].
  destruct (f s) as [[b s']|]; [intros []; eauto | done].
Qed.

Lemma wps_mono {A} R (p : prog S A) (Q Q' : A -> st S -> Prop) s :
  (forall a s', Q a s' -> Q' a s') -> wps R p Q s -> wps R p Q' s.
Proof.
  intros HQ; revert s; induction p as [a|q h IH|T f h IH|e]; intros s; simpl; [auto|naive_solver| |done].
  destruct (f s) as [[b s']|]; naive_solver.
Qed.

Lemma wps_weaken {A} (R R' : st S -> st S -> Prop) (p : prog S A) Q s :
  (forall s s', R s s' -> R' s s') -> wps R p Q s -> wps R' p Q s.
Proof.
  intros HR; revert s; induction p as [a|q h IH|T f h IH|e]; intros s; simpl; [auto|eauto| |done].
  destruct (f s) as [[b s']|]; [intros []; eauto | done].
Qed.

Lemma wp_Ask {A} q (k : answer S q -> prog S A) Q s :
  wp C (Ask q k) Q s <-> forall a, C s q a -> wp C (k a) Q s.
Proof. done. Qed.

Lemma wp_Act {A B} (f : st S -> res (B * st S)) (k : B -> prog S A) Q s :
  wp C (Act f k) Q s <->
    match f s with Ok (b, s') => wp C (k b) Q s' | Err _ => False end.
Proof. done. Qed.

Lemma wps_wp {A} R (p : prog S A) Q s : wps R p Q s -> wp C p Q s.
Proof.
  revert s; induction p as [a|q h IH|T f h IH|e]; intros s; [done|rewrite wp_Ask; by eauto| |done].
  rewrite wp_Act. cbn. destruct (f s) as [[b s']|]; [intros []; by eauto|done].
Qed.

Lemma wps_keeps {A B} (v : st S -> B) (p : prog S A) Q s :
  keeps v p -> wp C p Q s -> wps (fun s s' => v s' = v s) p Q s.
Proof.
  revert s; induction p as [a|q h IH|T f h IH|e]; intros s; [done| |rewrite wp_Act|done]; cbn.
  { intros Hk Hw a Ha. by apply IH, Hw. }
  intros [Hf Hk]. destruct (f s) as [[b s']|] eqn:He; [|done]. intros H. by eauto.
Qed.

Lemma wps_act_inv {A B} R (f : st S -> res (B * st S)) (k : B -> prog S A) Q s :
  wps R (Act f k) Q s -> exists b s', f s = Ok (b, s') /\ R s s' /\ wps R (k b) Q s'.
Proof. cbn. destruct (f s) as [[b s']|]; [intros []; eauto|done]. Qed.

Lemma wps_ret {A} R (a : A) (Q : A -> st S -> Prop) s : Q a s -> wps R (mret a) Q s.
Proof. done. Qed.

Lemma wps_ask R q (Q : answer S q -> st S -> Prop) s :
  (forall a, C s q a -> Q a s) -> wps R (ask q) Q s.
Proof. done. Qed.

Lemma wps_act {B} R f (Q : B -> st S -> Prop) s b s' :
  f s = Ok (b, s') -> R s s' -> Q b s' -> wps R (act f) Q s.
Proof. simpl. by intros ->. Qed.

Lemma reads_bind {A B} J (p : prog S A) (k : A -> prog S B) Q :
  reads J p (fun a => reads J (k a) Q) -> reads J (p ≫= k) Q.
Proof. induction p as [a|q h IH|T f h IH|e]; simpl; naive_solver. Qed.

Lemma reads_ask J q (Q : answer S q -> Prop) :
  (forall s a, J s -> C s q a -> Q a) -> reads J (ask q) Q.
Proof. done. Qed.

Lemma reads_act {B} J (f : st S -> res (B * st S)) b (Q : B -> Prop) :
  (forall s, J s -> f s = Ok (b, s)) -> Q b -> reads J (act f) Q.
Proof. intros. exists b. by split. Qed.

Lemma reads_ret {A} J (a : A) (Q : A -> Prop) : Q a -> reads J (mret a) Q.
Proof. done. Qed.

Lemma reads_of_res {A} J (r : res A) a (Q : A -> Prop) : r = Ok a -> Q a -> reads J (of_res r) Q.
Proof. by intros ->. Qed.

Lemma reads_wp {A} J (p : prog S A) Q s :
  J s -> reads J p Q -> wp C p (fun a s' => Q a /\ s' = s) s.
Proof.
  intros HJ. induction p as [a|q h IH|T f h IH|e]; [done| |rewrite wp_Act|done]; cbn.
  { intros Hk a Ha. eapply IH, Hk; eauto. }
  intros (b & Hf & Hk). rewrite (Hf s HJ). by apply IH.
Qed.

Lemma ignores_bind {A B} g (p : prog S A) (k : A -> prog S B) :
  ignores g p -> (forall a, ignores g (k a)) -> ignores g (p ≫= k).
Proof. intros Hp Hk. revert Hp. induction p; simpl; naive_solver. Qed.

End interference.

#[global] Arguments wps : simpl never.
#[global] Arguments reads : simpl never.

End Interleave.
