(* ===== verification/CircularBuffer.v ===== *)
(** * The circular buffer of write operations

    [aesd-char-driver/aesd-circular-buffer.c] and [.h]: ten slots, the entry
    written last overwriting the oldest once the buffer is full. A buffer
    represents the queue of its live entries, oldest first ([cb_rep]); the
    theorems say what the operations do to that queue. *)

From S2P Require Import Prelude.

Module CircularBuffer.

(** ** Data *)

Definition AESDCHAR_MAX_WRITE_OPERATIONS_SUPPORTED : Z := 10.
Abbreviation MAX_OPS := AESDCHAR_MAX_WRITE_OPERATIONS_SUPPORTED.

(** [struct aesd_buffer_entry]: the pointer is the address of the block the
    data is in, [NULL] is 0. *)
Record aesd_buffer_entry : Type := Entry {
  buffptr : Z;
  esize : Z
}.

(** [struct aesd_circular_buffer]. *)
Record aesd_circular_buffer : Type := CBuffer {
  entry : list aesd_buffer_entry;
  in_offs : Z;
  out_offs : Z;
  full : bool
}.

#[export] Instance entry_eq_dec : EqDecision aesd_buffer_entry.
Proof. solve_decision. Defined.
#[export] Instance cbuffer_eq_dec : EqDecision aesd_circular_buffer.
Proof. solve_decision. Defined.

(** An entry [memset] to zero. *)
Definition null_entry : aesd_buffer_entry := Entry 0 0.

(** ** Operations *)

(** The modular increment both functions apply to an index. *)
Definition next_index (i : Z) : Z := u8 ((i + 1) `rem` MAX_OPS).

(** The [do ... while] loop of the search, from slot [i] with the running sum
    [search_offset]. The result is the slot found and the byte inside it. *)
Fixpoint find_loop (fuel : nat) (buffer : aesd_circular_buffer)
    (char_offset search_offset i : Z) : res (option (Z * Z)) :=
  match fuel with
  | O => Err OutOfFuel
  | S fuel =>
      e ← arr_get (entry buffer) i;
      let search_offset := u64 (search_offset + esize e) in
      if search_offset >? char_offset then
        let search_offset := u64 (search_offset - esize e) in
        Ok (Some (i, u64 (char_offset - search_offset)))
      else
        let i := next_index i in
        if i =? out_offs buffer then Ok None
        else find_loop fuel buffer char_offset search_offset i
  end.

(** At most ten iterations are needed: see [find_locates]. *)
Definition aesd_circular_buffer_find_entry_offset_for_fpos
    (buffer : aesd_circular_buffer) (char_offset : Z) : res (option (Z * Z)) :=
  find_loop (Z.to_nat MAX_OPS) buffer char_offset 0 (out_offs buffer).

(** The result is the data pointer of the entry overwritten, or [NULL]. *)
Definition aesd_circular_buffer_add_entry (buffer : aesd_circular_buffer)
    (new : aesd_buffer_entry) : res (Z * aesd_circular_buffer) :=
  '(result, out) ←
    (if full buffer then
       old ← arr_get (entry buffer) (out_offs buffer);
       Ok (buffptr old, next_index (out_offs buffer))
     else Ok (0, out_offs buffer));
  entries ← arr_set (entry buffer) (in_offs buffer) new;
  let in_ := next_index (in_offs buffer) in
  let full_ := if in_ =? out then true else full buffer in
  Ok (result, CBuffer entries in_ out full_).

(** [memset] of the whole structure to zero. *)
Definition aesd_circular_buffer_init : aesd_circular_buffer :=
  CBuffer (replicate (Z.to_nat MAX_OPS) null_entry) 0 0 false.

(** [AESD_CIRCULAR_BUFFER_FOREACH]: [rd] is the access path of the buffer the
    macro is given, read again in every iteration. *)
Fixpoint AESD_CIRCULAR_BUFFER_FOREACH {S} (fuel : nat)
    (rd : prog S aesd_circular_buffer)
    (body : aesd_buffer_entry -> prog S unit) (index : Z) : prog S unit :=
  if index <? MAX_OPS then
    match fuel with
    | O => Crash OutOfFuel
    | S fuel =>
        b ← rd;
        e ← of_res (arr_get (entry b) index);
        body e;;
        AESD_CIRCULAR_BUFFER_FOREACH fuel rd body (index + 1)
    end
  else Ret tt.

(** A sequence of insertions, with the pointers handed back. *)
Fixpoint add_entries (buffer : aesd_circular_buffer)
    (es : list aesd_buffer_entry) : res (list Z * aesd_circular_buffer) :=
  match es with
  | [] => Ok ([], buffer)
  | e :: es =>
      '(p, buffer) ← aesd_circular_buffer_add_entry buffer e;
      '(ps, buffer) ← add_entries buffer es;
      Ok (p :: ps, buffer)
  end.

(** ** Abstract specification: a queue of at most ten entries *)

Definition capacity : nat := Z.to_nat MAX_OPS.

Definition push (cs : list aesd_buffer_entry) (e : aesd_buffer_entry)
    : list aesd_buffer_entry := lastn capacity (cs ++ [e]).

(** The entry of the queue that holds byte [off] of all the data put end to
    end, and the byte inside it. *)
Fixpoint locate (cs : list aesd_buffer_entry) (off : Z) : option (nat * Z) :=
  match cs with
  | [] => None
  | e :: cs =>
      if off <? esize e then Some (0%nat, off)
      else prod_map S id <$> locate cs (off - esize e)
  end.

Fixpoint total (cs : list aesd_buffer_entry) : Z :=
  match cs with [] => 0 | e :: cs => esize e + total cs end.

(** The live entries, oldest first. *)
Definition contents (b : aesd_circular_buffer) : list aesd_buffer_entry :=
  let n := if full b then MAX_OPS else (in_offs b - out_offs b) `mod` MAX_OPS in
  take (Z.to_nat n) (rotate (Z.to_nat (out_offs b)) (entry b)).

(** [b] represents the queue [cs]: slots from [out_offs] on hold [cs] in order,
    the other slots are still zero, [in_offs] is the slot after the newest
    entry and [full] tells a full buffer from an empty one. *)
Record cb_rep (b : aesd_circular_buffer) (cs : list aesd_buffer_entry) : Prop := CbRep {
  rep_cap : (length cs <= capacity)%nat;
  rep_out : 0 <= out_offs b < MAX_OPS;
  rep_in : in_offs b = (out_offs b + Z.of_nat (length cs)) `mod` MAX_OPS;
  rep_full : full b = bool_decide (length cs = capacity);
  rep_arr : rotate (Z.to_nat (out_offs b)) (entry b)
            = cs ++ replicate (capacity - length cs) null_entry;
  rep_size : Forall (fun e => 0 <= esize e) cs
}.

(** ** Lemmas *)

Lemma next_index_mod i : 0 <= i < MAX_OPS -> next_index i = (i + 1) `mod` MAX_OPS.
Proof.
  unfold next_index, MAX_OPS. intros Hi.
  rewrite Z.rem_mod_nonneg by lia. apply u8_small.
  pose proof (Z.mod_pos_bound (i + 1) 10). lia.
Qed.

Lemma next_index_range i : 0 <= i < MAX_OPS -> 0 <= next_index i < MAX_OPS.
Proof. intros. rewrite next_index_mod by done. by apply Z.mod_pos_bound. Qed.

Lemma total_nonneg cs : Forall (fun e => 0 <= esize e) cs -> 0 <= total cs.
Proof. induction 1; simpl; lia. Qed.

Lemma total_app cs ds : total (cs ++ ds) = total cs + total ds.
Proof. induction cs; simpl; lia. Qed.

Lemma total_null n : total (replicate n null_entry) = 0.
Proof. induction n; simpl; lia. Qed.

(** [locate] finds exactly the split of the offset over the entries. *)
Lemma locate_Some cs off j k :
  0 <= off -> Forall (fun e => 0 <= esize e) cs ->
  locate cs off = Some (j, k) <->
  exists e, cs !! j = Some e /\ 0 <= k < esize e /\ total (take j cs) + k = off.
Proof.
  intros Hoff Hcs. revert off j Hoff.
  induction Hcs as [|e cs He Hcs IH]; intros off j Hoff; simpl.
  { split; [done|]. intros (e & He & _). by rewrite lookup_nil in He. }
  destruct (Z.ltb_spec off (esize e)).
  - split.
    + intros [= <- <-]. exists e. simpl. auto with lia.
    + intros (e' & He' & Hk & Hs). destruct j as [|j]; simpl in *.
      * injection He' as <-. f_equal. f_equal. lia.
      * pose proof (total_nonneg (take j cs) ltac:(by apply Forall_take)). lia.
  - destruct j as [|j].
    + split.
      * destruct (locate cs _) as [[]|]; simpl; [|done]. intros [=].
      * intros (e' & He' & Hk & Hs). simpl in *. injection He' as <-. lia.
    + simpl. rewrite <- (Z.add_assoc (esize e)).
      transitivity (locate cs (off - esize e) = Some (j, k)).
      * destruct (locate cs _) as [[]|]; simpl; split; congruence.
      * rewrite IH by lia. split; intros (e' & ? & ? & ?); exists e'; auto with lia.
Qed.

Lemma locate_None cs off :
  0 <= off -> Forall (fun e => 0 <= esize e) cs ->
  locate cs off = None <-> total cs <= off.
Proof.
  intros Hoff Hcs. revert off Hoff.
  induction Hcs as [|e cs He Hcs IH]; intros off Hoff; simpl; [done|].
  pose proof (total_nonneg cs Hcs). destruct (Z.ltb_spec off (esize e)).
  - split; [done | lia].
  - rewrite fmap_None, IH by lia. lia.
Qed.

Lemma locate_app_null cs n off :
  0 <= off -> Forall (fun e => 0 <= esize e) cs ->
  locate (cs ++ replicate n null_entry) off = locate cs off.
Proof.
  intros Hoff Hcs. revert off Hoff.
  induction Hcs as [|e cs He Hcs IH]; intros off Hoff; simpl.
  - induction n as [|n IHn]; simpl; [done|].
    destruct (Z.ltb_spec off 0); [lia|]. by rewrite Z.sub_0_r, IHn.
  - destruct (Z.ltb_spec off (esize e)); [done|]. by rewrite IH by lia.
Qed.

Lemma rep_len b cs : cb_rep b cs -> length (entry b) = capacity.
Proof.
  intros [Hc _ _ _ Ha _]. apply (f_equal length) in Ha.
  rewrite length_rotate, length_app, length_replicate in Ha. lia.
Qed.

(** The slot [j] places after [out_offs]. *)
Definition slot (b : aesd_circular_buffer) (j : nat) : Z :=
  (out_offs b + Z.of_nat j) `mod` MAX_OPS.

Lemma slot_lookup b cs j :
  cb_rep b cs -> (j < capacity)%nat ->
  arr_get (entry b) (slot b j)
    = match (cs ++ replicate (capacity - length cs) null_entry) !! j with
      | Some e => Ok e | None => Err OutOfBounds end.
Proof.
  intros Hr Hj. pose proof (rep_len b cs Hr) as Hl. destruct Hr as [_ Ho _ _ Ha _].
  rewrite <- Ha, lookup_rotate_r by lia. unfold rotate_nat_add, slot.
  rewrite Hl, Z2Nat.id by lia. unfold arr_get, capacity, MAX_OPS in *.
  rewrite decide_True by (pose proof (Z.mod_pos_bound (out_offs b + Z.of_nat j) 10); lia).
  by rewrite Z2Nat.id by lia.
Qed.

Lemma slot_next b j :
  0 <= out_offs b < MAX_OPS -> (j < capacity)%nat -> next_index (slot b j) = slot b (S j).
Proof.
  intros Ho Hj. unfold slot. rewrite next_index_mod by (by apply Z.mod_pos_bound).
  rewrite Zplus_mod_idemp_l. f_equal. lia.
Qed.

Lemma slot_0 b : 0 <= out_offs b < MAX_OPS -> slot b 0 = out_offs b.
Proof. intros. unfold slot. rewrite Z.add_0_r. by apply Z.mod_small. Qed.

Lemma slot_ne b j :
  0 <= out_offs b < MAX_OPS -> (0 < j < capacity)%nat -> slot b j <> out_offs b.
Proof.
  unfold slot, capacity, MAX_OPS. intros Ho Hj Heq.
  pose proof (Z.div_mod (out_offs b + Z.of_nat j) 10). lia.
Qed.

Lemma find_loop_locate b cs off (l : list aesd_buffer_entry) :
  cb_rep b cs -> 0 <= off < 2 ^ 64 -> l <> [] ->
  forall j fuel so,
  drop j (cs ++ replicate (capacity - length cs) null_entry) = l ->
  (length l <= fuel)%nat ->
  0 <= so <= off -> so + total l < 2 ^ 64 ->
  find_loop fuel b off so (slot b j)
    = Ok (prod_map (fun k => slot b (j + k)) id <$> locate l (off - so)).
Proof.
  intros Hr Hoff. pose proof (rep_out b cs Hr) as Ho.
  set (L := cs ++ _).
  assert (length L = capacity) as HL.
  { unfold L. rewrite length_app, length_replicate. pose proof (rep_cap b cs Hr). lia. }
  assert (Forall (fun e => 0 <= esize e) L) as HF.
  { apply Forall_app; split; [apply Hr | by apply Forall_replicate]. }
  induction l as [|e l IH]; [done|]. intros _ j fuel so Hd Hf Hso Ht.
  destruct fuel as [|fuel]; [simpl in Hf; lia|].
  assert (L !! j = Some e) as Hj.
  { rewrite <- (Nat.add_0_r j), <- lookup_drop, Hd. done. }
  assert (j < capacity)%nat as Hjc by (apply lookup_lt_Some in Hj; lia).
  assert (drop (S j) L = l) as Hd'.
  { replace (S j) with (j + 1)%nat by lia. by rewrite <- drop_drop, Hd. }
  assert (0 <= esize e) as He by (by eapply Forall_lookup_1 in HF).
  assert (0 <= total l) as Htl.
  { apply total_nonneg. rewrite <- Hd'. by apply Forall_drop. }
  simpl in Ht. simpl find_loop. rewrite (slot_lookup b cs) by done. fold L.
  rewrite Hj. simpl. rewrite u64_small by lia. rewrite Z.gtb_ltb.
  destruct (Z.ltb_spec off (so + esize e)).
  - rewrite !u64_small by (rewrite ?u64_small; lia).
    destruct (Z.ltb_spec (off - so) (esize e)); [simpl | lia].
    rewrite Nat.add_0_r. unfold id. do 4 f_equal. lia.
  - destruct (Z.ltb_spec (off - so) (esize e)); [lia|].
    rewrite slot_next by done. destruct l as [|e' l].
    + simpl. assert (S j = capacity) as ->.
      { apply (f_equal length) in Hd'. rewrite length_drop in Hd'. simpl in Hd'. lia. }
      unfold slot, capacity. rewrite Z2Nat.id by (unfold MAX_OPS; lia).
      rewrite Z.add_mod, Z.mod_same, Z.add_0_r, Z.mod_mod, Z.mod_small by lia.
      by rewrite Z.eqb_refl.
    + assert (S j < capacity)%nat as Hsj.
      { apply (f_equal length) in Hd'. rewrite length_drop in Hd'. simpl in Hd'. lia. }
      rewrite (proj2 (Z.eqb_neq _ _)) by (apply slot_ne; lia).
      rewrite IH by (done || simpl in *; lia).
      replace (off - (so + esize e)) with (off - so - esize e) by lia.
      destruct (locate _ _) as [[k o]|]; simpl; [|done].
      do 4 f_equal. lia.
Qed.

(** The whole search. *)
Lemma find_locates b cs off :
  cb_rep b cs -> total cs < 2 ^ 64 -> 0 <= off < 2 ^ 64 ->
  aesd_circular_buffer_find_entry_offset_for_fpos b off
    = Ok (prod_map (slot b) id <$> locate cs off).
Proof.
  intros Hr Ht Hoff. pose proof (rep_cap b cs Hr) as Hc.
  unfold aesd_circular_buffer_find_entry_offset_for_fpos.
  rewrite <- (slot_0 b) at 1 by apply Hr.
  rewrite (find_loop_locate b cs off (cs ++ replicate (capacity - length cs) null_entry)).
  - rewrite Z.sub_0_r, locate_app_null by (apply Hr || lia). done.
  - done.
  - done.
  - intros Hn. apply (f_equal length) in Hn.
    rewrite length_app, length_replicate in Hn. unfold capacity, MAX_OPS in *. simpl in Hn. lia.
  - done.
  - rewrite length_app, length_replicate. fold capacity. lia.
  - lia.
  - rewrite total_app, total_null. lia.
Qed.

(** ** Theorems *)

(** C11: on a buffer that represents the queue [cs], the search returns the slot
    and the byte inside it that hold byte [off] of the queued data put end to
    end, and nothing when the data ends before; it needs at most ten iterations
    and stays inside the array. *)
Theorem find_refines b cs off :
  cb_rep b cs -> total cs < 2 ^ 64 -> 0 <= off < 2 ^ 64 ->
  aesd_circular_buffer_find_entry_offset_for_fpos b off
    = Ok (prod_map (slot b) id <$> locate cs off).
Proof. apply find_locates. Qed.

Lemma init_rep : cb_rep aesd_circular_buffer_init [].
Proof. by split; simpl; auto with lia. Qed.

Lemma add_entry_full b cs c e :
  cb_rep b (c :: cs) -> length (c :: cs) = capacity -> 0 <= esize e ->
  exists b', aesd_circular_buffer_add_entry b e = Ok (buffptr c, b')
    /\ cb_rep b' (cs ++ [e]).
Proof.
  intros Hr Hfull He. pose proof (rep_len b _ Hr) as Hl.
  pose proof (slot_lookup b _ 0 Hr ltac:(unfold capacity, MAX_OPS; lia)) as Hget.
  destruct Hr as [Hc Ho Hi Hf Ha Hs]. rewrite slot_0 in Hget by done.
  pose proof (next_index_range _ Ho) as Hn.
  assert (forall z, 0 <= z < MAX_OPS -> (z + Z.of_nat capacity) `mod` MAX_OPS = z) as Hwrap.
  { unfold capacity, MAX_OPS. intros z Hz. rewrite Z2Nat.id by done.
    rewrite Z.add_mod, Z.mod_same, Z.add_0_r, Z.mod_mod, Z.mod_small by done. done. }
  assert (in_offs b = out_offs b) as Hio by (rewrite Hi, Hfull; auto).
  unfold aesd_circular_buffer_add_entry.
  rewrite Hf, bool_decide_true, Hget, Hio by done. simpl.
  unfold arr_set. rewrite decide_True by (unfold capacity, MAX_OPS in *; lia).
  simpl. rewrite Z.eqb_refl. eexists; split; [done|].
  assert (length (cs ++ [e]) = capacity) as Hl' by (rewrite length_app; simpl in *; lia).
  split; simpl.
  - lia.
  - done.
  - by rewrite Hl', Hwrap.
  - by rewrite bool_decide_true.
  - rewrite Hl', Nat.sub_diag, app_nil_r, next_index_mod by done.
    rewrite Z2Nat.inj_mod by (unfold MAX_OPS in *; lia). fold capacity.
    rewrite <- Hl. erewrite <- (length_insert (entry b)), rotate_mod.
    replace (Z.to_nat (out_offs b + 1)) with (S (Z.to_nat (out_offs b))) by lia.
    rewrite rotate_next by (unfold capacity, MAX_OPS in *; lia).
    rewrite Ha, Hfull, Nat.sub_diag. simpl. by rewrite app_nil_r.
  - inversion Hs; subst. apply Forall_app; auto.
Qed.

Lemma add_entry_room b cs e :
  cb_rep b cs -> (length cs < capacity)%nat -> 0 <= esize e ->
  exists b', aesd_circular_buffer_add_entry b e = Ok (0, b')
    /\ cb_rep b' (cs ++ [e]).
Proof.
  intros Hr Hroom He. pose proof (rep_len b cs Hr) as Hl.
  pose proof Hr as [Hc Ho Hi Hf Ha Hs].
  assert (in_offs b = slot b (length cs)) as Hin by done.
  assert (0 <= in_offs b < MAX_OPS) as Hib by (rewrite Hi; by apply Z.mod_pos_bound).
  unfold aesd_circular_buffer_add_entry.
  rewrite Hf, bool_decide_false by lia. simpl.
  unfold arr_set. rewrite decide_True by (unfold capacity in *; lia). simpl.
  eexists; split; [done|].
  assert (length (cs ++ [e]) = S (length cs)) as Hl' by (rewrite length_app; simpl; lia).
  rewrite Hin, slot_next by done.
  split; simpl.
  - lia.
  - done.
  - by rewrite Hl'.
  - rewrite Hl'. destruct (decide (S (length cs) = capacity)) as [Hlast|Hlast].
    + rewrite Hlast, bool_decide_true by done. unfold slot, capacity.
      rewrite Z2Nat.id by done.
      rewrite Z.add_mod, Z.mod_same, Z.add_0_r, Z.mod_mod, Z.mod_small by done.
      by rewrite Z.eqb_refl.
    + rewrite bool_decide_false by done.
      by rewrite (proj2 (Z.eqb_neq _ _)) by (apply slot_ne; [done | lia]).
  - rewrite Hl'. replace (Z.to_nat (slot b (length cs)))
      with (rotate_nat_add (Z.to_nat (out_offs b)) (length cs) (length (entry b))).
    + rewrite rotate_insert_l, Ha by lia.
      replace (capacity - length cs)%nat with (S (capacity - S (length cs))) by lia.
      rewrite <- (Nat.add_0_r (length cs)) at 1. rewrite insert_app_r. simpl.
      by rewrite <- app_assoc.
    + unfold rotate_nat_add, slot. rewrite Hl, Z2Nat.id by lia. done.
  - apply Forall_app; auto.
Qed.

Lemma add_entry_push b cs e :
  cb_rep b cs -> 0 <= esize e ->
  exists b', aesd_circular_buffer_add_entry b e
    = Ok (if decide (length cs = capacity) then default 0 (buffptr <$> head cs) else 0, b')
    /\ cb_rep b' (push cs e).
Proof.
  intros Hr He. unfold push. pose proof (rep_cap b cs Hr).
  destruct (decide (length cs = capacity)) as [Hfull|].
  - rewrite lastn_app_full by (done || unfold capacity, MAX_OPS; lia).
    destruct cs as [|c cs]; [done|]. by eapply add_entry_full.
  - rewrite lastn_all by (rewrite length_app; simpl; lia).
    apply add_entry_room; [done | lia | done].
Qed.

(** C21: an insertion appends to the queue and keeps its last ten entries; it
    returns the data pointer of the entry dropped, and [NULL] as long as the
    queue had room. *)
Theorem add_entry_refines b cs e :
  cb_rep b cs -> 0 <= esize e ->
  exists b', aesd_circular_buffer_add_entry b e
    = Ok (if decide (length cs = capacity) then default 0 (buffptr <$> head cs) else 0, b')
    /\ cb_rep b' (push cs e).
Proof. apply add_entry_push. Qed.

Lemma contents_rep b cs : cb_rep b cs -> contents b = cs.
Proof.
  intros [Hc Ho Hi Hf Ha Hs]. unfold contents. rewrite Ha, Hf, Hi.
  unfold capacity, MAX_OPS in *.
  replace (Z.to_nat _) with (length cs); [by rewrite take_app_length|].
  destruct (decide (length cs = Z.to_nat 10)) as [He|Hne].
  - rewrite bool_decide_true by done. done.
  - rewrite bool_decide_false by done. rewrite Zminus_mod_idemp_l.
    replace (out_offs b + Z.of_nat (length cs) - out_offs b) with (Z.of_nat (length cs)) by lia.
    rewrite Z.mod_small by lia. lia.
Qed.

(** The pointers handed back by a sequence of insertions. *)
Definition displaced (n : nat) (cs : list aesd_buffer_entry) : list Z :=
  let d := (length cs - capacity)%nat in
  replicate (n - d) 0 ++ take d (buffptr <$> cs).

Lemma displaced_cons cs e es :
  (length cs <= capacity)%nat ->
  (if decide (length cs = capacity) then default 0 (buffptr <$> head cs) else 0)
    :: displaced (length es) (push cs e ++ es)
  = displaced (S (length es)) (cs ++ e :: es).
Proof.
  intros Hc. unfold displaced, push. destruct (decide _) as [Hfull|].
  - rewrite lastn_app_full by (done || unfold capacity, MAX_OPS; lia).
    destruct cs as [|c cs]; [done|]. rewrite <- app_assoc, !length_app.
    rewrite <- Hfull. cbn [tail app length].
    replace (S (length cs) + S (length es) - S (length cs))%nat with (S (length es)) by lia.
    replace (length cs + (1 + length es) - S (length cs))%nat with (length es) by lia.
    by rewrite !Nat.sub_diag.
  - rewrite lastn_all by (rewrite length_app; simpl; lia).
    rewrite <- app_assoc, !length_app. cbn [app length].
    by replace (S (length es) - (length cs + S (length es) - capacity))%nat
      with (S (length es - (length cs + S (length es) - capacity))) by lia.
Qed.

(** C20: after any sequence of insertions the buffer holds the last ten entries
    ever queued, in order, and the pointers returned are exactly those of the
    entries no longer held, oldest first: none is lost and none is returned
    twice. *)
Theorem add_entries_history b cs es :
  cb_rep b cs -> Forall (fun e => 0 <= esize e) es ->
  exists b', add_entries b es = Ok (displaced (length es) (cs ++ es), b')
    /\ cb_rep b' (lastn capacity (cs ++ es)).
Proof.
  intros Hr Hes. revert b cs Hr. induction Hes as [|e es He Hes IH]; intros b cs Hr.
  - rewrite app_nil_r. exists b. pose proof (rep_cap b cs Hr). unfold displaced.
    replace (length cs - capacity)%nat with 0%nat by lia.
    by rewrite lastn_all.
  - destruct (add_entry_push b cs e Hr He) as (b1 & H1 & Hr1).
    destruct (IH b1 _ Hr1) as (b2 & H2 & Hr2). exists b2.
    simpl. rewrite H1. simpl. rewrite H2. simpl. unfold push in *.
    pose proof (rep_cap b cs Hr).
    rewrite <- (displaced_cons cs e es) by done. split; [done|].
    by rewrite lastn_app_r, <- app_assoc in Hr2.
Qed.

(** The types of the fields: ten slots and offsets of slots. *)
Definition well_typed (b : aesd_circular_buffer) : Prop :=
  length (entry b) = capacity /\ 0 <= in_offs b < MAX_OPS /\ 0 <= out_offs b < MAX_OPS.

Lemma arr_get_slot b i :
  well_typed b -> 0 <= i < MAX_OPS -> exists e, arr_get (entry b) i = Ok e.
Proof.
  intros (Hl & _) Hi. unfold arr_get. rewrite decide_True by lia.
  destruct (lookup_lt_is_Some_2 (entry b) (Z.to_nat i)) as [e ->]; [|by exists e].
  unfold capacity, MAX_OPS in *. lia.
Qed.

Lemma find_loop_ends b off j fuel so :
  well_typed b -> (j < capacity)%nat -> (capacity - j <= fuel)%nat ->
  exists r, find_loop fuel b off so (slot b j) = Ok r
    /\ forall i k, r = Some (i, k) -> 0 <= i < MAX_OPS /\ 0 <= k < 2 ^ 64.
Proof.
  intros Ht. pose proof Ht as (_ & _ & Ho).
  revert j so. induction fuel as [|fuel IH]; intros j so Hj Hf; [lia|].
  cbn [find_loop].
  assert (0 <= slot b j < MAX_OPS) as Hs by by apply Z.mod_pos_bound.
  destruct (arr_get_slot b (slot b j) Ht Hs) as [e ->]. cbn [mbind res_bind].
  destruct (_ >? off).
  { eexists. split; [done|]. intros i k [= <- <-]. split; [done|].
    by apply to_unsigned_range. }
  rewrite slot_next by done. destruct (slot b (S j) =? out_offs b) eqn:He; [by eexists|].
  apply IH; [|lia]. destruct (decide (S j = capacity)) as [Hc|]; [|lia].
  apply Z.eqb_neq in He. destruct He. unfold slot. rewrite Hc. unfold capacity.
  rewrite Z2Nat.id by done. rewrite <- (Z.mod_small (out_offs b) MAX_OPS) at 2 by done.
  rewrite <- Zplus_mod_idemp_r, Z.mod_same by done. by rewrite Z.add_0_r.
Qed.

(** C31: on every well-typed buffer, whatever its slots and flag say, the search
    ends within ten iterations without leaving the array and gives a slot and an
    offset in the range of their types, and an insertion stays in the array and
    leaves a well-typed buffer; initialisation makes one. *)
Theorem buffer_well_typed b e off :
  well_typed b ->
  well_typed aesd_circular_buffer_init
  /\ (exists r, aesd_circular_buffer_find_entry_offset_for_fpos b off = Ok r
        /\ forall i k, r = Some (i, k) -> 0 <= i < MAX_OPS /\ 0 <= k < 2 ^ 64)
  /\ exists p b', aesd_circular_buffer_add_entry b e = Ok (p, b') /\ well_typed b'.
Proof.
  intros Ht. pose proof Ht as (Hl & Hi & Ho). split; [done|]. split.
  - unfold aesd_circular_buffer_find_entry_offset_for_fpos.
    pose proof (find_loop_ends b off 0 capacity 0 Ht) as Hf. rewrite slot_0 in Hf by done.
    apply Hf; [by apply Nat.ltb_lt|lia].
  - assert (exists q out, (if full b then
        old ← arr_get (entry b) (out_offs b); Ok (buffptr old, next_index (out_offs b))
      else Ok (0, out_offs b)) = Ok (q, out) /\ 0 <= out < MAX_OPS) as (q & out & Hq & Hout).
    { destruct (full b); [|by eexists _, _].
      destruct (arr_get_slot b _ Ht Ho) as [old ->]. eexists _, _. split; [done|].
      by apply next_index_range. }
    unfold aesd_circular_buffer_add_entry. rewrite Hq. cbn [mbind res_bind].
    unfold arr_set. rewrite decide_True by (unfold capacity, MAX_OPS in *; lia).
    cbn [mbind res_bind]. eexists _, _. split; [done|]. unfold well_typed. cbn.
    rewrite length_insert. split; [done|]. split; [by apply next_index_range|done].
Qed.

(** ** Witnesses *)

(** A well-typed buffer that no sequence of insertions gives. *)
Definition odd_buffer : aesd_circular_buffer :=
  CBuffer (replicate 10 (Entry 5 (2 ^ 63))) 3 7 true.

Lemma buffer_well_typed_witness :
  well_typed aesd_circular_buffer_init
  /\ (exists r, aesd_circular_buffer_find_entry_offset_for_fpos odd_buffer (2 ^ 64 - 1) = Ok r
        /\ forall i k, r = Some (i, k) -> 0 <= i < MAX_OPS /\ 0 <= k < 2 ^ 64)
  /\ exists p b', aesd_circular_buffer_add_entry odd_buffer (Entry 6 1) = Ok (p, b')
       /\ well_typed b'.
Proof. apply (buffer_well_typed odd_buffer (Entry 6 1) (2 ^ 64 - 1)). done. Defined.

Definition sample_entries (n : nat) : list aesd_buffer_entry :=
  (fun i => Entry (100 + Z.of_nat i) (Z.of_nat i + 1)) <$> seq 0 n.

Lemma sample_rep :
  cb_rep (CBuffer (replicate 7 (Entry 9 2) ++ [Entry 5 3; Entry 6 1; Entry 7 4]) 7 7 true)
    ([Entry 5 3; Entry 6 1; Entry 7 4] ++ replicate 7 (Entry 9 2)).
Proof.
  split; simpl; [by vm_compute | done | done | done | done |].
  repeat (constructor; [done|]). constructor.
Qed.

Lemma find_refines_witness :
  aesd_circular_buffer_find_entry_offset_for_fpos
    (CBuffer (replicate 7 (Entry 9 2) ++ [Entry 5 3; Entry 6 1; Entry 7 4]) 7 7 true) 9
  = Ok (Some (0, 1)).
Proof. by rewrite (find_refines _ _ 9 sample_rep). Defined.

Lemma add_entry_refines_witness :
  exists b',
    aesd_circular_buffer_add_entry
      (CBuffer (replicate 7 (Entry 9 2) ++ [Entry 5 3; Entry 6 1; Entry 7 4]) 7 7 true)
      (Entry 8 8) = Ok (5, b')
    /\ cb_rep b' ([Entry 6 1; Entry 7 4] ++ replicate 7 (Entry 9 2) ++ [Entry 8 8]).
Proof. exact (add_entry_refines _ _ (Entry 8 8) sample_rep ltac:(done)). Defined.

Lemma add_entries_history_witness :
  exists b',
    add_entries aesd_circular_buffer_init (sample_entries 12)
      = Ok (replicate 10 0 ++ [100; 101], b')
    /\ cb_rep b' (drop 2 (sample_entries 12)).
Proof.
  apply (add_entries_history _ [] (sample_entries 12) init_rep).
  apply Forall_fmap, Forall_true. intros i. simpl. lia.
Defined.

End CircularBuffer.
