(* ===== verification/Memory.v ===== *)
(** * Dynamic memory

    The heap of [malloc]/[kzalloc] blocks the components share, with the
    accesses C code makes to it: every access outside a live block is a fault.
    A block is named by its address and accessed by offset; the null pointer
    is 0. *)

From S2P Require Import Prelude.

Module Memory.

Abbreviation heap := (gmap Z bytes).

Definition zeros (n : Z) : bytes := replicate (Z.to_nat n) nul.

(** Read [n] bytes at [p + off]. An access of no bytes touches no memory. *)
Definition load (p off n : Z) (h : heap) : res bytes :=
  if n =? 0 then Ok []
  else if p =? 0 then Err NullDeref
  else
    match h !! p with
    | Some bs =>
        if decide (0 <= off /\ 0 <= n /\ off + n <= Z.of_nat (length bs))
        then Ok (take (Z.to_nat n) (drop (Z.to_nat off) bs))
        else Err OutOfBounds
    | None => Err OutOfBounds
    end.

(** Write [new] at [p + off]. *)
Definition store (p off : Z) (new : bytes) (h : heap) : res heap :=
  if decide (new = []) then Ok h
  else if p =? 0 then Err NullDeref
  else
    match h !! p with
    | Some bs =>
        if decide (0 <= off /\ off + Z.of_nat (length new) <= Z.of_nat (length bs))
        then Ok (<[p := take (Z.to_nat off) bs ++ new
                       ++ drop (Z.to_nat off + length new) bs]> h)
        else Err OutOfBounds
    | None => Err OutOfBounds
    end.

(** Release of a block that is not live, such as a second release, is a
    fault. *)
Definition release (p : Z) (h : heap) : res heap :=
  match h !! p with Some _ => Ok (delete p h) | None => Err BadFree end.

(** The bytes a heap takes up. *)
Definition heap_bytes (h : heap) : Z :=
  map_fold (fun _ bs n => Z.of_nat (length bs) + n) 0 h.

(** The blocks of a heap given as a list: what its owner holds. *)
Definition blocks_bytes (l : list (Z * bytes)) : Z :=
  foldr (fun pb n => Z.of_nat (length pb.2) + n) 0 l.

(** ** Lemmas *)

Lemma load_all p bs (h : heap) :
  h !! p = Some bs -> p <> 0 -> load p 0 (Z.of_nat (length bs)) h = Ok bs.
Proof.
  intros Hp Hne. unfold load. destruct (Z.eqb_spec (Z.of_nat (length bs)) 0) as [Hz|Hz].
  - destruct bs; [done | simpl in Hz; lia].
  - rewrite (proj2 (Z.eqb_neq _ _)), Hp by done. rewrite decide_True by lia.
    rewrite drop_0, Nat2Z.id. by rewrite firstn_all.
Qed.

Lemma load_within p off n bs (h : heap) :
  h !! p = Some bs -> p <> 0 -> 0 <= off -> 0 <= n -> off + n <= Z.of_nat (length bs) ->
  load p off n h = Ok (take (Z.to_nat n) (drop (Z.to_nat off) bs)).
Proof.
  intros Hp Hne Ho Hn Hl. unfold load. destruct (Z.eqb_spec n 0) as [->|Hz]; [done|].
  rewrite (proj2 (Z.eqb_neq _ _)), Hp by done. by rewrite decide_True.
Qed.

Lemma store_within p off new bs (h : heap) :
  h !! p = Some bs -> p <> 0 -> 0 <= off ->
  off + Z.of_nat (length new) <= Z.of_nat (length bs) ->
  store p off new h =
    Ok (<[p := take (Z.to_nat off) bs ++ new ++ drop (Z.to_nat off + length new) bs]> h).
Proof.
  intros Hp Hne Ho Hl. unfold store. case_decide as Hn; [subst new|].
  - simpl. rewrite Nat.add_0_r, take_drop. by rewrite insert_id.
  - rewrite (proj2 (Z.eqb_neq _ _)), Hp by done. by rewrite decide_True.
Qed.

Lemma load_dead p off n (h : heap) :
  h !! p = None -> p <> 0 -> n <> 0 -> load p off n h = Err OutOfBounds.
Proof.
  intros Hp Hne Hn. unfold load.
  destruct (Z.eqb_spec n 0); [done|]. destruct (Z.eqb_spec p 0); [done|].
  by rewrite Hp.
Qed.

Lemma store_dead p off new (h : heap) :
  h !! p = None -> p <> 0 -> new <> [] -> store p off new h = Err OutOfBounds.
Proof.
  intros Hp Hne Hn. unfold store. case_decide; [done|].
  destruct (Z.eqb_spec p 0); [done|]. by rewrite Hp.
Qed.

Lemma release_live p (h : heap) :
  is_Some (h !! p) -> release p h = Ok (delete p h).
Proof. intros [bs Hp]. unfold release. by rewrite Hp. Qed.

Lemma heap_bytes_insert p bs (h : heap) :
  h !! p = None -> heap_bytes (<[p := bs]> h) = Z.of_nat (length bs) + heap_bytes h.
Proof.
  intros Hp. unfold heap_bytes. rewrite map_fold_insert_L; [done | | done].
  intros. lia.
Qed.

Lemma heap_bytes_list (l : list (Z * bytes)) :
  NoDup l.*1 -> heap_bytes (list_to_map l) = blocks_bytes l.
Proof.
  induction l as [|[p bs] l IH]; intros Hnd; [done|].
  simpl in *. apply NoDup_cons in Hnd as [Hp Hnd].
  rewrite heap_bytes_insert by (by apply not_elem_of_list_to_map_1).
  by rewrite IH.
Qed.

Lemma blocks_bytes_app l k : blocks_bytes (l ++ k) = blocks_bytes l + blocks_bytes k.
Proof. induction l; simpl; lia. Qed.

Lemma blocks_bytes_nonneg l : 0 <= blocks_bytes l.
Proof. induction l; simpl; lia. Qed.

(** Moving, removing and adding blocks of a heap given as a list. *)
Lemma list_heap_perm (l k : list (Z * bytes)) :
  NoDup l.*1 -> l ≡ₚ k -> (list_to_map l : heap) = list_to_map k.
Proof. apply list_to_map_proper. Qed.

Lemma list_heap_delete (l k : list (Z * bytes)) p bs :
  NoDup (l ++ (p, bs) :: k).*1 ->
  delete p (list_to_map (l ++ (p, bs) :: k) : heap) = list_to_map (l ++ k).
Proof.
  intros Hnd. rewrite (list_to_map_proper _ ((p, bs) :: l ++ k)) by
    (done || by rewrite Permutation_middle).
  simpl. apply delete_insert_id, not_elem_of_list_to_map_1.
  rewrite fmap_app in *. simpl in Hnd. apply NoDup_app in Hnd as (_ & H1 & H2).
  apply NoDup_cons in H2 as [H2 _]. rewrite elem_of_app. intros [|]; [|done].
  eapply H1; [done | by left].
Qed.

End Memory.
