(* ===== verification/Driver.v ===== *)
(** * The character device driver: model

    [aesd-char-driver/main.c] and [aesdchar.h]: the device, the file operations
    and the module's entry points, over the circular buffer. Each handler is a
    program ([prog]) whose actions are the accesses it makes to the device and
    to kernel memory, and whose questions are its calls of the kernel. *)

From S2P Require Import Prelude CircularBuffer Memory.
Export Memory CircularBuffer.

Module Driver.

(** ** Data *)

(** Error numbers of [<linux/errno.h>]. *)
Definition EINTR : Z := 4.
Definition ENOMEM : Z := 12.
Definition EFAULT : Z := 14.
Definition ERESTARTSYS : Z := 512.

(** What [kzalloc] returns for a size of 0 ([<linux/slab.h>]): not null, and
    not to be dereferenced. *)
Definition ZERO_SIZE_PTR : Z := 16.

(** The parts of [struct cdev] the module sets, and whether the kernel has it. *)
Record cdev : Type := Cdev {
  cdev_owner : bool;   (* owner == THIS_MODULE *)
  cdev_ops : bool;     (* ops == &g_aesd_fops *)
  cdev_added : bool
}.

(** [struct aesd_dev]; a mutex is the flag that says it is held. *)
Record aesd_dev : Type := Dev {
  buf : aesd_circular_buffer;
  buf_lock : bool;
  dcdev : cdev;
  dentry : aesd_buffer_entry;
  entry_lock : bool
}.

(** The module's globals, its blocks of kernel memory, and the device-number
    region it has registered. *)
Record kst : Type := Kst {
  kheap : heap;
  g_aesd_major : Z;
  g_aesd_minor : Z;
  g_aesd_device : aesd_dev;
  region : option Z
}.

Inductive klock : Type := BufLock | EntryLock.
#[export] Instance klock_eq_dec : EqDecision klock.
Proof. solve_decision. Defined.

(** The calls of the kernel with an outcome the module does not control. *)
Inductive kquery : Type :=
| QInterrupted (l : klock)             (* a signal while waiting for a mutex *)
| QKzalloc (n : Z)                     (* the address of a new block *)
| QCopyFromUser (ubuf : bytes) (n : Z) (* bytes not copied *)
| QCopyToUser (n : Z)                  (* bytes not copied *)
| QAllocRegion                         (* result and device number *)
| QCdevAdd.                            (* result *)

Definition kanswer (q : kquery) : Type :=
  match q with
  | QInterrupted _ => bool
  | QKzalloc _ | QCopyFromUser _ _ | QCopyToUser _ | QCdevAdd => Z
  | QAllocRegion => Z * Z
  end.

Definition K : sig := {| st := kst; query := kquery; answer := kanswer |}.

(** Device numbers of [<linux/kdev_t.h>]. *)
Definition MAJOR (dev : Z) : Z := Z.shiftr dev 20.
Definition MKDEV (ma mi : Z) : Z := u32 (Z.lor (Z.shiftl ma 20) mi).
Definition MINOR (dev : Z) : Z := Z.land dev (Z.ones 20).

(** ** What the kernel promises

    - [kzalloc] returns null, or [ZERO_SIZE_PTR] for size 0, or the address of a
      block disjoint from the live ones; the live blocks fit in the kernel's
      half of the address space;
    - the copies return the number of bytes they could not copy, and
      [copy_from_user] reads no byte the user buffer does not have;
    - the registrations return 0 or a negative error number; a region
      allocated starts at the minor number asked for. *)
Definition kernel : contract K := fun s q =>
  match q return kanswer q -> Prop with
  | QInterrupted _ => fun _ => True
  | QKzalloc n => fun p =>
      p = 0
      \/ (n = 0 /\ p = ZERO_SIZE_PTR)
      \/ (0 < n /\ ZERO_SIZE_PTR < p /\ kheap s !! p = None
          /\ heap_bytes (kheap s) + n < 2 ^ 63)
  | QCopyFromUser ubuf n => fun uncopied =>
      0 <= n -> 0 <= uncopied <= n /\ n - uncopied <= Z.of_nat (length ubuf)
  | QCopyToUser n => fun uncopied => 0 <= n -> 0 <= uncopied <= n
  | QAllocRegion => fun '(r, d) =>
      (r = 0 /\ 0 <= d < 2 ^ 32 /\ MINOR d = g_aesd_minor s) \/ r < 0
  | QCdevAdd => fun r => r <= 0
  end.

(** ** State updates *)

Definition set_heap (h : heap) (s : kst) : kst :=
  Kst h (g_aesd_major s) (g_aesd_minor s) (g_aesd_device s) (region s).
Definition set_major (m : Z) (s : kst) : kst :=
  Kst (kheap s) m (g_aesd_minor s) (g_aesd_device s) (region s).
Definition set_dev (d : aesd_dev) (s : kst) : kst :=
  Kst (kheap s) (g_aesd_major s) (g_aesd_minor s) d (region s).
Definition set_region (r : option Z) (s : kst) : kst :=
  Kst (kheap s) (g_aesd_major s) (g_aesd_minor s) (g_aesd_device s) r.

Definition dev_set_buf (b : aesd_circular_buffer) (d : aesd_dev) : aesd_dev :=
  Dev b (buf_lock d) (dcdev d) (dentry d) (entry_lock d).
Definition dev_set_cdev (c : cdev) (d : aesd_dev) : aesd_dev :=
  Dev (buf d) (buf_lock d) c (dentry d) (entry_lock d).
Definition dev_set_entry (e : aesd_buffer_entry) (d : aesd_dev) : aesd_dev :=
  Dev (buf d) (buf_lock d) (dcdev d) e (entry_lock d).
Definition dev_set_lock (l : klock) (held : bool) (d : aesd_dev) : aesd_dev :=
  match l with
  | BufLock => Dev (buf d) held (dcdev d) (dentry d) (entry_lock d)
  | EntryLock => Dev (buf d) (buf_lock d) (dcdev d) (dentry d) held
  end.
Definition lock_held (l : klock) (d : aesd_dev) : bool :=
  match l with BufLock => buf_lock d | EntryLock => entry_lock d end.

Definition upd_dev (f : aesd_dev -> aesd_dev) : prog K unit :=
  modify (S := K) (fun s => set_dev (f (g_aesd_device s)) s).
Definition get_dev {A} (f : aesd_dev -> A) : prog K A :=
  get (S := K) (fun s => f (g_aesd_device s)).

(** ** The kernel's API *)

(** 0 with the mutex held, or an error number when a signal arrives first.
    Acquiring a mutex that is held waits for its holder: for a single caller
    that is a deadlock. *)
Definition mutex_lock_interruptible (l : klock) : prog K Z :=
  intr ← ask (S := K) (QInterrupted l);
  if (intr : bool) then mret (- EINTR)
  else
    act (S := K) (fun s =>
      if lock_held l (g_aesd_device s) then Err Deadlock
      else Ok (0, set_dev (dev_set_lock l true (g_aesd_device s)) s)).

Definition mutex_unlock (l : klock) : prog K unit :=
  act (S := K) (fun s =>
    if lock_held l (g_aesd_device s)
    then Ok (tt, set_dev (dev_set_lock l false (g_aesd_device s)) s)
    else Err BadUnlock).

Definition kzalloc (n : Z) : prog K Z :=
  p ← ask (S := K) (QKzalloc n);
  if (p : Z) =? 0 then mret 0
  else if p =? ZERO_SIZE_PTR then mret p
  else
    modify (S := K) (fun s => set_heap (<[p := zeros n]> (kheap s)) s);;
    mret p.

Definition kfree (p : Z) : prog K unit :=
  if (p =? 0) || (p =? ZERO_SIZE_PTR) then mret tt
  else act (S := K) (fun s => h ← release p (kheap s); Ok (tt, set_heap h s)).

Definition kload (p off n : Z) : prog K bytes :=
  act (S := K) (fun s => bs ← load p off n (kheap s); Ok (bs, s)).

Definition kstore (p off : Z) (bs : bytes) : prog K unit :=
  act (S := K) (fun s => h ← store p off bs (kheap s); Ok (tt, set_heap h s)).

(** Copies [n] bytes of the user buffer [ubuf] to [p + off]; the bytes that
    cannot be read are zeroed. *)
Definition copy_from_user (p off : Z) (ubuf : bytes) (n : Z) : prog K Z :=
  uncopied ← ask (S := K) (QCopyFromUser ubuf n);
  kstore p off (take (Z.to_nat (n - uncopied)) ubuf ++ zeros uncopied);;
  mret (uncopied : Z).

(** Copies [n] bytes at [p + off] to the user: the number of bytes not copied,
    and the bytes that reach the user's buffer. *)
Definition copy_to_user (p off n : Z) : prog K (Z * bytes) :=
  uncopied ← ask (S := K) (QCopyToUser n);
  bs ← kload p off n;
  mret ((uncopied : Z), take (Z.to_nat (n - uncopied)) bs).

(** ** Files *)

(** The one device of the program; the [cdev] an inode points to is named by
    the device that embeds it, so that [container_of] is the identity. *)
Inductive dev_ptr : Type := DevPtr.
Record inode : Type := Inode { i_cdev : dev_ptr }.
Record file : Type := File { private_data : option dev_ptr }.

Definition deref {A} (p : option A) : prog K A :=
  match p with Some a => mret a | None => Crash NullDeref end.

(** ** File operations *)

Definition aesd_open (ino : inode) (filp : file) : prog K (Z * file) :=
  mret (0, File (Some (i_cdev ino))).

Definition aesd_release (ino : inode) (filp : file) : prog K Z := mret 0.

(** What [aesd_read] does with [buf_lock] held: the result, the bytes that
    reached the user's buffer and the new file position. *)
Definition read_locked (count f_pos : Z) : prog K (Z * bytes * Z) :=
  b ← get_dev buf;
  found ← of_res (aesd_circular_buffer_find_entry_offset_for_fpos b (u64 f_pos));
  match found with
  | None => mret (0, [], f_pos)
  | Some (i, offset) =>
      e ← of_res (arr_get (entry b) i);
      let read_count := u64 (esize e - offset) in
      let read_count := if read_count >? count then count else read_count in
      '(uncopied, out) ← copy_to_user (buffptr e) offset read_count;
      if negb (uncopied =? 0) then mret (- EFAULT, out, f_pos)
      else mret (i64 read_count, out, i64 (f_pos + read_count))
  end.

Definition aesd_read (filp : file) (count f_pos : Z) : prog K (Z * bytes * Z) :=
  _dev ← deref (private_data filp);
  intr ← mutex_lock_interruptible BufLock;
  if negb (intr =? 0) then mret (- ERESTARTSYS, [], f_pos)
  else
    '(result, out, f_pos) ← read_locked count f_pos;
    mutex_unlock BufLock;;
    mret (result, out, f_pos).

(** The first half of [aesd_write]: the pending entry's data with the user's
    bytes after it, in a new block. An error number leaves by [goto out]. *)
Definition write_data (ubuf : bytes) (count : Z) : prog K (Z + unit) :=
  e ← get_dev dentry;
  if buffptr e =? 0 then
    kbuf ← kzalloc count;
    if kbuf =? 0 then mret (inl (- ENOMEM))
    else
      uncopied ← copy_from_user kbuf 0 ubuf count;
      if negb (uncopied =? 0) then kfree kbuf;; mret (inl (- EFAULT))
      else upd_dev (dev_set_entry (Entry kbuf (esize e)));; mret (inr tt)
  else
    kbuf ← kzalloc (u64 (esize e + count));
    if kbuf =? 0 then mret (inl (- ENOMEM))
    else
      old ← kload (buffptr e) 0 (esize e);
      kstore kbuf 0 old;;
      kfree (buffptr e);;
      uncopied ← copy_from_user kbuf (esize e) ubuf count;
      if negb (uncopied =? 0) then kfree kbuf;; mret (inl (- EFAULT))
      else upd_dev (dev_set_entry (Entry kbuf (esize e)));; mret (inr tt).

(** The push of a complete entry, with [buf_lock] held. *)
Definition write_push : prog K unit :=
  e ← get_dev dentry;
  last ← kload (buffptr e) (u64 (esize e - 1)) 1;
  if decide (last = [newline]) then
    b ← get_dev buf;
    '(old_data, b) ← of_res (aesd_circular_buffer_add_entry b e);
    upd_dev (dev_set_buf b);;
    (if negb (old_data =? 0) then kfree old_data else mret tt);;
    upd_dev (dev_set_entry (Entry 0 0))
  else mret tt.

(** Everything [aesd_write] does with [entry_lock] held. *)
Definition write_locked (ubuf : bytes) (count : Z) : prog K Z :=
  r ← write_data ubuf count;
  match r with
  | inl err => mret err
  | inr _ =>
      upd_dev (fun d => dev_set_entry
        (Entry (buffptr (dentry d)) (u64 (esize (dentry d) + count))) d);;
      intr ← mutex_lock_interruptible BufLock;
      if negb (intr =? 0) then mret (- EINTR)
      else
        write_push;;
        mutex_unlock BufLock;;
        mret (i64 count)
  end.

Definition aesd_write (filp : file) (ubuf : bytes) (count : Z) : prog K Z :=
  _dev ← deref (private_data filp);
  intr ← mutex_lock_interruptible EntryLock;
  if negb (intr =? 0) then mret (- ERESTARTSYS)
  else
    result ← write_locked ubuf count;
    mutex_unlock EntryLock;;
    mret result.

(** The table the kernel calls the module through; [owner] is part of [cdev]. *)
Record file_operations : Type := FileOperations {
  fop_read : file -> Z -> Z -> prog K (Z * bytes * Z);
  fop_write : file -> bytes -> Z -> prog K Z;
  fop_open : inode -> file -> prog K (Z * file);
  fop_release : inode -> file -> prog K Z
}.

Definition g_aesd_fops : file_operations :=
  FileOperations aesd_read aesd_write aesd_open aesd_release.

(** ** Module entry points *)

Definition aesd_setup_cdev : prog K Z :=
  upd_dev (dev_set_cdev (Cdev true true false));;
  err ← ask (S := K) QCdevAdd;
  if negb ((err : Z) =? 0) then mret err
  else upd_dev (dev_set_cdev (Cdev true true true));; mret err.

(** [memset] of the device to zero. *)
Definition zero_dev : aesd_dev :=
  Dev (CBuffer (replicate 10 null_entry) 0 0 false) false (Cdev false false false)
    null_entry false.

Definition unregister_chrdev_region (dev : Z) : prog K unit :=
  modify (S := K) (fun s =>
    set_region (if decide (region s = Some dev) then None else region s) s).

Definition aesd_init_module : prog K Z :=
  r ← ask (S := K) QAllocRegion;
  let '(result, dev) := (r : Z * Z) in
  let dev := if result <? 0 then 0 else dev in
  modify (S := K) (set_major (MAJOR dev));;
  if result <? 0 then mret result
  else
    modify (S := K) (set_region (Some dev));;
    modify (S := K) (set_dev zero_dev);;
    upd_dev (dev_set_buf aesd_circular_buffer_init);;
    upd_dev (dev_set_lock BufLock false);;
    upd_dev (dev_set_lock EntryLock false);;
    result ← aesd_setup_cdev;
    if negb (result =? 0) then unregister_chrdev_region dev;; mret result
    else mret result.

Definition aesd_cleanup_module : prog K unit :=
  ma ← get (S := K) g_aesd_major;
  mi ← get (S := K) g_aesd_minor;
  let devno := MKDEV ma mi in
  AESD_CIRCULAR_BUFFER_FOREACH 10 (get_dev buf)
    (fun e => if negb (buffptr e =? 0) then kfree (buffptr e) else mret tt) 0;;
  upd_dev (fun d => dev_set_cdev (Cdev (cdev_owner (dcdev d)) (cdev_ops (dcdev d)) false) d);;
  unregister_chrdev_region devno.

End Driver.
