(* ===== verification/DriverSpec.v ===== *)
(** * The character device driver: specification

    What [/dev/aesdchar] promises: the last ten newline-terminated entries
    written, and the bytes of an entry not yet complete. [represents] ties the
    driver's state to it; the rules below are the kernel calls' weakest
    preconditions. *)

From S2P Require Import Prelude Interleave CircularBuffer Memory Driver.

Module DriverSpec.
Import Interleave CircularBuffer Memory Driver.

(** ** Abstract state and operations *)

Record dspec : Type := DSpec {
  committed : list bytes;
  pending : bytes
}.

(** The data is added to the pending entry, which is committed when it ends in
    a newline; only the last ten entries are kept. *)
Definition spec_append (a : dspec) (data : bytes) : dspec :=
  DSpec (committed a) (pending a ++ data).

Definition spec_commit (a : dspec) : dspec :=
  if decide (last (pending a) = Some newline)
  then DSpec (lastn capacity (committed a ++ [pending a])) []
  else a.

Definition spec_write (a : dspec) (data : bytes) : dspec :=
  spec_commit (spec_append a data).

(** A read returns bytes of a single entry: those of [entry] from [off] on, at
    most [count]. *)
Fixpoint read_entries (es : list bytes) (off count : Z) : bytes :=
  match es with
  | [] => []
  | e :: es =>
      if off <? Z.of_nat (length e)
      then take (Z.to_nat count) (drop (Z.to_nat off) e)
      else read_entries es (off - Z.of_nat (length e)) count
  end.

Definition spec_read (a : dspec) (off count : Z) : bytes :=
  read_entries (committed a) off count.

(** ** The representation *)

Definition mk_entry (pb : Z * bytes) : aesd_buffer_entry :=
  Entry pb.1 (Z.of_nat (length pb.2)).

Definition pend_entry (pend : option (Z * bytes)) : aesd_buffer_entry :=
  from_option mk_entry null_entry pend.

(** The blocks the driver owns: those of the entries, then the pending one. *)
Definition owned (cbs : list (Z * bytes)) (pend : option (Z * bytes))
    : list (Z * bytes) := cbs ++ option_list pend.

(** The device holds the entries [cbs] (address and data) and the pending data
    [pend]; the kernel memory of the module is exactly their blocks, each owned
    once. *)
Record drv_rel (s : kst) (cbs : list (Z * bytes)) (pend : option (Z * bytes))
    : Prop := DrvRel {
  dr_buf : cb_rep (buf (g_aesd_device s)) (mk_entry <$> cbs);
  dr_entry : dentry (g_aesd_device s) = pend_entry pend;
  dr_heap : kheap s = list_to_map (owned cbs pend);
  dr_nodup : NoDup (owned cbs pend).*1;
  dr_block : Forall (fun pb => ZERO_SIZE_PTR < pb.1 /\ pb.2 <> []) (owned cbs pend);
  dr_bytes : blocks_bytes (owned cbs pend) < 2 ^ 63
}.

Definition idle (s : kst) : Prop :=
  buf_lock (g_aesd_device s) = false /\ entry_lock (g_aesd_device s) = false.

Definition abs (cbs : list (Z * bytes)) (pend : option (Z * bytes)) : dspec :=
  DSpec cbs.*2 (from_option snd [] pend).

Definition represents (s : kst) (a : dspec) : Prop :=
  idle s /\ exists cbs pend, drv_rel s cbs pend /\ a = abs cbs pend.

(** The state an append to [a] leaves after [copy_from_user] failed: the committed
    entries are as they were and their blocks are all that is left of the memory,
    but the device still points to the released block of the pending entry and
    keeps its size. *)
Definition dangling (a : dspec) (s : kst) : Prop :=
  exists cbs,
    cb_rep (buf (g_aesd_device s)) (mk_entry <$> cbs) /\ cbs.*2 = committed a
    /\ kheap s = list_to_map cbs /\ NoDup cbs.*1
    /\ ZERO_SIZE_PTR < buffptr (dentry (g_aesd_device s))
    /\ (buffptr (dentry (g_aesd_device s)) ∉ cbs.*1)
    /\ esize (dentry (g_aesd_device s)) = Z.of_nat (length (pending a))
    /\ 0 < esize (dentry (g_aesd_device s)) < 2 ^ 63.

(** The bytes the device holds. *)
Definition spec_bytes (a : dspec) : Z :=
  Z.of_nat (length (concat (committed a))) + Z.of_nat (length (pending a)).

(** There is memory for a block of [n] bytes. *)
Definition room (s : kst) (n : Z) : Prop :=
  0 <= n /\ heap_bytes (kheap s) + n < 2 ^ 63.

(** The kernel when every call that can succeed does. *)
Definition kernel_ok : contract K := fun s q a =>
  kernel s q a /\
  match q return kanswer q -> Prop with
  | QInterrupted _ => fun intr => intr = false
  | QKzalloc n => fun p => room s n -> p <> 0
  | QCopyFromUser ubuf n => fun uncopied =>
      0 <= n <= Z.of_nat (length ubuf) -> uncopied = 0
  | QCopyToUser _ => fun uncopied => uncopied = 0
  | QAllocRegion => fun '(r, _) => 0 <= g_aesd_minor s < 2 ^ 20 -> r = 0
  | QCdevAdd => fun r => r = 0
  end a.

(** The same except that a copy from the user leaves bytes uncopied. *)
Definition kernel_copy_fault : contract K := fun s q a =>
  kernel s q a /\
  match q return kanswer q -> Prop with
  | QInterrupted _ => fun intr => intr = false
  | QKzalloc n => fun p => room s n -> p <> 0
  | QCopyFromUser _ n => fun uncopied => 0 < n -> uncopied <> 0
  | _ => fun _ => True
  end a.

(** The same except that a signal arrives while the driver waits for the
    buffer's mutex. *)
Definition kernel_buf_interrupt : contract K := fun s q a =>
  kernel s q a /\
  match q return kanswer q -> Prop with
  | QInterrupted l => fun intr => intr = bool_decide (l = BufLock)
  | QKzalloc n => fun p => room s n -> p <> 0
  | QCopyFromUser ubuf n => fun uncopied =>
      0 <= n <= Z.of_nat (length ubuf) -> uncopied = 0
  | _ => fun _ => True
  end a.

Lemma kernel_ok_kernel s q a : kernel_ok s q a -> kernel s q a.
Proof. by intros []. Qed.
Lemma kernel_copy_fault_kernel s q a : kernel_copy_fault s q a -> kernel s q a.
Proof. by intros []. Qed.
Lemma kernel_buf_interrupt_kernel s q a : kernel_buf_interrupt s q a -> kernel s q a.
Proof. by intros []. Qed.
#[export] Hint Resolve kernel_ok_kernel kernel_copy_fault_kernel
  kernel_buf_interrupt_kernel : core.

(** ** Lemmas on the specification *)

Lemma read_entries_concat es off count :
  0 <= off -> 0 <= count ->
  prefix (read_entries es off count) (drop (Z.to_nat off) (concat es)).
Proof.
  intros Hoff Hc. revert off Hoff. induction es as [|e es IH]; intros off Hoff; simpl.
  { apply prefix_nil. }
  destruct (Z.ltb_spec off (Z.of_nat (length e))).
  - rewrite drop_app_le by lia. apply prefix_app_r.
    exists (drop (Z.to_nat count) (drop (Z.to_nat off) e)). by rewrite take_drop.
  - rewrite drop_app_ge by lia.
    replace (Z.to_nat off - length e)%nat with (Z.to_nat (off - Z.of_nat (length e))) by lia.
    apply IH. lia.
Qed.

Lemma read_entries_nil es off count :
  0 <= off -> 0 < count ->
  read_entries es off count = [] <-> Z.of_nat (length (concat es)) <= off.
Proof.
  intros Hoff Hc. revert off Hoff. induction es as [|e es IH]; intros off Hoff; simpl; [done|].
  rewrite length_app. destruct (Z.ltb_spec off (Z.of_nat (length e))).
  - split; [|lia]. intros Hn. apply (f_equal length) in Hn.
    rewrite length_take, length_drop in Hn. simpl in Hn. lia.
  - rewrite IH by lia. lia.
Qed.

Lemma last_load (bs : bytes) b :
  take 1 (drop (length bs) (bs ++ [b])) = [b].
Proof. by rewrite drop_app_length. Qed.

(** A concrete kernel for each: blocks are placed after the last live one. *)
Definition fresh_addr (h : heap) : Z := next_key ZERO_SIZE_PTR h.

Definition alloc_answer (s : kst) (n : Z) : Z :=
  if n =? 0 then ZERO_SIZE_PTR
  else if (0 <? n) && (heap_bytes (kheap s) + n <? 2 ^ 63) then fresh_addr (kheap s)
  else 0.

Definition region_answer (s : kst) : Z * Z :=
  if (0 <=? g_aesd_minor s) && (g_aesd_minor s <? 2 ^ 20)
  then (0, Z.lor (Z.shiftl 240 20) (g_aesd_minor s)) else (-1, 0).

(** [intr] says which lock waits are interrupted, [bad_copy] whether copies from
    the user fail. *)
Definition sample_kernel (intr : klock -> bool) (bad_copy : bool) : env K unit :=
  fun s x q =>
    (match q return kanswer q with
     | QInterrupted l => intr l
     | QKzalloc n => alloc_answer s n
     | QCopyFromUser ubuf n =>
         if bad_copy then Z.max 0 n else Z.max 0 (n - Z.of_nat (length ubuf))
     | QCopyToUser n => 0
     | QAllocRegion => region_answer s
     | QCdevAdd => 0
     end, x).

Definition good_kernel : env K unit := sample_kernel (fun _ => false) false.

Lemma alloc_answer_kernel s n : kernel s (QKzalloc n) (alloc_answer s n).
Proof.
  unfold alloc_answer. destruct (Z.eqb_spec n 0) as [->|Hn]; [right; left; done|].
  destruct (Z.ltb_spec 0 n); [|by left]. destruct (Z.ltb_spec (heap_bytes (kheap s) + n) (2 ^ 63)); [|by left].
  simpl. right; right. by split_and!; [|apply next_key_gt|apply next_key_fresh|].
Qed.

Lemma alloc_answer_room s n : room s n -> alloc_answer s n <> 0.
Proof.
  intros [Hn Hb]. unfold alloc_answer. destruct (Z.eqb_spec n 0); [done|].
  destruct (Z.ltb_spec 0 n); [|lia]. destruct (Z.ltb_spec (heap_bytes (kheap s) + n) (2 ^ 63)); [|lia].
  pose proof (next_key_gt ZERO_SIZE_PTR (kheap s)). unfold fresh_addr. unfold ZERO_SIZE_PTR in *. simpl. lia.
Qed.

Lemma region_answer_kernel s : kernel s QAllocRegion (region_answer s).
Proof.
  unfold region_answer, kernel. destruct (Z.leb_spec 0 (g_aesd_minor s)) as [H0|]; [|by right].
  destruct (Z.ltb_spec (g_aesd_minor s) (2 ^ 20)) as [H1|]; [|by right].
  left. simpl andb. cbn iota. split; [done|].
  assert (MINOR (Z.lor (Z.shiftl 240 20) (g_aesd_minor s)) = g_aesd_minor s) as Hmi.
  { unfold MINOR. rewrite Z.land_lor_distr_l, !Z.land_ones by done.
    change (Z.shiftl 240 20 mod 2 ^ 20) with 0. rewrite Z.lor_0_l. by apply Z.mod_small. }
  split; [|done].
  assert (Z.land (Z.shiftl 240 20) (g_aesd_minor s) = 0) as Hdisj.
  { apply Z.bits_inj'. intros i Hi. rewrite Z.land_spec, Z.bits_0.
    destruct (Z.ltb_spec i 20); [by rewrite Z.shiftl_spec_low by done|].
    rewrite (Z.bits_above_log2 (g_aesd_minor s) i); [apply andb_false_r | done |].
    destruct (decide (g_aesd_minor s = 0)) as [->|]; [simpl; lia|].
    apply Z.log2_lt_pow2; [lia|]. eapply Z.lt_le_trans; [exact H1|].
    apply Z.pow_le_mono_r; lia. }
  rewrite <- Z.lxor_lor, <- Z.add_nocarry_lxor by done.
  change (Z.shiftl 240 20) with 251658240. lia.
Qed.

Lemma sample_kernel_kernel intr bad s x q : kernel s q (sample_kernel intr bad s x q).1.
Proof.
  destruct q; cbn [sample_kernel fst].
  - done.
  - apply alloc_answer_kernel.
  - intros Hn. destruct bad; simpl; lia.
  - intros Hn. lia.
  - apply region_answer_kernel.
  - simpl. lia.
Qed.

Lemma good_kernel_ok : respects kernel_ok good_kernel.
Proof.
  intros s x q. split; [apply sample_kernel_kernel|]. destruct q; simpl; try done.
  - apply alloc_answer_room.
  - lia.
  - unfold region_answer. destruct (Z.leb_spec 0 (g_aesd_minor s)), (Z.ltb_spec (g_aesd_minor s) (2 ^ 20));
      cbn; lia.
Qed.
#[export] Hint Resolve good_kernel_ok : envs.

Lemma bad_kernel_fault : respects kernel_copy_fault (sample_kernel (fun _ => false) true).
Proof.
  intros s x q. split; [apply sample_kernel_kernel|].
  destruct q; cbn [sample_kernel fst]; [done | apply alloc_answer_room | lia | done | done | done].
Qed.
#[export] Hint Resolve bad_kernel_fault : envs.

Lemma interrupting_kernel :
  respects kernel_buf_interrupt (sample_kernel (fun l => bool_decide (l = BufLock)) false).
Proof.
  intros s x q. split; [apply sample_kernel_kernel|].
  destruct q; cbn [sample_kernel fst]; [done | apply alloc_answer_room | lia | done | done | done].
Qed.

(** A device with no entry and the given pending block, for examples. *)
Definition sample_state (pend : option (Z * bytes)) : kst :=
  Kst (list_to_map (option_list pend)) 240 0
    (Dev aesd_circular_buffer_init false (Cdev true true true) (pend_entry pend) false)
    (Some (MKDEV 240 0)).

Lemma sample_represents pend :
  Forall (fun pb => ZERO_SIZE_PTR < pb.1 /\ pb.2 <> []) (option_list pend) ->
  blocks_bytes (option_list pend) < 2 ^ 63 ->
  represents (sample_state pend) (DSpec [] (from_option snd [] pend)).
Proof.
  intros Hp Hb. split; [done|]. exists [], pend. split; [|done].
  split; try done; [apply init_rep|]. destruct pend; [apply NoDup_singleton | constructor].
Qed.

(** ** Rules for the kernel's calls *)

Section rules.
Context (C : contract K) (HC : forall s q a, C s q a -> kernel s q a).

Lemma wp_lock l Q s :
  lock_held l (g_aesd_device s) = false ->
  (C s (QInterrupted l) true -> Q (- EINTR) s) ->
  (C s (QInterrupted l) false -> Q 0 (set_dev (dev_set_lock l true (g_aesd_device s)) s)) ->
  wp C (mutex_lock_interruptible l) Q s.
Proof.
  intros Hl Hi Ha. unfold mutex_lock_interruptible. wp_step. apply (wp_ask (S := K) C (QInterrupted l)). intros [] Hc; [by apply wp_ret, Hi|].
  eapply wp_act; [simpl; by rewrite Hl|]. by apply Ha.
Qed.

Lemma wp_unlock l (Q : unit -> kst -> Prop) s :
  lock_held l (g_aesd_device s) = true ->
  Q tt (set_dev (dev_set_lock l false (g_aesd_device s)) s) ->
  wp C (mutex_unlock l) Q s.
Proof. intros Hl Ha. by eapply wp_act; [simpl; by rewrite Hl|]. Qed.

(** The calls that only touch memory, with every access within [R]. *)
Section guarded.
Context (R : kst -> kst -> Prop) (HR : forall s, R s s).

Lemma wps_kzalloc n (Q : Z -> kst -> Prop) s :
  0 < n ->
  (C s (QKzalloc n) 0 -> Q 0 s) ->
  (forall p, ZERO_SIZE_PTR < p -> kheap s !! p = None ->
     heap_bytes (kheap s) + n < 2 ^ 63 ->
     let s' := set_heap (<[p := zeros n]> (kheap s)) s in R s s' /\ Q p s') ->
  wps C R (kzalloc n) Q s.
Proof.
  intros Hn Hf Hs. unfold kzalloc. apply wps_bind, (wps_ask (S := K)). intros p Hp. simpl in p.
  destruct (HC _ _ _ Hp) as [->|[[]|(_ & Hgt & Hfree & Hb)]]; [by apply wps_ret, Hf|lia|].
  pose proof Hgt. unfold ZERO_SIZE_PTR in Hgt.
  destruct (Z.eqb_spec p 0); [lia|]. destruct (Z.eqb_spec p ZERO_SIZE_PTR); [lia|].
  destruct (Hs p) as [Hr HQ]; [done..|]. apply wps_bind. by eapply wps_act.
Qed.

Lemma wps_kfree p bs (Q : unit -> kst -> Prop) s :
  kheap s !! p = Some bs -> ZERO_SIZE_PTR < p ->
  R s (set_heap (delete p (kheap s)) s) -> Q tt (set_heap (delete p (kheap s)) s) ->
  wps C R (kfree p) Q s.
Proof.
  intros Hp Hgt Hr Ha. pose proof Hgt. unfold ZERO_SIZE_PTR in Hgt. unfold kfree.
  destruct (Z.eqb_spec p 0); [lia|]. destruct (Z.eqb_spec p ZERO_SIZE_PTR); [lia|].
  by eapply wps_act; [by rewrite release_live by eauto|..].
Qed.

Lemma wps_kload p off n bs (Q : bytes -> kst -> Prop) s :
  kheap s !! p = Some bs -> ZERO_SIZE_PTR < p ->
  0 <= off -> 0 <= n -> off + n <= Z.of_nat (length bs) ->
  Q (take (Z.to_nat n) (drop (Z.to_nat off) bs)) s ->
  wps C R (kload p off n) Q s.
Proof.
  unfold ZERO_SIZE_PTR. intros Hp Hgt Ho Hn Hl Ha.
  by eapply wps_act; [by rewrite (load_within p off n bs) by (done || lia)|..].
Qed.

Lemma wps_kstore p off new bs (Q : unit -> kst -> Prop) s :
  kheap s !! p = Some bs -> ZERO_SIZE_PTR < p ->
  0 <= off -> off + Z.of_nat (length new) <= Z.of_nat (length bs) ->
  let s' := set_heap (<[p := take (Z.to_nat off) bs ++ new
              ++ drop (Z.to_nat off + length new) bs]> (kheap s)) s in
  R s s' -> Q tt s' -> wps C R (kstore p off new) Q s.
Proof.
  unfold ZERO_SIZE_PTR. intros Hp Hgt Ho Hl Hr Ha.
  by eapply wps_act; [by rewrite (store_within p off new bs) by (done || lia)|..].
Qed.

(** The whole user buffer lands after the first [off] bytes of the block, or
    some bytes are missing and the block's content does not matter. *)
Lemma wps_copy_from_user p off ub bs (Q : Z -> kst -> Prop) s :
  kheap s !! p = Some bs -> ZERO_SIZE_PTR < p ->
  0 <= off -> off + Z.of_nat (length ub) = Z.of_nat (length bs) ->
  (forall bs', R s (set_heap (<[p := bs']> (kheap s)) s)) ->
  (C s (QCopyFromUser ub (Z.of_nat (length ub))) 0 ->
     Q 0 (set_heap (<[p := take (Z.to_nat off) bs ++ ub]> (kheap s)) s)) ->
  (forall (l : Z) bs', C s (QCopyFromUser ub (Z.of_nat (length ub))) l -> l <> 0 ->
     Q l (set_heap (<[p := bs']> (kheap s)) s)) ->
  wps C R (copy_from_user p off ub (Z.of_nat (length ub))) Q s.
Proof.
  intros Hp Hgt Ho Hl Hr Hok Hf. unfold copy_from_user. apply wps_bind, (wps_ask (S := K)). intros l Hcl. simpl in l.
  destruct (HC _ _ _ Hcl) as [Hl1 Hl2]; [lia|].
  apply wps_bind. eapply wps_kstore; [done | done | done | |by apply Hr|].
  - rewrite length_app, length_take. unfold zeros. rewrite length_replicate. lia.
  - apply wps_ret. destruct (decide (l = 0)) as [->|Hne]; [|by apply Hf].
    rewrite Z.sub_0_r, Nat2Z.id, firstn_all. simpl.
    rewrite (drop_ge bs), !app_nil_r by (rewrite length_app; lia). by apply Hok.
Qed.

Lemma wps_get_dev {A} (f : aesd_dev -> A) (Q : A -> kst -> Prop) s :
  Q (f (g_aesd_device s)) s -> wps C R (get_dev f) Q s.
Proof. intros HQ. by eapply wps_act. Qed.

Lemma wps_upd_dev f (Q : unit -> kst -> Prop) s :
  R s (set_dev (f (g_aesd_device s)) s) -> Q tt (set_dev (f (g_aesd_device s)) s) ->
  wps C R (upd_dev f) Q s.
Proof. intros Hr HQ. by eapply wps_act. Qed.

End guarded.

(** The same without regard to what each access does. *)
Lemma wp_kzalloc n Q s :
  0 < n ->
  (C s (QKzalloc n) 0 -> Q 0 s) ->
  (forall p, ZERO_SIZE_PTR < p -> kheap s !! p = None ->
     heap_bytes (kheap s) + n < 2 ^ 63 ->
     Q p (set_heap (<[p := zeros n]> (kheap s)) s)) ->
  wp C (kzalloc n) Q s.
Proof. intros. apply (wps_wp C (fun _ _ => True)), wps_kzalloc; eauto. Qed.

Lemma wp_kfree p bs (Q : unit -> kst -> Prop) s :
  kheap s !! p = Some bs -> ZERO_SIZE_PTR < p ->
  Q tt (set_heap (delete p (kheap s)) s) -> wp C (kfree p) Q s.
Proof. intros. eapply (wps_wp C (fun _ _ => True)), wps_kfree; eauto. Qed.

Lemma wp_kload p off n bs (Q : bytes -> kst -> Prop) s :
  kheap s !! p = Some bs -> ZERO_SIZE_PTR < p ->
  0 <= off -> 0 <= n -> off + n <= Z.of_nat (length bs) ->
  Q (take (Z.to_nat n) (drop (Z.to_nat off) bs)) s ->
  wp C (kload p off n) Q s.
Proof. intros. eapply (wps_wp C (fun _ _ => True)), wps_kload; eauto. Qed.

Lemma wp_kstore p off new bs (Q : unit -> kst -> Prop) s :
  kheap s !! p = Some bs -> ZERO_SIZE_PTR < p ->
  0 <= off -> off + Z.of_nat (length new) <= Z.of_nat (length bs) ->
  Q tt (set_heap (<[p := take (Z.to_nat off) bs ++ new
          ++ drop (Z.to_nat off + length new) bs]> (kheap s)) s) ->
  wp C (kstore p off new) Q s.
Proof. intros. eapply (wps_wp C (fun _ _ => True)), wps_kstore; eauto. Qed.

(** A copy to the user, of a block that stays as it is. *)
Lemma reads_copy_to_user (J : kst -> Prop) p off n bs (Q : Z * bytes -> Prop) :
  (forall s, J s -> kheap s !! p = Some bs) -> ZERO_SIZE_PTR < p ->
  0 <= off -> 0 <= n -> off + n <= Z.of_nat (length bs) ->
  Q (0, take (Z.to_nat n) (drop (Z.to_nat off) bs)) ->
  (forall s (l : Z) out, C s (QCopyToUser n) l -> l <> 0 ->
     prefix out (take (Z.to_nat n) (drop (Z.to_nat off) bs)) -> Q (l, out)) ->
  reads C J (copy_to_user p off n) Q.
Proof.
  unfold ZERO_SIZE_PTR. intros Hp Hgt Ho Hn Hl Hok Hf. unfold copy_to_user.
  apply reads_bind, (reads_ask (S := K)). intros s l HJ Hcl. simpl in l. apply reads_bind.
  eapply reads_act.
  { intros s' HJ'. by rewrite (load_within p off n bs) by (auto || lia). }
  apply reads_ret. destruct (decide (l = 0)) as [->|Hne].
  - by rewrite Z.sub_0_r, take_take, Nat.min_id.
  - eapply Hf; [done | done | apply prefix_take].
Qed.

(** The plain accesses of the device. *)
Lemma wp_get_dev {A} (f : aesd_dev -> A) (Q : A -> kst -> Prop) s :
  Q (f (g_aesd_device s)) s -> wp C (get_dev f) Q s.
Proof. done. Qed.

Lemma wp_upd_dev f (Q : unit -> kst -> Prop) s :
  Q tt (set_dev (f (g_aesd_device s)) s) -> wp C (upd_dev f) Q s.
Proof. done. Qed.

End rules.

(** Sequencing and plain accesses of the device; what [R] allows is left. *)
Ltac wps_step :=
  cbn beta iota; lazymatch goal with
  | |- wps _ _ (mbind _ _) _ _ => apply wps_bind
  | |- wps _ _ (mret _) _ _ => apply wps_ret
  | |- wps _ _ (get_dev _) _ _ => apply wps_get_dev; [by auto|]
  | |- wps _ _ (upd_dev _) _ _ => apply wps_upd_dev; [by auto|]
  end; cbn beta iota zeta.
Ltac wps_steps := repeat wps_step.

Ltac wp_hook ::=
  lazymatch goal with
  | |- wp _ (get_dev _) _ _ => apply wp_get_dev
  | |- wp _ (upd_dev _) _ _ => apply wp_upd_dev
  end.

(** The goals of [keeps]: no access changes the part of the state looked at. *)
Ltac solve_act H :=
  cbn in H;
  repeat match type of H with
  | (?r ≫= _) = Ok _ => destruct r; [cbn [mbind res_bind] in H|done]
  end;
  repeat case_match; simplify_eq/=; done.

Ltac keeps_step :=
  cbn beta iota; first
    [ exact I
    | apply keeps_bind; [|intros ?]
    | match goal with |- keeps _ (match ?x with _ => _ end) => destruct x end
    | match goal with |- keeps _ (if ?b then _ else _) => destruct b end
    | progress unfold mutex_lock_interruptible, mutex_unlock, kzalloc, kfree, kload, kstore,
        copy_from_user, copy_to_user, upd_dev, get_dev, deref, of_res, get, modify, ask, act
    | split; [intros ? ? ? Hact; solve_act Hact|intros ?]
    | intros ? ].

End DriverSpec.
