(* ===== verification/DriverWrite.v ===== *)
(** * The character device driver: writes

    [aesd_write] implements the abstract write, on every branch; the branch
    where the copy of appended data fails leaves a dangling pointer. *)

From S2P Require Import Prelude Interleave CircularBuffer Memory Driver DriverSpec.

Module DriverWrite.
Import Interleave CircularBuffer Memory Driver DriverSpec.

(** The most bytes the kernel passes to a file's write operation
    ([MAX_RW_COUNT] of [<linux/fs.h>]). *)
Definition MAX_RW_COUNT : Z := 2147479552.

(** A user buffer the kernel passes: not empty here, since a write of no bytes
    is a case of its own ([write_empty_faults]). *)
Definition user_data (data : bytes) : Prop :=
  0 < Z.of_nat (length data) <= MAX_RW_COUNT.

(** What a write may end in, with the answers of the kernel that lead there. *)
Inductive write_outcome (C : contract K) (a : dspec) (data : bytes) : Z -> kst -> Prop :=
| WDone s :
    (exists s0, C s0 (QCopyFromUser data (Z.of_nat (length data))) 0) ->
    (exists s0, C s0 (QInterrupted BufLock) false) ->
    represents s (spec_write a data) ->
    write_outcome C a data (Z.of_nat (length data)) s
| WInterrupted s :
    (exists s0, C s0 (QInterrupted EntryLock) true) ->
    represents s a -> write_outcome C a data (- ERESTARTSYS) s
| WNoMemory s :
    (exists s0 n, C s0 (QKzalloc n) 0 /\ 0 <= n /\
       heap_bytes (kheap s0) + n
         = spec_bytes a + Z.of_nat (length (pending a)) + Z.of_nat (length data)) ->
    represents s a -> write_outcome C a data (- ENOMEM) s
| WFault s :
    (exists s0 l, C s0 (QCopyFromUser data (Z.of_nat (length data))) l /\ l <> 0) ->
    pending a = [] -> represents s a -> write_outcome C a data (- EFAULT) s
| WFaultDangling s :
    (exists s0 l, C s0 (QCopyFromUser data (Z.of_nat (length data))) l /\ l <> 0) ->
    pending a <> [] -> dangling a s -> idle s -> write_outcome C a data (- EFAULT) s
| WAppended s :
    (exists s0, C s0 (QInterrupted BufLock) true) ->
    represents s (spec_append a data) -> write_outcome C a data (- EINTR) s.

(** ** Lemmas on owned blocks *)

Lemma owned_None cbs : owned cbs None = cbs.
Proof. apply app_nil_r. Qed.

Lemma heap_bytes_owned s cbs pend :
  drv_rel s cbs pend -> heap_bytes (kheap s) = blocks_bytes (owned cbs pend).
Proof. intros [_ _ Hh Hnd _ _]. by rewrite Hh, heap_bytes_list. Qed.

Lemma blocks_bytes_concat cbs : blocks_bytes cbs = Z.of_nat (length (concat cbs.*2)).
Proof.
  induction cbs as [|[p bs] cbs IH]; [done|].
  rewrite fmap_cons. cbn [concat snd].
  change (blocks_bytes ((p, bs) :: cbs)) with (Z.of_nat (length bs) + blocks_bytes cbs).
  by rewrite length_app, Nat2Z.inj_add, IH.
Qed.

Lemma heap_bytes_spec s cbs pend :
  drv_rel s cbs pend -> heap_bytes (kheap s) = spec_bytes (abs cbs pend).
Proof.
  intros Hr. rewrite (heap_bytes_owned _ _ _ Hr). unfold owned, spec_bytes.
  rewrite blocks_bytes_app, blocks_bytes_concat. f_equal. destruct pend; simpl; lia.
Qed.

Lemma owned_lookup s cbs pend p bs :
  drv_rel s cbs pend -> (p, bs) ∈ owned cbs pend -> kheap s !! p = Some bs.
Proof.
  intros [_ _ Hh Hnd _ _] Hin. rewrite Hh. by apply elem_of_list_to_map_1.
Qed.

Lemma owned_fresh s cbs pend p :
  drv_rel s cbs pend -> kheap s !! p = None -> p ∉ (owned cbs pend).*1.
Proof. intros [_ _ Hh _ _ _] Hp. rewrite Hh in Hp. by apply not_elem_of_list_to_map. Qed.

(** The state in which [data] has been added to the pending entry, in a new
    block [p]. *)
Lemma drv_append s s' cbs pend p data :
  drv_rel s cbs pend -> user_data data ->
  ZERO_SIZE_PTR < p -> kheap s !! p = None ->
  heap_bytes (kheap s) + Z.of_nat (length (from_option snd [] pend ++ data)) < 2 ^ 63 ->
  buf (g_aesd_device s') = buf (g_aesd_device s) ->
  dentry (g_aesd_device s') = mk_entry (p, from_option snd [] pend ++ data) ->
  kheap s' = <[p := from_option snd [] pend ++ data]> (list_to_map cbs) ->
  drv_rel s' cbs (Some (p, from_option snd [] pend ++ data)).
Proof.
  intros Hr [Hd _] Hp Hfree Hb Hbuf He Hh.
  pose proof (owned_fresh _ _ _ _ Hr Hfree) as Hnew.
  rewrite (heap_bytes_owned _ _ _ Hr) in Hb.
  destruct Hr as [Hcb _ _ Hnd Hblk Hbytes]. unfold owned in *.
  rewrite fmap_app in *. rewrite Forall_app in Hblk. rewrite blocks_bytes_app in *.
  apply NoDup_app in Hnd as (Hnd & _ & _). apply not_elem_of_app in Hnew as [Hnew _].
  pose proof (blocks_bytes_nonneg (option_list pend)).
  split; unfold owned; simpl.
  - by rewrite Hbuf.
  - done.
  - rewrite Hh. rewrite (list_to_map_proper (cbs ++ _) ((p, from_option snd [] pend ++ data) :: cbs)).
    + done.
    + rewrite fmap_app. simpl. apply NoDup_app. split_and!; [done| |apply NoDup_singleton].
      intros x Hx ->%list_elem_of_singleton. done.
    + by rewrite <- Permutation_cons_append.
  - rewrite fmap_app. simpl. apply NoDup_app. split_and!; [done| |apply NoDup_singleton].
    intros x Hx ->%list_elem_of_singleton. done.
  - apply Forall_app. split; [by apply Hblk|]. apply Forall_singleton. split; [done|].
    simpl. destruct data; [simpl in Hd; lia|]. by destruct (from_option snd [] pend).
  - rewrite blocks_bytes_app. simpl. lia.
Qed.

(** Bounds of the pending entry. *)
Lemma pend_bounds s cbs p bs :
  drv_rel s cbs (Some (p, bs)) ->
  kheap s !! p = Some bs /\ ZERO_SIZE_PTR < p /\ 0 < Z.of_nat (length bs) < 2 ^ 63
  /\ (p ∉ cbs.*1) /\ NoDup cbs.*1 /\ delete p (kheap s) = list_to_map cbs.
Proof.
  intros Hr. assert ((p, bs) ∈ owned cbs (Some (p, bs))) as Hin.
  { apply elem_of_app. right. by left. }
  pose proof (owned_lookup _ _ _ _ _ Hr Hin) as Hl.
  destruct Hr as [_ _ Hh Hnd Hblk Hbytes].
  rewrite Forall_forall in Hblk. destruct (Hblk _ Hin) as [Hp Hne].
  unfold owned in *. rewrite blocks_bytes_app in Hbytes. simpl in *.
  pose proof (blocks_bytes_nonneg cbs).
  split_and!; [done | done | destruct bs; simpl in *; [done|lia] | lia | | |].
  - rewrite fmap_app in Hnd. apply NoDup_app in Hnd as (_ & Hnd & _).
    intros Hc. apply (Hnd _ Hc). by left.
  - rewrite fmap_app in Hnd. by apply NoDup_app in Hnd as [Hnd _].
  - rewrite Hh. rewrite list_heap_delete by done. by rewrite app_nil_r.
Qed.

(** ** The parts of a write *)

Section write.
Context (C : contract K) (HC : forall s q a, C s q a -> kernel s q a).

(** The state after [dev->entry.size += count]. *)
Definition bump (count : Z) (s : kst) : kst :=
  set_dev (dev_set_entry (Entry (buffptr (dentry (g_aesd_device s)))
    (u64 (esize (dentry (g_aesd_device s)) + count))) (g_aesd_device s)) s.

Definition same_locks (s s' : kst) : Prop :=
  buf_lock (g_aesd_device s') = buf_lock (g_aesd_device s)
  /\ entry_lock (g_aesd_device s') = entry_lock (g_aesd_device s).

(** What the others see of the first half of a write: the buffer and the blocks of
    its entries stay as they are. *)
Definition keeps_entries (cbs : list (Z * bytes)) (s s' : kst) : Prop :=
  buf (g_aesd_device s') = buf (g_aesd_device s) /\ same_locks s s'
  /\ forall q, q ∈ cbs.*1 -> kheap s' !! q = kheap s !! q.

Lemma keeps_entries_refl cbs s : keeps_entries cbs s s.
Proof. done. Qed.

Lemma keeps_entries_insert cbs s p bs :
  p ∉ cbs.*1 -> keeps_entries cbs s (set_heap (<[p := bs]> (kheap s)) s).
Proof. intros Hp. split_and!; [done..|]. intros q Hq. apply lookup_insert_ne. by intros ->. Qed.

Lemma keeps_entries_delete cbs s p :
  p ∉ cbs.*1 -> keeps_entries cbs s (set_heap (delete p (kheap s)) s).
Proof. intros Hp. split_and!; [done..|]. intros q Hq. apply lookup_delete_ne. by intros ->. Qed.

Lemma keeps_entries_dentry cbs s e :
  keeps_entries cbs s (set_dev (dev_set_entry e (g_aesd_device s)) s).
Proof. done. Qed.

Hint Resolve keeps_entries_refl keeps_entries_insert keeps_entries_delete
  keeps_entries_dentry : core.

Definition data_outcome (s : kst) (cbs : list (Z * bytes)) (pend : option (Z * bytes))
    (data : bytes) (r : Z + unit) (s' : kst) : Prop :=
  same_locks s s' /\
  match r with
  | inr _ => (exists s0, C s0 (QCopyFromUser data (Z.of_nat (length data))) 0)
             /\ exists p, drv_rel (bump (Z.of_nat (length data)) s') cbs
                         (Some (p, from_option snd [] pend ++ data))
  | inl err =>
      (err = - ENOMEM /\ drv_rel s' cbs pend /\
         exists s0 n, C s0 (QKzalloc n) 0 /\ 0 <= n /\
           heap_bytes (kheap s0) + n
             = heap_bytes (kheap s) + Z.of_nat (length (from_option snd [] pend))
               + Z.of_nat (length data))
      \/ (err = - EFAULT
          /\ (exists s0 l, C s0 (QCopyFromUser data (Z.of_nat (length data))) l /\ l <> 0)
          /\ match pend with None => drv_rel s' cbs pend | Some _ => dangling (abs cbs pend) s' end)
  end.

Lemma drv_rel_heap_id s h cbs pend :
  drv_rel s cbs pend -> h = kheap s -> drv_rel (set_heap h s) cbs pend.
Proof. intros [] ->. by split. Qed.

Lemma wps_write_data_new s cbs data :
  drv_rel s cbs None -> user_data data ->
  wps C (keeps_entries cbs) (write_data data (Z.of_nat (length data)))
    (data_outcome s cbs None data) s.
Proof.
  intros Hr Hd. pose proof Hd as [Hd1 Hd2]. unfold write_data.
  wps_steps. rewrite (dr_entry _ _ _ Hr). simpl Z.eqb. cbn beta iota.
  wps_step. apply (wps_kzalloc C HC); [done | |].
  { intros Hf. wps_steps. split; [done|]. left. split_and!; [done..|].
    exists s. eexists. split; [exact Hf|]. simpl. lia. }
  intros p Hp Hfree Hb. pose proof Hp. unfold ZERO_SIZE_PTR in Hp.
  pose proof (owned_fresh _ _ _ _ Hr Hfree) as Hnew. rewrite owned_None in Hnew.
  split; [by auto|]. destruct (Z.eqb_spec p 0); [lia|].
  wps_step. eapply (wps_copy_from_user C HC); [by apply lookup_insert_eq | done | done | |by auto| |].
  { unfold zeros. rewrite length_replicate. lia. }
  - intros Hc. change (negb (0 =? 0)) with false. wps_steps. split; [done|]. split; [by eauto|]. exists p.
    apply (drv_append s _ cbs None); try done; simpl.
    + by rewrite Z.add_0_l, u64_small by (unfold MAX_RW_COUNT in *; lia).
    + rewrite insert_insert_eq. f_equal.
      rewrite (dr_heap _ _ _ Hr). by rewrite owned_None.
  - intros l bs' Hl Hne. destruct (Z.eqb_spec l 0); [done|]. simpl negb. cbn beta iota.
    wps_step. eapply wps_kfree; [by apply lookup_insert_eq | done | by auto |]. wps_steps.
    split; [done|]. right. split; [done|]. split; [eauto|].
    apply (drv_rel_heap_id s); [done|]. simpl.
    by rewrite insert_insert_eq, delete_insert_id.
Qed.

Lemma wps_write_data_append s cbs p0 bs data :
  drv_rel s cbs (Some (p0, bs)) -> user_data data ->
  wps C (keeps_entries cbs) (write_data data (Z.of_nat (length data)))
    (data_outcome s cbs (Some (p0, bs)) data) s.
Proof.
  intros Hr Hd. pose proof Hd as [Hd1 Hd2].
  destruct (pend_bounds _ _ _ _ Hr) as (Hl0 & Hp0 & Hlen & Hnin & Hnd & Hdel).
  pose proof Hp0 as Hp0'. unfold ZERO_SIZE_PTR in Hp0'.
  unfold write_data. wps_steps. rewrite (dr_entry _ _ _ Hr).
  cbn [pend_entry from_option mk_entry buffptr esize fst snd].
  destruct (Z.eqb_spec p0 0); [lia|].
  rewrite u64_small by (unfold MAX_RW_COUNT in *; lia).
  wps_step. apply (wps_kzalloc C HC); [lia | |].
  { intros Hf. wps_steps. split; [done|]. left. split_and!; [done..|].
    exists s. eexists. split; [exact Hf|]. simpl. lia. }
  intros p Hp Hfree Hb. pose proof Hp. unfold ZERO_SIZE_PTR in Hp.
  pose proof (owned_fresh _ _ _ _ Hr Hfree) as Hnew. unfold owned in Hnew.
  rewrite fmap_app, not_elem_of_app in Hnew. destruct Hnew as [Hnew _].
  split; [by auto|]. destruct (Z.eqb_spec p 0); [lia|].
  assert (p0 <> p) as Hne by congruence.
  wps_step. eapply (wps_kload C _ (keeps_entries_refl cbs) p0 _ _ bs);
    [simpl; by rewrite lookup_insert_ne | done | lia.. |].
  change (Z.to_nat 0) with 0%nat. rewrite drop_0, Nat2Z.id, firstn_all.
  wps_step. eapply wps_kstore; [by apply lookup_insert_eq | done | lia | |by auto|].
  { unfold zeros. rewrite length_replicate. lia. }
  wps_step. eapply wps_kfree; [simpl; by rewrite insert_insert_eq, lookup_insert_ne | done |by auto|].
  cbn [kheap set_heap]. rewrite insert_insert_eq.
  change (Z.to_nat 0) with 0%nat. cbn [take app].
  wps_step. eapply (wps_copy_from_user C HC);
    [simpl; rewrite lookup_delete_ne by done; by apply lookup_insert_eq|done|lia| |by auto| |].
  { unfold zeros. rewrite length_app, length_drop, length_replicate. lia. }
  - intros Hc. change (negb (0 =? 0)) with false. wps_steps. split; [done|]. split; [by eauto|]. exists p.
    apply (drv_append s _ cbs (Some (p0, bs))); try done; simpl.
    + rewrite length_app. lia.
    + rewrite u64_small by (unfold MAX_RW_COUNT in *; lia).
      unfold mk_entry. simpl. f_equal. rewrite length_app. lia.
    + rewrite Nat2Z.id, take_app_length.
      rewrite delete_insert_ne, insert_insert_eq by done. by rewrite Hdel.
  - intros l bs' Hl Hnz. destruct (Z.eqb_spec l 0); [done|]. simpl negb. cbn beta iota.
    wps_step. eapply wps_kfree; [by apply lookup_insert_eq | done | by auto |]. wps_steps.
    split; [done|]. right. split; [done|]. split; [eauto|].
    exists cbs. simpl. rewrite (dr_entry _ _ _ Hr). simpl.
    split_and!; [apply (dr_buf _ _ _ Hr) | done | | done | done | done | done | lia | lia].
    rewrite (delete_insert_ne _ p0 p) by done. rewrite insert_insert_eq, delete_insert_eq.
    by rewrite delete_id by by rewrite lookup_delete_ne.
Qed.

Lemma wps_write_data s cbs pend data :
  drv_rel s cbs pend -> user_data data ->
  wps C (keeps_entries cbs) (write_data data (Z.of_nat (length data)))
    (data_outcome s cbs pend data) s.
Proof.
  destruct pend as [[p0 bs]|]; [apply wps_write_data_append | apply wps_write_data_new].
Qed.

(** Reading the last byte of the pending entry. *)
Lemma last_byte (bs : bytes) :
  bs <> [] ->
  take (Z.to_nat 1) (drop (Z.to_nat (Z.of_nat (length bs) - 1)) bs) = [newline]
  <-> last bs = Some newline.
Proof.
  intros Hne. destruct (exists_last Hne) as (l & b & ->).
  rewrite length_app. simpl length.
  replace (Z.to_nat (Z.of_nat (length l + 1) - 1)) with (length l) by lia.
  rewrite drop_app_length, last_snoc. simpl. naive_solver.
Qed.

(** The state after a push: the pending block becomes the newest entry. *)
Lemma drv_push_room s b cbs p bs :
  drv_rel s cbs (Some (p, bs)) ->
  cb_rep b (mk_entry <$> (cbs ++ [(p, bs)])) ->
  drv_rel (set_dev (dev_set_entry (Entry 0 0) (dev_set_buf b (g_aesd_device s))) s)
    (cbs ++ [(p, bs)]) None.
Proof.
  intros [Hcb He Hh Hnd Hblk Hbytes] Hb.
  split; unfold owned in *; simpl in *; by rewrite ?app_nil_r.
Qed.

Lemma drv_push_full s b c cbs p bs :
  drv_rel s (c :: cbs) (Some (p, bs)) ->
  cb_rep b (mk_entry <$> (cbs ++ [(p, bs)])) ->
  drv_rel (set_dev (dev_set_entry (Entry 0 0) (dev_set_buf b (g_aesd_device s)))
             (set_heap (delete c.1 (kheap s)) s)) (cbs ++ [(p, bs)]) None.
Proof.
  intros [Hcb He Hh Hnd Hblk Hbytes] Hb. destruct c as [q qs].
  pose proof (list_heap_delete [] (cbs ++ [(p, bs)]) q qs Hnd) as Hdel.
  unfold owned in *. apply NoDup_cons in Hnd as [Hq Hnd]. inversion Hblk; subst.
  split; unfold owned in *; rewrite ?app_nil_r; simpl in *; [done.. | | done | done | lia].
  by rewrite Hh.
Qed.

Lemma wp_write_push s cbs p bs :
  drv_rel s cbs (Some (p, bs)) ->
  wp C write_push (fun _ s' => same_locks s s' /\
    exists cbs' pend', drv_rel s' cbs' pend'
      /\ abs cbs' pend' = spec_commit (abs cbs (Some (p, bs)))) s.
Proof.
  intros Hr. destruct (pend_bounds _ _ _ _ Hr) as (Hl & Hp & Hlen & _ & _).
  unfold write_push. wp_steps. rewrite (dr_entry _ _ _ Hr).
  cbn [pend_entry from_option mk_entry buffptr esize fst snd].
  rewrite u64_small by lia.
  eapply wp_kload; [done | done | lia.. |].
  assert (bs <> []) as Hne by (intros ->; simpl in Hlen; lia).
  pose proof (last_byte bs Hne) as Hlast. unfold spec_commit. simpl pending.
  destruct (decide (last bs = Some newline)) as [Hnl|Hnl].
  2: { case_decide; [tauto|]. wp_steps. split; [done|]. eauto. }
  case_decide; [|tauto]. wp_steps.
  pose proof (dr_buf _ _ _ Hr) as Hcb.
  destruct (decide (length cbs = capacity)) as [Hfull|Hroom].
  - destruct cbs as [|c cbs]; [done|].
    destruct (add_entry_full _ _ _ (mk_entry (p, bs)) Hcb) as (b & Hadd & Hb);
      [by rewrite <- Hfull, <- (length_fmap mk_entry) | simpl; lia |].
    eapply wp_of_res; [done|]. wp_steps.
    assert (ZERO_SIZE_PTR < c.1 /\ c ∈ owned (c :: cbs) (Some (p, bs))) as [Hc Hin].
    { pose proof (dr_block _ _ _ Hr) as Hblk. inversion Hblk; subst. split; [tauto | by left]. }
    pose proof Hc as Hc'. unfold ZERO_SIZE_PTR in Hc'. destruct c as [q qs]. simpl in Hc'.
    cbn [mk_entry buffptr fst]. destruct (Z.eqb_spec q 0); [lia|]. simpl negb. cbn beta iota.
    eapply wp_kfree; [by eapply (owned_lookup s) | done |]. wp_steps.
    split; [done|]. exists (cbs ++ [(p, bs)]), None. split.
    + apply (drv_push_full s b (q, qs)); [done|]. by rewrite fmap_app.
    + unfold abs. cbn [committed pending from_option snd].
      rewrite lastn_app_full by (rewrite ?length_fmap; done || unfold capacity, MAX_OPS; lia).
      by rewrite fmap_app.
  - pose proof (rep_cap _ _ Hcb) as Hcap. rewrite length_fmap in Hcap.
    destruct (add_entry_room _ _ (mk_entry (p, bs)) Hcb) as (b & Hadd & Hb);
      [rewrite length_fmap; lia | simpl; lia |].
    eapply wp_of_res; [done|]. wp_steps. simpl negb. cbn beta iota. wp_steps.
    split; [done|]. exists (cbs ++ [(p, bs)]), None. split.
    + apply (drv_push_room s b); [done|]. by rewrite fmap_app.
    + unfold abs. cbn [committed pending from_option snd].
      rewrite lastn_all by (rewrite length_app, length_fmap; simpl; lia).
      by rewrite fmap_app.
Qed.

(** A push leaves the mutexes alone, with every access. *)
Lemma wps_write_push s cbs p bs :
  drv_rel s cbs (Some (p, bs)) ->
  wps C same_locks write_push (fun _ s' => exists cbs' pend', drv_rel s' cbs' pend'
      /\ abs cbs' pend' = spec_commit (abs cbs (Some (p, bs)))) s.
Proof.
  intros Hr. set (locks := fun s : st K => (buf_lock (g_aesd_device s), entry_lock (g_aesd_device s))).
  apply (wps_weaken (S := K) C (fun s s' => locks s' = locks s)); [by intros s1 s2 [= ? ?]|].
  apply (wps_keeps (S := K)); [unfold write_push; repeat keeps_step|].
  eapply wp_mono; [|by apply wp_write_push]. by intros _ s' [_ ?].
Qed.

(** The representation does not look at the locks. *)
Lemma drv_rel_proper s s' cbs pend :
  buf (g_aesd_device s') = buf (g_aesd_device s) ->
  dentry (g_aesd_device s') = dentry (g_aesd_device s) ->
  kheap s' = kheap s ->
  drv_rel s cbs pend -> drv_rel s' cbs pend.
Proof. intros Hb He Hh []. split; by rewrite ?Hb, ?He, ?Hh. Qed.

Definition unlock_entry (s : kst) : kst :=
  set_dev (dev_set_lock EntryLock false (g_aesd_device s)) s.

Lemma represents_unlock s cbs pend a :
  buf_lock (g_aesd_device s) = false -> drv_rel s cbs pend -> a = abs cbs pend ->
  represents (unlock_entry s) a.
Proof.
  intros Hb Hr ->. split; [done|]. exists cbs, pend. split; [|done].
  by apply (drv_rel_proper s).
Qed.

Lemma wp_write_locked s cbs pend data :
  drv_rel s cbs pend -> user_data data ->
  buf_lock (g_aesd_device s) = false -> entry_lock (g_aesd_device s) = true ->
  wp C (write_locked data (Z.of_nat (length data)))
    (fun r s' => entry_lock (g_aesd_device s') = true
       /\ write_outcome C (abs cbs pend) data r (unlock_entry s')) s.
Proof.
  intros Hr Hd Hbl Hel. unfold write_locked. wp_step.
  eapply wp_mono; [|by eapply wps_wp, (wps_write_data s cbs pend)].
  intros r s1 [[Hb1 He1] Ho]. rewrite Hbl in Hb1. rewrite Hel in He1.
  destruct r as [err|[]].
  - wp_steps. split; [done|]. destruct Ho as [(-> & Hr1 & Hf)|(-> & Hf & Hc)].
    + apply WNoMemory; [|by eapply represents_unlock].
      by rewrite <- (heap_bytes_spec s cbs pend Hr).
    + destruct pend as [[p0 bs]|].
      * destruct (pend_bounds _ _ _ _ Hr) as (_ & _ & Hlen & _).
        apply WFaultDangling; [done | | done | by split].
        simpl. intros ->. simpl in Hlen. lia.
      * apply WFault; [done | done|]. by eapply represents_unlock.
  - destruct Ho as [Hc [p Hr1]]. wp_steps. fold (bump (Z.of_nat (length data)) s1).
    set (s2 := bump _ s1) in *.
    assert (buf_lock (g_aesd_device s2) = false) as Hb2 by done.
    assert (entry_lock (g_aesd_device s2) = true) as He2 by done.
    clearbody s2. clear Hb1 He1 s1. apply wp_lock; [done | |].
    { intros Hi. simpl negb. wp_steps. split; [done|]. apply WAppended; [eauto|].
      by eapply represents_unlock. }
    intros Hni. simpl negb. wp_steps. eapply wp_mono.
    2: { eapply (wp_write_push _ cbs p). by apply (drv_rel_proper s2). }
    intros _ s3 [[Hb3 He3] (cbs' & pend' & Hr3 & Habs)]. simpl in Hb3, He3.
    wp_steps. apply wp_unlock; [done|]. wp_steps. simpl. split; [by rewrite He3|].
    destruct Hd as [_ Hd]. rewrite i64_small by (unfold MAX_RW_COUNT in *; lia).
    apply WDone; [done | by eauto |]. apply (represents_unlock _ cbs' pend'); [done | | by rewrite Habs].
    by apply (drv_rel_proper s3).
Qed.

(** A whole write. *)
Lemma wp_aesd_write s a f data :
  represents s a -> private_data f = Some DevPtr -> user_data data ->
  wp C (aesd_write f data (Z.of_nat (length data)))
    (fun r s' => write_outcome C a data r s') s.
Proof.
  intros [[Hbl Hel] (cbs & pend & Hr & ->)] Hf Hd. unfold aesd_write, deref.
  rewrite Hf. wp_steps. apply wp_lock; [done | |].
  { intros Hi. simpl negb. wp_steps. apply WInterrupted; [by eauto|].
    split; [done|]. eauto. }
  intros _. simpl negb. wp_steps. eapply wp_mono.
  2: { eapply (wp_write_locked _ cbs pend); try done. by apply (drv_rel_proper s). }
  intros r s1 [He1 Ho]. wp_steps. apply wp_unlock; [done|]. by wp_steps.
Qed.

End write.

(** ** Theorems *)

(** An answer the contract does not allow. *)
Ltac refute_answer :=
  exfalso; unfold kernel_ok, kernel_copy_fault, kernel_buf_interrupt, room in *;
  repeat match goal with
    | H : exists _, _ |- _ => destruct H
    | H : _ /\ _ |- _ => destruct H
    end; simpl in *;
  first [congruence | lia
        | match goal with H : _ -> _ <> _ |- _ => apply H; lia end
        | match goal with Hn : ?l <> 0, H : _ -> ?l = 0 |- _ => apply Hn, H; lia end ].

(** There is memory for the block a write allocates. *)
Definition write_room (a : dspec) (data : bytes) : Prop :=
  spec_bytes a + Z.of_nat (length (pending a)) + Z.of_nat (length data) < 2 ^ 63.

(** With the kernel's calls succeeding only one ending is left. *)
Lemma wp_write_refines s a f data :
  represents s a -> private_data f = Some DevPtr -> user_data data -> write_room a data ->
  wp kernel_ok (aesd_write f data (Z.of_nat (length data)))
    (fun r s' => r = Z.of_nat (length data) /\ represents s' (spec_write a data)) s.
Proof.
  intros Ha Hf Hd Hm. unfold write_room in Hm. pose proof Hd as [Hd1 _].
  eapply wp_mono; [|apply (wp_aesd_write kernel_ok ltac:(by intros ??? []) s a f data Ha Hf Hd)].
  intros r s' Hw. destruct Hw; [done|refute_answer..].
Qed.

(** With the copy failing while an entry is pending, only [-EFAULT] is. *)
Lemma wp_write_dangles s a f data :
  represents s a -> pending a <> [] -> private_data f = Some DevPtr -> user_data data ->
  write_room a data ->
  wp kernel_copy_fault (aesd_write f data (Z.of_nat (length data)))
    (fun r s' => r = - EFAULT /\ dangling a s' /\ idle s') s.
Proof.
  intros Ha Hp Hf Hd Hm. unfold write_room in Hm. pose proof Hd as [Hd1 _].
  eapply wp_mono; [|apply (wp_aesd_write kernel_copy_fault ltac:(by intros ??? []) s a f data Ha Hf Hd)].
  intros r s' Hw. destruct Hw; [refute_answer..|done|done|refute_answer].
Qed.

(** C1: whatever the kernel answers within its contract, a write of a valid
    user buffer returns, and it ends in one of: all the data written, a pending
    entry that ends in a newline being committed; nothing changed, with
    [-ERESTARTSYS], [-ENOMEM] or [-EFAULT]; the data appended but not committed,
    with [-EINTR]; or, for [-EFAULT] with data already pending, a dangling
    device. Each error comes with the kernel answer that caused it, and the
    mutexes are free again. *)
Theorem aesd_write_outcomes {X} (C : contract K) (o : env K X) s x a f data :
  (forall s q a, C s q a -> kernel s q a) -> respects C o ->
  represents s a -> private_data f = Some DevPtr -> user_data data ->
  exists r s' x',
    run o (aesd_write f data (Z.of_nat (length data))) s x = Ok (r, s', x')
    /\ write_outcome C a data r s'.
Proof. intros HC Ho Ha Hf Hd. eapply wp_run; [done|]. by apply wp_aesd_write. Qed.

(** C2: when the kernel's calls succeed, [aesd_write] returns the number of bytes
    given and implements the abstract write: the data joins the pending entry,
    and an entry that ends in a newline is committed, displacing the oldest of
    ten. The module's memory stays exactly the blocks of the entries held. *)
Theorem aesd_write_refines {X} (o : env K X) s x a f data :
  respects kernel_ok o ->
  represents s a -> private_data f = Some DevPtr -> user_data data -> write_room a data ->
  exists s' x',
    run o (aesd_write f data (Z.of_nat (length data))) s x
      = Ok (Z.of_nat (length data), s', x')
    /\ represents s' (spec_write a data).
Proof.
  intros Ho Ha Hf Hd Hm.
  destruct (wp_run kernel_ok o _ _ s x Ho (wp_write_refines s a f data Ha Hf Hd Hm))
    as (r & s' & x' & Hrun & -> & Hs). eauto.
Qed.

(** When the copy from the user fails while an entry is pending, the write
    returns [-EFAULT] and leaves the device pointing to a block it has freed. *)
Theorem aesd_write_fault_dangles {X} (o : env K X) s x a f data :
  respects kernel_copy_fault o ->
  represents s a -> pending a <> [] -> private_data f = Some DevPtr ->
  user_data data -> write_room a data ->
  exists s' x',
    run o (aesd_write f data (Z.of_nat (length data))) s x = Ok (- EFAULT, s', x')
    /\ dangling a s' /\ idle s'.
Proof.
  intros Ho Ha Hp Hf Hd Hm.
  destruct (wp_run kernel_copy_fault o _ _ s x Ho (wp_write_dangles s a f data Ha Hp Hf Hd Hm))
    as (r & s' & x' & Hrun & -> & Hw). eauto.
Qed.

(** ** Witnesses *)

Definition open_file : file := File (Some DevPtr).
Definition text (n : nat) : bytes := replicate n Byte.x61.
Definition line (n : nat) : bytes := text n ++ [newline].

Lemma aesd_write_outcomes_witness :
  exists r s' x',
    run good_kernel (aesd_write open_file (line 2) 3) (sample_state None) tt = Ok (r, s', x')
    /\ write_outcome kernel_ok (DSpec [] []) (line 2) r s'.
Proof.
  apply (aesd_write_outcomes kernel_ok good_kernel (sample_state None) tt (DSpec [] [])
           open_file (line 2) kernel_ok_kernel good_kernel_ok); [|done|done].
  by apply (sample_represents None).
Defined.

Lemma aesd_write_refines_witness :
  exists s' x',
    run good_kernel (aesd_write open_file (line 2) 3) (sample_state (Some (40, text 3))) tt
      = Ok (3, s', x')
    /\ represents s' (DSpec [text 5 ++ [newline]] []).
Proof.
  apply (aesd_write_refines good_kernel (sample_state (Some (40, text 3))) tt (DSpec [] (text 3))
           open_file (line 2) good_kernel_ok); [|done|done|done].
  by apply (sample_represents (Some (40, text 3))); [repeat constructor|].
Defined.

Lemma aesd_write_fault_dangles_witness :
  exists s' x',
    run (sample_kernel (fun _ => false) true) (aesd_write open_file (line 2) 3)
      (sample_state (Some (40, text 3))) tt = Ok (- EFAULT, s', x')
    /\ dangling (DSpec [] (text 3)) s' /\ idle s'.
Proof.
  apply (aesd_write_fault_dangles _ (sample_state (Some (40, text 3))) tt (DSpec [] (text 3))
           open_file (line 2) bad_kernel_fault); [|done|done|done|done].
  by apply (sample_represents (Some (40, text 3))); [repeat constructor|].
Defined.

End DriverWrite.
