(* ===== verification/DriverFaults.v ===== *)
(** * The character device driver: what its error paths leave behind

    A failed copy on the append path leaves the pending pointer dangling, and
    the next write then accesses freed memory ([dangling_write_faults] is about the
    two writes); a write of no bytes on an empty
    device reads before its block; a signal while waiting for the buffer's mutex
    reports an error for data that was kept. *)

From S2P Require Import Prelude CircularBuffer Memory Driver DriverSpec DriverWrite.

Module DriverFaults.
Import CircularBuffer Memory Driver DriverSpec DriverWrite.

(** ** Lemmas *)

(** A program that ends in fault [e] under every answer the contract allows. *)
Definition faults {A} (C : contract K) (p : prog K A) (e : fault) (s : kst) : Prop :=
  wpr C p (fun r => r = Err e) s.

Lemma faults_run {X A} C (o : env K X) (p : prog K A) e s x :
  respects C o -> faults C p e s -> run o p s x = Err e.
Proof.
  intros Ho Hf. pose proof (wpr_run C o p _ s x Ho Hf) as H.
  destruct (run o p s x) as [[[a s'] x']|]; congruence.
Qed.

Lemma faults_bind {A B} C (p : prog K A) (k : A -> prog K B) e s :
  faults C p e s -> faults C (p ≫= k) e s.
Proof.
  intros Hf. apply wpr_bind. eapply wpr_mono; [|exact Hf]. by intros r ->.
Qed.

Lemma faults_after {A B} C (p : prog K A) (k : A -> prog K B) e s :
  wp C p (fun a s' => faults C (k a) e s') s -> faults C (p ≫= k) e s.
Proof. apply wpr_bind_wp. Qed.

Lemma faults_act {B} C (f : kst -> res (B * kst)) e s :
  f s = Err e -> faults C (act (S := K) f) e s.
Proof. intros H. by eapply wpr_act_err. Qed.

Lemma kload_dead C p off n s :
  kheap s !! p = None -> p <> 0 -> n <> 0 -> faults C (kload p off n) OutOfBounds s.
Proof.
  intros Hp Hne Hn. apply faults_act. cbn beta.
  by rewrite load_dead.
Qed.

Lemma kstore_dead C p off bs s :
  kheap s !! p = None -> p <> 0 -> bs <> [] -> faults C (kstore p off bs) OutOfBounds s.
Proof.
  intros Hp Hne Hn. apply faults_act. cbn beta. by rewrite store_dead.
Qed.

Lemma copy_from_user_dead p off ub s :
  kheap s !! p = None -> p <> 0 -> ub <> [] ->
  faults kernel_ok (copy_from_user p off ub (Z.of_nat (length ub))) OutOfBounds s.
Proof.
  intros Hp Hne Hn. unfold copy_from_user. apply faults_after.
  apply (wp_ask (S := K) kernel_ok (QCopyFromUser ub _)). intros l [Hl ->]; [|lia].
  apply faults_bind, kstore_dead; [done | done |].
  rewrite Z.sub_0_r, Nat2Z.id, firstn_all. by destruct ub.
Qed.

(** ** The append after a failed copy *)

(** A dangling device points to no block, and has the room the abstract one has. *)
Lemma dangling_dead a s data :
  dangling a s -> user_data data -> write_room a data ->
  kheap s !! buffptr (dentry (g_aesd_device s)) = None
  /\ room s (esize (dentry (g_aesd_device s)) + Z.of_nat (length data)).
Proof.
  intros (cbs & _ & Hc & Hh & Hnd & _ & Hn & He & Hsz) [Hd _] Hr. rewrite Hh. split.
  - by apply not_elem_of_list_to_map_1.
  - unfold write_room, spec_bytes in Hr. split; [lia|].
    rewrite Hh, heap_bytes_list, blocks_bytes_concat, Hc by done. lia.
Qed.

Lemma dangling_write_data a s data :
  dangling a s -> user_data data -> write_room a data ->
  faults kernel_ok (write_data data (Z.of_nat (length data))) OutOfBounds s.
Proof.
  intros Hdg Hd Hwr. destruct (dangling_dead a s data Hdg Hd Hwr) as [Hdead Hroom].
  destruct Hdg as (cbs & _ & _ & _ & _ & Hp0 & _ & _ & Hsz). destruct Hd as [Hd1 Hd2]. unfold write_data. apply faults_after. wp_step.
  destruct (dentry (g_aesd_device s)) as [p0 sz] eqn:He. cbn [buffptr esize] in *.
  assert (data <> []) as Hne by (intros ->; simpl in Hd1; lia).
  pose proof Hp0 as Hp0'. unfold ZERO_SIZE_PTR in Hp0'.
  destruct (Z.eqb_spec p0 0); [lia|].
  rewrite u64_small by (unfold MAX_RW_COUNT in *; lia).
  apply faults_after, wp_kzalloc; [by auto | lia | by intros [_ Hne0]; destruct (Hne0 Hroom) |].
  intros p Hp Hfree Hb. pose proof Hp. unfold ZERO_SIZE_PTR in Hp.
  destruct (Z.eqb_spec p 0); [lia|].
  destruct (decide (p = p0)) as [->|Hpp].
  - (* the new block has the old address: it is freed before the copy *)
    apply faults_after. eapply wp_kload; [by apply lookup_insert_eq | done | lia | lia | |].
    { unfold zeros. rewrite length_replicate. lia. }
    apply faults_after. eapply wp_kstore; [by apply lookup_insert_eq | done | lia | |].
    { unfold zeros. rewrite length_take, length_drop, !length_replicate. lia. }
    apply faults_after. eapply wp_kfree; [by apply lookup_insert_eq | done |].
    apply faults_bind, copy_from_user_dead; [|lia|done]. by apply lookup_delete_eq.
  - apply faults_bind, kload_dead; [|lia|lia].
    simpl. by rewrite lookup_insert_ne.
Qed.

Lemma dangling_write a s f data :
  dangling a s -> idle s -> private_data f = Some DevPtr -> user_data data -> write_room a data ->
  faults kernel_ok (aesd_write f data (Z.of_nat (length data))) OutOfBounds s.
Proof.
  intros Hdg [Hb He] Hf Hd Hroom. unfold aesd_write, deref. rewrite Hf.
  apply faults_after, wp_ret, faults_after, wp_lock; [done | by intros [_ [=]] | intros _].
  apply faults_bind. unfold write_locked. apply faults_bind.
  by apply (dangling_write_data a).
Qed.

(** C36: a failed append leaves a use after free for every later writer. When data is
    pending and the copy of more data from the user fails, the write returns [-EFAULT];
    the next write, on a kernel whose calls all succeed, then accesses freed memory,
    wherever the kernel places the new block. *)
Theorem dangling_write_faults {X Y} (o1 : env K X) (o2 : env K Y) s x y a f data1 data2 :
  respects kernel_copy_fault o1 -> respects kernel_ok o2 ->
  represents s a -> pending a <> [] -> private_data f = Some DevPtr ->
  user_data data1 -> write_room a data1 -> user_data data2 -> write_room a data2 ->
  exists s1 x1,
    run o1 (aesd_write f data1 (Z.of_nat (length data1))) s x = Ok (- EFAULT, s1, x1)
    /\ run o2 (aesd_write f data2 (Z.of_nat (length data2))) s1 y = Err OutOfBounds.
Proof.
  intros Ho1 Ho2 Ha Hp Hf Hd1 Hr1 Hd2 Hr2.
  destruct (wp_run kernel_copy_fault o1 _ _ s x Ho1 (wp_write_dangles s a f data1 Ha Hp Hf Hd1 Hr1))
    as (r & s1 & x1 & Hrun & -> & Hdg & Hid).
  exists s1, x1. split; [done|]. apply (faults_run kernel_ok); [done|]. by apply (dangling_write a).
Qed.

(** ** A write of no bytes *)

Lemma pending_nil s cbs pend :
  drv_rel s cbs pend -> pending (abs cbs pend) = [] -> pend = None.
Proof.
  intros Hr Hp. destruct pend as [[p bs]|]; [|done].
  destruct (pend_bounds _ _ _ _ Hr) as (_ & _ & Hlen & _).
  simpl in Hp. subst bs. simpl in Hlen. lia.
Qed.

(** No block of the driver is at [ZERO_SIZE_PTR]. *)
Lemma zero_size_dead s cbs pend :
  drv_rel s cbs pend -> kheap s !! ZERO_SIZE_PTR = None.
Proof.
  intros [_ _ Hh _ Hblk _]. destruct (kheap s !! ZERO_SIZE_PTR) as [bs|] eqn:Hl; [|done].
  rewrite Hh in Hl. apply elem_of_list_to_map_2 in Hl. rewrite Forall_forall in Hblk.
  destruct (Hblk _ Hl) as [Hlt _]. simpl in Hlt. lia.
Qed.

Lemma empty_write_locked s cbs :
  drv_rel s cbs None -> buf_lock (g_aesd_device s) = false ->
  faults kernel_ok (write_locked [] 0) OutOfBounds s.
Proof.
  intros Hr Hbl. pose proof (zero_size_dead _ _ _ Hr) as Hz. unfold write_locked.
  apply faults_after. unfold write_data. wp_steps. rewrite (dr_entry _ _ _ Hr).
  cbn [pend_entry from_option null_entry buffptr esize]. simpl Z.eqb. cbn beta iota.
  unfold kzalloc. wp_steps. apply (wp_ask (S := K) kernel_ok (QKzalloc 0)).
  intros p [Hk Hne]. simpl in p.
  assert (room s 0) as Hroom.
  { split; [done|]. rewrite (heap_bytes_owned _ _ _ Hr). pose proof (dr_bytes _ _ _ Hr). lia. }
  specialize (Hne Hroom). destruct Hk as [->|[[_ ->]|[Hlt _]]]; [done| |lia].
  change (ZERO_SIZE_PTR =? 0) with false. change (ZERO_SIZE_PTR =? ZERO_SIZE_PTR) with true.
  wp_steps. change (ZERO_SIZE_PTR =? 0) with false. unfold copy_from_user. wp_steps.
  apply (wp_ask (S := K) kernel_ok (QCopyFromUser [] 0)). intros l [_ ->]; [|simpl; lia].
  wp_steps. eapply wp_act; [done|]. wp_steps. simpl negb. wp_steps.
  apply faults_after, wp_upd_dev, faults_after, wp_lock; [done | by intros [_ [=]] | intros _].
  simpl negb. cbn beta iota. apply faults_bind. unfold write_push.
  apply faults_after, wp_get_dev, faults_bind, kload_dead; done.
Qed.

(** C37: A write of no bytes to a device with nothing pending allocates no memory
    and then reads the byte before it. *)
Theorem aesd_write_empty_faults {X} (o : env K X) s x a f :
  respects kernel_ok o -> represents s a -> pending a = [] ->
  private_data f = Some DevPtr ->
  run o (aesd_write f [] 0) s x = Err OutOfBounds.
Proof.
  intros Ho [[Hb He] (cbs & pend & Hr & ->)] Hp Hf. apply (faults_run kernel_ok); [done|].
  pose proof (pending_nil _ _ _ Hr Hp) as ->.
  unfold aesd_write, deref. rewrite Hf.
  apply faults_after, wp_ret, faults_after, wp_lock; [done | by intros [_ [=]] | intros _].
  apply faults_bind. eapply empty_write_locked; [|done].
  by apply (drv_rel_proper s).
Qed.

(** ** A signal while waiting for the buffer's mutex *)

(** A write interrupted while it waits for the buffer's mutex reports
    [-EINTR] but has kept the data: writing it again, as the caller of a failed
    write does, leaves it twice in the device. *)
Theorem aesd_write_retry_duplicates {X Y} (o1 : env K X) (o2 : env K Y) s x y a f data :
  respects kernel_buf_interrupt o1 -> respects kernel_ok o2 ->
  represents s a -> private_data f = Some DevPtr -> user_data data ->
  write_room (spec_append a data) data ->
  exists s1 x1 s2 y2,
    run o1 (aesd_write f data (Z.of_nat (length data))) s x = Ok (- EINTR, s1, x1)
    /\ run o2 (aesd_write f data (Z.of_nat (length data))) s1 y
         = Ok (Z.of_nat (length data), s2, y2)
    /\ represents s2 (spec_commit (DSpec (committed a) (pending a ++ data ++ data))).
Proof.
  intros Ho1 Ho2 Ha Hf Hd Hm. pose proof Hd as [Hd1 _].
  assert (write_room a data) as Hm'.
  { unfold write_room, spec_bytes, spec_append in *. simpl in Hm. rewrite length_app in Hm. lia. }
  unfold write_room in Hm'.
  destruct (wp_run kernel_buf_interrupt o1 _ _ s x Ho1
    (wp_aesd_write kernel_buf_interrupt ltac:(by intros ??? []) s a f data Ha Hf Hd))
    as (r & s1 & x1 & Hrun & Hw).
  exists s1, x1. rewrite Hrun.
  assert (r = - EINTR /\ represents s1 (spec_append a data)) as [-> Ha1].
  { destruct Hw; [refute_answer..|done]. }
  destruct (wp_run kernel_ok o2 _ _ s1 y Ho2 (wp_write_refines s1 (spec_append a data) f data Ha1 Hf Hd Hm))
    as (r2 & s2 & y2 & Hrun2 & -> & Ha2).
  exists s2, y2. split_and!; [done..|].
  unfold spec_write, spec_append in Ha2. simpl in Ha2. by rewrite <- app_assoc in Ha2.
Qed.

(** ** Witnesses *)

Lemma dangling_write_faults_witness :
  exists s1 x1,
    run (sample_kernel (fun _ => false) true) (aesd_write open_file (line 2) 3)
      (sample_state (Some (40, text 3))) tt = Ok (- EFAULT, s1, x1)
    /\ run good_kernel (aesd_write open_file (line 1) 2) s1 tt = Err OutOfBounds.
Proof.
  apply (dangling_write_faults _ good_kernel (sample_state (Some (40, text 3))) tt tt
           (DSpec [] (text 3)) open_file (line 2) (line 1) bad_kernel_fault good_kernel_ok);
    [|done..].
  by apply (sample_represents (Some (40, text 3))); [repeat constructor|].
Defined.

Lemma aesd_write_empty_faults_witness :
  run good_kernel (aesd_write open_file [] 0) (sample_state None) tt = Err OutOfBounds.
Proof.
  apply (aesd_write_empty_faults good_kernel (sample_state None) tt (DSpec [] []) open_file
           good_kernel_ok); [|done|done].
  by apply (sample_represents None).
Defined.

Lemma aesd_write_retry_duplicates_witness :
  exists s1 x1 s2 y2,
    run (sample_kernel (fun l => bool_decide (l = BufLock)) false)
      (aesd_write open_file (line 1) 2) (sample_state None) tt = Ok (- EINTR, s1, x1)
    /\ run good_kernel (aesd_write open_file (line 1) 2) s1 tt = Ok (2, s2, y2)
    /\ represents s2 (DSpec [line 1 ++ line 1] []).
Proof.
  apply (aesd_write_retry_duplicates _ good_kernel (sample_state None) tt tt (DSpec [] [])
           open_file (line 1) interrupting_kernel good_kernel_ok); [|done..].
  by apply (sample_represents None).
Defined.

End DriverFaults.
