(* ===== verification/DriverRead.v ===== *)
(** * The character device driver: reads

    [aesd_read] returns the bytes of the committed entries from the file
    position on, a single entry's at most; reading until nothing is left
    returns all of them. *)

From S2P Require Import Prelude Interleave CircularBuffer Memory Driver DriverSpec DriverWrite.

Module DriverRead.
Import Interleave CircularBuffer Memory Driver DriverSpec DriverWrite.

(** What a read may end in: result, delivered bytes, new position. *)
Inductive read_outcome (C : contract K) (a : dspec) (pos count : Z)
    : Z * bytes * Z -> kst -> Prop :=
| RDone s :
    represents s a ->
    let out := spec_read a pos count in
    read_outcome C a pos count
      (Z.of_nat (length out), out, pos + Z.of_nat (length out)) s
| RInterrupted s :
    (exists s0, C s0 (QInterrupted BufLock) true) ->
    represents s a -> read_outcome C a pos count (- ERESTARTSYS, [], pos) s
| RFault s out :
    (exists s0 n l, C s0 (QCopyToUser n) l /\ l <> 0) ->
    prefix out (spec_read a pos count) ->
    represents s a -> read_outcome C a pos count (- EFAULT, out, pos) s.

(** ** Lemmas *)

Lemma total_mk_entry cbs : total (mk_entry <$> cbs) = blocks_bytes cbs.
Proof. induction cbs as [|[p bs] cbs IH]; simpl; [done|]. by rewrite <- IH. Qed.

(** The search of the specification is the search of the buffer. *)
Lemma read_locate cbs off count :
  read_entries cbs.*2 off count =
    match locate (mk_entry <$> cbs) off with
    | Some (j, k) =>
        from_option (fun pb => take (Z.to_nat count) (drop (Z.to_nat k) pb.2)) [] (cbs !! j)
    | None => []
    end.
Proof.
  revert off. induction cbs as [|[p bs] cbs IH]; intros off; simpl; [done|].
  destruct (off <? Z.of_nat (length bs)); [done|]. rewrite IH.
  by destruct (locate _ _) as [[j k]|].
Qed.

Lemma min_count count n : (if n >? count then count else n) = count `min` n.
Proof. rewrite Z.gtb_ltb. destruct (Z.ltb_spec count n); lia. Qed.

Lemma take_min_length {A} (l : list A) count n :
  n = Z.of_nat (length l) -> take (Z.to_nat count) l = take (Z.to_nat (count `min` n)) l.
Proof.
  intros ->. destruct (decide (count <= Z.of_nat (length l))).
  - by rewrite Z.min_l.
  - rewrite Z.min_r, Nat2Z.id, firstn_all by lia. apply take_ge. lia.
Qed.

(** Where the [j]th entry ends in all the data. *)
Lemma entry_end cbs j (p : Z) bs :
  cbs !! j = Some (p, bs) ->
  total (take j (mk_entry <$> cbs)) + Z.of_nat (length bs) <= blocks_bytes cbs.
Proof.
  intros Hj. rewrite <- (take_drop_middle cbs j _ Hj) at 2.
  rewrite blocks_bytes_app, <- fmap_take, total_mk_entry. simpl.
  pose proof (blocks_bytes_nonneg (drop (S j) cbs)). lia.
Qed.

(** What a read relies on: the buffer, and the blocks of its entries. *)
Record buf_rep (s : kst) (cbs : list (Z * bytes)) : Prop := BufRep {
  br_buf : cb_rep (buf (g_aesd_device s)) (mk_entry <$> cbs);
  br_block : Forall (fun pb => ZERO_SIZE_PTR < pb.1 /\ kheap s !! pb.1 = Some pb.2) cbs;
  br_bytes : blocks_bytes cbs < 2 ^ 63
}.

Lemma drv_rel_buf s cbs pend : drv_rel s cbs pend -> buf_rep s cbs.
Proof.
  intros Hr. split; [by eapply dr_buf| |].
  - apply Forall_forall. intros [p bs] Hin.
    assert ((p, bs) ∈ owned cbs pend) as Hin' by (apply elem_of_app; by left).
    pose proof (dr_block _ _ _ Hr) as Hb. rewrite Forall_forall in Hb. cbn.
    split; [apply (Hb _ Hin')|by eapply owned_lookup].
  - pose proof (dr_bytes _ _ _ Hr) as Hb. unfold owned in Hb. rewrite blocks_bytes_app in Hb.
    pose proof (blocks_bytes_nonneg (option_list pend)). lia.
Qed.

Section read.
Context (C : contract K).

(** What [read_locked] gives when the entries are [es]. *)
Definition read_result (es : list bytes) (pos count : Z) (r : Z * bytes * Z) : Prop :=
  (let out := read_entries es pos count in
   r = (Z.of_nat (length out), out, pos + Z.of_nat (length out))
   /\ pos + Z.of_nat (length out) < 2 ^ 63)
  \/ ((exists s0 n l, C s0 (QCopyToUser n) l /\ l <> 0)
      /\ exists out, r = (- EFAULT, out, pos) /\ prefix out (read_entries es pos count)).

(** The locked part only reads, and only the buffer and its entries. *)
Lemma reads_read_locked b cbs pos count :
  cb_rep b (mk_entry <$> cbs) -> blocks_bytes cbs < 2 ^ 63 ->
  Forall (fun pb => ZERO_SIZE_PTR < pb.1) cbs ->
  0 <= pos < 2 ^ 63 -> 0 <= count <= MAX_RW_COUNT ->
  reads C (fun s => buf (g_aesd_device s) = b /\ buf_rep s cbs) (read_locked count pos)
    (read_result cbs.*2 pos count).
Proof.
  intros Hcb Hby Hblk Hpos Hcount. pose proof (blocks_bytes_nonneg cbs).
  unfold read_locked. apply reads_bind. apply (reads_act (S := K) _ _ _ b); [by intros s [<- _]|].
  apply reads_bind. eapply reads_of_res.
  { apply (find_locates _ (mk_entry <$> cbs)); [done | rewrite total_mk_entry; lia |].
    rewrite u64_small by lia. lia. }
  rewrite u64_small by lia. pose proof (read_locate cbs pos count) as Hread.
  destruct (locate (mk_entry <$> cbs) pos) as [[j k]|] eqn:Hloc; cbn [fmap option_fmap option_map prod_map fst snd].
  2: { apply reads_ret. left. cbv zeta. rewrite Hread. cbn [length]. rewrite Z.add_0_r. split; [done|lia]. }
  apply locate_Some in Hloc as (e & He & Hk & Hsum); [|lia|apply Hcb].
  rewrite list_lookup_fmap in He. destruct (cbs !! j) as [[p bs]|] eqn:Hj; [|done].
  simpl in He. injection He as <-. cbn [mk_entry esize snd] in Hk.
  assert (j < capacity)%nat as Hjc.
  { apply lookup_lt_Some in Hj. pose proof (rep_cap _ _ Hcb) as Hcap.
    rewrite length_fmap in Hcap. lia. }
  apply reads_bind. eapply reads_of_res.
  { rewrite (slot_lookup _ _ _ Hcb Hjc), lookup_app_l, list_lookup_fmap, Hj; [done|].
    rewrite length_fmap. by eapply lookup_lt_Some. }
  cbn beta zeta. cbn [mk_entry esize buffptr fst snd]. pose proof (entry_end _ _ _ _ Hj) as Hend.
  change (id k) with k. rewrite (u64_small (_ - k)) by lia. rewrite (min_count count).
  set (rc := count `min` (Z.of_nat (length bs) - k)).
  assert (0 <= rc <= Z.of_nat (length bs) - k) as Hrc by (unfold rc; lia).
  assert (read_entries cbs.*2 pos count = take (Z.to_nat rc) (drop (Z.to_nat k) bs)) as Hout.
  { rewrite Hread. cbn [from_option snd]. apply take_min_length. rewrite length_drop. lia. }
  apply reads_bind. eapply (reads_copy_to_user C _ p _ _ bs).
  { intros s [_ [_ Hb _]]. rewrite Forall_lookup in Hb. by apply (Hb j (p, bs)). }
  { rewrite Forall_lookup in Hblk. by apply (Hblk j (p, bs)). }
  1-3: lia.
  - apply reads_ret. left. cbv zeta. rewrite Hout, length_take, length_drop, !i64_small by lia.
    replace (Z.of_nat _) with rc by lia. split; [done|lia].
  - intros s l out Hl Hne Hpre. cbn beta iota. destruct (Z.eqb_spec l 0); [done|].
    apply reads_ret. right. rewrite Hout. by eauto 10.
Qed.

Definition unlock_buf (s : kst) : kst :=
  set_dev (dev_set_lock BufLock false (g_aesd_device s)) s.

Lemma wp_aesd_read s a f pos count :
  represents s a -> private_data f = Some DevPtr ->
  0 <= pos < 2 ^ 63 -> 0 <= count <= MAX_RW_COUNT ->
  wp C (aesd_read f count pos) (fun r s' => read_outcome C a pos count r s') s.
Proof.
  intros [[Hbl Hel] (cbs & pend & Hr & ->)] Hf Hpos Hcount.
  unfold aesd_read, deref. rewrite Hf. wp_steps. apply wp_lock; [done | |].
  { intros Hi. simpl negb. wp_steps. apply RInterrupted; [by eauto|].
    split; [done|]. eauto. }
  intros _. simpl negb. wp_steps.
  set (s1 := set_dev _ s). cbn [g_aesd_device].
  assert (represents (unlock_buf s1) (abs cbs pend)) as Hu.
  { split; [done|]. exists cbs, pend. split; [|done]. by apply (drv_rel_proper s). }
  assert (buf_rep s1 cbs) as Hb by (eapply drv_rel_buf; by apply (drv_rel_proper s)).
  eapply wp_mono; [|eapply (reads_wp (S := K) C (fun s => buf (g_aesd_device s) = buf (g_aesd_device s1) /\ buf_rep s cbs));
    [by split|]].
  2: { apply reads_read_locked; [apply Hb|apply Hb| |done|done].
       eapply Forall_impl; [apply (br_block _ _ Hb)|]. by intros pb []. }
  intros [[r out] pos'] s' [Hres ->]. wp_steps. apply wp_unlock; [done|]. wp_steps.
  destruct Hres as [[Heq _]|[Hc (out' & Heq & Hpre)]]; simplify_eq.
  - by apply (RDone C (abs cbs pend)).
  - by apply RFault.
Qed.

End read.

(** ** Theorems *)

(** C30: a read returns the bytes of the one committed entry that holds the file
    position, at most [count], and moves the position past them; 0 and no move
    when the position is at the end; [-ERESTARTSYS] or [-EFAULT] with the
    position where it was. The device is unchanged and its mutex free. *)
Theorem aesd_read_outcomes {X} (C : contract K) (o : env K X) s x a f pos count :
  respects C o -> represents s a -> private_data f = Some DevPtr ->
  0 <= pos < 2 ^ 63 -> 0 <= count <= MAX_RW_COUNT ->
  exists r s' x',
    run o (aesd_read f count pos) s x = Ok (r, s', x')
    /\ read_outcome C a pos count r s'.
Proof. intros Ho Ha Hf Hp Hc. eapply wp_run; [done|]. by apply wp_aesd_read. Qed.

(** A client that reads [count] bytes at a time until it is given none, with
    the bytes it gets. *)
Fixpoint read_stream (fuel : nat) (f : file) (count pos : Z) : prog K bytes :=
  match fuel with
  | O => Crash OutOfFuel
  | S fuel =>
      '(r, out, pos) ← aesd_read f count pos;
      if r <=? 0 then mret []
      else rest ← read_stream fuel f count pos; mret (out ++ rest)
  end.

Lemma represents_bytes s a :
  represents s a -> Z.of_nat (length (concat (committed a))) < 2 ^ 63.
Proof.
  intros (_ & cbs & pend & [_ _ _ _ _ Hb] & ->). simpl.
  unfold owned in Hb. rewrite blocks_bytes_app in Hb.
  pose proof (blocks_bytes_nonneg (option_list pend)).
  enough (Z.of_nat (length (concat cbs.*2)) = blocks_bytes cbs) by lia.
  clear. induction cbs as [|[p bs] cbs IH]; [done|].
  rewrite fmap_cons. cbn [concat snd].
  change (blocks_bytes ((p, bs) :: cbs)) with (Z.of_nat (length bs) + blocks_bytes cbs).
  by rewrite length_app, Nat2Z.inj_add, IH.
Qed.

Lemma wp_read_stream s a f fuel count pos :
  represents s a -> private_data f = Some DevPtr ->
  Z.of_nat (length (concat (committed a))) < 2 ^ 63 ->
  0 <= pos < 2 ^ 63 -> 0 < count <= MAX_RW_COUNT ->
  (length (drop (Z.to_nat pos) (concat (committed a))) < fuel)%nat ->
  wp kernel_ok (read_stream fuel f count pos)
    (fun out s' => out = drop (Z.to_nat pos) (concat (committed a)) /\ represents s' a) s.
Proof.
  intros Ha Hf Hlen. revert s Ha pos. induction fuel as [|fuel IH]; intros s Ha pos Hp Hc Hfu.
  { lia. }
  cbn [read_stream]. wp_step. eapply wp_mono.
  2: { apply (wp_aesd_read kernel_ok); [done | done | done | lia]. }
  intros r s1 Ho. destruct Ho as [s1 Ha1 out|s1 He|s1 out He].
  2, 3: refute_answer.
  unfold spec_read in out. pose proof (read_entries_concat (committed a) pos count) as Hpre.
  pose proof (read_entries_nil (committed a) pos count) as Hnil. fold out in Hpre, Hnil.
  destruct (Z.leb_spec (Z.of_nat (length out)) 0).
  - wp_steps. split; [|done]. symmetry. apply drop_ge.
    apply Nat2Z.inj_le. rewrite Z2Nat.id by lia. apply Hnil; [lia..|].
    destruct out; [done | simpl in *; lia].
  - destruct Hpre as [rest Hrest]; [lia..|].
    assert (drop (Z.to_nat (pos + Z.of_nat (length out))) (concat (committed a)) = rest) as Hd.
    { replace (Z.to_nat (pos + _)) with (Z.to_nat pos + length out)%nat by lia.
      by rewrite <- drop_drop, Hrest, drop_app_length. }
    wp_step. eapply wp_mono.
    2: { apply IH; [done | | lia |].
         - apply (f_equal length) in Hrest. rewrite length_drop, length_app in Hrest. lia.
         - rewrite Hd. rewrite Hrest, length_app in Hfu. lia. }
    intros out' s2 [-> Ha2]. wp_steps. split; [|done]. by rewrite Hd, Hrest.
Qed.

(** C12: reading from the start, any positive number of bytes at a time, until
    nothing is returned terminates and yields exactly the committed entries put
    end to end. *)
Theorem read_stream_all {X} (o : env K X) s x a f fuel count :
  respects kernel_ok o -> represents s a -> private_data f = Some DevPtr ->
  0 < count <= MAX_RW_COUNT -> (length (concat (committed a)) < fuel)%nat ->
  exists s' x',
    run o (read_stream fuel f count 0) s x = Ok (concat (committed a), s', x')
    /\ represents s' a.
Proof.
  intros Ho Ha Hf Hc Hfu. pose proof (represents_bytes s a Ha) as Hlen.
  pose proof (wp_read_stream s a f fuel count 0 Ha Hf Hlen ltac:(lia) Hc Hfu) as Hwp.
  destruct (wp_run _ o _ _ s x Ho Hwp) as (out & s' & x' & Hrun & -> & Ha'). eauto.
Qed.

(** ** Witnesses *)

(** A device with two committed entries, in the first two slots. *)
Definition two_lines : kst :=
  Kst (list_to_map [(40, line 2); (50, line 3)]) 240 0
    (Dev (CBuffer ([Entry 40 3; Entry 50 4] ++ replicate 8 null_entry) 2 0 false)
       false (Cdev true true true) null_entry false)
    (Some (MKDEV 240 0)).

Lemma two_lines_represents : represents two_lines (DSpec [line 2; line 3] []).
Proof.
  split; [done|]. exists [(40, line 2); (50, line 3)], None. split; [|done].
  split; simpl; [|done|done| | |done].
  - split; simpl; [unfold capacity, MAX_OPS; lia | done | done | done | done | repeat constructor; done].
  - repeat constructor; set_solver.
  - repeat constructor; done.
Qed.

Lemma aesd_read_outcomes_witness :
  exists r s' x',
    run good_kernel (aesd_read open_file 2 4) two_lines tt = Ok (r, s', x')
    /\ read_outcome kernel_ok (DSpec [line 2; line 3] []) 4 2 r s'.
Proof.
  apply (aesd_read_outcomes kernel_ok good_kernel two_lines tt _ open_file 4 2
           good_kernel_ok two_lines_represents); done.
Defined.

Lemma read_stream_all_witness :
  exists s' x',
    run good_kernel (read_stream 8 open_file 2 0) two_lines tt
      = Ok (line 2 ++ line 3 ++ [], s', x')
    /\ represents s' (DSpec [line 2; line 3] []).
Proof.
  apply (read_stream_all good_kernel two_lines tt _ open_file 8 2 good_kernel_ok
           two_lines_represents); [done | done | simpl; lia].
Defined.

End DriverRead.
