(* ===== verification/DriverSession.v ===== *)
(** * The character device driver: writing and reading back

    A client that writes any number of lines, each in any number of pieces, and
    then reads the device from the start gets the last ten lines. *)

From S2P Require Import Prelude CircularBuffer Driver DriverSpec DriverWrite DriverRead.

Module DriverSession.
Import CircularBuffer Driver DriverSpec DriverWrite DriverRead.

(** One write for each piece. *)
Fixpoint write_pieces (f : file) (ds : list bytes) : prog K unit :=
  match ds with
  | [] => mret tt
  | d :: ds => _ ← aesd_write f d (Z.of_nat (length d)); write_pieces f ds
  end.

Definition write_then_read (fuel : nat) (f : file) (ds : list bytes) (count : Z) : prog K bytes :=
  write_pieces f ds;; read_stream fuel f count 0.

(** The device after the pieces. *)
Definition spec_writes (a : dspec) (ds : list bytes) : dspec := foldl spec_write a ds.

(** ** Sizes *)

Lemma length_concat_lastn n (l : list bytes) :
  (length (concat (lastn n l)) <= length (concat l))%nat.
Proof.
  unfold lastn. set (k := (length l - n)%nat).
  assert (concat l = concat (take k l) ++ concat (drop k l)) as -> by by rewrite <- concat_app, take_drop.
  rewrite length_app. lia.
Qed.

Lemma spec_bytes_write a d :
  spec_bytes (spec_write a d) <= spec_bytes a + Z.of_nat (length d).
Proof.
  unfold spec_write, spec_commit, spec_bytes, spec_append; cbn [committed pending].
  case_decide; cbn [committed pending]; rewrite ?length_app; [|lia].
  pose proof (length_concat_lastn capacity (committed a ++ [pending a ++ d])) as Hl.
  rewrite concat_app, length_app in Hl. cbn [concat] in Hl.
  rewrite app_nil_r, length_app in Hl. simpl. lia.
Qed.

Lemma pending_le_bytes a : 0 <= Z.of_nat (length (pending a)) <= spec_bytes a.
Proof. unfold spec_bytes. lia. Qed.

Lemma wp_write_pieces f ds s a :
  represents s a -> private_data f = Some DevPtr -> Forall user_data ds ->
  2 * (spec_bytes a + Z.of_nat (length (concat ds))) < 2 ^ 63 ->
  wp kernel_ok (write_pieces f ds) (fun _ s' => represents s' (spec_writes a ds)) s.
Proof.
  intros Ha Hf Hds. revert s a Ha. induction Hds as [|d ds Hd Hds IH]; intros s a Ha Hb; [done|].
  cbn [concat] in Hb. rewrite length_app in Hb. cbn [write_pieces]. wp_step.
  pose proof (pending_le_bytes a). pose proof (spec_bytes_write a d).
  eapply wp_mono; [|apply (wp_write_refines s a f d); [done..|unfold write_room; lia]].
  intros r s1 [_ Ha1]. apply (IH s1 (spec_write a d) Ha1). lia.
Qed.

(** ** Lines *)

(** The pieces of one line: only the last ends in a newline. *)
Inductive line_pieces : list bytes -> Prop :=
| lp_last d : last d = Some newline -> line_pieces [d]
| lp_more d ds : last d <> Some newline -> line_pieces ds -> line_pieces (d :: ds).

Lemma spec_writes_line a ds :
  line_pieces ds -> Forall (.≠ []) ds ->
  spec_writes a ds = DSpec (lastn capacity (committed a ++ [pending a ++ concat ds])) [].
Proof.
  assert (forall (p d : bytes), d <> [] -> last (p ++ d) = last d) as Hlast.
  { intros p d Hd. rewrite last_app. destruct (last d) eqn:Hl; [done|]. by apply last_None in Hl. }
  intros Hl. revert a. induction Hl as [d Hd|d ds Hd Hl IH]; intros a Hne;
    inversion Hne as [|? ? Hd0 Hne']; subst; unfold spec_writes; cbn [foldl concat];
    unfold spec_write, spec_commit, spec_append; cbn [committed pending]; rewrite Hlast by done.
  - by rewrite decide_True, app_nil_r.
  - rewrite decide_False by done. fold (spec_writes (DSpec (committed a) (pending a ++ d)) ds).
    rewrite IH by done. cbn. by rewrite <- app_assoc.
Qed.

Lemma spec_writes_app a ds1 ds2 :
  spec_writes a (ds1 ++ ds2) = spec_writes (spec_writes a ds1) ds2.
Proof. apply foldl_app. Qed.

Lemma spec_writes_lines a lines :
  pending a = [] -> Forall line_pieces lines -> Forall (Forall (.≠ [])) lines ->
  (length (committed a) <= capacity)%nat ->
  spec_writes a (concat lines)
    = DSpec (lastn capacity (committed a ++ (concat (A := Byte.byte) <$> lines))) [].
Proof.
  intros Hp Hl. revert a Hp. induction Hl as [|l lines Hl Hls IH]; intros a Hp Hne Hc; cbn.
  - rewrite app_nil_r, lastn_all by done. destruct a as [c p]. cbn in *. by subst.
  - inversion Hne; subst. rewrite spec_writes_app, (spec_writes_line a l) by done.
    rewrite Hp. cbn [app]. rewrite IH; [|done|done|cbn; rewrite length_lastn; lia].
    cbn [committed]. by rewrite lastn_app_r, <- app_assoc.
Qed.

(** ** The client's calls put together *)

Lemma wp_write_then_read s a f lines fuel count :
  represents s a -> private_data f = Some DevPtr -> pending a = [] ->
  Forall line_pieces lines -> Forall (Forall user_data) lines ->
  2 * (spec_bytes a + Z.of_nat (length (concat (concat lines)))) < 2 ^ 63 ->
  0 < count <= MAX_RW_COUNT ->
  let kept := lastn capacity (committed a ++ (concat (A := Byte.byte) <$> lines)) in
  (length (concat kept) < fuel)%nat ->
  wp kernel_ok (write_then_read fuel f (concat lines) count)
    (fun out s' => out = concat kept /\ represents s' (DSpec kept [])) s.
Proof.
  intros Ha Hf Hp Hl Hu Hb Hc kept Hfu.
  assert (spec_writes a (concat lines) = DSpec kept []) as Hspec.
  { apply spec_writes_lines; [done|done| |].
    - eapply Forall_impl; [exact Hu|]. intros l Hl'. eapply Forall_impl; [exact Hl'|].
      intros d [Hd _] ->. simpl in Hd. lia.
    - destruct Ha as (_ & cbs & pend & [Hcb _ _ _ _ _] & ->). cbn [committed abs].
      pose proof (rep_cap _ _ Hcb) as Hcap. by rewrite !length_fmap in *. }
  assert (Forall user_data (concat lines)) as Hu' by by apply Forall_concat.
  unfold write_then_read. wp_step. eapply wp_mono; [|by apply (wp_write_pieces f _ s a)].
  intros [] s1 Ha1. rewrite Hspec in Ha1.
  pose proof (represents_bytes s1 _ Ha1) as Hlen.
  apply (wp_read_stream s1 (DSpec kept []) f fuel count 0 Ha1 Hf Hlen); [lia|done|done].
Qed.

(** ** Theorem *)

(** C17: what is written is read back: after any number of lines, each written
    in any number of pieces to a device without a pending entry, reading from the
    start gives the last ten lines of the device. *)
Theorem write_read_back {X} (o : env K X) s x a f lines fuel count :
  respects kernel_ok o -> represents s a -> private_data f = Some DevPtr -> pending a = [] ->
  Forall line_pieces lines -> Forall (Forall user_data) lines ->
  2 * (spec_bytes a + Z.of_nat (length (concat (concat lines)))) < 2 ^ 63 ->
  0 < count <= MAX_RW_COUNT ->
  let kept := lastn capacity (committed a ++ (concat (A := Byte.byte) <$> lines)) in
  (length (concat kept) < fuel)%nat ->
  exists s' x',
    run o (write_then_read fuel f (concat lines) count) s x = Ok (concat kept, s', x')
    /\ represents s' (DSpec kept []).
Proof.
  intros Ho Ha Hf Hp Hl Hu Hb Hc kept Hfu.
  destruct (wp_run kernel_ok o (write_then_read fuel f (concat lines) count)
    (fun out s' => out = concat kept /\ represents s' (DSpec kept [])) s x Ho)
    as (out & s' & x' & Hrun & -> & Hs'); [|by exists s', x'].
  by apply (wp_write_then_read s a).
Qed.

(** ** Witness *)

Lemma write_read_back_witness :
  exists s' x',
    run good_kernel (write_then_read 16 open_file [text 2; line 1; line 3] 5) two_lines tt
      = Ok (line 2 ++ line 3 ++ (text 2 ++ line 1) ++ line 3, s', x')
    /\ represents s' (DSpec [line 2; line 3; text 2 ++ line 1; line 3] []).
Proof.
  destruct (write_read_back good_kernel two_lines tt (DSpec [line 2; line 3] []) open_file
    [[text 2; line 1]; [line 3]] 16 5) as (s' & x' & Hrun & Hs').
  - auto with envs.
  - apply two_lines_represents.
  - reflexivity.
  - reflexivity.
  - repeat constructor. discriminate.
  - repeat constructor; vm_compute; discriminate.
  - vm_compute. reflexivity.
  - split; reflexivity || (vm_compute; discriminate).
  - vm_compute. lia.
  - exists s', x'. split; [exact Hrun|exact Hs'].
Defined.

End DriverSession.
