(* ===== verification/DriverModule.v ===== *)
(** * The character device driver: loading, unloading and opening

    [aesd_init_module] brings up an empty device or leaves nothing registered;
    [aesd_cleanup_module] frees every committed entry exactly once, and leaks
    the pending one. *)

From S2P Require Import Prelude CircularBuffer Memory Driver DriverSpec DriverWrite.

Module DriverModule.
Import CircularBuffer Memory Driver DriverSpec DriverWrite.

(** ** Device numbers *)

Lemma mkdev_split d : 0 <= d < 2 ^ 32 -> MKDEV (MAJOR d) (MINOR d) = d.
Proof.
  intros Hd. unfold MKDEV, MAJOR, MINOR, u32.
  assert (Z.lor (Z.shiftl (Z.shiftr d 20) 20) (Z.land d (Z.ones 20)) = d) as ->.
  2: { by apply to_unsigned_small. }
  apply Z.bits_inj'. intros n Hn.
  rewrite Z.lor_spec, Z.land_spec, Z.shiftl_spec by done.
  destruct (Z.ltb_spec n 20).
  - rewrite Z.testbit_neg_r by lia. rewrite Z.ones_spec_low by lia. by rewrite andb_true_r.
  - rewrite Z.shiftr_spec, Z.ones_spec_high by lia. rewrite andb_false_r, orb_false_r.
    f_equal. lia.
Qed.

(** ** Freeing the blocks of a list *)

Definition delete_all (ps : list Z) (h : heap) : heap :=
  foldl (fun h p => delete p h) h ps.

Lemma lookup_delete_all ps (h : heap) k :
  delete_all ps h !! k = if decide (k ∈ ps) then None else h !! k.
Proof.
  unfold delete_all. revert h. induction ps as [|p ps IH]; intros h.
  { rewrite decide_False; [done | set_solver]. }
  cbn [foldl]. rewrite IH, lookup_delete.
  repeat case_decide; rewrite ?elem_of_cons in *; done || (exfalso; intuition congruence).
Qed.

(** Freeing a set of blocks in any order. *)
Lemma delete_all_blocks (l k : list (Z * bytes)) ps :
  NoDup (l ++ k).*1 -> ps ≡ₚ l.*1 ->
  delete_all ps (list_to_map (l ++ k)) = list_to_map k.
Proof.
  intros Hnd Hp. apply map_eq. intros q. rewrite lookup_delete_all, list_to_map_app.
  rewrite fmap_app in Hnd. apply NoDup_app in Hnd as (_ & Hd & _).
  case_decide as Hq; rewrite Hp in Hq.
  - symmetry. apply not_elem_of_list_to_map_1. by apply Hd.
  - by rewrite lookup_union_r by (by apply not_elem_of_list_to_map_1).
Qed.

(** The addresses a sweep over the slots frees. *)
Definition live_ptrs (es : list aesd_buffer_entry) : list Z :=
  filter (fun p => p <> 0) (buffptr <$> es).

Lemma live_ptrs_cons e es :
  live_ptrs (e :: es)
  = if decide (buffptr e <> 0) then buffptr e :: live_ptrs es else live_ptrs es.
Proof. unfold live_ptrs. rewrite fmap_cons, filter_cons. done. Qed.

Section sweep.
Context (C : contract K).

Definition free_entry (e : aesd_buffer_entry) : prog K unit :=
  if negb (buffptr e =? 0) then kfree (buffptr e) else mret tt.

Lemma wp_foreach_free n i s (Q : unit -> kst -> Prop) :
  length (entry (buf (g_aesd_device s))) = capacity -> (i + n = capacity)%nat ->
  let ps := live_ptrs (drop i (entry (buf (g_aesd_device s)))) in
  NoDup ps -> Forall (fun p => ZERO_SIZE_PTR < p /\ is_Some (kheap s !! p)) ps ->
  Q tt (set_heap (delete_all ps (kheap s)) s) ->
  wp C (AESD_CIRCULAR_BUFFER_FOREACH n (get_dev buf) free_entry (Z.of_nat i)) Q s.
Proof.
  revert i s. induction n as [|n IH]; intros i s Hlen Hin; cbn zeta.
  - rewrite drop_ge by lia. intros _ _ HQ. simpl.
    destruct (Z.ltb_spec (Z.of_nat i) MAX_OPS); [unfold capacity, MAX_OPS in *; lia|].
    apply wp_ret. by destruct s.
  - destruct (lookup_lt_is_Some_2 (entry (buf (g_aesd_device s))) i) as [e He]; [lia|].
    rewrite (drop_S _ e i He), live_ptrs_cons. intros Hnd Hall HQ.
    cbn [AESD_CIRCULAR_BUFFER_FOREACH].
    destruct (Z.ltb_spec (Z.of_nat i) MAX_OPS); [|unfold capacity, MAX_OPS in *; lia].
    wp_steps. eapply wp_of_res; [by rewrite arr_get_nat, He|]. wp_steps.
    replace (Z.of_nat i + 1) with (Z.of_nat (S i)) by lia. unfold free_entry at 1.
    destruct (Z.eqb_spec (buffptr e) 0) as [Hz|Hz]; simpl negb; cbn iota.
    + rewrite decide_False in Hnd, Hall, HQ by tauto.
      wp_steps. apply IH; [done | lia | done..].
    + rewrite decide_True in Hnd, Hall, HQ by done.
      apply NoDup_cons in Hnd as [Hnew Hnd]. inversion Hall as [|? ? [Hp [bs Hl]] Hall']; subst.
      eapply wp_kfree; [done | done |]. cbn beta. apply IH; [done | lia | done | | done].
      rewrite Forall_forall in Hall' |- *. intros q Hq.
      destruct (Hall' _ Hq) as [Hqp Hql]. split; [done|].
      simpl. rewrite lookup_delete_ne; [done|]. intros Heq. by rewrite Heq in Hnew.
Qed.

End sweep.

Lemma live_ptrs_app es es' : live_ptrs (es ++ es') = live_ptrs es ++ live_ptrs es'.
Proof. unfold live_ptrs. by rewrite fmap_app, filter_app. Qed.

Lemma live_ptrs_null n : live_ptrs (replicate n null_entry) = [].
Proof. induction n as [|n IH]; [done|]. cbn [replicate]. by rewrite live_ptrs_cons. Qed.

Lemma live_ptrs_mk (cbs : list (Z * bytes)) :
  Forall (fun pb => ZERO_SIZE_PTR < pb.1 /\ pb.2 <> []) cbs ->
  live_ptrs (mk_entry <$> cbs) = cbs.*1.
Proof.
  unfold ZERO_SIZE_PTR. induction 1 as [|[p bs] cbs [Hp _] _ IH]; [done|].
  rewrite !fmap_cons, live_ptrs_cons, IH. by rewrite decide_True by (simpl in *; lia).
Qed.

(** The slots of a buffer are, in some order, its entries and zeros. *)
Lemma live_ptrs_rep b cbs :
  cb_rep b (mk_entry <$> cbs) ->
  Forall (fun pb => ZERO_SIZE_PTR < pb.1 /\ pb.2 <> []) cbs ->
  live_ptrs (entry b) ≡ₚ cbs.*1.
Proof.
  intros Hr Hp. rewrite <- (live_ptrs_mk cbs Hp), <- (app_nil_r (live_ptrs (mk_entry <$> cbs))).
  rewrite <- (live_ptrs_null (capacity - length (mk_entry <$> cbs))), <- live_ptrs_app.
  rewrite <- (rep_arr _ _ Hr). unfold live_ptrs. f_equiv. f_equiv. unfold rotate.
  rewrite (Permutation_app_comm (drop _ _)). by rewrite take_drop.
Qed.

(** ** Unloading *)

(** What [aesd_cleanup_module] leaves: the pending entry's block, if any. *)
Definition cleaned (a : dspec) (s : kst) : Prop :=
  region s = None /\ cdev_added (dcdev (g_aesd_device s)) = false
  /\ match pending a with
     | [] => kheap s = ∅
     | bs => exists p, kheap s = {[ p := bs ]}
     end.

Lemma wp_cleanup C s a :
  represents s a -> region s = Some (MKDEV (g_aesd_major s) (g_aesd_minor s)) ->
  wp C aesd_cleanup_module (fun _ s' => cleaned a s') s.
Proof.
  intros (_ & cbs & pend & Hr & ->) Hreg. unfold aesd_cleanup_module. wp_steps.
  change 0 with (Z.of_nat 0). fold free_entry.
  pose proof Hr as [Hcb _ Hh Hnd Hblk _]. unfold owned in *.
  apply Forall_app in Hblk as [Hblk Hpb].
  pose proof (live_ptrs_rep _ _ Hcb Hblk) as Hps.
  apply wp_foreach_free; rewrite ?drop_0.
  - by apply (rep_len _ _ Hcb).
  - done.
  - rewrite Hps. rewrite fmap_app in Hnd. by apply NoDup_app in Hnd as (? & _).
  - apply Forall_forall. intros q Hq. rewrite Hps in Hq.
    apply list_elem_of_fmap in Hq as ([q' bs] & -> & Hin). rewrite Forall_forall in Hblk.
    split; [by apply (Hblk _ Hin)|]. exists bs.
    apply (owned_lookup s cbs pend); [done|]. apply elem_of_app. by left.
  - wp_steps. unfold unregister_chrdev_region. wp_steps. simpl.
    split_and!; [by rewrite decide_True | done |].
    rewrite Hh, (delete_all_blocks cbs (option_list pend)) by done.
    destruct pend as [[p bs]|]; simpl; [|done].
    inversion Hpb as [|? ? [_ Hne] _]; subst. destruct bs; [done|]. eauto.
Qed.

(** Unloading frees the block of every committed entry exactly once, takes
    the device away and gives its numbers back; what stays allocated is the
    block of the pending entry, so nothing exactly when nothing is pending. *)
Theorem aesd_cleanup_frees {X} (o : env K X) s x a :
  represents s a -> region s = Some (MKDEV (g_aesd_major s) (g_aesd_minor s)) ->
  exists s' x', run o aesd_cleanup_module s x = Ok (tt, s', x') /\ cleaned a s'.
Proof.
  intros Ha Hreg.
  pose proof (wp_cleanup (fun _ _ _ => True) s a Ha Hreg) as Hwp.
  assert (respects (S := K) (fun _ _ _ => True) o) as Ho by (by intros ???).
  destruct (wp_run _ o _ _ s x Ho Hwp) as ([] & s' & x' & Hrun & Hc). eauto.
Qed.

(** ** Loading *)

Definition loaded (r : Z) (s : kst) : Prop :=
  (r = 0 /\ represents s (DSpec [] [])
   /\ region s = Some (MKDEV (g_aesd_major s) (g_aesd_minor s))
   /\ dcdev (g_aesd_device s) = Cdev true true true)
  \/ (r < 0 /\ region s = None /\ kheap s = ∅
      /\ cdev_added (dcdev (g_aesd_device s)) = false).

Lemma wp_init s :
  kheap s = ∅ -> region s = None -> cdev_added (dcdev (g_aesd_device s)) = false ->
  wp kernel aesd_init_module (fun r s' => loaded r s') s.
Proof.
  intros Hh Hreg Hcd. unfold aesd_init_module. wp_step.
  apply (wp_ask (S := K) kernel QAllocRegion). intros [r d] Hd.
  destruct Hd as [(-> & Hd & Hmi)|Hr]; cbn beta iota.
  - change (0 <? 0) with false. wp_steps. unfold aesd_setup_cdev. wp_steps.
    apply (wp_ask (S := K) kernel QCdevAdd). intros e He. simpl in e, He.
    destruct (Z.eqb_spec e 0) as [->|Hne]; simpl negb; wp_steps; simpl negb; wp_steps.
    + left. simpl. rewrite <- Hmi, mkdev_split by done. split_and!; [done| |done|done].
      split; [done|]. exists [], None. split; [|done].
      split; try done; simpl.
      * apply init_rep.
      * apply NoDup_nil_2.
    + destruct (Z.eqb_spec e 0); [done|]. simpl negb. unfold unregister_chrdev_region. wp_steps.
      right. simpl. rewrite decide_True by done. split_and!; [lia | done..].
  - destruct (Z.ltb_spec r 0); [|lia]. wp_steps. destruct (Z.ltb_spec r 0); [|lia]. wp_steps.
    by right.
Qed.

(** Loading ends in an empty device whose numbers are registered as
    [aesd_cleanup_module] computes them, or in a negative error number with
    nothing registered. *)
Theorem aesd_init_loads {X} (o : env K X) s x :
  respects kernel o -> kheap s = ∅ -> region s = None ->
  cdev_added (dcdev (g_aesd_device s)) = false ->
  exists r s' x', run o aesd_init_module s x = Ok (r, s', x') /\ loaded r s'.
Proof. intros Ho Hh Hreg Hcd. eapply wp_run; [done|]. by apply wp_init. Qed.

(** ** Witnesses *)

Lemma aesd_cleanup_frees_witness :
  exists s' x',
    run good_kernel aesd_cleanup_module (sample_state (Some (40, text 3))) tt
      = Ok (tt, s', x')
    /\ cleaned (DSpec [] (text 3)) s'.
Proof.
  apply (aesd_cleanup_frees good_kernel _ tt (DSpec [] (text 3))); [|done].
  by apply (sample_represents (Some (40, text 3))); [repeat constructor|].
Defined.

Lemma aesd_init_loads_witness :
  exists r s' x',
    run good_kernel aesd_init_module (Kst ∅ 0 0 zero_dev None) tt = Ok (r, s', x')
    /\ loaded r s'.
Proof.
  apply (aesd_init_loads good_kernel); [|done..].
  intros s x q. apply kernel_ok_kernel, good_kernel_ok.
Defined.

End DriverModule.
