(* ===== verification/DriverLifecycle.v ===== *)
(** * The character device driver: a whole life

    Loading the module, a client that opens the device through the table of file
    operations, writes lines and reads them back, and unloading: the parts of the
    driver put together, from an empty kernel state to an empty one. *)

From S2P Require Import Prelude CircularBuffer Memory Driver DriverSpec DriverWrite DriverRead DriverSession DriverModule.

Module DriverLifecycle.
Import CircularBuffer Memory Driver DriverSpec DriverWrite DriverRead DriverSession DriverModule.

(** ** The client *)

Section client.
Context (fops : file_operations).

Fixpoint client_write (f : file) (ds : list bytes) : prog K unit :=
  match ds with
  | [] => mret tt
  | d :: ds => _ ← fop_write fops f d (Z.of_nat (length d)); client_write f ds
  end.

Fixpoint client_read (fuel : nat) (f : file) (count pos : Z) : prog K bytes :=
  match fuel with
  | O => Crash OutOfFuel
  | S fuel =>
      '(r, out, pos) ← fop_read fops f count pos;
      if r <=? 0 then mret []
      else rest ← client_read fuel f count pos; mret (out ++ rest)
  end.

Definition client_session (fuel : nat) (f : file) (ds : list bytes) (count : Z) : prog K bytes :=
  client_write f ds;; client_read fuel f count 0.

(** Load, open, write, read, close, unload; nothing more when loading fails. *)
Definition lifecycle (fuel : nat) (ds : list bytes) (count : Z) : prog K (option bytes) :=
  loaded ← aesd_init_module;
  if negb (loaded =? 0) then mret None
  else
    '(_, f) ← fop_open fops (Inode DevPtr) (File None);
    out ← client_session fuel f ds count;
    _ ← fop_release fops (Inode DevPtr) f;
    aesd_cleanup_module;;
    mret (Some out).

End client.

Lemma client_session_driver fuel f ds count :
  client_session g_aesd_fops fuel f ds count = write_then_read fuel f ds count.
Proof. reflexivity. Qed.

(** ** The registration is nobody's but the module's *)

(** The device number and the region registered for it. *)
Definition registration (s : kst) : Z * Z * option Z :=
  (g_aesd_major s, g_aesd_minor s, region s).

Lemma aesd_write_keeps f d count : keeps (S := K) registration (aesd_write f d count).
Proof.
  unfold aesd_write, write_locked, write_data, write_push.
  repeat keeps_step.
Qed.

Lemma aesd_read_keeps f count pos : keeps (S := K) registration (aesd_read f count pos).
Proof. unfold aesd_read, read_locked. repeat keeps_step. Qed.

Lemma write_pieces_keeps f ds : keeps (S := K) registration (write_pieces f ds).
Proof.
  induction ds as [|d ds IH]; [done|]. cbn [write_pieces].
  apply keeps_bind; [apply aesd_write_keeps|done].
Qed.

Lemma read_stream_keeps fuel f count pos :
  keeps (S := K) registration (read_stream fuel f count pos).
Proof.
  revert pos. induction fuel as [|fuel IH]; intros pos; [done|]. cbn [read_stream].
  apply keeps_bind; [apply aesd_read_keeps|]. intros [[r out] pos'].
  destruct (r <=? 0); [done|]. by apply keeps_bind.
Qed.

(** ** Loading does not fail when the kernel's calls succeed *)

Lemma wp_init_zero s :
  0 <= g_aesd_minor s < 2 ^ 20 -> wp kernel_ok aesd_init_module (fun r _ => r = 0) s.
Proof.
  intros Hmi. unfold aesd_init_module. wp_step.
  apply (wp_ask (S := K) kernel_ok QAllocRegion). intros [r d] [_ Hr]. cbn in Hr.
  rewrite Hr by done. change (0 <? 0) with false. wp_steps. unfold aesd_setup_cdev. wp_steps.
  apply (wp_ask (S := K) kernel_ok QCdevAdd). intros e [_ He]. simpl in e, He. subst e.
  change (negb (0 =? 0)) with false. wp_steps. change (negb (0 =? 0)) with false. by wp_steps.
Qed.

Lemma wp_client f s lines fuel count :
  represents s (DSpec [] []) -> private_data f = Some DevPtr ->
  Forall line_pieces lines -> Forall (Forall user_data) lines ->
  2 * Z.of_nat (length (concat (concat lines))) < 2 ^ 63 -> 0 < count <= MAX_RW_COUNT ->
  let kept := lastn capacity (concat (A := Byte.byte) <$> lines) in
  (length (concat kept) < fuel)%nat ->
  wp kernel_ok (write_then_read fuel f (concat lines) count)
    (fun out s' => (out = concat kept /\ represents s' (DSpec kept []))
                   /\ registration s' = registration s) s.
Proof.
  intros Ha Hf Hl Hu Hb Hc kept Hfu.
  apply wp_keeps.
  - unfold write_then_read. apply keeps_bind; [apply write_pieces_keeps|].
    intros []. apply read_stream_keeps.
  - eapply (wp_write_then_read s (DSpec [] [])); done.
Qed.

(** ** Theorem *)

(** C16: a whole life of the driver, when the kernel's calls succeed: loading the
    module, opening the device through its table of operations, writing lines in
    any pieces, reading them back and unloading gives the last ten lines and
    leaves nothing allocated, nothing registered and no device. *)
Theorem device_lifecycle {X} (o : env K X) s x lines fuel count :
  respects kernel_ok o -> kheap s = ∅ -> region s = None ->
  cdev_added (dcdev (g_aesd_device s)) = false -> 0 <= g_aesd_minor s < 2 ^ 20 ->
  Forall line_pieces lines -> Forall (Forall user_data) lines ->
  2 * Z.of_nat (length (concat (concat lines))) < 2 ^ 63 -> 0 < count <= MAX_RW_COUNT ->
  let kept := concat (lastn capacity (concat (A := Byte.byte) <$> lines)) in
  (length kept < fuel)%nat ->
  exists s' x',
    run o (lifecycle g_aesd_fops fuel (concat lines) count) s x = Ok (Some kept, s', x')
    /\ kheap s' = ∅ /\ region s' = None /\ cdev_added (dcdev (g_aesd_device s')) = false.
Proof.
  intros Ho Hh Hreg Hcd Hmi Hl Hu Hb Hc kept Hfu.
  destruct (wp_run kernel_ok o (lifecycle g_aesd_fops fuel (concat lines) count)
    (fun out s' => out = Some kept /\ cleaned (DSpec [] []) s') s x Ho)
    as (out & s' & x' & Hrun & -> & Hreg' & Hcd' & Hheap'); [|by exists s', x'].
  unfold lifecycle. wp_step.
  eapply wp_mono; [|apply wp_conj; [by apply wp_init_zero|]].
  2: { eapply (wp_weaken kernel); [apply kernel_ok_kernel|]. by apply wp_init. }
  intros r s1 [-> [(_ & Ha & Hreg1 & _)|[? _]]]; [|lia].
  change (negb (0 =? 0)) with false. wp_step. cbn [fop_open g_aesd_fops].
  unfold aesd_open. wp_step. wp_step. rewrite client_session_driver.
  eapply wp_mono; [|by apply (wp_client _ s1 lines)].
  intros out s2 [[-> Ha2] Hkeep]. wp_step. cbn [fop_release g_aesd_fops]. unfold aesd_release.
  wp_step. wp_step.
  assert (region s2 = Some (MKDEV (g_aesd_major s2) (g_aesd_minor s2))) as Hreg2.
  { unfold registration in Hkeep. injection Hkeep as -> -> ->. done. }
  eapply wp_mono; [|by apply (wp_cleanup kernel_ok s2 _ Ha2)]. intros [] s3 Hc3.
  wp_step. by split.
Qed.

(** ** Witness *)

Lemma device_lifecycle_witness :
  exists s' x',
    run good_kernel (lifecycle g_aesd_fops 16 [text 2; line 1; line 3] 5)
        (Kst ∅ 0 0 zero_dev None) tt
      = Ok (Some ((text 2 ++ line 1) ++ line 3), s', x')
    /\ kheap s' = ∅ /\ region s' = None /\ cdev_added (dcdev (g_aesd_device s')) = false.
Proof.
  apply (device_lifecycle good_kernel (Kst ∅ 0 0 zero_dev None) tt
    [[text 2; line 1]; [line 3]] 16 5).
  - auto with envs.
  - reflexivity.
  - reflexivity.
  - reflexivity.
  - simpl. lia.
  - repeat constructor. discriminate.
  - repeat constructor; vm_compute; discriminate.
  - vm_compute. reflexivity.
  - split; reflexivity || (vm_compute; discriminate).
  - vm_compute. lia.
Defined.

End DriverLifecycle.
