(* ===== verification/Linearize.v ===== *)
(** * Shared objects

    An object that any number of threads call at the same time, and the atomic
    object it stands for. Both are systems whose threads invoke operations and
    get results; they differ in what lies between: the steps of a program, any
    other thread's in between, or one step of the specification. The code is
    linearizable when every history of invocations and results is one of the
    atomic object. [Protocol] is what a locking discipline has to provide, and
    [tsim] what each operation is then proved of, on its own. *)

From S2P Require Import Prelude Interleave.

Module Linearize.
Import Interleave.

(** ** Executions with histories *)

Section executions.
Context {St Ev : Type} (stp : St -> option Ev -> St -> Prop).

Inductive executes (c : St) : list Ev -> St -> Prop :=
| exec_nil : executes c [] c
| exec_snoc h c1 e c2 :
    executes c h c1 -> stp c1 e c2 -> executes c (h ++ option_list e) c2.

Lemma executes_trans c h1 c1 h2 c2 :
  executes c h1 c1 -> executes c1 h2 c2 -> executes c (h1 ++ h2) c2.
Proof.
  intros H1. induction 1 as [|h2 c2 e c3 _ IH Hst]; [by rewrite app_nil_r|].
  rewrite app_assoc. by eapply exec_snoc.
Qed.

(** Where no execution goes on for ever, and every one that is not [over] can go on,
    every one comes to its end. *)
Lemma executes_end (over : St -> Prop) c :
  Acc (fun c2 c1 => exists e, stp c1 e c2) c ->
  (forall h c1, executes c h c1 -> over c1 \/ exists e c2, stp c1 e c2) ->
  exists h c1, executes c h c1 /\ over c1.
Proof.
  induction 1 as [c _ IH]. intros Hgo.
  destruct (Hgo [] c (exec_nil c)) as [Ho|(e & c2 & Hst)]; [by exists [], c; split; [constructor|]|].
  assert (executes c (option_list e) c2) as Hc2 by (eapply (exec_snoc c []); [constructor|done]).
  destruct (IH c2) as (h & c1 & Hex & Ho); [by exists e| |].
  - intros h c1 Hex. apply (Hgo (option_list e ++ h)). by eapply executes_trans.
  - exists (option_list e ++ h), c1. split; [by eapply executes_trans|done].
Qed.

End executions.

(** One element of a list gets smaller. *)
Definition one_of {A} (R : A -> A -> Prop) (l' l : list A) : Prop :=
  exists i x x', l !! i = Some x /\ R x' x /\ l' = <[i := x']> l.

Lemma one_of_acc {A} (R : A -> A -> Prop) l : Forall (Acc R) l -> Acc (one_of R) l.
Proof.
  induction 1 as [|x l Hx _ Hl].
  { constructor. by intros l' (i & x & x' & Hi & _). }
  revert l Hl. induction Hx as [x _ IHx]. intros l Hl.
  induction Hl as [l Hl IHl]. constructor.
  intros l' ([|i] & y & y' & Hi & Hr & ->); cbn in *; simplify_eq.
  - apply IHx; [done|]. by constructor.
  - apply IHl. by exists i, y, y'.
Qed.

Section object.
Context {S : sig} {Op Res Ab : Type}.
Implicit Types (s : st S) (a : Ab) (o : Op) (r : Res).

(** What a thread does with the object: one operation after the other, each
    chosen with the results so far. *)
Inductive client : Type :=
| Done
| Call (o : Op) (k : Res -> client).

Inductive event : Type :=
| Invoked (i : nat) (o : Op)
| Responded (i : nat) (r : Res).

(** ** The system that runs the code *)

Inductive thread : Type :=
| Idle (c : client)
| Running (p : prog S Res) (k : Res -> client).

(** ** The atomic system *)

Inductive athread : Type :=
| AIdle (c : client)
| ACalled (o : Op) (k : Res -> client)    (* invoked, without effect yet *)
| AAnswered (r : Res) (k : Res -> client). (* effected, not yet returned *)

Section steps.
Context (C : contract S) (impl : Op -> prog S Res) (spec : Op -> Ab -> Res -> Ab -> Prop).

Inductive sys_step : list thread * st S -> option event -> list thread * st S -> Prop :=
| sys_invoke ts s i o k :
    ts !! i = Some (Idle (Call o k)) ->
    sys_step (ts, s) (Some (Invoked i o)) (<[i := Running (impl o) k]> ts, s)
| sys_run ts s i p k p' s' :
    ts !! i = Some (Running p k) -> step C p s p' s' ->
    sys_step (ts, s) None (<[i := Running p' k]> ts, s')
| sys_return ts s i r k :
    ts !! i = Some (Running (Ret r) k) ->
    sys_step (ts, s) (Some (Responded i r)) (<[i := Idle (k r)]> ts, s).

Inductive atomic_step : list athread * Ab -> option event -> list athread * Ab -> Prop :=
| at_invoke ts a i o k :
    ts !! i = Some (AIdle (Call o k)) ->
    atomic_step (ts, a) (Some (Invoked i o)) (<[i := ACalled o k]> ts, a)
| at_effect ts a i o k r a' :
    ts !! i = Some (ACalled o k) -> spec o a r a' ->
    atomic_step (ts, a) None (<[i := AAnswered r k]> ts, a')
| at_return ts a i r k :
    ts !! i = Some (AAnswered r k) ->
    atomic_step (ts, a) (Some (Responded i r)) (<[i := AIdle (k r)]> ts, a).

Definition sys_exec := executes sys_step.
Definition atomic_exec := executes atomic_step.

(** ** What a locking discipline provides

    [M] says what a thread holds. [ready] is what a thread that holds [m] finds
    in the state, [rely] what the others may do to it meanwhile, [guar] what it
    may do itself, and [waits] when it may have to wait. [ginv] describes the
    state when the threads hold [ms]. *)
Class Protocol (M : Type) (rest : M) : Type := {
  rely : M -> st S -> Ab -> st S -> Ab -> Prop;
  ready : M -> st S -> Ab -> Prop;
  guar : M -> st S -> Ab -> M -> st S -> Ab -> Prop;
  waits : M -> st S -> Prop;
  ginv : list M -> st S -> Ab -> Prop;
  rely_refl m s a : rely m s a s a;
  rely_trans m s a s1 a1 s2 a2 :
    rely m s a s1 a1 -> rely m s1 a1 s2 a2 -> rely m s a s2 a2;
  guar_refl m s a : guar m s a m s a;
  ginv_ready ms s a i m : ginv ms s a -> ms !! i = Some m -> ready m s a;
  ginv_guar ms s a i m m' s' a' :
    ginv ms s a -> ms !! i = Some m -> guar m s a m' s' a' -> ginv (<[i := m']> ms) s' a';
  ginv_rely ms s a i m m' s' a' j mj :
    ginv ms s a -> ms !! i = Some m -> guar m s a m' s' a' ->
    j <> i -> ms !! j = Some mj -> rely mj s a s' a';
  ginv_waits ms s a i m :
    ginv ms s a -> ms !! i = Some m -> waits m s ->
    exists j mj, ms !! j = Some mj /\ mj <> rest /\ ~ waits mj s
}.

Context `{PR : Protocol M rest}.

(** The operation takes effect, unless it has: [g] is its result by then. *)
Definition effect o (g : option Res) a (g' : option Res) a' : Prop :=
  (g' = g /\ a' = a) \/ (g = None /\ exists r, g' = Some r /\ spec o a r a').

(** A program for [o] under the protocol: between any two accesses the others
    move; every access keeps what the others rely on; the effect comes once; and
    it waits only where it may. *)
Fixpoint tsim {A} o (p : prog S A) (Q : A -> M -> option Res -> st S -> Ab -> Prop)
    (m : M) (g : option Res) s a : Prop :=
  forall s1 a1, rely m s a s1 a1 -> ready m s1 a1 ->
  match p with
  | Ret x => Q x m g s1 a1
  | Ask q k => forall x, C s1 q x -> exists m' g' a2,
      effect o g a1 g' a2 /\ guar m s1 a1 m' s1 a2 /\ tsim o (k x) Q m' g' s1 a2
  | Act f k =>
      match f s1 with
      | Ok (b, s2) => exists m' g' a2,
          effect o g a1 g' a2 /\ guar m s1 a1 m' s2 a2 /\ tsim o (k b) Q m' g' s2 a2
      | Err e => e = Deadlock /\ waits m s1
      end
  | Crash _ => False
  end.

(** An operation ends with nothing held, and its result is that of the effect. *)
Definition ended r (m : M) (g : option Res) s a : Prop := m = rest /\ g = Some r.

(** ** Rules *)

Lemma effect_none o g a : effect o g a g a.
Proof. by left. Qed.

Lemma effect_now o a r a' : spec o a r a' -> effect o None a (Some r) a'.
Proof. right. eauto. Qed.

Lemma tsim_rely {A} o (p : prog S A) Q m g s a s' a' :
  tsim o p Q m g s a -> rely m s a s' a' -> tsim o p Q m g s' a'.
Proof.
  intros H Hr. destruct p; intros s1 a1 Hr1; apply H; by eapply rely_trans.
Qed.

(** What the thread finds when it goes on is what has to be dealt with. *)
Lemma tsim_found {A} o (p : prog S A) Q m g s a :
  (forall s1 a1, rely m s a s1 a1 -> ready m s1 a1 -> tsim o p Q m g s1 a1) ->
  tsim o p Q m g s a.
Proof.
  intros H. destruct p; intros s1 a1 Hr Hrd;
    exact (H s1 a1 Hr Hrd s1 a1 (rely_refl _ _ _) Hrd).
Qed.

Lemma tsim_bind {A B} o (p : prog S A) (k : A -> prog S B) Q m g s a :
  tsim o p (fun x m g s a => tsim o (k x) Q m g s a) m g s a ->
  tsim o (p ≫= k) Q m g s a.
Proof.
  revert m g s a. induction p as [x|q h IH|T f h IH|e]; intros m g s a H.
  - apply tsim_found. intros s1 a1 Hr Hrd. exact (H s1 a1 Hr Hrd).
  - intros s1 a1 Hr Hrd x Hx. destruct (H s1 a1 Hr Hrd x Hx) as (m' & g' & a2 & He & Hg & Hk).
    exists m', g', a2. split_and!; [done..|]. by apply IH.
  - intros s1 a1 Hr Hrd. specialize (H s1 a1 Hr Hrd). cbn in H. cbn.
    destruct (f s1) as [[b s2]|e]; [|done]. destruct H as (m' & g' & a2 & He & Hg & Hk).
    exists m', g', a2. split_and!; [done..|]. by apply IH.
  - intros s1 a1 Hr Hrd. exact (H s1 a1 Hr Hrd).
Qed.

Lemma tsim_ret {A} o (x : A) (Q : A -> M -> option Res -> st S -> Ab -> Prop) m g s a :
  (forall s1 a1, rely m s a s1 a1 -> ready m s1 a1 -> Q x m g s1 a1) ->
  tsim o (mret x) Q m g s a.
Proof. done. Qed.

Lemma tsim_mono {A} o (p : prog S A) (Q Q' : A -> M -> option Res -> st S -> Ab -> Prop) m g s a :
  (forall x m g s a, Q x m g s a -> Q' x m g s a) ->
  tsim o p Q m g s a -> tsim o p Q' m g s a.
Proof.
  intros HQ. revert m g s a. induction p as [x|q h IH|T f h IH|e]; intros m g s a H s1 a1 Hr Hrd;
    specialize (H s1 a1 Hr Hrd); [by apply HQ| | |done]; cbn in H |- *.
  - intros x Hx. destruct (H x Hx) as (m' & g' & a2 & ? & ? & ?). exists m', g', a2. by eauto.
  - destruct (f s1) as [[b s2]|e]; [|done]. destruct H as (m' & g' & a2 & ? & ? & ?).
    exists m', g', a2. by eauto.
Qed.

(** ** From each operation to the system *)

Section adequacy.
Context (valid : Op -> Prop)
  (Hsim : forall o s a, valid o -> tsim o (impl o) ended rest None s a).

(** The client calls valid operations only, given results the specification
    allows. *)
Fixpoint good (c : client) : Prop :=
  match c with
  | Done => True
  | Call o k => valid o /\ forall a r a', spec o a r a' -> good (k r)
  end.

Definition good_after o (k : Res -> client) : Prop :=
  forall a r a', spec o a r a' -> good (k r).

(** A thread of the code, the thread of the atomic system, and what it holds. *)
Record slot : Type := Slot { code : thread; shadow : athread; mode : M }.

Inductive matches s a : slot -> Prop :=
| m_idle c : good c -> matches s a (Slot (Idle c) (AIdle c) rest)
| m_called o p k m :
    tsim o p ended m None s a -> good_after o k ->
    matches s a (Slot (Running p k) (ACalled o k) m)
| m_answered o p k m r :
    tsim o p ended m (Some r) s a -> good (k r) ->
    matches s a (Slot (Running p k) (AAnswered r k) m).

Definition related (c : list thread * st S) (ac : list athread * Ab) : Prop :=
  exists pool, c.1 = code <$> pool /\ ac.1 = shadow <$> pool
    /\ ginv (mode <$> pool) c.2 ac.2
    /\ forall i x, pool !! i = Some x -> matches c.2 ac.2 x.

Lemma matches_rely s a x s' a' :
  matches s a x -> rely (mode x) s a s' a' -> matches s' a' x.
Proof.
  intros Hm Hr. destruct Hm; econstructor; eauto using tsim_rely.
Qed.

(** One slot moves, and the others rely on it. *)
Lemma related_step pool s a i x x' s' a' :
  ginv (mode <$> pool) s a -> (forall j y, pool !! j = Some y -> matches s a y) ->
  pool !! i = Some x -> guar (mode x) s a (mode x') s' a' -> matches s' a' x' ->
  related (<[i := code x']> (code <$> pool), s') (<[i := shadow x']> (shadow <$> pool), a').
Proof.
  intros Hg Hm Hi Hgu Hx. exists (<[i := x']> pool). cbn [fst snd].
  assert ((mode <$> pool) !! i = Some (mode x)) as Hmi by (by rewrite list_lookup_fmap, Hi).
  rewrite !list_fmap_insert. split_and!; [done..|by eapply ginv_guar|].
  intros j y [(<- & <- & _)|[Hne Hj]]%list_lookup_insert_Some; [done|].
  eapply matches_rely; [by eapply Hm|].
  eapply (ginv_rely _ _ _ i); [done..|by rewrite list_lookup_fmap, Hj].
Qed.

Lemma effect_good o k g a g' a' :
  effect o g a g' a' ->
  match g with None => good_after o k | Some r => good (k r) end ->
  match g' with None => good_after o k | Some r => good (k r) end.
Proof. intros [[-> ->]|(-> & r & -> & Hs)]; [done|]. intros H. by eapply H. Qed.

Definition shadow_of o (k : Res -> client) (g : option Res) : athread :=
  match g with None => ACalled o k | Some r => AAnswered r k end.

Lemma matches_running o p k m g s a :
  tsim o p ended m g s a -> match g with None => good_after o k | Some r => good (k r) end ->
  matches s a (Slot (Running p k) (shadow_of o k g) m).
Proof. destruct g; [by eapply m_answered|by eapply m_called]. Qed.

Lemma matches_running_inv s a p k sh m :
  matches s a (Slot (Running p k) sh m) ->
  exists o g, sh = shadow_of o k g /\ tsim o p ended m g s a
    /\ match g with None => good_after o k | Some r => good (k r) end.
Proof.
  intros H. inversion H; subst; [by exists o, None|].
  match goal with H : tsim _ _ _ _ (Some ?r) _ _ |- _ => by eexists _, (Some r) end.
Qed.

(** The atomic system makes the effect, if it is there. *)
Lemma effect_step o k g a g' a' ats i :
  effect o g a g' a' -> ats !! i = Some (shadow_of o k g) ->
  (<[i := shadow_of o k g']> ats, a') = (ats, a)
  \/ atomic_step (ats, a) None (<[i := shadow_of o k g']> ats, a').
Proof.
  intros [[-> ->]|(-> & r & -> & Hs)] Hi; [left; by rewrite list_insert_id|].
  right. by eapply at_effect.
Qed.

(** Every step of the code is one of the atomic system, or none. *)
Lemma related_sys_step c e c' ac :
  related c ac -> sys_step c e c' ->
  exists ac', related c' ac' /\ ((e = None /\ ac' = ac) \/ atomic_step ac e ac').
Proof.
  intros (pool & Hc & Hac & Hg & Hm) Hst. destruct ac as [ats a]. cbn [fst snd] in *. subst ats.
  destruct Hst as [ts s i o k Hi|ts s i p k p' s' Hi Hst|ts s i r k Hi]; cbn [fst snd] in *; subst ts;
    rewrite list_lookup_fmap in Hi; destruct (pool !! i) as [[x sh m]|] eqn:Hp; try done;
    cbn in Hi; simplify_eq Hi; intros ->; pose proof (Hm i _ Hp) as Hx.
  - inversion Hx; subst. match goal with H : good _ |- _ => destruct H as [Hv Hk] end.
    eexists. split.
    { eapply (related_step pool s a i _ (Slot (Running (impl o) k) (ACalled o k) rest));
        [done..|apply guar_refl|]. eapply m_called; [by apply Hsim|exact Hk]. }
    right. apply at_invoke. by rewrite list_lookup_fmap, Hp.
  - apply matches_running_inv in Hx as (o & g & -> & Ht & Hgd).
    assert (ready m s a) as Hrd.
    { eapply ginv_ready; [done|]. rewrite list_lookup_fmap, Hp. done. }
    assert (exists m' g' a', effect o g a g' a' /\ guar m s a m' s' a'
              /\ tsim o p' ended m' g' s' a') as (m' & g' & a' & He & Hgu & Ht').
    { destruct Hst as [q h b s Hb|B f h s b s' Hf]; specialize (Ht s a (rely_refl _ _ _) Hrd);
        cbn in Ht; [by apply Ht|by rewrite Hf in Ht]. }
    assert ((shadow <$> pool) !! i = Some (shadow_of o k g)) as Hsi
      by (by rewrite list_lookup_fmap, Hp).
    exists (<[i := shadow_of o k g']> (shadow <$> pool), a'). split.
    + eapply (related_step pool s a i _ (Slot (Running p' k) (shadow_of o k g') m')); [done..|].
      eapply matches_running; [done|]. by eapply effect_good.
    + destruct (effect_step o k g a g' a' _ i He Hsi) as [->|]; [left|right]; done.
  - apply matches_running_inv in Hx as (o & g & -> & Ht & Hgd).
    assert (ready m s a) as Hrd.
    { eapply ginv_ready; [done|]. rewrite list_lookup_fmap, Hp. done. }
    destruct (Ht s a (rely_refl _ _ _) Hrd) as [-> ->]. eexists. split.
    { eapply (related_step pool s a i _ (Slot (Idle (k r)) (AIdle (k r)) rest));
        [done..|apply guar_refl|]. by apply m_idle. }
    right. apply at_return. by rewrite list_lookup_fmap, Hp.
Qed.

(** Histories of the code are histories of the atomic system. *)
Lemma related_exec c ac h c' :
  related c ac -> sys_exec c h c' -> exists ac', related c' ac' /\ atomic_exec ac h ac'.
Proof.
  intros Hr. induction 1 as [|h c1 e c2 _ (ac1 & Hr1 & Hex) Hst].
  { exists ac. split; [done|apply exec_nil]. }
  destruct (related_sys_step _ _ _ _ Hr1 Hst) as (ac2 & Hr2 & [[-> ->]|Hs]).
  - exists ac1. by rewrite app_nil_r.
  - exists ac2. split; [done|]. by eapply exec_snoc.
Qed.

Lemma related_init cs s a :
  Forall good cs -> ginv (replicate (length cs) rest) s a ->
  related (Idle <$> cs, s) (AIdle <$> cs, a).
Proof.
  intros Hgd Hg. exists ((fun c => Slot (Idle c) (AIdle c) rest) <$> cs). cbn [fst snd].
  rewrite <- !list_fmap_compose. split_and!; [done..| |].
  - replace (_ <$> cs) with (replicate (length cs) rest); [done|].
    clear. induction cs; simpl; by f_equal.
  - intros i x (c & -> & Hc)%list_lookup_fmap_Some. apply m_idle.
    by eapply Forall_lookup_1.
Qed.

(** When no operation is under way, nothing is held. *)
Definition resting (t : thread) : Prop := match t with Idle _ => True | Running _ _ => False end.

Lemma related_resting ts s ac :
  related (ts, s) ac -> Forall resting ts ->
  exists cs, ts = Idle <$> cs /\ ac.1 = AIdle <$> cs
    /\ ginv (replicate (length cs) rest) s ac.2.
Proof.
  intros (pool & Hts & Hac & Hg & Hm) Hr. cbn [fst snd] in *.
  assert (exists cs, pool = (fun c => Slot (Idle c) (AIdle c) rest) <$> cs) as [cs ->].
  { clear Hac Hg. subst ts. induction pool as [|[t sh m] pool IH]; [by exists []|].
    apply Forall_cons in Hr as [Ht Hr].
    destruct IH as [cs ->]; [intros i x; apply (Hm (1 + i)%nat)|done|].
    pose proof (Hm 0%nat _ eq_refl) as H0. destruct t as [c|]; [|done].
    exists (c :: cs). by inversion H0. }
  exists cs. rewrite <- !list_fmap_compose in *. split_and!; [done..|].
  replace (replicate (length cs) rest) with (mode ∘ (fun c => Slot (Idle c) (AIdle c) rest) <$> cs);
    [done|]. clear. induction cs; simpl; by f_equal.
Qed.

(** ** Nothing gets stuck, and everything ends *)

(** A thread that can move: it can make its next call, take a step of the one it is
    in, or return from it. *)
Definition can_move s (t : thread) : Prop :=
  match t with
  | Idle Done => False
  | Idle (Call _ _) => True
  | Running p _ => (exists r, p = Ret r) \/ exists p' s', step C p s p' s'
  end.

(** A thread whose next step is to take a mutex that is held. *)
Definition at_held_mutex s (t : thread) : Prop :=
  match t with
  | Running (Act f _) _ => f s = Err Deadlock
  | _ => False
  end.

Lemma can_move_step ts s i t :
  ts !! i = Some t -> can_move s t -> exists e c', sys_step (ts, s) e c'.
Proof.
  intros Hi Ht. destruct t as [[|o k]|p k]; [done|by eexists _, _; eapply sys_invoke|].
  destruct Ht as [[r ->]|(p' & s' & Hst)]; eexists _, _; [by eapply sys_return|by eapply sys_run].
Qed.

Lemma matches_moves s a t sh m :
  (forall s q, exists x, C s q x) -> matches s a (Slot t sh m) -> ready m s a ->
  t = Idle Done \/ can_move s t \/ (at_held_mutex s t /\ waits m s).
Proof.
  intros HC Hm Hrd. destruct t as [[|o k]|p k]; [by left|by right; left|right].
  apply matches_running_inv in Hm as (o & g & -> & Ht & _).
  destruct p as [r|q h|B f h|e]; specialize (Ht s a (rely_refl _ _ _) Hrd); cbn in Ht; [| | |done].
  - left; left. by eexists.
  - destruct (HC s q) as [x Hx]. left; right. eexists _, _. by apply step_ask.
  - cbn. destruct (f s) as [[b s']|e] eqn:Hf; [|right; by destruct Ht as [-> Hw]].
    left; right. eexists _, _. by apply step_act.
Qed.

Lemma all_done_or ts :
  Forall (fun t => t = Idle Done) ts \/ exists i t, ts !! i = Some t /\ t <> Idle Done.
Proof.
  induction ts as [|t ts [Hd|(i & t' & Hi & Ht)]]; [by left| |right; by exists (1 + i)%nat, t'].
  destruct t as [[|o k]|p k]; [left; by constructor|right; by eexists 0%nat, _..].
Qed.

(** Each thread is done, can move, or is at a mutex while another one can move. *)
Lemma related_threads c ac i t :
  (forall s q, exists x, C s q x) -> related c ac -> c.1 !! i = Some t ->
  t = Idle Done \/ can_move c.2 t
  \/ (at_held_mutex c.2 t /\ exists j u, c.1 !! j = Some u /\ can_move c.2 u).
Proof.
  intros HC (pool & -> & _ & Hg & Hm) Hi. rewrite list_lookup_fmap in Hi.
  assert (forall j x, pool !! j = Some x ->
            (mode <$> pool) !! j = Some (mode x)
            /\ (code x = Idle Done \/ can_move c.2 (code x)
                \/ (at_held_mutex c.2 (code x) /\ waits (mode x) c.2))) as Hmove.
  { intros j x Hp. assert ((mode <$> pool) !! j = Some (mode x)) as Hmj
      by (by rewrite list_lookup_fmap, Hp).
    split; [done|]. pose proof (Hm j x Hp) as Hx. pose proof (ginv_ready _ _ _ _ _ Hg Hmj) as Hrd.
    destruct x as [u sh m]. by eapply matches_moves. }
  destruct (pool !! i) as [x|] eqn:Hp; [|done]. cbn in Hi. simplify_eq.
  destruct (Hmove i x Hp) as [Hmi [|[|[Hat Hw]]]]; [by left|by right; left|].
  right; right. split; [done|].
  destruct (ginv_waits _ _ _ _ _ Hg Hmi Hw) as (j & mj & Hj & Hnr & Hnw).
  rewrite list_lookup_fmap in Hj. destruct (pool !! j) as [y|] eqn:Hpj; [|done]. cbn in Hj. simplify_eq.
  exists j, (code y). rewrite list_lookup_fmap, Hpj. split; [done|].
  destruct (Hmove j y Hpj) as [_ [Hd|[|[_ ?]]]]; [|done|done].
  exfalso. pose proof (Hm j y Hpj) as Hy. destruct Hy; [by apply Hnr|done..].
Qed.

(** Some thread can move unless every client is done. *)
Lemma related_progress c ac :
  (forall s q, exists x, C s q x) -> related c ac ->
  Forall (fun t => t = Idle Done) c.1 \/ exists e c', sys_step c e c'.
Proof.
  intros HC Hr. destruct (all_done_or c.1) as [|(i & t & Hi & Hne)]; [by left|right].
  destruct c as [ts s]. cbn in Hi.
  destruct (related_threads _ _ _ _ HC Hr Hi) as [|[|(_ & j & u & Hj & Hu)]]; [done| |];
    by eapply can_move_step.
Qed.

End adequacy.

(** A step leaves its thread with less to do. *)
Definition less (t' t : thread) : Prop :=
  match t with
  | Idle Done | Running (Crash _) _ => False
  | Idle (Call o k) => t' = Running (impl o) k
  | Running (Ret r) k => t' = Idle (k r)
  | Running (Ask q h) k => exists x, t' = Running (h x) k
  | Running (Act f h) k => exists b, t' = Running (h b) k
  end.

Lemma less_acc t : Acc less t.
Proof.
  assert (forall k, (forall r, Acc less (Idle (k r))) -> forall p, Acc less (Running p k)) as Hrun.
  { intros k Hk p. induction p as [r|q h IH|B f h IH|e]; constructor; intros t'; cbn; [..|done].
    - intros ->. apply Hk.
    - intros [x ->]. apply IH.
    - intros [b ->]. apply IH. }
  assert (forall c, Acc less (Idle c)) as Hidle.
  { intros c. induction c as [|o k IH]; constructor; intros t'; cbn; [done|].
    intros ->. by apply Hrun. }
  destruct t as [c|p k]; [apply Hidle|]. apply Hrun. intros r. apply Hidle.
Qed.

Lemma sys_step_less c e c' :
  sys_step c e c' ->
  exists i t t', c.1 !! i = Some t /\ less t' t /\ c'.1 = <[i := t']> c.1.
Proof.
  intros Hst. destruct Hst as [ts s i o k Hi|ts s i p k p' s' Hi Hst|ts s i r k Hi]; cbn;
    eexists i, _, _; (split; [exact Hi|]); (split; [|done]); [done| |done].
  destruct Hst; cbn; eauto.
Qed.

(** No execution goes on for ever. *)
Lemma sys_step_acc c : Acc (fun c' c => exists e, sys_step c e c') c.
Proof.
  destruct c as [ts s].
  assert (Acc (one_of less) ts) as Hacc by (apply one_of_acc, Forall_true; intros; apply less_acc).
  revert s. induction Hacc as [ts _ IH]. intros s. constructor. intros [ts' s'] [e Hst].
  apply IH. by apply sys_step_less in Hst.
Qed.

(** ** Running a schedule

    The threads that move, one after the other, with answers from [ans]. *)
Section schedule.
Context (ans : st S -> forall q, answer S q) (Hans : forall s q, C s q (ans s q)).

Definition sys_next (i : nat) (c : list thread * st S)
    : option (option event * (list thread * st S)) :=
  let '(ts, s) := c in
  match ts !! i with
  | Some (Idle (Call o k)) => Some (Some (Invoked i o), (<[i := Running (impl o) k]> ts, s))
  | Some (Running (Ret r) k) => Some (Some (Responded i r), (<[i := Idle (k r)]> ts, s))
  | Some (Running (Ask q h) k) => Some (None, (<[i := Running (h (ans s q)) k]> ts, s))
  | Some (Running (Act f h) k) =>
      match f s with
      | Ok (b, s') => Some (None, (<[i := Running (h b) k]> ts, s'))
      | Err _ => None
      end
  | _ => None
  end.

Fixpoint sys_schedule (sched : list nat) (h : list event) (c : list thread * st S)
    : option (list event * (list thread * st S)) :=
  match sched with
  | [] => Some (h, c)
  | i :: sched => '(e, c) ← sys_next i c; sys_schedule sched (h ++ option_list e) c
  end.

Lemma sys_next_step i c e c' : sys_next i c = Some (e, c') -> sys_step c e c'.
Proof.
  destruct c as [ts s]. unfold sys_next. intros Hn.
  destruct (ts !! i) as [[[|o k]|[r|q h|B f h|x] k]|] eqn:Hi; simplify_eq; [by constructor..| |].
  - eapply sys_run; [exact Hi|]. by apply step_ask.
  - destruct (f s) as [[b s']|] eqn:Hf; simplify_eq. eapply sys_run; [exact Hi|]. by apply step_act.
Qed.

Lemma sys_schedule_exec sched h c0 c h' c' :
  sys_exec c0 h c -> sys_schedule sched h c = Some (h', c') -> sys_exec c0 h' c'.
Proof.
  revert h c. induction sched as [|i sched IH]; intros h c He; cbn; [by intros [= <- <-]|].
  intros ([e c1] & Hn & Hs)%bind_Some. eapply IH; [|exact Hs].
  eapply exec_snoc; [exact He|]. by apply (sys_next_step i).
Qed.

End schedule.

End steps.
End object.
End Linearize.
