(* ===== verification/DriverShared.v ===== *)
(** * The character device driver: its locking discipline

    The device has two mutexes. [entry_lock] protects the pending entry and is
    held for a whole write; [buf_lock] protects the circular buffer and the blocks
    of its entries, and is held for a whole read and for the push at the end of a
    write. Here: what each mutex protects, as an instance of [Protocol], and
    rules for programs that hold one of them, both or none. *)

From S2P Require Import Prelude Interleave CircularBuffer Memory Driver DriverSpec DriverWrite DriverRead Linearize.

Module DriverShared.
Import Interleave CircularBuffer Memory Driver DriverSpec DriverWrite DriverRead Linearize.

(** ** Operations and their effects *)

Inductive dev_op : Type :=
| OpWrite (data : bytes)
| OpRead (count pos : Z).

Inductive dev_result : Type :=
| Written (r : Z)
| ReadBack (r : Z) (out : bytes) (pos : Z).

(** Who calls them. *)
Abbreviation dev_client := (client (Op := dev_op) (Res := dev_result)).

Definition do_op (f : file) (o : dev_op) : prog K dev_result :=
  match o with
  | OpWrite data => r ← aesd_write f data (Z.of_nat (length data)); mret (Written r)
  | OpRead count pos => '(r, out, pos) ← aesd_read f count pos; mret (ReadBack r out pos)
  end.

Definition valid_op (o : dev_op) : Prop :=
  match o with
  | OpWrite data => user_data data
  | OpRead count pos => 0 <= pos < 2 ^ 63 /\ 0 <= count <= MAX_RW_COUNT
  end.

(** What an operation may do at once, with the answers that lead there. *)
Inductive dev_effect (C : contract K) : dev_op -> dspec -> dev_result -> dspec -> Prop :=
| eff_write a data :
    dev_effect C (OpWrite data) a (Written (Z.of_nat (length data))) (spec_write a data)
| eff_write_restart a data :
    (exists s0, C s0 (QInterrupted EntryLock) true) ->
    dev_effect C (OpWrite data) a (Written (- ERESTARTSYS)) a
| eff_write_nomem a data :
    (exists s0 n, C s0 (QKzalloc n) 0 /\ 0 <= n /\
       heap_bytes (kheap s0) + n
         = spec_bytes a + Z.of_nat (length (pending a)) + Z.of_nat (length data)) ->
    dev_effect C (OpWrite data) a (Written (- ENOMEM)) a
| eff_write_append a data :
    (exists s0, C s0 (QInterrupted BufLock) true) ->
    dev_effect C (OpWrite data) a (Written (- EINTR)) (spec_append a data)
| eff_read a count pos :
    let out := spec_read a pos count in
    pos + Z.of_nat (length out) < 2 ^ 63 ->
    dev_effect C (OpRead count pos) a
      (ReadBack (Z.of_nat (length out)) out (pos + Z.of_nat (length out))) a
| eff_read_restart a count pos :
    (exists s0, C s0 (QInterrupted BufLock) true) ->
    dev_effect C (OpRead count pos) a (ReadBack (- ERESTARTSYS) [] pos) a
| eff_read_fault a count pos out :
    (exists s0 n l, C s0 (QCopyToUser n) l /\ l <> 0) ->
    prefix out (spec_read a pos count) ->
    dev_effect C (OpRead count pos) a (ReadBack (- EFAULT) out pos) a.

(** ** The kernel *)

Definition set_lock (l : klock) (b : bool) (s : kst) : kst :=
  set_dev (dev_set_lock l b (g_aesd_device s)) s.

(** Within [kernel], it copies valid user buffers, and its answers do not depend
    on the driver's mutexes. *)
Record device_kernel (C : contract K) : Prop := DeviceKernel {
  dk_kernel s q x : C s q x -> kernel s q x;
  dk_copy s data l : C s (QCopyFromUser data (Z.of_nat (length data))) l -> l = 0;
  dk_locks s l b q x : C (set_lock l b s) q x -> C s q x;
  dk_total s q : exists x, C s q x
}.

(** [kernel] with working copies from the user: signals may arrive, memory run
    out and copies to the user fail. *)
Definition kernel_user : contract K := fun s q x =>
  kernel s q x /\
  match q return kanswer q -> Prop with
  | QCopyFromUser data n => fun l => 0 <= n <= Z.of_nat (length data) -> l = 0
  | _ => fun _ => True
  end x.

Lemma kernel_locks s l b q x : kernel (set_lock l b s) q x <-> kernel s q x.
Proof. by destruct q, l. Qed.

Lemma kernel_user_device : device_kernel kernel_user.
Proof.
  split.
  - by intros s q x [].
  - intros s data l [_ Hc]. apply Hc. lia.
  - intros s l b q x [Hk Hq]. split; [by apply (kernel_locks s l b)|by destruct q].
  - intros s q. exists (good_kernel s tt q).1. split; [apply (sample_kernel_kernel (fun _ => false) false)|].
    destruct q; try done. simpl. lia.
Qed.

Lemma kernel_ok_device : device_kernel kernel_ok.
Proof.
  split.
  - by intros s q x [].
  - intros s data l [_ Hc]. apply Hc. lia.
  - intros s l b q x [Hk Hq]. split; [by apply (kernel_locks s l b)|by destruct q, l].
  - intros s q. exists (good_kernel s tt q).1. apply good_kernel_ok.
Qed.

(** ** What the mutexes protect *)

(** Whether the thread holds [entry_lock], and [buf_lock]. *)
Abbreviation dmode := (bool * bool)%type.
Definition nothing : dmode := (false, false).

Definition entry_free (s : kst) : Prop := entry_lock (g_aesd_device s) = false.
Definition buf_free (s : kst) : Prop := buf_lock (g_aesd_device s) = false.

(** The whole device is as [a] says; the buffer is. *)
Definition whole (s : kst) (a : dspec) : Prop :=
  exists cbs pend, drv_rel s cbs pend /\ a = abs cbs pend.
Definition buffer (s : kst) (a : dspec) : Prop :=
  exists cbs, buf_rep s cbs /\ committed a = cbs.*2.

Definition dev_ready (m : dmode) (s : kst) (a : dspec) : Prop :=
  (m.1 = true -> ~ entry_free s) /\ (m.2 = true -> ~ buf_free s)
  /\ (m = nothing -> (entry_free s -> whole s a) /\ (buf_free s -> buffer s a)).

(** With [entry_lock], others may only take and release the other mutex; with
    [buf_lock], they leave the buffer and its entries alone. *)
Definition dev_rely (m : dmode) (s : kst) (a : dspec) (s1 : kst) (a1 : dspec) : Prop :=
  match m with
  | (false, false) => True
  | (true, false) => (exists b, s1 = set_lock BufLock b s) /\ a1 = a
  | (false, true) =>
      buf (g_aesd_device s1) = buf (g_aesd_device s)
      /\ (forall cbs, buf_rep s cbs -> buf_rep s1 cbs) /\ committed a1 = committed a
  | (true, true) => s1 = s /\ a1 = a
  end.

(** What a thread may do with each access. A thread that gives a mutex back leaves
    what it protects as the specification has it. *)
Inductive dev_guar : dmode -> kst -> dspec -> dmode -> kst -> dspec -> Prop :=
| dg_stay m s a : dev_guar m s a m s a
| dg_lock_entry s a :
    entry_free s -> dev_guar (false, false) s a (true, false) (set_lock EntryLock true s) a
| dg_lock_buf e s a :
    buf_free s -> dev_guar (e, false) s a (e, true) (set_lock BufLock true s) a
| dg_pending s s' a :
    buf (g_aesd_device s') = buf (g_aesd_device s) -> same_locks s s' ->
    (forall cbs, buf_rep s cbs -> buf_rep s' cbs) ->
    dev_guar (true, false) s a (true, false) s' a
| dg_push s s' a : same_locks s s' -> dev_guar (true, true) s a (true, true) s' a
| dg_publish s a a' :
    buffer s a' -> dev_guar (true, true) s a (true, false) (set_lock BufLock false s) a'
| dg_unlock_buf s a : dev_guar (false, true) s a (false, false) (set_lock BufLock false s) a
| dg_unlock_entry s a a' :
    whole s a' -> committed a' = committed a ->
    dev_guar (true, false) s a (false, false) (set_lock EntryLock false s) a'.

Definition dev_waits (m : dmode) (s : kst) : Prop :=
  match m with
  | (false, false) => ~ entry_free s \/ ~ buf_free s
  | (true, false) => ~ buf_free s
  | _ => False
  end.

(** A mutex is held by one thread at most, and its flag says whether it is. *)
Definition held_by (flag : bool) (hs : list bool) : Prop :=
  (forall i j, hs !! i = Some true -> hs !! j = Some true -> i = j)
  /\ (flag = true <-> exists i, hs !! i = Some true).

Definition dev_inv (ms : list dmode) (s : kst) (a : dspec) : Prop :=
  held_by (entry_lock (g_aesd_device s)) ms.*1
  /\ held_by (buf_lock (g_aesd_device s)) ms.*2
  /\ (entry_free s -> whole s a)
  /\ ((true, true) ∉ ms -> buffer s a).

(** ** Lemmas *)

Lemma set_lock_same s : set_lock BufLock (buf_lock (g_aesd_device s)) s = s.
Proof. by destruct s as [h ma mi [b bl c e el] r]. Qed.

Lemma set_lock_set b b' s : set_lock BufLock b (set_lock BufLock b' s) = set_lock BufLock b s.
Proof. done. Qed.

(** What is represented does not depend on the mutexes. *)
Lemma drv_rel_lock l b s cbs pend : drv_rel s cbs pend -> drv_rel (set_lock l b s) cbs pend.
Proof. by apply drv_rel_proper; destruct l. Qed.

Lemma buf_rep_lock l b s cbs : buf_rep (set_lock l b s) cbs <-> buf_rep s cbs.
Proof. by split; intros []; split; destruct l. Qed.
Hint Resolve <- buf_rep_lock : core.

Lemma whole_lock l b s a : whole s a -> whole (set_lock l b s) a.
Proof. intros (cbs & pend & Hr & Ha). exists cbs, pend. split; [by apply drv_rel_lock|done]. Qed.

Lemma buffer_lock l b s a a' :
  committed a' = committed a -> buffer s a -> buffer (set_lock l b s) a'.
Proof.
  intros Hc (cbs & Hr & Ha). exists cbs. split; [by apply buf_rep_lock|by rewrite Hc].
Qed.

Lemma whole_buffer s a : whole s a -> buffer s a.
Proof.
  intros (cbs & pend & Hr & ->). exists cbs. split; [by eapply drv_rel_buf|done].
Qed.

(** The entries' blocks are those the buffer names. *)
Lemma buf_rep_keeps s s' cbs :
  cb_rep (buf (g_aesd_device s)) (mk_entry <$> cbs) -> keeps_entries cbs s s' ->
  forall cbs', buf_rep s cbs' -> buf_rep s' cbs'.
Proof.
  intros Hcb (Hb & _ & Hh) cbs' [Hcb' Hblk Hby].
  assert (cbs'.*1 = cbs.*1) as Hp.
  { assert (mk_entry <$> cbs' = mk_entry <$> cbs) as He
      by (rewrite <- (contents_rep _ _ Hcb'), <- (contents_rep _ _ Hcb); done).
    apply (f_equal (fmap buffptr)) in He. by rewrite <- !list_fmap_compose in He. }
  split; [by rewrite Hb| |done].
  eapply Forall_impl; [apply Forall_and; split; [exact Hblk|]|].
  - apply Forall_forall. intros pb Hin. apply (Hh pb.1). rewrite <- Hp.
    by apply list_elem_of_fmap_2.
  - intros pb [[Hz Hl] He]. cbn beta in He. by rewrite He.
Qed.

(** A mutex changes hands, or stays where it is. *)
Lemma held_by_step flag hs i h h' flag' :
  held_by flag hs -> hs !! i = Some h ->
  (h' = h /\ flag' = flag) \/ (h = false /\ h' = true /\ flag = false /\ flag' = true)
    \/ (h = true /\ h' = false /\ flag' = false) ->
  held_by flag' (<[i := h']> hs).
Proof.
  intros [Hu Hf] Hi Hc. pose proof (lookup_lt_Some _ _ _ Hi) as Hlt.
  destruct Hc as [[-> ->]|[(-> & -> & -> & ->)|(-> & -> & ->)]].
  - by rewrite list_insert_id.
  - assert (forall j, hs !! j <> Some true) as Hno.
    { intros j Hj. destruct Hf as [_ Hf]. by discriminate Hf; exists j. }
    split.
    + intros j k Hj Hk. apply list_lookup_insert_Some in Hj, Hk. naive_solver.
    + split; [|done]. intros _. exists i. by apply list_lookup_insert_eq.
  - split.
    + intros j k Hj Hk. apply list_lookup_insert_Some in Hj, Hk. naive_solver.
    + split; [done|]. intros [j Hj]. apply list_lookup_insert_Some in Hj.
      destruct Hj as [(_ & ? & _)|[Hne Hj]]; [done|]. by destruct Hne; apply Hu.
Qed.

Lemma held_by_free hs i : held_by false hs -> hs !! i = Some true -> False.
Proof. intros [_ [_ Hf]] Hi. discriminate Hf. by exists i. Qed.

(** ** The laws of the protocol *)

Lemma dev_rely_refl m s a : dev_rely m s a s a.
Proof.
  destruct m as [[] []]; cbn; try done. split; [|done].
  exists (buf_lock (g_aesd_device s)). by rewrite set_lock_same.
Qed.

Lemma dev_rely_trans m s a s1 a1 s2 a2 :
  dev_rely m s a s1 a1 -> dev_rely m s1 a1 s2 a2 -> dev_rely m s a s2 a2.
Proof.
  destruct m as [[] []]; cbn; try done.
  - by intros [-> ->].
  - intros [[b ->] ->] [[b' ->] ->]. split; [|done]. by exists b'.
  - intros (Hb & Hr & Ha) (Hb' & Hr' & Ha'). split_and!; [congruence|auto|congruence].
Qed.

Section laws.
Context (ms : list dmode) (s : kst) (a : dspec) (Hinv : dev_inv ms s a).

Lemma held_lookup i m :
  ms !! i = Some m -> ms.*1 !! i = Some m.1 /\ ms.*2 !! i = Some m.2.
Proof. intros Hm. by rewrite !list_lookup_fmap, Hm. Qed.

Lemma dev_inv_holds i m :
  ms !! i = Some m -> (m.1 = true -> ~ entry_free s) /\ (m.2 = true -> ~ buf_free s).
Proof.
  intros [H1 H2]%held_lookup. destruct Hinv as (He & Hb & _). unfold entry_free, buf_free.
  split; intros Ht Hfr; rewrite Ht, Hfr in *; by eapply held_by_free.
Qed.

Lemma dev_inv_alone i m j mj :
  ms !! i = Some m -> ms !! j = Some mj -> j <> i ->
  (m.1 = true -> mj.1 = false) /\ (m.2 = true -> mj.2 = false).
Proof.
  intros [H1 H2]%held_lookup Hj Hne. destruct Hinv as ([He _] & [Hb _] & _).
  split; intros Ht; rewrite Ht in *; apply not_true_iff_false; intros Hmj; destruct Hne.
  - apply He; [|done]. by rewrite list_lookup_fmap, Hj; cbn; rewrite Hmj.
  - apply Hb; [|done]. by rewrite list_lookup_fmap, Hj; cbn; rewrite Hmj.
Qed.

Lemma dev_inv_ready i m : ms !! i = Some m -> dev_ready m s a.
Proof.
  intros Hm. destruct (dev_inv_holds i m Hm) as [He Hb]. split_and!; [done..|].
  intros ->. destruct Hinv as (_ & Hbl & Hw & Hbu). split; [done|]. intros Hfree.
  apply Hbu. intros [j Hj]%list_elem_of_lookup. unfold buf_free in Hfree. rewrite Hfree in Hbl.
  eapply held_by_free; [done|]. by rewrite list_lookup_fmap, Hj.
Qed.

Lemma dev_inv_guar i m m' s' a' :
  ms !! i = Some m -> dev_guar m s a m' s' a' -> dev_inv (<[i := m']> ms) s' a'.
Proof.
  intros Hm Hg. destruct (held_lookup i m Hm) as [H1 H2]. destruct (dev_inv_holds i m Hm) as [He0 Hb0].
  destruct Hinv as (He & Hb & Hw & Hbu).
  assert (m <> (true, true) -> (true, true) ∉ <[i := m']> ms -> (true, true) ∉ ms) as Hpush.
  { intros Hne Hn Hin. destruct Hn. apply list_elem_of_lookup in Hin as [j Hj].
    apply list_elem_of_lookup. exists j. rewrite list_lookup_insert_ne; [done|congruence]. }
  assert (m' = (true, true) -> (true, true) ∉ <[i := m']> ms -> buffer s' a') as Hpush'.
  { intros -> []. apply list_elem_of_lookup. exists i.
    apply list_lookup_insert_eq. by eapply lookup_lt_Some. }
  unfold dev_inv. rewrite !list_fmap_insert.
  destruct Hg as [m s a|s a Hf|e s a Hf|s s' a Hbuf [Hl1 Hl2] Hkeep|s s' a [Hl1 Hl2]|s a a' Hp|s a|s a a' Hp Hc];
    cbn [fst snd] in *; (split_and!;
    [by eapply held_by_step; eauto 7 | by eapply held_by_step; eauto 7 | | ]).
  - done.
  - intros Hn. apply Hbu. by rewrite list_insert_id in Hn.
  - done.
  - intros Hn. apply (buffer_lock _ _ _ a); [done|]. by apply Hbu, Hpush.
  - intros Hfr. by apply whole_lock, Hw.
  - destruct e; [by apply Hpush'|]. intros Hn. apply (buffer_lock _ _ _ a); [done|]. by apply Hbu, Hpush.
  - intros Hfr. destruct He0; [done|]. unfold entry_free in *. by rewrite <- Hl2.
  - intros Hn. destruct (Hbu (Hpush ltac:(done) Hn)) as (cbs & Hr & Ha). exists cbs. eauto.
  - intros Hfr. destruct He0; [done|]. unfold entry_free in *. by rewrite <- Hl2.
  - by apply Hpush'.
  - intros Hfr. by destruct He0.
  - intros _. by apply (buffer_lock _ _ _ a').
  - intros Hfr. by apply whole_lock, Hw.
  - intros Hn. apply (buffer_lock _ _ _ a); [done|]. by apply Hbu, Hpush.
  - intros _. by apply whole_lock.
  - intros _. by apply (buffer_lock _ _ _ a'), whole_buffer.
Qed.

Lemma dev_inv_rely i m m' s' a' j mj :
  ms !! i = Some m -> dev_guar m s a m' s' a' -> j <> i -> ms !! j = Some mj ->
  dev_rely mj s a s' a'.
Proof.
  intros Hm Hg Hne Hj.
  destruct (dev_inv_alone i m j mj Hm Hj Hne) as [H1 H2].
  destruct (dev_inv_holds j mj Hj) as [H3 H4].
  destruct Hg as [m s a|s a Hf|e s a Hf|s s' a Hbuf [Hl1 Hl2] Hkeep|s s' a [Hl1 Hl2]|s a a' Hp|s a|s a a' Hp Hc];
    cbn [fst snd] in *; [apply dev_rely_refl|..];
    destruct mj as [[] []]; cbn in H1, H2, H3, H4;
    try discriminate (H1 eq_refl); try discriminate (H2 eq_refl); try (by destruct H3); try (by destruct H4);
    cbn; by eauto.
Qed.

Lemma dev_inv_waits i m :
  ms !! i = Some m -> dev_waits m s ->
  exists j mj, ms !! j = Some mj /\ mj <> nothing /\ ~ dev_waits mj s.
Proof.
  intros Hm Hw. destruct Hinv as ([_ [He _]] & [_ [Hb _]] & _).
  destruct (buf_lock (g_aesd_device s)) eqn:Hbl.
  - destruct (Hb eq_refl) as [j Hj]. rewrite list_lookup_fmap in Hj.
    destruct (ms !! j) as [[e []]|] eqn:Hmj; [|done..].
    exists j, (e, true). split_and!; [done..|]. by destruct e; cbn; tauto.
  - assert (~ entry_free s) as Hne.
    { destruct m as [[] []]; cbn in Hw; unfold buf_free in Hw; tauto. }
    apply not_false_iff_true in Hne.
    destruct (He Hne) as [j Hj]. rewrite list_lookup_fmap in Hj.
    destruct (ms !! j) as [[[] b]|] eqn:Hmj; [|done..].
    exists j, (true, b). split_and!; [done..|]. destruct b; cbn; unfold buf_free; tauto.
Qed.

End laws.

#[export] Instance dev_protocol : Protocol (S := K) (Ab := dspec) dmode nothing :=
  Build_Protocol (S := K) (Ab := dspec) dmode nothing
    dev_rely dev_ready dev_guar dev_waits dev_inv dev_rely_refl dev_rely_trans dg_stay
    (fun ms s a i m Hi => dev_inv_ready ms s a Hi i m)
    (fun ms s a i m m' s' a' Hi => dev_inv_guar ms s a Hi i m m' s' a')
    (fun ms s a i m m' s' a' j mj Hi => dev_inv_rely ms s a Hi i m m' s' a' j mj)
    (fun ms s a i m Hi => dev_inv_waits ms s a Hi i m).

End DriverShared.
