(* ===== verification/DriverConcurrent.v ===== *)
(** * The character device driver: concurrent use

    Any number of clients call [aesd_read] and [aesd_write] at the same time,
    step by step in any interleaving. Each call takes effect at one point: a
    write where it gives [buf_lock] back, or [entry_lock] when it commits
    nothing; a read where it gives [buf_lock] back. *)

From S2P Require Import Prelude Interleave CircularBuffer Memory Driver DriverSpec DriverWrite DriverRead Linearize DriverShared.

Module DriverConcurrent.
Import Interleave CircularBuffer Memory Driver DriverSpec DriverWrite DriverRead Linearize DriverShared.

Section concurrent.
Context (C : contract K) (HC : device_kernel C).

Abbreviation sim := (tsim (S := K) C (dev_effect C)).

(** ** Programs that hold mutexes *)

Section held.
Context {A : Type} (o : dev_op) (QQ : A -> dmode -> option dev_result -> kst -> dspec -> Prop).

(** With [entry_lock]: the other mutex may change hands at any time. *)
Lemma sim_pending cbs (p : prog K A) Q g s b a :
  (forall b, ignores (S := K) (set_lock BufLock b) p) ->
  cb_rep (buf (g_aesd_device s)) (mk_entry <$> cbs) ->
  wps C (keeps_entries cbs) p Q s ->
  (forall x s' b', Q x s' -> QQ x (true, false) g (set_lock BufLock b' s') a) ->
  sim o p QQ (true, false) g (set_lock BufLock b s) a.
Proof.
  intros Hig Hcb Hw HQ. revert s b Hcb Hw Hig.
  induction p as [x|q k IH|B f k IH|e]; intros s b Hcb Hw Hig s1 a1 [[b1 ->] ->] Hrd;
    [rewrite set_lock_set..|done].
  - by apply HQ.
  - intros x Hx. exists (true, false), g, a. split_and!; [apply effect_none|apply dg_stay|].
    apply IH; [done| |by intros b'; apply (Hig b')]. by apply Hw, (dk_locks C HC _ BufLock b1).
  - apply wps_act_inv in Hw as (y & s' & Hf & Hk & Hw).
    destruct (Hig b1) as [Hig1 _]. rewrite (Hig1 _ _ _ Hf).
    exists (true, false), g, a. split_and!; [apply effect_none| |].
    + pose proof Hk as (Hb & [Hl1 Hl2] & _). apply dg_pending; [done|done|]. intros cbs' Hr.
      apply buf_rep_lock. eapply buf_rep_keeps; [exact Hcb|done|]. by eapply buf_rep_lock.
    + apply IH; [|done|by intros b'; apply (Hig b')]. destruct Hk as (Hb & _). by rewrite Hb.
Qed.

(** With both mutexes: nobody else does anything. *)
Lemma sim_both (p : prog K A) Q g s a :
  wps C same_locks p Q s -> (forall x s', Q x s' -> QQ x (true, true) g s' a) ->
  sim o p QQ (true, true) g s a.
Proof.
  intros Hw HQ. revert s Hw.
  induction p as [x|q k IH|B f k IH|e]; intros s Hw s1 a1 [-> ->] Hrd.
  - by apply HQ.
  - intros x Hx. exists (true, true), g, a. split_and!; [apply effect_none|apply dg_stay|].
    by apply IH, Hw.
  - apply wps_act_inv in Hw as (y & s' & Hf & Hk & Hw). rewrite Hf.
    exists (true, true), g, a. split_and!; [apply effect_none|by apply dg_push|]. by apply IH.
  - done.
Qed.

(** With [buf_lock]: the buffer and its entries stay. *)
Lemma sim_reading b cbs (p : prog K A) Q g s a :
  reads C (fun s => buf (g_aesd_device s) = b /\ buf_rep s cbs) p Q ->
  buf (g_aesd_device s) = b -> buf_rep s cbs ->
  (forall x s' a', committed a' = committed a -> Q x -> QQ x (false, true) g s' a') ->
  sim o p QQ (false, true) g s a.
Proof.
  intros Hp Hb Hr HQ. revert s a Hb Hr HQ.
  induction p as [x|q k IH|B f k IH|e]; intros s a Hb Hr HQ s1 a1 (Hb1 & Hr1 & Ha1) Hrd; [| | |done].
  - by apply HQ.
  - intros x Hx. exists (false, true), g, a1. split_and!; [apply effect_none|apply dg_stay|].
    apply IH; [eapply Hp; [|exact Hx]; split; [congruence|by auto] | congruence | by auto|].
    intros y s' a' Ha'. apply HQ. congruence.
  - destruct Hp as (y & Hf & Hk). assert (f s1 = Ok (y, s1)) as Hf1 by (apply Hf; split; [congruence|auto]).
    rewrite Hf1. exists (false, true), g, a1. split_and!; [apply effect_none|apply dg_stay|].
    apply IH; [done | congruence | by auto|]. intros z s' a' Ha'. apply HQ. congruence.
Qed.

End held.

(** ** Taking and giving back *)

Section locks.
Context {A : Type} (o : dev_op) (QQ : A -> dmode -> option dev_result -> kst -> dspec -> Prop).

Lemma sim_lock_entry (k : Z -> prog K A) g s a :
  (forall s1 a1, C s1 (QInterrupted EntryLock) true ->
     exists g', effect (dev_effect C) o g a1 g' a1 /\ sim o (k (- EINTR)) QQ nothing g' s1 a1) ->
  (forall s1 a1, whole s1 a1 -> sim o (k 0) QQ (true, false) g (set_lock EntryLock true s1) a1) ->
  sim o (mutex_lock_interruptible EntryLock ≫= k) QQ nothing g s a.
Proof.
  intros Hi Hk s1 a1 _ _ [] Hx.
  - destruct (Hi s1 a1 Hx) as (g' & He & Hs). exists nothing, g', a1.
    split_and!; [done|apply dg_stay|exact Hs].
  - exists nothing, g, a1. split_and!; [apply effect_none|apply dg_stay|].
    intros s2 a2 _ (_ & _ & Hrd). destruct (Hrd eq_refl) as [Hw _]. cbn.
    destruct (entry_lock (g_aesd_device s2)) eqn:Hl.
    + split; [done|]. left. unfold entry_free. by rewrite Hl.
    + exists (true, false), g, a2. split_and!; [apply effect_none|by apply dg_lock_entry|].
      by apply Hk, Hw.
Qed.

(** A reader's lock, and a writer's second one. *)
Lemma sim_lock_reader (k : Z -> prog K A) g s a :
  (forall s1 a1, C s1 (QInterrupted BufLock) true ->
     exists g', effect (dev_effect C) o g a1 g' a1 /\ sim o (k (- EINTR)) QQ nothing g' s1 a1) ->
  (forall s1 a1, buffer s1 a1 -> sim o (k 0) QQ (false, true) g (set_lock BufLock true s1) a1) ->
  sim o (mutex_lock_interruptible BufLock ≫= k) QQ nothing g s a.
Proof.
  intros Hi Hk s1 a1 _ _ [] Hx.
  - destruct (Hi s1 a1 Hx) as (g' & He & Hs). exists nothing, g', a1.
    split_and!; [done|apply dg_stay|exact Hs].
  - exists nothing, g, a1. split_and!; [apply effect_none|apply dg_stay|].
    intros s2 a2 _ (_ & _ & Hrd). destruct (Hrd eq_refl) as [_ Hw]. cbn.
    destruct (buf_lock (g_aesd_device s2)) eqn:Hl.
    + split; [done|]. right. unfold buf_free. by rewrite Hl.
    + exists (false, true), g, a2. split_and!; [apply effect_none|by apply dg_lock_buf|].
      by apply Hk, Hw.
Qed.

Lemma sim_lock_writer (k : Z -> prog K A) g s b a :
  (forall b', C (set_lock BufLock b' s) (QInterrupted BufLock) true ->
     sim o (k (- EINTR)) QQ (true, false) g (set_lock BufLock b' s) a) ->
  sim o (k 0) QQ (true, true) g (set_lock BufLock true s) a ->
  sim o (mutex_lock_interruptible BufLock ≫= k) QQ (true, false) g (set_lock BufLock b s) a.
Proof.
  intros Hi Hk s1 a1 [[b1 ->] ->] _ [] Hx; rewrite set_lock_set in *;
    exists (true, false), g, a; (split_and!; [apply effect_none|apply dg_stay|]).
  - by apply Hi.
  - intros s2 a2 [[b2 ->] ->] _. rewrite set_lock_set. destruct b2; [done|].
    exists (true, true), g, a. split_and!; [apply effect_none|by apply dg_lock_buf|exact Hk].
Qed.

Lemma sim_unlock_entry (k : unit -> prog K A) g g' s a a' :
  effect (dev_effect C) o g a g' a' -> whole s a' -> committed a' = committed a ->
  (forall s1 a1, sim o (k tt) QQ nothing g' s1 a1) ->
  sim o (mutex_unlock EntryLock ≫= k) QQ (true, false) g s a.
Proof.
  intros He Hw Hc Hk s1 a1 [[b1 ->] ->] [Hrd _]. cbn.
  destruct (entry_lock (g_aesd_device s)) eqn:Hl; [|by destruct Hrd].
  exists nothing, g', a'. split_and!; [done| |apply Hk].
  apply (dg_unlock_entry (set_lock BufLock b1 s)); [by apply whole_lock|done].
Qed.

Lemma sim_unlock_reader (k : unit -> prog K A) g s a :
  (forall a1, committed a1 = committed a ->
     exists g', effect (dev_effect C) o g a1 g' a1
       /\ forall s2, sim o (k tt) QQ nothing g' s2 a1) ->
  sim o (mutex_unlock BufLock ≫= k) QQ (false, true) g s a.
Proof.
  intros Hk s1 a1 (_ & _ & Ha) (_ & Hrd & _). cbn.
  destruct (buf_lock (g_aesd_device s1)) eqn:Hl; [|by destruct Hrd].
  destruct (Hk a1 Ha) as (g' & He & Hs). exists nothing, g', a1.
  split_and!; [done|apply dg_unlock_buf|apply Hs].
Qed.

Lemma sim_unlock_writer (k : unit -> prog K A) g g' s a a' :
  effect (dev_effect C) o g a g' a' -> buffer s a' ->
  sim o (k tt) QQ (true, false) g' (set_lock BufLock false s) a' ->
  sim o (mutex_unlock BufLock ≫= k) QQ (true, true) g s a.
Proof.
  intros He Hb Hk s1 a1 [-> ->] (_ & Hrd & _). cbn.
  destruct (buf_lock (g_aesd_device s)) eqn:Hl; [|by destruct Hrd].
  exists (true, false), g', a'. split_and!; [done|by apply dg_publish|exact Hk].
Qed.

End locks.

(** ** The operations *)

Ltac ignores_step :=
  cbn beta iota; first
    [ exact I
    | apply ignores_bind; [|intros ?]
    | match goal with |- ignores _ (match ?x with _ => _ end) => destruct x end
    | match goal with |- ignores _ (if ?b then _ else _) => destruct b end
    | progress unfold kzalloc, kfree, kload, kstore, copy_from_user, upd_dev, get_dev,
        get, modify, ask, act
    | split; [intros s x s' Hact; cbn in Hact |- *;
        repeat match type of Hact with
        | (?r ≫= _) = Ok _ => destruct r; [cbn [mbind res_bind] in Hact |- *|done]
        end; by simplify_eq/=|intros ?]
    | intros ? ].

(** The first half of a write does not look at [buf_lock]. *)
Lemma write_data_ignores b data count :
  ignores (S := K) (set_lock BufLock b) (write_data data count).
Proof. unfold write_data. repeat ignores_step. Qed.

Lemma upd_dev_ignores b h :
  (forall l d, h (dev_set_lock BufLock l d) = dev_set_lock BufLock l (h d)) ->
  ignores (S := K) (set_lock BufLock b) (upd_dev h).
Proof.
  intros Hh. split; [|done]. intros s [] s' Hact. cbn in Hact. simplify_eq/=.
  unfold set_lock. cbn. by rewrite Hh.
Qed.

(** What is left of a write when it gives [entry_lock] back: its effect, unless it
    had it. *)
Definition write_left (o : dev_op) (r : Z) (m : dmode) (g : option dev_result)
    (s : kst) (a : dspec) : Prop :=
  m = (true, false) /\ exists a',
    effect (dev_effect C) o g a (Some (Written r)) a' /\ whole s a'
    /\ committed a' = committed a.

Lemma write_left_lock o r m g s a b :
  write_left o r m g s a -> write_left o r m g (set_lock BufLock b s) a.
Proof. intros (Hm & a' & He & Hw & Ha). split; [done|]. exists a'. by eauto using whole_lock. Qed.

Lemma sim_write_left o r g s a :
  write_left o r (true, false) g s a ->
  sim o (mret r) (write_left o) (true, false) g s a.
Proof. intros Hw. apply tsim_ret. intros s1 a1 [[b ->] ->] _. by apply write_left_lock. Qed.

(** The push, with both mutexes. *)
Lemma sim_push data s cbs pend p :
  user_data data ->
  drv_rel s cbs (Some (p, from_option snd [] pend ++ data)) ->
  sim (OpWrite data)
    (write_push;; mutex_unlock BufLock;; mret (i64 (Z.of_nat (length data))))
    (write_left (OpWrite data)) (true, true) None (set_lock BufLock true s) (abs cbs pend).
Proof.
  intros [_ Hd] Hr. apply tsim_bind.
  eapply (sim_both _ _ _ (fun _ s' => exists cbs' pend', drv_rel s' cbs' pend'
            /\ abs cbs' pend' = spec_write (abs cbs pend) data)).
  { apply (wps_write_push C _ _ p). by apply drv_rel_lock. }
  intros [] s' (cbs' & pend' & Hr' & Habs). rewrite i64_small by (unfold MAX_RW_COUNT in *; lia).
  apply (sim_unlock_writer _ _ _ _ (Some (Written (Z.of_nat (length data)))) _ _ (abs cbs' pend')).
  - rewrite Habs. apply effect_now, eff_write.
  - apply whole_buffer. by exists cbs', pend'.
  - apply sim_write_left. split; [done|]. exists (abs cbs' pend').
    split_and!; [apply effect_none|apply whole_lock; by exists cbs', pend'|done].
Qed.

Lemma sim_write_locked data s cbs pend b :
  user_data data -> drv_rel s cbs pend ->
  sim (OpWrite data) (write_locked data (Z.of_nat (length data))) (write_left (OpWrite data))
    (true, false) None (set_lock BufLock b s) (abs cbs pend).
Proof.
  intros Hd Hr. unfold write_locked. apply tsim_bind.
  eapply (sim_pending _ _ cbs).
  { intros b1. apply write_data_ignores. }
  { by eapply dr_buf. }
  { apply (wps_write_data C (dk_kernel C HC)); done. }
  intros r s1 b1 [_ Ho]. destruct r as [err|[]].
  - apply sim_write_left, write_left_lock. split; [done|].
    destruct Ho as [(-> & Hr1 & Hf)|(-> & (s0 & l & Hl & Hne) & _)].
    + exists (abs cbs pend). split_and!; [|by exists cbs, pend|done].
      apply effect_now, eff_write_nomem. by rewrite <- (heap_bytes_spec s cbs pend Hr).
    + by destruct Hne; eapply (dk_copy C HC).
  - destruct Ho as (_ & p & Hr1). apply tsim_bind.
    eapply (sim_pending _ _ cbs _ (fun _ s' => s' = bump (Z.of_nat (length data)) s1)).
    { intros b2. by apply upd_dev_ignores. }
    { apply (dr_buf _ _ _ Hr1). }
    { by apply wps_upd_dev. }
    intros [] s2 b2 ->. set (s2 := bump _ s1) in *.
    apply sim_lock_writer; cbn [negb].
    + intros b3 Hi. apply sim_write_left, write_left_lock. split; [done|].
      exists (spec_append (abs cbs pend) data). split_and!; [|by eexists cbs, _|done].
      apply effect_now, eff_write_append. by eauto.
    + by apply (sim_push data s2 cbs pend p).
Qed.

(** ** A write, a read *)

Context (f : file) (Hf : private_data f = Some DevPtr).

Lemma sim_write data s a :
  user_data data -> sim (OpWrite data) (do_op f (OpWrite data)) (ended (rest := nothing)) nothing None s a.
Proof.
  intros Hd. cbn [do_op]. apply tsim_bind. unfold aesd_write, deref. rewrite Hf.
  apply (sim_lock_entry _ _ _ None).
  - intros s1 a1 Hi. exists (Some (Written (- ERESTARTSYS))). split.
    + apply effect_now, eff_write_restart. by eauto.
    + apply tsim_ret. intros s2 a2 _ _. by apply tsim_ret.
  - intros s1 a1 (cbs & pend & Hr & ->). cbn [negb]. apply tsim_bind.
    eapply tsim_mono; [|].
    2: { rewrite <- (set_lock_same (set_lock EntryLock true s1)).
         apply sim_write_locked; [done|by apply drv_rel_lock]. }
    intros r m g s2 a2 [-> (a' & He & Hw & Ha)].
    eapply sim_unlock_entry; [done..|]. intros s3 a3.
    apply tsim_ret. intros s4 a4 _ _. by apply tsim_ret.
Qed.

Lemma sim_read count pos s a :
  0 <= pos < 2 ^ 63 -> 0 <= count <= MAX_RW_COUNT ->
  sim (OpRead count pos) (do_op f (OpRead count pos)) (ended (rest := nothing)) nothing None s a.
Proof.
  intros Hpos Hcount. cbn [do_op]. apply tsim_bind. unfold aesd_read, deref. rewrite Hf.
  apply (sim_lock_reader _ _ _ None).
  - intros s1 a1 Hi. exists (Some (ReadBack (- ERESTARTSYS) [] pos)). split.
    + apply effect_now, eff_read_restart. by eauto.
    + apply tsim_ret. intros s2 a2 _ _. by apply tsim_ret.
  - intros s1 a1 (cbs & Hr & Ha). cbn [negb]. apply tsim_bind.
    eapply (sim_reading _ _ (buf (g_aesd_device s1)) cbs).
    { apply reads_read_locked; [apply Hr|apply Hr| |done|done].
      eapply Forall_impl; [apply (br_block _ _ Hr)|]. by intros pb []. }
    { done. }
    { by apply buf_rep_lock. }
    intros [[r out] pos'] s2 a2 Ha2 Hres. apply sim_unlock_reader. intros a3 Ha3.
    exists (Some (ReadBack r out pos')). split; [|intros s3; apply tsim_ret; intros ????; by apply tsim_ret].
    apply effect_now. rewrite <- Ha, <- Ha2, <- Ha3 in Hres.
    destruct Hres as [[Heq Hlt]|[Hc (out' & Heq & Hpre)]]; simplify_eq.
    + by apply eff_read.
    + by apply eff_read_fault.
Qed.

Lemma sim_op o s a :
  valid_op o -> sim o (do_op f o) (ended (rest := nothing)) nothing None s a.
Proof. destruct o as [data|count pos]; [apply sim_write|intros []; by apply sim_read]. Qed.

(** ** The device as a whole *)

Lemma held_by_none (v : dmode -> bool) n :
  v nothing = false -> held_by false (v <$> replicate n nothing).
Proof.
  intros Hv.
  assert (forall i, (v <$> replicate n nothing) !! i <> Some true) as Hno.
  { intros i Hi. rewrite list_lookup_fmap in Hi.
    destruct (replicate n nothing !! i) as [m|] eqn:Hm; [|done].
    apply lookup_replicate in Hm as [-> _]. cbn in Hi. congruence. }
  split; [intros i j Hi; by destruct (Hno i)|]. split; [done|]. intros [i Hi]. by destruct (Hno i).
Qed.

Lemma dev_inv_start n s a : represents s a -> dev_inv (replicate n nothing) s a.
Proof.
  intros [[Hb He] (cbs & pend & Hr & ->)]. unfold dev_inv. rewrite Hb, He.
  split_and!; [by apply held_by_none..|by exists cbs, pend|].
  intros _. apply whole_buffer. by exists cbs, pend.
Qed.

Lemma held_by_nobody flag (v : dmode -> bool) n :
  v nothing = false -> held_by flag (v <$> replicate n nothing) -> flag = false.
Proof.
  intros Hv [_ [Hfl _]]. destruct flag; [|done]. destruct (Hfl eq_refl) as [i Hi].
  by destruct (held_by_free _ i (held_by_none v n Hv)).
Qed.

Lemma dev_inv_end n s a : dev_inv (replicate n nothing) s a -> represents s a.
Proof.
  intros (He & Hb & Hw & _). apply held_by_nobody in He, Hb; [|done..].
  split; [done|]. by apply Hw.
Qed.

(** Clients that make valid calls, given results the device may give. *)
Definition proper_client : dev_client -> Prop := good (dev_effect C) valid_op.

Lemma device_related cs s a h c :
  Forall proper_client cs -> represents s a ->
  sys_exec C (do_op f) (Idle <$> cs, s) h c ->
  exists ac, related C (dev_effect C) valid_op c ac
    /\ atomic_exec (dev_effect C) (AIdle <$> cs, a) h ac.
Proof.
  intros Hcs Ha Hex. eapply (related_exec (S := K) (Ab := dspec)); [by apply sim_op| |exact Hex].
  apply related_init; [done|]. by apply dev_inv_start.
Qed.

(** Every client is done, and the device is as some atomic one. *)
Definition completed (c : list (thread (S := K) (Op := dev_op) (Res := dev_result)) * kst) : Prop :=
  Forall (fun t => t = Idle Done) c.1 /\ exists a, represents c.2 a.

Lemma device_progress cs s a h c :
  Forall proper_client cs -> represents s a ->
  sys_exec C (do_op f) (Idle <$> cs, s) h c ->
  completed c \/ exists e c2, sys_step C (do_op f) c e c2.
Proof.
  intros Hcs Ha Hex. destruct (device_related cs s a h c Hcs Ha Hex) as (ac & Hr & _).
  destruct (related_progress C (do_op f) (dev_effect C) valid_op _ _ (dk_total C HC) Hr)
    as [Hdone|]; [left|by right]. split; [done|]. destruct c as [ts s'].
  assert (Forall resting ts) as Hts by (eapply Forall_impl; [exact Hdone|by intros t ->]).
  destruct (related_resting _ _ _ _ _ _ Hr Hts) as (cs' & -> & _ & Hinv).
  eexists. by eapply dev_inv_end.
Qed.

End concurrent.

(** ** Theorems *)

(** C3: the device is linearizable. Whatever the interleaving of any number of
    clients' reads and writes, the history of calls and results is one of the
    atomic device, where each call takes effect at one point between its
    invocation and its return; and whenever no call is under way, the device
    holds exactly what the atomic one does, with both mutexes free. *)
Theorem device_linearizable (C : contract K) f cs s a h ts s' :
  device_kernel C -> private_data f = Some DevPtr ->
  Forall (proper_client C) cs -> represents s a ->
  sys_exec C (do_op f) (Idle <$> cs, s) h (ts, s') ->
  exists ats a',
    atomic_exec (dev_effect C) (AIdle <$> cs, a) h (ats, a')
    /\ (Forall resting ts -> represents s' a'
         /\ exists cs', ts = Idle <$> cs' /\ ats = AIdle <$> cs').
Proof.
  intros HC Hf Hcs Ha Hex.
  destruct (device_related C HC f Hf cs s a h (ts, s') Hcs Ha Hex) as ([ats a'] & Hr & Hat).
  exists ats, a'. split; [done|]. intros Hts.
  destruct (related_resting _ _ _ _ _ _ Hr Hts) as (cs' & -> & Hats & Hinv).
  split; [by eapply dev_inv_end|]. by exists cs'.
Qed.

(** C4: concurrent use of the device comes to an end, when copies from the users'
    memory succeed and no write is empty (both conditions are needed: see
    [dangling_write_faults] and [aesd_write_empty_faults]). Signals may interrupt any
    wait for a mutex, memory may run out and copies to a user may fail. In every state
    that an interleaving of any number of clients leads to, each thread is done, or can
    move, or is at a mutex while another thread can move: no call has met a fault,
    whatever memory the others release, and no calls wait for each other. And from
    every such state the threads can go on until all of them are done; wherever none
    can move, they are, and the device holds what some atomic device holds, with both
    mutexes free. *)
Theorem device_completes (C : contract K) f cs s a h ts s' :
  device_kernel C -> private_data f = Some DevPtr ->
  Forall (proper_client C) cs -> represents s a ->
  sys_exec C (do_op f) (Idle <$> cs, s) h (ts, s') ->
  (forall i t, ts !! i = Some t ->
     t = Idle Done \/ can_move C s' t
     \/ (at_held_mutex s' t /\ exists j u, ts !! j = Some u /\ can_move C s' u))
  /\ (exists h2 c2, sys_exec C (do_op f) (ts, s') h2 c2 /\ completed c2)
  /\ ((forall e c2, ~ sys_step C (do_op f) (ts, s') e c2) -> completed (ts, s')).
Proof.
  intros HC Hf Hcs Ha Hex.
  assert (forall h2 c2, sys_exec C (do_op f) (ts, s') h2 c2 ->
            completed c2 \/ exists e c3, sys_step C (do_op f) c2 e c3) as Hgo.
  { intros h2 c2 Hex2. apply (device_progress C HC f Hf cs s a (h ++ h2)); [done..|].
    by eapply executes_trans. }
  split_and!.
  - intros i t Hi. destruct (device_related C HC f Hf cs s a h (ts, s') Hcs Ha Hex) as (ac & Hr & _).
    by apply (related_threads C _ _ _ _ i t (dk_total C HC) Hr).
  - apply executes_end; [apply sys_step_acc|exact Hgo].
  - intros Hstop. destruct (Hgo [] (ts, s') (exec_nil _ _)) as [|(e & c2 & Hs)]; [done|].
    by destruct (Hstop e c2).
Qed.

End DriverConcurrent.
