(* ===== verification/DriverLines.v ===== *)
(** * The character device driver: lines written at the same time

    Clients that each write a list of lines. However their calls interleave, the
    device ends up with the last ten lines of some interleaving of the lists: no
    line is lost, torn or mixed with another, and each client's lines are in its
    order. And examples of the theorems on concurrent use. *)

From S2P Require Import Prelude Interleave CircularBuffer Memory Driver DriverSpec DriverWrite DriverRead Linearize DriverShared DriverConcurrent.

Module DriverLines.
Import Interleave CircularBuffer Memory Driver DriverSpec DriverWrite DriverRead Linearize DriverShared DriverConcurrent.

Fixpoint write_all (ls : list bytes) : dev_client :=
  match ls with
  | [] => Done
  | l :: ls => Call (OpWrite l) (fun _ => write_all ls)
  end.

Definition whole_line (l : bytes) : Prop := user_data l /\ last l = Some newline.

(** [m] has the elements of the lists, each list's in its order. *)
Inductive interleaving {A} : list (list A) -> list A -> Prop :=
| il_done ls : Forall (fun l => l = []) ls -> interleaving ls []
| il_next ls i x l m :
    ls !! i = Some (x :: l) -> interleaving (<[i := l]> ls) m -> interleaving ls (x :: m).

(** What a thread of the atomic system has still to commit. *)
Inductive remaining : athread (Op := dev_op) (Res := dev_result) -> list bytes -> Prop :=
| rem_idle ls : remaining (AIdle (write_all ls)) ls
| rem_called l ls : remaining (ACalled (OpWrite l) (fun _ => write_all ls)) (l :: ls)
| rem_answered r ls : remaining (AAnswered r (fun _ => write_all ls)) ls.

(** ** Lemmas *)

Lemma Forall2_insert_l {A B} (R : A -> B -> Prop) l k i x y :
  Forall2 R l k -> k !! i = Some y -> R x y -> Forall2 R (<[i := x]> l) k.
Proof. intros H Hk Hx. rewrite <- (list_insert_id k i y Hk). by apply Forall2_insert. Qed.

Lemma write_all_proper (C : contract K) ls : Forall whole_line ls -> proper_client C (write_all ls).
Proof. induction 1 as [|l ls [Hl _] _ IH]; cbn; [done|]. by split. Qed.

Lemma short_concat (es : list bytes) :
  Forall user_data es -> Z.of_nat (length (concat es)) <= Z.of_nat (length es) * MAX_RW_COUNT.
Proof.
  unfold MAX_RW_COUNT. induction 1 as [|e es [_ He] _ IH]; cbn [concat length]; [lia|].
  unfold MAX_RW_COUNT in He. rewrite length_app. lia.
Qed.

Lemma lastn_user_data n es : Forall user_data es -> Forall user_data (lastn n es).
Proof. intros H. by apply Forall_drop. Qed.

(** With the kernel's calls succeeding, a line is committed. *)
Lemma line_effect es l r a' :
  Forall user_data es -> (length es <= capacity)%nat -> whole_line l ->
  dev_effect kernel_ok (OpWrite l) (DSpec es []) r a' ->
  a' = DSpec (lastn capacity (es ++ [l])) [].
Proof.
  intros Hes Hcap [[_ Hl] Hnl] He. pose proof (short_concat es Hes) as Hc.
  unfold capacity, MAX_OPS, MAX_RW_COUNT in *.
  inversion He; subst.
  - unfold spec_write, spec_commit, spec_append. cbn [committed pending app]. by rewrite Hnl.
  - refute_answer.
  - exfalso. match goal with H : exists _, _ |- _ => destruct H as (s0 & n & [_ Hz] & Hn & Hb) end.
    unfold spec_bytes in Hb. cbn [committed pending length] in Hb. apply Hz; [|done]. split; [done|]. 
    cbn in Hc. lia.
  - refute_answer.
Qed.

Section lines.
Context (old : list bytes) (Hold : Forall user_data old) (Hcap : (length old <= capacity)%nat).
Context (lss : list (list bytes)).

(** What is committed and what remains make up an interleaving. *)
Definition lines_inv (ac : list (athread (Op := dev_op) (Res := dev_result)) * dspec) : Prop :=
  exists rs m, Forall2 remaining ac.1 rs
    /\ (forall m', interleaving rs m' -> interleaving lss (m ++ m'))
    /\ ac.2 = DSpec (lastn capacity (old ++ m)) []
    /\ Forall (Forall whole_line) rs /\ Forall user_data m.

Lemma lines_inv_step ac e ac' :
  lines_inv ac -> atomic_step (dev_effect kernel_ok) ac e ac' -> lines_inv ac'.
Proof.
  intros (rs & m & Hrem & Hil & Ha & Hrs & Hm) Hst.
  destruct Hst as [ts a i o k Hi|ts a i o k r a' Hi He|ts a i r k Hi]; cbn [fst snd] in *;
    destruct (Forall2_lookup_l _ _ _ _ _ Hrem Hi) as (ls & Hls & Hr).
  - inversion Hr as [ls' Heq| |]; subst. destruct ls as [|l ls]; simplify_eq/=.
    exists rs, m. split_and!; [|done..]. eapply Forall2_insert_l; [done..|constructor].
  - inversion Hr as [|l ls'|]; subst.
    pose proof (Forall_lookup_1 _ _ _ _ Hrs Hls) as Hl. apply Forall_cons in Hl as [Hl Hls'].
    exists (<[i := ls']> rs), (m ++ [l]). cbn [fst snd]. split_and!.
    + apply Forall2_insert; [done|constructor].
    + intros m' Hm'. rewrite <- app_assoc. by eapply Hil, il_next.
    + rewrite app_assoc, <- (lastn_app_r capacity (old ++ m)). eapply (line_effect _ l r); [| |done|done].
      * apply lastn_user_data. by apply Forall_app.
      * rewrite length_lastn. lia.
    + by apply Forall_insert.
    + apply Forall_app. split; [done|]. apply Forall_singleton. by destruct Hl.
  - inversion Hr as [| |r' ls']; subst. exists rs, m. split_and!; [|done..].
    eapply Forall2_insert_l; [done..|constructor].
Qed.

Lemma lines_inv_exec ac h ac' :
  lines_inv ac -> atomic_exec (dev_effect kernel_ok) ac h ac' -> lines_inv ac'.
Proof. intros H. induction 1; [done|]. by eapply lines_inv_step. Qed.

Lemma lines_inv_start :
  Forall (Forall whole_line) lss -> lines_inv (AIdle <$> (write_all <$> lss), DSpec old []).
Proof.
  intros Hl. exists lss, []. cbn [fst snd]. rewrite app_nil_r. split_and!; [|done| |done|done].
  - clear. induction lss; cbn; constructor; [constructor|done].
  - by rewrite lastn_all.
Qed.

Lemma lines_inv_done cs a :
  Forall (fun c => c = Done) cs -> lines_inv (AIdle <$> cs, a) ->
  exists m, interleaving lss m /\ a = DSpec (lastn capacity (old ++ m)) [].
Proof.
  intros Hcs (rs & m & Hrem & Hil & Ha & _). cbn in Ha. exists m. split; [|exact Ha].
  rewrite <- (app_nil_r m). apply Hil, il_done. cbn [fst] in Hrem.
  clear Hil. revert rs Hrem. induction Hcs as [|c cs -> _ IH]; intros rs Hrem; inversion Hrem; subst;
    constructor; [|by apply IH].
  match goal with H : remaining _ _ |- _ => inversion H as [ls Heq| |]; subst end. by destruct y.
Qed.

End lines.

(** ** Theorems *)

(** C10: clients write their lines at the same time, and nothing fails. When all
    have finished, the device holds the last ten of its former lines followed by
    an interleaving of theirs: every line whole, every client's in order. *)
Theorem device_lines f s old lss h ts s' :
  private_data f = Some DevPtr -> represents s (DSpec old []) -> Forall user_data old ->
  Forall (Forall whole_line) lss ->
  sys_exec kernel_ok (do_op f) (Idle <$> (write_all <$> lss), s) h (ts, s') ->
  Forall (fun t => t = Idle Done) ts ->
  exists m, interleaving lss m /\ represents s' (DSpec (lastn capacity (old ++ m)) []).
Proof.
  intros Hf Ha Hold Hlss Hex Hdone.
  assert (length old <= capacity)%nat as Hcap.
  { destruct Ha as (_ & cbs & pend & Hr & [= -> _]). pose proof (rep_cap _ _ (dr_buf _ _ _ Hr)) as Hc.
    rewrite length_fmap in Hc. rewrite length_fmap. lia. }
  destruct (device_related kernel_ok kernel_ok_device f Hf (write_all <$> lss) s (DSpec old []) h (ts, s'))
    as ([ats a'] & Hr & Hat); [|done..|].
  { apply Forall_fmap. eapply Forall_impl; [exact Hlss|]. intros ls Hls. by apply write_all_proper. }
  destruct (related_resting _ _ _ _ _ _ Hr) as (cs' & -> & Hats & Hinv).
  { eapply Forall_impl; [exact Hdone|]. by intros t ->. }
  cbn [fst snd] in *. subst ats. apply (lines_inv_exec old Hold Hcap lss) in Hat; [|by apply lines_inv_start].
  destruct (lines_inv_done old lss cs' a') as (m & Hm & ->); [|done|].
  - apply Forall_fmap in Hdone. eapply Forall_impl; [exact Hdone|]. by intros c [= ->].
  - exists m. split; [done|]. by apply (dev_inv_end (length cs')).
Qed.

(** ** Witnesses *)

(** Answers of a kernel in which nothing fails. *)
Definition good_answer (s : st K) (q : query K) : answer K q := (good_kernel s tt q).1.

Lemma good_answer_ok s q : kernel_ok s q (good_answer s q).
Proof. apply good_kernel_ok. Qed.

(** A client that writes a line while another reads. *)
Definition sample_reader : dev_client := Call (OpRead 4 0) (fun _ => Done).
Definition writer_reader : list dev_client := [write_all [line 2]; sample_reader].

Definition writer_reader_turns : list nat :=
  [0; 1; 0; 1; 0; 1; 0; 1; 0; 1; 0; 1; 0; 0; 0; 0; 0; 0; 0; 0; 0; 0; 0; 0; 0; 0]%nat.
Definition writer_reader_history : list (event (Op := dev_op) (Res := dev_result)) :=
  [Invoked 0 (OpWrite (line 2)); Invoked 1 (OpRead 4 0);
   Responded 1 (ReadBack 0 [] 0); Responded 0 (Written 3)].

(** Two clients with lines. *)
Definition two_writers : list (list bytes) := [[line 1; line 2]; [line 3]].
Definition two_writers_turns : list nat :=
  ([0; 1; 0; 1] ++ replicate 17 0 ++ [1; 0; 1; 0; 1; 0; 1] ++ replicate 13 1
     ++ [0; 1] ++ replicate 17 0)%nat.

Definition turns (cs : list dev_client) (sched : list nat) :=
  sys_schedule (S := K) (do_op open_file) good_answer sched [] (Idle <$> cs, sample_state None).

Lemma turns_exec cs sched h c :
  turns cs sched = Some (h, c) ->
  sys_exec kernel_ok (do_op open_file) (Idle <$> cs, sample_state None) h c.
Proof.
  intros H. eapply (sys_schedule_exec (S := K)); [exact good_answer_ok|apply exec_nil|exact H].
Qed.

Lemma sample_line_whole n : (n < 100)%nat -> whole_line (line n).
Proof.
  intros Hn. split; [|apply last_snoc]. unfold user_data, line, text, MAX_RW_COUNT.
  rewrite length_app, length_replicate. cbn. lia.
Qed.

Lemma writer_reader_proper C : Forall (proper_client C) writer_reader.
Proof.
  repeat constructor; cbn; try done; apply (sample_line_whole 2); lia.
Qed.

Lemma device_linearizable_witness :
  exists s' ats a',
    atomic_exec (dev_effect kernel_ok) (AIdle <$> writer_reader, DSpec [] [])
      writer_reader_history (ats, a')
    /\ represents s' a'.
Proof.
  destruct (turns writer_reader writer_reader_turns) as [[h [ts s']]|] eqn:Ht;
    [|by vm_compute in Ht].
  assert (h = writer_reader_history /\ ts = [Idle Done; Idle Done]) as [-> Hts]
    by (vm_compute in Ht; by simplify_eq).
  destruct (device_linearizable kernel_ok open_file writer_reader (sample_state None) (DSpec [] [])
    writer_reader_history ts s' kernel_ok_device eq_refl (writer_reader_proper _)
    (sample_represents None ltac:(done) ltac:(done)) (turns_exec _ _ _ _ Ht)) as (ats & a' & Hat & Hr).
  exists s', ats, a'. split; [exact Hat|]. apply Hr. subst ts. by repeat constructor.
Defined.

Lemma device_completes_witness :
  exists ts s',
    snd <$> turns writer_reader (take 8 writer_reader_turns) = Some (ts, s')
    /\ exists h2 c2, sys_exec kernel_ok (do_op open_file) (ts, s') h2 c2 /\ completed c2.
Proof.
  assert (bool_decide (is_Some (turns writer_reader (take 8 writer_reader_turns))) = true)
    as Hran by (vm_compute; reflexivity).
  destruct (turns writer_reader (take 8 writer_reader_turns)) as [[h [ts s']]|] eqn:Ht; [|done].
  exists ts, s'. split; [done|].
  apply (device_completes kernel_ok open_file writer_reader (sample_state None) (DSpec [] []) h ts s'
    kernel_ok_device eq_refl (writer_reader_proper _)
    (sample_represents None ltac:(done) ltac:(done)) (turns_exec _ _ _ _ Ht)).
Defined.

Lemma device_lines_witness :
  exists s' m, interleaving two_writers m /\ represents s' (DSpec (lastn capacity ([] ++ m)) []).
Proof.
  destruct (turns (write_all <$> two_writers) two_writers_turns) as [[h [ts s']]|] eqn:Ht;
    [|by vm_compute in Ht].
  assert (ts = [Idle Done; Idle Done]) as Hts by (vm_compute in Ht; by simplify_eq).
  exists s'. apply (device_lines open_file (sample_state None) [] two_writers h ts s').
  - done.
  - by apply (sample_represents None).
  - done.
  - repeat constructor; cbn; try done.
  - exact (turns_exec _ _ _ _ Ht).
  - subst ts. by repeat constructor.
Defined.

End DriverLines.
