(* ===== verification/SList.v ===== *)
(** * Singly-linked lists ([queue.h])

    The [SLIST] macros the server keeps its workers in. The macros are generic
    in the element type and its link field; here that is the class
    [SListEntry], and the elements live in a map from addresses to the elements
    allocated at the time, so that a link to a freed element is seen when it is
    followed. The null pointer is 0. *)

From S2P Require Import Prelude.

Module SList.

(** ** The link field *)

(** [SLIST_ENTRY(type)] inside a structure [T]: the field [sle_next]. *)
Class SListEntry (T : Type) : Type := {
  sle_next : T -> Z;
  set_sle_next : Z -> T -> T
}.

(** What a structure field guarantees: a load gives the last store. *)
Class SListEntryLaws (T : Type) `{SListEntry T} : Prop := {
  sle_next_set p t : sle_next (set_sle_next p t) = p;
  set_sle_next_set p q t : set_sle_next p (set_sle_next q t) = set_sle_next p t;
  set_sle_next_next t : set_sle_next (sle_next t) t = t
}.

(** [SLIST_HEAD(name, type)]. *)
Record slist_head : Type := SListHead { slh_first : Z }.

(** [SLIST_HEAD_INITIALIZER(head)]. *)
Definition SLIST_HEAD_INITIALIZER : slist_head := SListHead 0.

#[export] Instance slist_head_eq_dec : EqDecision slist_head.
Proof. solve_decision. Defined.

(** ** Access *)

Section access.
Context {T : Type} `{SListEntry T}.
Implicit Types h : gmap Z T.

(** [*elm]: the null pointer and a freed element are faults. *)
Definition elem_at (h : gmap Z T) (elm : Z) : res T :=
  if elm =? 0 then Err NullDeref
  else match h !! elm with Some t => Ok t | None => Err OutOfBounds end.

Definition SLIST_FIRST (head : slist_head) : Z := slh_first head.
Definition SLIST_END : Z := 0.
Definition SLIST_EMPTY (head : slist_head) : bool :=
  SLIST_FIRST head =? SLIST_END.

Definition SLIST_NEXT (h : gmap Z T) (elm : Z) : res Z :=
  t ← elem_at h elm; mret (sle_next t).

(** [(elm)->field.sle_next = next]. *)
Definition link (h : gmap Z T) (elm next : Z) : res (gmap Z T) :=
  t ← elem_at h elm; mret (<[elm := set_sle_next next t]> h).

(** ** Functions *)

Definition SLIST_INIT : slist_head := SListHead SLIST_END.

Definition SLIST_INSERT_AFTER (h : gmap Z T) (slistelm elm : Z) : res (gmap Z T) :=
  next ← SLIST_NEXT h slistelm;
  h ← link h elm next;
  link h slistelm elm.

Definition SLIST_INSERT_HEAD (head : slist_head) (h : gmap Z T) (elm : Z)
    : res (slist_head * gmap Z T) :=
  h ← link h elm (slh_first head);
  mret (SListHead elm, h).

Definition SLIST_REMOVE_AFTER (h : gmap Z T) (elm : Z) : res (gmap Z T) :=
  next ← SLIST_NEXT h elm;
  next2 ← SLIST_NEXT h next;
  link h elm next2.

Definition SLIST_REMOVE_HEAD (head : slist_head) (h : gmap Z T) : res slist_head :=
  next ← SLIST_NEXT h (slh_first head);
  mret (SListHead next).

(** The [while] of [SLIST_REMOVE]: walk to the element before [elm]. *)
Fixpoint remove_search (fuel : nat) (h : gmap Z T) (curelm elm : Z) : res Z :=
  match fuel with
  | O => Err OutOfFuel
  | S fuel =>
      next ← SLIST_NEXT h curelm;
      if next =? elm then mret curelm
      else remove_search fuel h next elm
  end.

(** A walk longer than the number of allocated elements is in a cycle. *)
Definition SLIST_REMOVE (head : slist_head) (h : gmap Z T) (elm : Z)
    : res (slist_head * gmap Z T) :=
  if slh_first head =? elm then
    head ← SLIST_REMOVE_HEAD head h; mret (head, h)
  else
    curelm ← remove_search (S (size h)) h (slh_first head) elm;
    h ← SLIST_REMOVE_AFTER h curelm;
    mret (head, h).

End access.

(** ** Loops *)

(** The two [for] loops; [next] reads the link of an element in the state the
    program has then. *)
Section loops.
Context {S : sig} (next : Z -> prog S Z).

Fixpoint SLIST_FOREACH (fuel : nat) (var : Z) (body : Z -> prog S unit) : prog S unit :=
  if var =? SLIST_END then mret tt
  else
    match fuel with
    | O => Crash OutOfFuel
    | Datatypes.S fuel =>
        body var;;
        var ← next var;
        SLIST_FOREACH fuel var body
    end.

Fixpoint SLIST_FOREACH_SAFE (fuel : nat) (var : Z) (body : Z -> prog S unit)
    : prog S unit :=
  if var =? SLIST_END then mret tt
  else
    match fuel with
    | O => Crash OutOfFuel
    | Datatypes.S fuel =>
        tvar ← next var;
        body var;;
        SLIST_FOREACH_SAFE fuel tvar body
    end.

(** The loop over a list whose elements the body may remove and free: [I]
    relates the elements visited and the ones left. *)
Lemma wp_foreach_safe C fuel (I : list Z -> list Z -> st S -> Prop) body vis todo s :
  (length todo <= fuel)%nat -> Forall (.≠ 0) todo -> I vis todo s ->
  (forall d x r s, I d (x :: r) s ->
     wp C (next x) (fun t s' => t = default 0 (head r) /\ s' = s) s) ->
  (forall d x r s, I d (x :: r) s -> wp C (body x) (fun _ s' => I (d ++ [x]) r s') s) ->
  wp C (SLIST_FOREACH_SAFE fuel (default 0 (head todo)) body)
    (fun _ s' => I (vis ++ todo) [] s') s.
Proof.
  intros Hf Hn HI Hnext Hbody.
  revert fuel vis s Hf HI. induction todo as [|x r IH]; intros fuel vis s Hf HI.
  - rewrite app_nil_r. by destruct fuel.
  - inversion Hn as [|? ? Hx Hr]; subst. destruct fuel as [|fuel]; simpl in Hf; [lia|].
    change (default 0 (head (x :: r))) with x. cbn [SLIST_FOREACH_SAFE].
    unfold SLIST_END. rewrite (proj2 (Z.eqb_neq _ _) Hx). wp_step.
    eapply wp_mono; [|by apply (Hnext vis x r s HI)]. intros t s1 [Ht Hs]. subst t s1. simpl.
    wp_step. eapply wp_mono; [|by apply (Hbody vis x r s HI)]. intros ? s2 H2.
    eapply wp_mono; [|apply (IH Hr fuel (vis ++ [x]) s2); [lia|done]].
    intros ? s3. by rewrite <- app_assoc.
Qed.

End loops.

(** ** Representation *)

Section chains.
Context {T : Type} `{SListEntryLaws T}.
Implicit Types (h : gmap Z T) (l : list Z).

(** [p] heads a list of the elements [l], each allocated, ending in null. *)
Fixpoint chain (h : gmap Z T) (p : Z) (l : list Z) : Prop :=
  match l with
  | [] => p = 0
  | x :: l => p = x /\ x <> 0 /\ exists t, h !! x = Some t /\ chain h (sle_next t) l
  end.

Lemma elem_at_some h p t : p <> 0 -> h !! p = Some t -> elem_at h p = Ok t.
Proof. intros Hp Ht. unfold elem_at. by rewrite (proj2 (Z.eqb_neq _ _) Hp), Ht. Qed.

Lemma next_some h p t : p <> 0 -> h !! p = Some t -> SLIST_NEXT h p = Ok (sle_next t).
Proof. intros Hp Ht. unfold SLIST_NEXT. by rewrite (elem_at_some h p t). Qed.

Lemma link_some h p t q :
  p <> 0 -> h !! p = Some t -> link h p q = Ok (<[p := set_sle_next q t]> h).
Proof. intros Hp Ht. unfold link. by rewrite (elem_at_some h p t). Qed.

Lemma chain_head h p l : chain h p l -> p = default 0 (head l).
Proof. destruct l; simpl; [done | by intros [? _]]. Qed.

Lemma chain_nonnull h p l : chain h p l -> Forall (.≠ 0) l.
Proof.
  revert p. induction l as [|x l IH]; intros p; [done|].
  intros (-> & Hx & t & _ & Hl). constructor; eauto.
Qed.

Lemma chain_alloc h p l x : chain h p l -> x ∈ l -> x <> 0 /\ exists t, h !! x = Some t.
Proof.
  revert p. induction l as [|y l IH]; intros p.
  - intros _ Hx. by apply not_elem_of_nil in Hx.
  - intros (-> & Hy & t & Ht & Hl) [->|Hx]%elem_of_cons; eauto.
Qed.

Lemma chain_fun h p l k : chain h p l -> chain h p k -> l = k.
Proof.
  revert p k. induction l as [|x l IH]; intros p [|y k]; simpl; [done | | |].
  - intros -> (<- & ? & _). done.
  - intros (-> & ? & _) ->. done.
  - intros (-> & _ & t & Ht & Hl) (<- & _ & t' & Ht' & Hk). simplify_eq. f_equal. eauto.
Qed.

Lemma chain_suffix h p l1 x l2 : chain h p (l1 ++ x :: l2) -> chain h x (x :: l2).
Proof.
  revert p. induction l1 as [|y l1 IH]; intros p; cbn [app].
  - intros Hc. pose proof (chain_head _ _ _ Hc) as ->. done.
  - intros (_ & _ & t & _ & Hl). eauto.
Qed.

(** A list that ends has no element twice. *)
Lemma chain_NoDup h p l : chain h p l -> NoDup l.
Proof.
  revert p. induction l as [|x l IH]; intros p Hc; [constructor|].
  constructor.
  - intros Hx. apply list_elem_of_split in Hx as (l1 & l2 & ->).
    pose proof (chain_suffix h p (x :: l1) x l2 Hc) as H1.
    pose proof (chain_suffix h p [] x _ Hc) as H2.
    pose proof (chain_fun _ _ _ _ H1 H2) as He. apply (f_equal length) in He.
    rewrite !length_cons, length_app, length_cons in He. lia.
  - destruct Hc as (_ & _ & t & _ & Hl). eauto.
Qed.

(** A list depends on its elements only. *)
Lemma chain_agree h h' p l :
  (forall x, x ∈ l -> h' !! x = h !! x) -> chain h p l -> chain h' p l.
Proof.
  revert p. induction l as [|x l IH]; intros p Hh; [done|].
  intros (-> & Hx & t & Ht & Hl). split; [done|]. split; [done|].
  exists t. split.
  - rewrite Hh; [done | apply list_elem_of_here].
  - apply IH; [|done]. intros y Hy. apply Hh. by apply list_elem_of_further.
Qed.

Lemma chain_insert_other h p l x t : x ∉ l -> chain h p l -> chain (<[x := t]> h) p l.
Proof.
  intros Hx. apply chain_agree. intros y Hy. rewrite lookup_insert_ne; [done|].
  intros ->. done.
Qed.

Lemma chain_delete_other h p l x : x ∉ l -> chain h p l -> chain (delete x h) p l.
Proof.
  intros Hx. apply chain_agree. intros y Hy. rewrite lookup_delete_ne; [done|].
  intros ->. done.
Qed.

(** Linking an element of the list to another tail. *)
Lemma chain_relink h p l1 x l2 t q k :
  chain h p (l1 ++ x :: l2) -> h !! x = Some t -> x ∉ l1 -> x ∉ k -> chain h q k ->
  chain (<[x := set_sle_next q t]> h) p (l1 ++ x :: k).
Proof.
  intros Hc Ht Hx1 Hxk Hk. revert p Hc Hx1. induction l1 as [|y l1 IH]; intros p; cbn [app].
  - intros (-> & Hx & _) _. split; [done|]. split; [done|].
    exists (set_sle_next q t). rewrite lookup_insert_eq, sle_next_set.
    split; [done|]. by apply chain_insert_other.
  - intros (-> & Hy & u & Hu & Hl) Hx1. apply not_elem_of_cons in Hx1 as [Hne Hx1].
    split; [done|]. split; [done|]. exists u. rewrite lookup_insert_ne by done. eauto.
Qed.

Lemma chain_size h p l : chain h p l -> (length l <= size h)%nat.
Proof.
  intros Hc. rewrite <- size_dom. rewrite <- (size_list_to_set (C := gset Z) l).
  - apply subseteq_size. intros x Hx%elem_of_list_to_set.
    destruct (chain_alloc _ _ _ _ Hc Hx) as [_ [t Ht]]. by apply elem_of_dom.
  - by eapply chain_NoDup.
Qed.

(** The walk of [SLIST_REMOVE] ends at the element before the one removed. *)
Lemma remove_search_found h fuel p l1 y x l2 :
  chain h p (l1 ++ y :: x :: l2) -> x ∉ l1 ++ [y] -> (length l1 < fuel)%nat ->
  remove_search fuel h p x = Ok y.
Proof.
  revert fuel p. induction l1 as [|z l1 IH]; intros fuel p; destruct fuel as [|fuel];
    cbn [app length]; try lia.
  - intros (-> & Hy & t & Ht & Hn & _) _ _. cbn [remove_search].
    rewrite (next_some h y t Hy Ht). cbn [mbind res_bind].
    by rewrite (proj2 (Z.eqb_eq _ _) Hn).
  - intros (-> & Hz & t & Ht & Hl) [_ Hx]%not_elem_of_cons Hf. cbn [remove_search].
    rewrite (next_some h z t Hz Ht). cbn [mbind res_bind].
    rewrite (proj2 (Z.eqb_neq (sle_next t) x)); [apply IH; [done|done|lia]|].
    apply chain_head in Hl as ->. intros Hh. apply Hx.
    destruct l1 as [|w l1]; simpl in Hh; subst; apply list_elem_of_here.
Qed.

(** The walk for an element that is not in the list runs off its end. *)
Lemma remove_search_absent h fuel p l x :
  chain h p l -> x <> 0 -> x ∉ l -> (length l < fuel)%nat ->
  remove_search fuel h p x = Err NullDeref.
Proof.
  intros Hc Hx0. revert fuel p Hc. induction l as [|z l IH]; intros fuel p;
    destruct fuel as [|fuel]; cbn [length]; try lia.
  - intros -> _ _. done.
  - intros (-> & Hz & t & Ht & Hl) [_ Hx]%not_elem_of_cons Hf. cbn [remove_search].
    rewrite (next_some h z t Hz Ht). cbn [mbind res_bind].
    rewrite (proj2 (Z.eqb_neq (sle_next t) x)); [apply IH; [done|done|lia]|].
    apply chain_head in Hl as ->. intros Hh.
    destruct l as [|w l]; simpl in Hh; [done|]. subst. by apply Hx, list_elem_of_here.
Qed.

(** ** The operations on a list *)

Definition slist (head : slist_head) (h : gmap Z T) (l : list Z) : Prop :=
  chain h (slh_first head) l.

(** What an operation may do to the elements: change the link of some. *)
Definition relinked (h h' : gmap Z T) : Prop :=
  forall x, option_Forall2 (fun t t' => exists n, t' = set_sle_next n t) (h !! x) (h' !! x).

Lemma relinked_some h h' x t :
  relinked h h' -> h !! x = Some t -> exists n, h' !! x = Some (set_sle_next n t).
Proof.
  intros Hrel Ht. specialize (Hrel x). rewrite Ht in Hrel.
  inversion Hrel as [? ? [n ->] |]; subst. by exists n.
Qed.

Lemma relinked_dom h h' : relinked h h' -> dom h' = dom h.
Proof.
  intros Hrel. apply set_eq. intros x. rewrite !elem_of_dom. specialize (Hrel x).
  inversion Hrel; split; intros []; by eexists.
Qed.

Lemma relinked_refl h : relinked h h.
Proof.
  intros x. destruct (h !! x) as [t|]; constructor.
  exists (sle_next t). by rewrite set_sle_next_next.
Qed.

Lemma relinked_link h x t n : h !! x = Some t -> relinked h (<[x := set_sle_next n t]> h).
Proof.
  intros Hx y. destruct (decide (x = y)) as [->|Hne].
  - rewrite Hx, lookup_insert_eq. constructor. by exists n.
  - rewrite lookup_insert_ne by done. by apply relinked_refl.
Qed.

Lemma slist_next hd h l1 x l2 :
  slist hd h (l1 ++ x :: l2) -> SLIST_NEXT h x = Ok (default 0 (head l2)).
Proof.
  intros Hc. destruct (chain_suffix _ _ _ _ _ Hc) as (_ & Hx & t & Ht & Hl).
  rewrite (next_some h x t Hx Ht). f_equal. by eapply chain_head.
Qed.

Lemma slist_initializer_ok h : slist SLIST_HEAD_INITIALIZER h [] /\ slist SLIST_INIT h [].
Proof. done. Qed.

Lemma insert_head_ok head h l elm t :
  slist head h l -> elm <> 0 -> elm ∉ l -> h !! elm = Some t ->
  SLIST_INSERT_HEAD head h elm =
    Ok (SListHead elm, <[elm := set_sle_next (slh_first head) t]> h)
  /\ slist (SListHead elm) (<[elm := set_sle_next (slh_first head) t]> h) (elm :: l).
Proof.
  intros Hc He Hl Ht. unfold SLIST_INSERT_HEAD. rewrite (link_some h elm t) by done.
  split; [done|]. split; [done|]. split; [done|].
  eexists. split; [by rewrite lookup_insert_eq|].
  rewrite sle_next_set. by apply chain_insert_other.
Qed.

Lemma remove_ok head h l1 x l2 :
  slist head h (l1 ++ x :: l2) ->
  exists head' h',
    SLIST_REMOVE head h x = Ok (head', h')
    /\ slist head' h' (l1 ++ l2) /\ relinked h h' /\ h' !! x = h !! x.
Proof.
  intros Hc. pose proof (chain_NoDup _ _ _ Hc) as Hnd.
  pose proof (chain_size _ _ _ Hc) as Hsz. rewrite length_app, length_cons in Hsz.
  pose proof (chain_nonnull _ _ _ Hc) as Hnn.
  apply NoDup_app in Hnd as (_ & Hdis & Hnd). apply list.NoDup_cons in Hnd as [Hx2 _].
  assert (x ∉ l1) as Hx1. { intros Hx. apply (Hdis x Hx), list_elem_of_here. }
  destruct (chain_alloc h _ _ x Hc) as [Hx [t Ht]].
  { apply elem_of_app. right. apply list_elem_of_here. }
  pose proof (chain_suffix _ _ _ _ _ Hc) as (_ & _ & t' & Ht' & Hl2).
  rewrite Ht in Ht'. injection Ht' as <-.
  unfold SLIST_REMOVE. destruct l1 as [|y l1 _] using rev_ind.
  - destruct Hc as (Hp & _). rewrite Hp, Z.eqb_refl. unfold SLIST_REMOVE_HEAD.
    rewrite Hp, (next_some h x t Hx Ht). cbn [mbind res_bind].
    eexists _, _. split; [done|]. split; [done|]. split; [apply relinked_refl|done].
  - rewrite length_app in Hsz. simpl in Hsz.
    assert (slh_first head <> x) as Hp.
    { intros Hp. unfold slist in Hc. apply chain_head in Hc.
      rewrite Hp in Hc. apply Hx1. destruct l1; simpl in Hc; subst; apply list_elem_of_here. }
    rewrite (proj2 (Z.eqb_neq _ _) Hp). unfold slist in Hc. rewrite <- app_assoc in *.
    rewrite (remove_search_found h _ _ l1 y x l2 Hc Hx1) by lia. cbn [mbind res_bind].
    destruct (chain_suffix h _ l1 y _ Hc) as (_ & Hy & u & Hu & Hux & _).
    unfold SLIST_REMOVE_AFTER.
    rewrite (next_some h y u Hy Hu). cbn [mbind res_bind].
    rewrite Hux, (next_some h x t Hx Ht). cbn [mbind res_bind].
    rewrite (link_some h y u _ Hy Hu). cbn [mbind res_bind].
    assert (y <> x) as Hyx.
    { intros ->. apply Hx1, elem_of_app. right. apply list_elem_of_here. }
    pose proof (chain_NoDup _ _ _ Hc) as Hnd2.
    apply NoDup_app in Hnd2 as (_ & Hdis2 & Hnd2).
    apply list.NoDup_cons in Hnd2 as [Hy2 _].
    eexists _, _. split; [done|]. split; [|split].
    + unfold slist. eapply chain_relink; [done|done| | |done].
      * intros Hy1. apply (Hdis2 y Hy1), list_elem_of_here.
      * intros Hyl. apply Hy2. by apply list_elem_of_further.
    + by apply relinked_link.
    + by rewrite lookup_insert_ne.
Qed.

Lemma relinked_trans h1 h2 h3 : relinked h1 h2 -> relinked h2 h3 -> relinked h1 h3.
Proof.
  intros H12 H23 x. specialize (H12 x). specialize (H23 x).
  destruct (h2 !! x) as [t2|].
  - inversion H12 as [t ? [n ->] Ht|]; inversion H23 as [? t3 [m ->]|]; constructor.
    exists m. by rewrite set_sle_next_set.
  - inversion H12; inversion H23. constructor.
Qed.

Lemma remove_head_ok head h x l :
  slist head h (x :: l) ->
  exists head', SLIST_REMOVE_HEAD head h = Ok head' /\ slist head' h l.
Proof.
  intros (Hp & Hx & t & Ht & Hl). unfold SLIST_REMOVE_HEAD.
  rewrite Hp, (next_some h x t Hx Ht). by eexists.
Qed.

Lemma insert_after_ok head h l1 y l2 elm t :
  slist head h (l1 ++ y :: l2) -> elm <> 0 -> elm ∉ l1 ++ y :: l2 -> h !! elm = Some t ->
  exists h',
    SLIST_INSERT_AFTER h y elm = Ok h'
    /\ slist head h' (l1 ++ y :: elm :: l2) /\ relinked h h'.
Proof.
  intros Hc He Hl Ht. pose proof (chain_NoDup _ _ _ Hc) as Hnd.
  apply NoDup_app in Hnd as (_ & Hdis & Hnd). apply list.NoDup_cons in Hnd as [Hy2 _].
  destruct (chain_suffix _ _ _ _ _ Hc) as (_ & Hy & u & Hu & Hl2).
  apply not_elem_of_app in Hl as [He1 He2]. apply not_elem_of_cons in He2 as [Hne He2].
  unfold SLIST_INSERT_AFTER. rewrite (next_some h y u Hy Hu). cbn [mbind res_bind].
  rewrite (link_some h elm t _ He Ht). cbn [mbind res_bind].
  rewrite (link_some _ y u) by (done || by rewrite lookup_insert_ne).
  eexists. split; [done|]. split.
  - unfold slist. eapply chain_relink with (l2 := l2).
    + apply chain_insert_other; [|done].
      intros [?|[?|?]%elem_of_cons]%elem_of_app; done.
    + by rewrite lookup_insert_ne.
    + intros Hy1. apply (Hdis y Hy1), list_elem_of_here.
    + by intros [?|?]%elem_of_cons.
    + split; [done|]. split; [done|]. eexists. rewrite lookup_insert_eq.
      split; [done|]. rewrite sle_next_set. by apply chain_insert_other.
  - eapply relinked_trans; [by apply (relinked_link h elm t)|].
    apply (relinked_link _ y u). by rewrite lookup_insert_ne.
Qed.

Lemma remove_after_ok head h l1 y x l2 :
  slist head h (l1 ++ y :: x :: l2) ->
  exists h',
    SLIST_REMOVE_AFTER h y = Ok h' /\ slist head h' (l1 ++ y :: l2) /\ relinked h h'.
Proof.
  intros Hc. pose proof (chain_NoDup _ _ _ Hc) as Hnd.
  apply NoDup_app in Hnd as (_ & Hdis & Hnd). apply list.NoDup_cons in Hnd as [Hy2 _].
  destruct (chain_suffix _ _ _ _ _ Hc) as (_ & Hy & u & Hu & Hux & Hx & t & Ht & Hl2).
  unfold SLIST_REMOVE_AFTER. rewrite (next_some h y u Hy Hu). cbn [mbind res_bind].
  rewrite Hux, (next_some h x t Hx Ht). cbn [mbind res_bind].
  rewrite (link_some h y u _ Hy Hu). eexists. split; [done|]. split.
  - unfold slist. eapply chain_relink; [done|done| | |done].
    + intros Hy1. apply (Hdis y Hy1), list_elem_of_here.
    + intros Hyl. apply Hy2. by apply list_elem_of_further.
  - by apply relinked_link.
Qed.

End chains.

(** ** Sequences of operations *)

Inductive slist_op : Type :=
| InsertHead (elm : Z)
| InsertAfter (slistelm elm : Z)
| RemoveHead
| RemoveAfter (elm : Z)
| Remove (elm : Z).

Section ops.
Context {T : Type} `{SListEntryLaws T}.
Implicit Types (h : gmap Z T) (l : list Z).

Definition run_op (head : slist_head) (h : gmap Z T) (op : slist_op)
    : res (slist_head * gmap Z T) :=
  match op with
  | InsertHead elm => SLIST_INSERT_HEAD head h elm
  | InsertAfter slistelm elm => h ← SLIST_INSERT_AFTER h slistelm elm; mret (head, h)
  | RemoveHead => head ← SLIST_REMOVE_HEAD head h; mret (head, h)
  | RemoveAfter elm => h ← SLIST_REMOVE_AFTER h elm; mret (head, h)
  | Remove elm => SLIST_REMOVE head h elm
  end.

Fixpoint run_ops (head : slist_head) (h : gmap Z T) (ops : list slist_op)
    : res (slist_head * gmap Z T) :=
  match ops with
  | [] => mret (head, h)
  | op :: ops => '(head, h) ← run_op head h op; run_ops head h ops
  end.

(** The same on a list; [None] where the caller has broken the operation's
    precondition. *)
Definition spec_op (l : list Z) (op : slist_op) : option (list Z) :=
  match op with
  | InsertHead x => guard (x ∉ l);; Some (x :: l)
  | InsertAfter y x =>
      guard (x ∉ l);; '(l1, l2) ← split_at y l; Some (l1 ++ y :: x :: l2)
  | RemoveHead => match l with [] => None | _ :: l => Some l end
  | RemoveAfter y =>
      '(l1, l2) ← split_at y l;
      match l2 with [] => None | _ :: l2 => Some (l1 ++ y :: l2) end
  | Remove x => '(l1, l2) ← split_at x l; Some (l1 ++ l2)
  end.

Fixpoint spec_ops (l : list Z) (ops : list slist_op) : option (list Z) :=
  match ops with
  | [] => Some l
  | op :: ops => l ← spec_op l op; spec_ops l ops
  end.

(** The element an operation adds must be allocated. *)
Definition op_ready (h : gmap Z T) (op : slist_op) : Prop :=
  match op with
  | InsertHead x | InsertAfter _ x => x <> 0 /\ is_Some (h !! x)
  | _ => True
  end.

Lemma run_op_refines head h l op l' :
  slist head h l -> op_ready h op -> spec_op l op = Some l' ->
  exists head' h',
    run_op head h op = Ok (head', h') /\ slist head' h' l' /\ relinked h h'.
Proof.
  intros Hc Hr. destruct op as [x|y x| |y|x]; simpl in Hr |- *.
  - destruct Hr as [Hx [t Ht]]. intros Hs.
    case_guard as Hl; [|done]. injection Hs as <-.
    destruct (insert_head_ok head h l x t) as [He Hl']; [done..|].
    rewrite He. eexists _, _. split; [done|]. split; [done|]. by apply relinked_link.
  - destruct Hr as [Hx [t Ht]]. intros Hs.
    case_guard as Hl; [|done]. cbn in Hs.
    apply bind_Some in Hs as ([l1 l2] & Hs & ?). simplify_eq.
    apply split_at_app in Hs as ->.
    destruct (insert_after_ok head h l1 y l2 x t) as (h' & -> & Hl' & Hrel); [done..|].
    by eexists _, _.
  - destruct l as [|x l]; [done|]. intros [= <-].
    destruct (remove_head_ok head h x l Hc) as (head' & -> & Hl').
    eexists _, _. split; [done|]. split; [done|]. apply relinked_refl.
  - intros ([l1 l2] & Hs & Hl)%bind_Some. apply split_at_app in Hs as ->.
    destruct l2 as [|x l2]; [done|]. simplify_eq.
    destruct (remove_after_ok head h l1 y x l2 Hc) as (h' & -> & Hl' & Hrel).
    by eexists _, _.
  - intros ([l1 l2] & Hs & Hl)%bind_Some. apply split_at_app in Hs as ->. simplify_eq.
    destruct (remove_ok head h l1 x l2 Hc) as (head' & h' & -> & Hl' & Hrel & _).
    by eexists _, _.
Qed.

Lemma op_ready_relinked h h' op : relinked h h' -> op_ready h op -> op_ready h' op.
Proof.
  intros Hrel. destruct op; simpl; try done; intros [? [t Ht]]; (split; [done|]);
    destruct (relinked_some _ _ _ _ Hrel Ht) as [n ->]; by eexists.
Qed.

(** ** Theorems *)

(** C27: any sequence of insertions and removals allowed on a list (an element
    inserted is allocated and not in the list, an element removed or named is
    in it) does to the linked elements exactly what it does to the list, ends,
    and changes nothing in the elements but their links. *)
Theorem slist_ops_refine head h l ops l' :
  slist head h l -> Forall (op_ready h) ops -> spec_ops l ops = Some l' ->
  exists head' h',
    run_ops head h ops = Ok (head', h') /\ slist head' h' l' /\ relinked h h'.
Proof.
  revert head h l. induction ops as [|op ops IH]; intros head h l Hc Hr; simpl.
  - intros [= <-]. eexists _, _. split; [done|]. split; [done|]. apply relinked_refl.
  - inversion Hr as [|? ? Hop Hops]; subst. intros (l1 & H1 & H2)%bind_Some.
    destruct (run_op_refines head h l op l1 Hc Hop H1) as (hd1 & h1 & -> & Hc1 & Hrel1).
    destruct (IH hd1 h1 l1 Hc1) as (hd2 & h2 & Hrun & Hc2 & Hrel2); [|done|].
    + eapply Forall_impl; [done|]. intros op'. by apply op_ready_relinked.
    + eexists _, _. split; [done|]. split; [done|]. by eapply relinked_trans.
Qed.

(** [SLIST_REMOVE] of an element that is not in the list does not stop at
    the end of the list: it follows the null link of the last element (or the
    null head). *)
Theorem slist_remove_absent head h l elm :
  slist head h l -> elm <> 0 -> elm ∉ l -> SLIST_REMOVE head h elm = Err NullDeref.
Proof.
  intros Hc He Hl. unfold SLIST_REMOVE. pose proof (chain_size _ _ _ Hc) as Hsz.
  rewrite (proj2 (Z.eqb_neq (slh_first head) elm)).
  - by rewrite (remove_search_absent h _ _ l elm Hc He Hl) by lia.
  - rewrite (chain_head _ _ _ Hc). intros Hh. apply Hl.
    destruct l as [|x l]; simpl in Hh; subst; [done|apply list_elem_of_here].
Qed.

End ops.

(** ** Witnesses *)

Record node : Type := Node { key : Z; next : Z }.

#[export] Instance node_entry : SListEntry node :=
  {| sle_next := next; set_sle_next p n := Node (key n) p |}.

#[export] Instance node_entry_laws : SListEntryLaws node.
Proof. by split; [|intros ? ? []|intros []]. Qed.

Definition three_nodes : gmap Z node :=
  {[ 8 := Node 1 16; 16 := Node 2 0; 24 := Node 3 99 ]}.

Lemma three_nodes_list : slist (SListHead 8) three_nodes [8; 16].
Proof.
  split; [done|]. split; [done|]. exists (Node 1 16). split; [done|].
  split; [done|]. split; [done|]. by exists (Node 2 0).
Qed.

Lemma slist_ops_refine_witness :
  exists head h,
    run_ops (SListHead 8) three_nodes
      [InsertAfter 8 24; RemoveHead; Remove 16; InsertHead 8] = Ok (head, h)
    /\ slist head h [8; 24] /\ relinked three_nodes h.
Proof.
  eapply (slist_ops_refine (SListHead 8) three_nodes [8; 16]).
  - apply three_nodes_list.
  - by repeat (constructor; [try (split; [done | by eexists]); exact I|]).
  - vm_compute. reflexivity.
Defined.

Lemma slist_remove_absent_witness :
  SLIST_REMOVE (SListHead 8) three_nodes 24 = Err NullDeref.
Proof.
  apply (slist_remove_absent (SListHead 8) three_nodes [8; 16]).
  - apply three_nodes_list.
  - done.
  - intros Hin. by repeat (apply elem_of_cons in Hin as [?|Hin]; [done|]);
      apply not_elem_of_nil in Hin.
Defined.

End SList.
