(* ===== verification/QueueMem.v ===== *)
(** * Memory of the linked queues ([queue.h])

    The lists and queues of [queue.h] that point back: a list head or an element
    keeps the address of the word that points at it, so their model needs memory
    with addresses. Memory is a map from addresses to 8-byte words; [ldw] and
    [stw] are the accesses of the macros. The file has the description of a
    memory by a list of cells ([holds]), the words of a chain of elements
    ([seg], [back]) and the loops. *)

From S2P Require Import Prelude.

Module QueueMem.

(** ** Memory *)

(** The words in use, by their addresses. The null pointer is 0. *)
Abbreviation mem := (gmap Z Z).

(** [*a] and [*a = v]. *)
Definition ldw (m : mem) (a : Z) : res Z :=
  if a =? 0 then Err NullDeref
  else match m !! a with Some v => Ok v | None => Err OutOfBounds end.

Definition stw (m : mem) (a v : Z) : res mem :=
  if a =? 0 then Err NullDeref
  else match m !! a with Some _ => Ok (<[a := v]> m) | None => Err OutOfBounds end.

(** The second word of a head or an entry is at this distance. *)
Definition word : Z := 8.

(** [&(p)->field]: the entry in the structure at [p], [field] bytes into it. *)
Definition member (p field : Z) : res Z :=
  if p =? 0 then Err NullDeref else Ok (p + field).

(** ** Loops *)

(** The two forms of the [for] loops of the header. The state is what the body
    works on and the memory; [next] reads the pointer to the next element. *)
Section loops.
Context {A : Type} (next : mem -> Z -> res Z) (body : Z -> A * mem -> res (A * mem)).

Fixpoint for_each (fuel : nat) (var : Z) (s : A * mem) : res (A * mem) :=
  if var =? 0 then mret s
  else
    match fuel with
    | O => Err OutOfFuel
    | S fuel =>
        s ← body var s;
        var ← next s.2 var;
        for_each fuel var s
    end.

Fixpoint for_each_safe (fuel : nat) (var : Z) (s : A * mem) : res (A * mem) :=
  if var =? 0 then mret s
  else
    match fuel with
    | O => Err OutOfFuel
    | S fuel =>
        tvar ← next s.2 var;
        s ← body var s;
        for_each_safe fuel tvar s
    end.

(** The rules: [I todo s] holds when the elements [todo] are still to be
    visited. *)
Lemma for_each_rule (I : list Z -> A * mem -> Prop) todo fuel s :
  (length todo <= fuel)%nat -> Forall (.≠ 0) todo -> I todo s ->
  (forall x r s, I (x :: r) s ->
     exists s', body x s = Ok s' /\ next s'.2 x = Ok (default 0 (head r)) /\ I r s') ->
  exists s', for_each fuel (default 0 (head todo)) s = Ok s' /\ I [] s'.
Proof.
  intros Hf Hn HI Hstep. revert fuel s Hf HI.
  induction Hn as [|x r Hx _ IH]; intros fuel s Hf HI; destruct fuel as [|fuel];
    simpl in Hf; try lia; try by eexists.
  change (default 0 (head (x :: r))) with x. cbn [for_each]. rewrite (proj2 (Z.eqb_neq _ _) Hx).
  destruct (Hstep x r s HI) as (s' & -> & Hnext & HI'). cbn [mbind res_bind].
  rewrite Hnext. cbn [mbind res_bind]. apply IH; [lia|done].
Qed.

Lemma for_each_safe_rule (I : list Z -> A * mem -> Prop) todo fuel s :
  (length todo <= fuel)%nat -> Forall (.≠ 0) todo -> I todo s ->
  (forall x r s, I (x :: r) s ->
     next s.2 x = Ok (default 0 (head r)) /\ exists s', body x s = Ok s' /\ I r s') ->
  exists s', for_each_safe fuel (default 0 (head todo)) s = Ok s' /\ I [] s'.
Proof.
  intros Hf Hn HI Hstep. revert fuel s Hf HI.
  induction Hn as [|x r Hx _ IH]; intros fuel s Hf HI; destruct fuel as [|fuel];
    simpl in Hf; try lia; try by eexists.
  change (default 0 (head (x :: r))) with x. cbn [for_each_safe]. rewrite (proj2 (Z.eqb_neq _ _) Hx).
  destruct (Hstep x r s HI) as (Hnext & s' & Hbody & HI').
  rewrite Hnext. cbn [mbind res_bind]. rewrite Hbody. cbn [mbind res_bind].
  apply IH; [lia|done].
Qed.

End loops.

(** A body that only computes. *)
Definition pure_body {A} (f : A -> Z -> A) (x : Z) (s : A * mem) : res (A * mem) :=
  Ok (f s.1 x, s.2).

(** Such a loop folds over the elements. *)
Lemma for_each_pure {A} next (f : A -> Z -> A) fuel l a m :
  (length l <= fuel)%nat -> Forall (.≠ 0) l ->
  (forall l1 x l2, l = l1 ++ x :: l2 -> next m x = Ok (default 0 (head l2))) ->
  for_each next (pure_body f) fuel (default 0 (head l)) (a, m) = Ok (fold_left f l a, m).
Proof.
  intros Hf Hn Hnext.
  destruct (for_each_rule next (pure_body f)
    (fun todo s => s.2 = m /\ fold_left f todo s.1 = fold_left f l a /\
       exists d, l = d ++ todo) l fuel (a, m)) as ([a' m'] & Hr & Hm & Ha & _);
    [done|done|by split; [|split; [|exists []]]| |].
  - intros x r [b m'] (Hm & Hb & d & Hd). simpl in *. subst m'. eexists. split; [done|].
    split; [by eapply Hnext|]. split; [done|]. split; [done|].
    exists (d ++ [x]). by rewrite <- app_assoc.
  - simpl in *. by subst.
Qed.

Lemma for_each_safe_pure {A} next (f : A -> Z -> A) fuel l a m :
  (length l <= fuel)%nat -> Forall (.≠ 0) l ->
  (forall l1 x l2, l = l1 ++ x :: l2 -> next m x = Ok (default 0 (head l2))) ->
  for_each_safe next (pure_body f) fuel (default 0 (head l)) (a, m) = Ok (fold_left f l a, m).
Proof.
  intros Hf Hn Hnext.
  destruct (for_each_safe_rule next (pure_body f)
    (fun todo s => s.2 = m /\ fold_left f todo s.1 = fold_left f l a /\
       exists d, l = d ++ todo) l fuel (a, m)) as ([a' m'] & Hr & Hm & Ha & _);
    [done|done|by split; [|split; [|exists []]]| |].
  - intros x r [b m'] (Hm & Hb & d & Hd). simpl in *. subst m'.
    split; [by eapply Hnext|]. eexists. split; [done|]. split; [done|]. split; [done|].
    exists (d ++ [x]). by rewrite <- app_assoc.
  - simpl in *. by subst.
Qed.

(** ** Cells *)

(** A description of memory: words at different non-null addresses, each with
    its contents or ([None]) with contents that do not matter. Two descriptions
    put together with [++] are of separate parts of memory. *)
Abbreviation cell := (Z * option Z)%type.

Definition cell_ok (m : mem) (c : cell) : Prop :=
  c.1 <> 0 /\ match c.2 with Some v => m !! c.1 = Some v | None => is_Some (m !! c.1) end.

Definition holds (m : mem) (cs : list cell) : Prop :=
  NoDup cs.*1 /\ Forall (cell_ok m) cs.

#[export] Instance cell_ok_dec m c : Decision (cell_ok m c).
Proof. unfold cell_ok. destruct (c.2); apply _. Defined.

#[export] Instance holds_dec m cs : Decision (holds m cs).
Proof. unfold holds. apply _. Defined.

#[export] Instance holds_proper m : Proper ((≡ₚ) ==> iff) (holds m).
Proof. intros cs cs' Hp. unfold holds. by rewrite Hp. Qed.

Lemma holds_app_l m cs cs' : holds m (cs ++ cs') -> holds m cs.
Proof.
  unfold holds. rewrite fmap_app, NoDup_app, Forall_app. by intros [(? & _) []].
Qed.

Lemma holds_nonnull m cs : holds m cs -> Forall (fun c => c.1 <> 0) cs.
Proof. intros [_ H]. eapply Forall_impl; [done|]. by intros c []. Qed.

Lemma holds_size m cs : holds m cs -> (length cs <= size m)%nat.
Proof.
  intros [Hnd Hok]. rewrite <- (length_fmap fst), <- size_dom.
  rewrite <- (size_list_to_set (C := gset Z) _ Hnd). apply subseteq_size.
  intros a Ha. apply elem_of_list_to_set, list_elem_of_fmap in Ha as (c & -> & Hc).
  rewrite Forall_forall in Hok. destruct (Hok c Hc) as [_ Hv].
  apply elem_of_dom. by destruct (c.2).
Qed.

(** Access to the [i]-th word described. *)
Lemma ldw_holds m cs i a v : holds m cs -> cs !! i = Some (a, Some v) -> ldw m a = Ok v.
Proof.
  intros [_ Hok] Hi. destruct (proj1 (Forall_lookup _ _) Hok i _ Hi) as [Ha Hv].
  simpl in *. unfold ldw. by rewrite (proj2 (Z.eqb_neq _ _) Ha), Hv.
Qed.

Lemma ldw_in m cs a v : holds m cs -> (a, Some v) ∈ cs -> ldw m a = Ok v.
Proof. intros Hm [i Hi]%list_elem_of_lookup. by eapply ldw_holds. Qed.

Lemma fst_insert_same (cs : list cell) i a w v :
  cs !! i = Some (a, w) -> (<[i := (a, v)]> cs).*1 = cs.*1.
Proof. intros Hi. rewrite list_fmap_insert. apply list_insert_id. by rewrite list_lookup_fmap, Hi. Qed.

Lemma stw_holds m cs i a w v :
  holds m cs -> cs !! i = Some (a, w) ->
  stw m a v = Ok (<[a := v]> m) /\ holds (<[a := v]> m) (<[i := (a, Some v)]> cs).
Proof.
  intros [Hnd Hok] Hi. pose proof (proj1 (Forall_lookup _ _) Hok) as Hl.
  destruct (Hl i _ Hi) as [Ha Hv]. simpl in *. split.
  - unfold stw. rewrite (proj2 (Z.eqb_neq _ _) Ha).
    destruct w; [by rewrite Hv | by destruct Hv as [? ->]].
  - split; [by rewrite (fst_insert_same cs i a w)|]. apply Forall_lookup.
    intros j c Hj. destruct (decide (i = j)) as [<-|Hij].
    { rewrite list_lookup_insert_eq in Hj by (by eapply lookup_lt_Some).
      injection Hj as <-. split; [done|]. apply lookup_insert_eq. }
    rewrite list_lookup_insert_ne in Hj by done. destruct (Hl j c Hj) as [Hc Hcv].
    split; [done|]. rewrite lookup_insert_ne; [done|]. intros Hac. apply Hij.
    eapply NoDup_lookup with (x := a); [exact Hnd | |]; rewrite list_lookup_fmap.
    + by rewrite Hi.
    + rewrite Hj. simpl. by f_equal.
Qed.

(** Forgetting the contents of a word. *)
Lemma holds_forget m cs i a w :
  holds m cs -> cs !! i = Some (a, w) -> holds m (<[i := (a, None)]> cs).
Proof.
  intros [Hnd Hok] Hi. split; [by rewrite (fst_insert_same cs i a w)|].
  destruct (proj1 (Forall_lookup _ _) Hok i _ Hi) as [Ha Hv].
  apply Forall_insert; [done|]. split; [done|]. simpl in *. by destruct w.
Qed.

Lemma holds_cells_delete m a v cs : holds m ((a, v) :: cs) -> holds (delete a m) cs.
Proof.
  intros [Hnd Hok]. rewrite fmap_cons in Hnd. inversion Hnd as [|? ? Ha Hcs]; subst.
  inversion Hok as [|? ? _ Hok']; subst. split; [done|].
  apply Forall_forall. intros c Hc. rewrite Forall_forall in Hok'.
  destruct (Hok' c Hc) as [? ?]. split; [done|]. rewrite lookup_delete_ne; [done|].
  intros ->. apply Ha. by apply list_elem_of_fmap_2.
Qed.

(** The result of an operation: a memory with this description. *)
Definition yields (r : res mem) (cs : list cell) : Prop :=
  exists m, r = Ok m /\ holds m cs.

Lemma yields_perm r cs cs' : cs ≡ₚ cs' -> yields r cs -> yields r cs'.
Proof. intros Hp (m & -> & Hm). exists m. by rewrite <- Hp. Qed.

Lemma yields_ret m cs : holds m cs -> yields (Ok m) cs.
Proof. by exists m. Qed.

Lemma yields_stw m cs i a w v cs' :
  holds m cs -> cs !! i = Some (a, w) -> <[i := (a, Some v)]> cs ≡ₚ cs' ->
  yields (stw m a v) cs'.
Proof.
  intros Hm Hi Hp. destruct (stw_holds m cs i a w v Hm Hi) as [-> Hm'].
  eexists. split; [done|]. by rewrite <- Hp.
Qed.

Lemma yields_bind r cs k cs' :
  yields r cs -> (forall m, holds m cs -> yields (k m) cs') -> yields (r ≫= k) cs'.
Proof. intros (m & -> & Hm) Hk. by apply Hk. Qed.

(** ** Chains of elements *)

Lemma member_ok p field : p <> 0 -> member p field = Ok (p + field).
Proof. intros Hp. unfold member. by rewrite (proj2 (Z.eqb_neq _ _) Hp). Qed.

(** The words that link the elements [l] with entries [field] bytes into each:
    the word at [s] (in the head, or in the entry before) has the first element,
    the next word of each element has the one after it, the last one has [e]. *)
Section chains.
Context (field : Z).
Implicit Types l : list Z.

Fixpoint seg (s : Z) (l : list Z) (e : Z) : list cell :=
  match l with
  | [] => [(s, Some e)]
  | x :: l => (s, Some x) :: seg (x + field) l e
  end.

(** The address of the last of these words. *)
Fixpoint endslot (s : Z) (l : list Z) : Z :=
  match l with
  | [] => s
  | x :: l => endslot (x + field) l
  end.

(** The words before it. *)
Fixpoint lead (s : Z) (l : list Z) : list cell :=
  match l with
  | [] => []
  | x :: l => (s, Some x) :: lead (x + field) l
  end.

(** The second word of each entry: the address of the word that points at the
    element. *)
Fixpoint back (s : Z) (l : list Z) : list cell :=
  match l with
  | [] => []
  | x :: l => (x + field + word, Some s) :: back (x + field) l
  end.

Lemma seg_app s l1 y l2 e :
  seg s (l1 ++ y :: l2) e = seg s l1 y ++ seg (y + field) l2 e.
Proof.
  revert s. induction l1 as [|x l1 IH]; intros s; [done|].
  cbn [app seg]. by rewrite IH.
Qed.

Lemma seg_last s l e : seg s l e = lead s l ++ [(endslot s l, Some e)].
Proof.
  revert s. induction l as [|x l IH]; intros s; [done|].
  cbn [app seg lead endslot]. by rewrite IH.
Qed.

Lemma endslot_app s l1 y l2 : endslot s (l1 ++ y :: l2) = endslot (y + field) l2.
Proof. revert s. induction l1 as [|x l1 IH]; intros s; [done|]. apply IH. Qed.

Lemma back_app s l1 y l2 :
  back s (l1 ++ y :: l2) =
    back s l1 ++ (y + field + word, Some (endslot s l1)) :: back (y + field) l2.
Proof.
  revert s. induction l1 as [|x l1 IH]; intros s; [done|].
  cbn [app back endslot]. by rewrite IH.
Qed.

Lemma length_seg s l e : length (seg s l e) = S (length l).
Proof. revert s. induction l as [|x l IH]; intros s; [done|]. cbn [seg length]. by rewrite IH. Qed.

(** Following the links of a chain that ends in null. *)
Lemma seg_first m s l R : holds m (seg s l 0 ++ R) -> ldw m s = Ok (default 0 (hd_error l)).
Proof.
  intros H. apply (ldw_in _ _ _ _ H), elem_of_app. left.
  destruct l; apply list_elem_of_here.
Qed.

Lemma seg_next m s l1 x l2 R :
  x <> 0 -> holds m (seg s (l1 ++ x :: l2) 0 ++ R) ->
  (a ← member x field; ldw m a) = Ok (default 0 (hd_error l2)).
Proof.
  intros Hx H. rewrite member_ok by done. cbn [mbind res_bind].
  apply (ldw_in _ _ _ _ H), elem_of_app. left. rewrite seg_app. apply elem_of_app. right.
  destruct l2; apply list_elem_of_here.
Qed.

(** The loops, with a body that only computes, over such a chain. *)
Lemma seg_foreach {A} (f : A -> Z -> A) fuel m s l R a :
  Forall (.≠ 0) l -> holds m (seg s l 0 ++ R) -> (length l <= fuel)%nat ->
  (first ← ldw m s;
   for_each (fun m x => a ← member x field; ldw m a) (pure_body f) fuel first (a, m))
    = Ok (fold_left f l a, m)
  /\ (first ← ldw m s;
      for_each_safe (fun m x => a ← member x field; ldw m a) (pure_body f) fuel first (a, m))
    = Ok (fold_left f l a, m).
Proof.
  intros Hn H Hf. rewrite (seg_first m s l R H). cbn [mbind res_bind].
  assert (forall l1 x l2, l = l1 ++ x :: l2 ->
    (a ← member x field; ldw m a) = Ok (default 0 (hd_error l2))) as Hnext.
  { intros l1 x l2 ->. eapply seg_next; [|done].
    by apply Forall_app in Hn as [_ [? _]%Forall_cons]. }
  split; [by apply for_each_pure|by apply for_each_safe_pure].
Qed.

End chains.

Lemma res_bind_assoc {A B C} (r : res A) (k : A -> res B) (k' : B -> res C) :
  (r ≫= k) ≫= k' = r ≫= (fun a => k a ≫= k').
Proof. by destruct r. Qed.

End QueueMem.

(** ** Automation *)

(** Running an operation on a memory described by a list that begins with the
    words it uses: [mem_step] makes one access, or decides one null test. *)
Ltac try_index tac :=
  first [tac 0%nat | tac 1%nat | tac 2%nat | tac 3%nat | tac 4%nat | tac 5%nat | tac 6%nat].

Ltac mem_load m a :=
  match goal with
  | H : QueueMem.holds m ?cs |- _ =>
      try_index ltac:(fun i => rewrite (QueueMem.ldw_holds m cs i a _ H eq_refl))
  end.

Ltac mem_store m a v :=
  match goal with
  | H : QueueMem.holds m ?cs |- _ =>
      let H' := fresh in
      try_index ltac:(fun i =>
        destruct (QueueMem.stw_holds m cs i a _ v H eq_refl) as [-> H']);
      clear H; cbn [list_insert insert] in H'; revert H'; generalize (<[a := v]> m);
      let m' := fresh "m" in intros m' H
  end.

(** What is in the word at [a] no longer matters. *)
Ltac mem_forget a :=
  match goal with
  | H : QueueMem.holds ?m ?cs |- _ =>
      try_index ltac:(fun i => apply (fun Hm => QueueMem.holds_forget m cs i a _ Hm eq_refl) in H);
      cbn [list_insert insert] in H
  end.

(** Loads in an equation. *)
Ltac mem_loads :=
  repeat
    (first
      [ rewrite QueueMem.member_ok by done
      | match goal with |- context [QueueMem.ldw ?m ?a] => mem_load m a end ];
     cbn [mbind res_bind mret res_ret]).

Ltac mem_step :=
  lazymatch goal with
  | |- QueueMem.yields ((_ ≫= _) ≫= _) _ => rewrite QueueMem.res_bind_assoc
  | |- QueueMem.yields (QueueMem.ldw ?m ?a ≫= _) _ => mem_load m a
  | |- QueueMem.yields (QueueMem.stw ?m ?a ?v ≫= _) _ => mem_store m a v
  | |- QueueMem.yields (QueueMem.stw ?m ?a ?v) _ => mem_store m a v
  | |- QueueMem.yields (QueueMem.member ?p ?f ≫= _) _ =>
      rewrite (QueueMem.member_ok p f) by done
  | |- QueueMem.yields (if ?x =? 0 then _ else _) _ =>
      first [change (x =? 0) with true | rewrite (proj2 (Z.eqb_neq x 0)) by done]
  | |- QueueMem.yields ((if ?x =? 0 then _ else _) ≫= _) _ =>
      first [change (x =? 0) with true | rewrite (proj2 (Z.eqb_neq x 0)) by done]
  | |- QueueMem.yields (mret ?a ≫= _) _ => change (mret a) with (Ok a)
  | |- QueueMem.yields (mret ?m) _ => change (mret m) with (Ok m)
  | |- QueueMem.yields (Ok _) _ =>
      apply QueueMem.yields_ret;
      match goal with
      | H : QueueMem.holds ?m _ |- QueueMem.holds ?m _ =>
          eapply QueueMem.holds_proper; [|exact H]; solve_Permutation
      end
  end; cbn [mbind res_bind mret res_ret].

Ltac mem_steps := repeat mem_step.

(** Puts the description [H] into the order [cs]. *)
Ltac mem_front H cs :=
  let H' := fresh in
  match type of H with
  | QueueMem.holds ?m _ =>
      assert (QueueMem.holds m cs) as H'
        by (eapply QueueMem.holds_proper; [|exact H]; solve_Permutation);
      clear H; rename H' into H
  end.
