(* ===== verification/QueueOps.v ===== *)
(** * What the linked queues of [queue.h] promise

    The queue types differ in their words and in the operations they have, not in
    what an operation does to the elements. [lop] has the operations on one
    queue and [effect] what each does to the list of its elements; [QueueImpl]
    is a type of queue and [QueueLaws] says that its macros do that. From these
    laws follows, for every type, that sequences of operations on any number of
    queues do to memory what they do to the lists ([run_ops_refine]). *)

From S2P Require Import Prelude QueueMem.

Module QueueOps.
Import QueueMem.

(** ** Operations on one list *)

Inductive lop : Type :=
| Init
| InsertHead (elm : Z)
| InsertTail (elm : Z)
| InsertAfter (listelm elm : Z)
| InsertBefore (listelm elm : Z)
| RemoveHead
| RemoveAfter (elm : Z)
| Remove (elm : Z)
| Replace (elm elm2 : Z).

(** The element an operation takes into the queue. *)
Definition needs (op : lop) : list Z :=
  match op with
  | InsertHead x | InsertTail x | InsertAfter _ x | InsertBefore _ x | Replace _ x => [x]
  | Init | RemoveHead | RemoveAfter _ | Remove _ => []
  end.

(** The elements after the operation and those it lets go; [None] where the
    caller has broken its precondition. *)
Definition effect (op : lop) (l : list Z) : option (list Z * list Z) :=
  match op with
  | Init => Some ([], l)
  | InsertHead x => Some (x :: l, [])
  | InsertTail x => Some (l ++ [x], [])
  | InsertAfter y x => '(l1, l2) ← split_at y l; Some (l1 ++ y :: x :: l2, [])
  | InsertBefore y x => '(l1, l2) ← split_at y l; Some (l1 ++ x :: y :: l2, [])
  | RemoveHead => match l with [] => None | x :: l => Some (l, [x]) end
  | RemoveAfter y =>
      '(l1, l2) ← split_at y l;
      match l2 with [] => None | x :: l2 => Some (l1 ++ y :: l2, [x]) end
  | Remove x => '(l1, l2) ← split_at x l; Some (l1 ++ l2, [x])
  | Replace y x => '(l1, l2) ← split_at y l; Some (l1 ++ x :: l2, [y])
  end.

(** ** Types of queue *)

(** The words of a queue with given elements and of an element in none, and the
    macros: [None] where the type has no such macro. *)
Class QueueImpl : Type := {
  queue : Z -> list Z -> list cell;
  loose : Z -> list cell;
  macro : lop -> option (Z -> mem -> res mem);
  concat_macro : option (Z -> Z -> mem -> res mem)
}.

(** What a type of queue promises: on memory with a queue, the element to take in
    and anything else, a macro ends with the queue changed as the list is, the
    elements let go, and the rest as it was. *)
Class QueueLaws (I : QueueImpl) : Prop := {
  macro_ok op f head l l' out R m :
    macro op = Some f -> effect op l = Some (l', out) -> Forall (.≠ 0) (needs op ++ l) ->
    holds m (queue head l ++ (needs op ≫= loose) ++ R) ->
    yields (f head m) (queue head l' ++ (out ≫= loose) ++ R);
  concat_macro_ok f head1 head2 l1 l2 R m :
    concat_macro = Some f -> Forall (.≠ 0) (l1 ++ l2) ->
    holds m (queue head1 l1 ++ queue head2 l2 ++ R) ->
    yields (f head1 head2 m) (queue head1 (l1 ++ l2) ++ queue head2 [] ++ R)
}.

(** ** Sequences of operations on several queues *)

Inductive op : Type :=
| On (head : Z) (o : lop)
| Concat (head1 head2 : Z).

(** The queues by their heads, and the elements that are in none. *)
Record world : Type := World { queues : gmap Z (list Z); free : list Z }.

(** Takes elements out of a list. *)
Fixpoint take_out (xs l : list Z) : option (list Z) :=
  match xs with
  | [] => Some l
  | x :: xs => '(l1, l2) ← split_at x l; take_out xs (l1 ++ l2)
  end.

Definition spec_op (w : world) (o : op) : option world :=
  match o with
  | On head o =>
      l ← queues w !! head;
      rest ← take_out (needs o) (free w);
      '(l', out) ← effect o l;
      Some (World (<[head := l']> (queues w)) (out ++ rest))
  | Concat head1 head2 =>
      l1 ← queues w !! head1;
      l2 ← delete head1 (queues w) !! head2;
      Some (World (<[head1 := l1 ++ l2]> (<[head2 := []]> (queues w))) (free w))
  end.

Fixpoint spec_ops (w : world) (os : list op) : option world :=
  match os with
  | [] => Some w
  | o :: os => w ← spec_op w o; spec_ops w os
  end.

Section ops.
Context `{I : QueueImpl}.

Definition has_macro (o : op) : bool :=
  match o with
  | On _ o => bool_decide (is_Some (macro o))
  | Concat _ _ => bool_decide (is_Some concat_macro)
  end.

Definition run_op (o : op) (m : mem) : res mem :=
  match o with
  | On head o => match macro o with Some f => f head m | None => mret m end
  | Concat head1 head2 =>
      match concat_macro with Some f => f head1 head2 m | None => mret m end
  end.

Fixpoint run_ops (os : list op) (m : mem) : res mem :=
  match os with
  | [] => mret m
  | o :: os => m ← run_op o m; run_ops os m
  end.

(** ** Representation *)

Definition queue_cells (qs : gmap Z (list Z)) : list cell :=
  map_to_list qs ≫= (fun '(head, l) => queue head l).

(** Memory has these queues and free elements, and the words [R] beside them. *)
Definition represents (m : mem) (w : world) (R : list cell) : Prop :=
  map_Forall (fun _ l => Forall (.≠ 0) l) (queues w) /\ Forall (.≠ 0) (free w) /\
  holds m (queue_cells (queues w) ++ (free w ≫= loose) ++ R).

#[export] Instance represents_dec m w R : Decision (represents m w R).
Proof. unfold represents. apply _. Defined.

Lemma queue_cells_lookup qs head l :
  qs !! head = Some l -> queue_cells qs ≡ₚ queue head l ++ queue_cells (delete head qs).
Proof.
  intros Hl. unfold queue_cells. by rewrite <- (map_to_list_delete qs head l Hl).
Qed.

Lemma queue_cells_insert qs head l :
  queue_cells (<[head := l]> qs) ≡ₚ queue head l ++ queue_cells (delete head qs).
Proof.
  rewrite (queue_cells_lookup (<[head := l]> qs) head l) by apply lookup_insert_eq.
  by rewrite delete_insert_eq.
Qed.

Lemma represents_queue m w R head l :
  represents m w R -> queues w !! head = Some l ->
  exists R', Forall (.≠ 0) l /\ holds m (queue head l ++ R').
Proof.
  intros (Hqs & _ & Hm) Hl. rewrite (queue_cells_lookup _ _ _ Hl), <- app_assoc in Hm.
  eexists. split; [by eapply Hqs|exact Hm].
Qed.

Lemma take_out_perm xs l l' : take_out xs l = Some l' -> l ≡ₚ xs ++ l'.
Proof.
  revert l. induction xs as [|x xs IH]; intros l; simpl; [by intros [= ->]|].
  intros ([l1 l2] & Hs & Ht)%bind_Some. apply split_at_app in Hs as ->.
  rewrite <- (IH _ Ht). solve_Permutation.
Qed.

Lemma effect_perm o l l' out :
  effect o l = Some (l', out) -> l' ++ out ≡ₚ needs o ++ l.
Proof.
  destruct o; simpl; intros H; simplify_eq; try (rewrite ?app_nil_r; done);
    try (apply bind_Some in H as ([l1 l2] & Hs%split_at_app & H); simplify_eq);
    try (destruct l; simplify_eq); try (destruct l2; simplify_eq);
    try solve_Permutation.
Qed.

Context {L : QueueLaws I}.

Lemma run_op_represents m w o w' R :
  represents m w R -> spec_op w o = Some w' -> has_macro o ->
  exists m', run_op o m = Ok m' /\ represents m' w' R.
Proof.
  intros (Hqs & Hfr & Hm). destruct o as [head o|head1 head2]; simpl.
  - intros (l & Hl & (rest & Hrest%take_out_perm & ([l' out] & Heff & Hw)%bind_Some)
      %bind_Some)%bind_Some [f Hf]%bool_decide_spec.
    injection Hw as <-. rewrite Hf. pose proof (effect_perm _ _ _ _ Heff) as Hperm.
    rewrite Hrest in Hfr. apply Forall_app in Hfr as [Hneeds Hfree].
    assert (Forall (.≠ 0) (l' ++ out)) as [Hl' Hout]%Forall_app.
    { rewrite Hperm. apply Forall_app. split; [done|]. by apply (Hqs head). }
    destruct (macro_ok o f head l l' out
      (queue_cells (delete head (queues w)) ++ (rest ≫= loose) ++ R) m) as (m' & Hr & Hm');
      [done|done|by apply Forall_app; split; [|apply (Hqs head)]| |].
    { rewrite (queue_cells_lookup _ _ _ Hl), Hrest, bind_app in Hm.
      eapply holds_proper; [|exact Hm]. solve_Permutation. }
    exists m'. split; [done|]. split; [|split].
    + simpl. by apply map_Forall_insert_2.
    + simpl. by apply Forall_app.
    + simpl. rewrite queue_cells_insert, bind_app.
      eapply holds_proper; [|exact Hm']. solve_Permutation.
  - intros (l1 & Hl1 & (l2 & Hl2 & Hw)%bind_Some)%bind_Some [f Hf]%bool_decide_spec.
    injection Hw as <-. rewrite Hf. apply lookup_delete_Some in Hl2 as Hne.
    destruct Hne as [Hne Hl2'].
    destruct (concat_macro_ok f head1 head2 l1 l2
      (queue_cells (delete head2 (delete head1 (queues w))) ++ (free w ≫= loose) ++ R) m)
      as (m' & Hr & Hm'); [done| | |].
    { apply Forall_app. split; by eapply Hqs. }
    { rewrite (queue_cells_lookup _ _ _ Hl1), (queue_cells_lookup _ _ _ Hl2) in Hm.
      eapply holds_proper; [|exact Hm]. solve_Permutation. }
    exists m'. split; [done|]. split; [|split]; [|done|].
    + simpl. apply map_Forall_insert_2; [apply Forall_app; split; by eapply Hqs|].
      by apply map_Forall_insert_2.
    + simpl. rewrite queue_cells_insert, delete_insert_ne, queue_cells_insert by done.
      eapply holds_proper; [|exact Hm']. solve_Permutation.
Qed.

(** Sequences of operations refine those on the lists. *)
Lemma run_ops_represents m w os w' R :
  represents m w R -> spec_ops w os = Some w' -> Forall has_macro os ->
  exists m', run_ops os m = Ok m' /\ represents m' w' R.
Proof.
  intros Hm Hw Hos. revert m w Hm Hw.
  induction Hos as [|o os Ho _ IH]; intros m w Hm; simpl; [intros [= <-]; by exists m|].
  intros (w1 & Hw1 & Hw)%bind_Some.
  destruct (run_op_represents m w o w1 R Hm Hw1 Ho) as (m1 & -> & Hm1). by eapply IH.
Qed.

End ops.

(** ** Elements linked both ways *)

(** The two words of an entry in no queue. *)
Definition two_words (field elm : Z) : list cell :=
  [(elm + field, None); (elm + field + word, None)].

(** The words of a queue that is given up. *)
Lemma scatter field m s l e R :
  holds m (seg field s l e ++ back field s l ++ R) ->
  exists v, holds m ((s, Some v) :: (l ≫= two_words field) ++ R).
Proof.
  revert s R. induction l as [|x l IH]; intros s R H; [by exists e|].
  cbn [seg back app] in H.
  mem_front H (seg field (x + field) l e ++ back field (x + field) l ++
    (s, Some x) :: (x + field + word, Some s) :: R).
  destruct (IH _ _ H) as [v H']. exists x. clear H.
  mem_front H' ((x + field, Some v) :: (x + field + word, Some s) :: (s, Some x) ::
    (l ≫= two_words field) ++ R).
  mem_forget (x + field). mem_forget (x + field + word).
  eapply holds_proper; [|exact H']. cbn [mbind list_bind]. unfold two_words at 1.
  cbn [app]. solve_Permutation.
Qed.

End QueueOps.
