(* ===== verification/SimpleQ.v ===== *)
(** * Simple queues ([queue.h])

    The [SIMPLEQ] macros: a head with the first element and the address of the
    last link, elements linked forward. *)

From S2P Require Import Prelude QueueMem QueueOps.

Module SimpleQ.
Import QueueMem QueueOps.

(** ** Heads and entries *)

(** [SIMPLEQ_HEAD(name, type)] at [head], [SIMPLEQ_ENTRY(type)] as the member
    [field] of the structure at [elm]. *)
Definition sqh_first (head : Z) : Z := head.
Definition sqh_last (head : Z) : Z := head + word.

(** The words of a head that is initialised where it is declared. *)
Definition SIMPLEQ_HEAD_INITIALIZER (head : Z) : list cell :=
  [(sqh_first head, Some 0); (sqh_last head, Some (sqh_first head))].

Section macros.
Context (field : Z).

Definition sqe_next (elm : Z) : res Z := member elm field.

(** ** Access *)

Definition SIMPLEQ_FIRST (m : mem) (head : Z) : res Z := ldw m (sqh_first head).
Definition SIMPLEQ_END : Z := 0.
Definition SIMPLEQ_EMPTY (m : mem) (head : Z) : res bool :=
  first ← SIMPLEQ_FIRST m head; mret (first =? SIMPLEQ_END).
Definition SIMPLEQ_NEXT (m : mem) (elm : Z) : res Z := a ← sqe_next elm; ldw m a.

Definition SIMPLEQ_FOREACH {A} (fuel : nat) (head : Z)
    (body : Z -> A * mem -> res (A * mem)) (s : A * mem) : res (A * mem) :=
  first ← SIMPLEQ_FIRST s.2 head;
  for_each SIMPLEQ_NEXT body fuel first s.

Definition SIMPLEQ_FOREACH_SAFE {A} (fuel : nat) (head : Z)
    (body : Z -> A * mem -> res (A * mem)) (s : A * mem) : res (A * mem) :=
  first ← SIMPLEQ_FIRST s.2 head;
  for_each_safe SIMPLEQ_NEXT body fuel first s.

(** ** Functions *)

Definition SIMPLEQ_INIT (head : Z) (m : mem) : res mem :=
  m ← stw m (sqh_first head) 0;
  stw m (sqh_last head) (sqh_first head).

Definition SIMPLEQ_INSERT_HEAD (head elm : Z) (m : mem) : res mem :=
  elm_next ← sqe_next elm;
  first ← ldw m (sqh_first head);
  m ← stw m elm_next first;
  m ← (if first =? 0 then stw m (sqh_last head) elm_next else mret m);
  stw m (sqh_first head) elm.

Definition SIMPLEQ_INSERT_TAIL (head elm : Z) (m : mem) : res mem :=
  elm_next ← sqe_next elm;
  m ← stw m elm_next 0;
  last ← ldw m (sqh_last head);
  m ← stw m last elm;
  stw m (sqh_last head) elm_next.

Definition SIMPLEQ_INSERT_AFTER (head listelm elm : Z) (m : mem) : res mem :=
  elm_next ← sqe_next elm;
  listelm_next ← sqe_next listelm;
  next ← ldw m listelm_next;
  m ← stw m elm_next next;
  m ← (if next =? 0 then stw m (sqh_last head) elm_next else mret m);
  stw m listelm_next elm.

Definition SIMPLEQ_REMOVE_HEAD (head : Z) (m : mem) : res mem :=
  first ← ldw m (sqh_first head);
  first_next ← sqe_next first;
  next ← ldw m first_next;
  m ← stw m (sqh_first head) next;
  if next =? 0 then stw m (sqh_last head) (sqh_first head) else mret m.

Definition SIMPLEQ_REMOVE_AFTER (head elm : Z) (m : mem) : res mem :=
  elm_next ← sqe_next elm;
  next ← ldw m elm_next;
  next_next ← sqe_next next;
  next2 ← ldw m next_next;
  m ← stw m elm_next next2;
  if next2 =? 0 then stw m (sqh_last head) elm_next else mret m.

Definition SIMPLEQ_CONCAT (head1 head2 : Z) (m : mem) : res mem :=
  empty ← SIMPLEQ_EMPTY m head2;
  if (empty : bool) then mret m
  else
    last1 ← ldw m (sqh_last head1);
    first2 ← ldw m (sqh_first head2);
    m ← stw m last1 first2;
    last2 ← ldw m (sqh_last head2);
    m ← stw m (sqh_last head1) last2;
    SIMPLEQ_INIT head2 m.

(** ** Representation *)

Definition simpleq (head : Z) (l : list Z) : list cell :=
  (head + word, Some (endslot field head l)) :: seg field head l 0.

Definition simpleq_loose (elm : Z) : list cell := [(elm + field, None)].

Definition simpleq_macro (op : lop) : option (Z -> mem -> res mem) :=
  match op with
  | Init => Some SIMPLEQ_INIT
  | InsertHead x => Some (fun head => SIMPLEQ_INSERT_HEAD head x)
  | InsertTail x => Some (fun head => SIMPLEQ_INSERT_TAIL head x)
  | InsertAfter y x => Some (fun head => SIMPLEQ_INSERT_AFTER head y x)
  | RemoveHead => Some SIMPLEQ_REMOVE_HEAD
  | RemoveAfter y => Some (fun head => SIMPLEQ_REMOVE_AFTER head y)
  | InsertBefore _ _ | Remove _ | Replace _ _ => None
  end.

#[export] Instance simpleq_impl : QueueImpl := {|
  queue := simpleq;
  loose := simpleq_loose;
  macro := simpleq_macro;
  concat_macro := Some SIMPLEQ_CONCAT
|}.

End macros.

(** ** The macros, one by one *)

Section laws.
Context (field : Z).
Implicit Types (l : list Z) (R : list cell).

Local Abbreviation Seg := (seg field).
Local Abbreviation Lead := (lead field).
Local Abbreviation Last := (endslot field).

Ltac unfold_macros :=
  unfold SIMPLEQ_CONCAT, SIMPLEQ_INIT, SIMPLEQ_INSERT_HEAD, SIMPLEQ_INSERT_TAIL,
    SIMPLEQ_INSERT_AFTER, SIMPLEQ_REMOVE_HEAD, SIMPLEQ_REMOVE_AFTER, SIMPLEQ_EMPTY,
    SIMPLEQ_FIRST, SIMPLEQ_NEXT, SIMPLEQ_END, sqe_next, sqh_first, sqh_last.

Ltac split_cells H :=
  unfold simpleq, simpleq_loose in *; unfold_macros;
  rewrite ?seg_app, ?endslot_app in *; cbn [seg endslot app] in *;
  rewrite ?seg_app, ?endslot_app in *; cbn [seg endslot app] in *.

Lemma simpleq_init_ok m head R a b :
  holds m ((head, a) :: (head + word, b) :: R) ->
  yields (SIMPLEQ_INIT head m) (simpleq field head [] ++ R).
Proof. intros H. split_cells H. mem_steps. Qed.

Lemma simpleq_insert_head_ok m head l x R :
  Forall (.≠ 0) l -> x <> 0 -> holds m (simpleq field head l ++ simpleq_loose field x ++ R) ->
  yields (SIMPLEQ_INSERT_HEAD field head x m) (simpleq field head (x :: l) ++ R).
Proof.
  intros Hl Hx H. destruct Hl as [|y l Hy Hl]; split_cells H; [mem_steps|].
  mem_front H ((head, Some y) :: (x + field, None) ::
    (head + word, Some (Last (y + field) l)) :: Seg (y + field) l 0 ++ R).
  mem_steps.
Qed.

Lemma simpleq_insert_tail_ok m head l x R :
  x <> 0 -> holds m (simpleq field head l ++ simpleq_loose field x ++ R) ->
  yields (SIMPLEQ_INSERT_TAIL field head x m) (simpleq field head (l ++ [x]) ++ R).
Proof.
  intros Hx H. split_cells H. rewrite !seg_last in *.
  mem_front H ((head + word, Some (Last head l)) :: (Last head l, Some 0) ::
    (x + field, None) :: Lead head l ++ R).
  mem_steps.
Qed.

Lemma simpleq_insert_after_ok m head l1 y l2 x R :
  Forall (.≠ 0) (l1 ++ y :: l2) -> x <> 0 ->
  holds m (simpleq field head (l1 ++ y :: l2) ++ simpleq_loose field x ++ R) ->
  yields (SIMPLEQ_INSERT_AFTER field head y x m)
    (simpleq field head (l1 ++ y :: x :: l2) ++ R).
Proof.
  intros [_ Hl]%Forall_app Hx H. inversion Hl as [|? ? Hy Hl2]; subst.
  destruct Hl2 as [|z l2 Hz Hl2]; split_cells H.
  - mem_front H ((y + field, Some 0) :: (x + field, None) ::
      (head + word, Some (y + field)) :: Seg head l1 y ++ R).
    mem_steps.
  - mem_front H ((y + field, Some z) :: (x + field, None) ::
      (head + word, Some (Last (z + field) l2)) :: Seg head l1 y ++ Seg (z + field) l2 0 ++ R).
    mem_steps.
Qed.

Lemma simpleq_remove_head_ok m head x l R :
  Forall (.≠ 0) (x :: l) -> holds m (simpleq field head (x :: l) ++ R) ->
  yields (SIMPLEQ_REMOVE_HEAD field head m)
    (simpleq field head l ++ simpleq_loose field x ++ R).
Proof.
  intros [Hx Hl]%Forall_cons H. destruct Hl as [|z l Hz Hl]; split_cells H.
  - mem_front H ((x + field, Some 0) :: (head, Some x) :: (head + word, Some (x + field)) :: R).
    mem_steps. mem_forget (x + field). mem_steps.
  - mem_front H ((x + field, Some z) :: (head, Some x) ::
      (head + word, Some (Last (z + field) l)) :: Seg (z + field) l 0 ++ R).
    mem_steps. mem_forget (x + field). mem_steps.
Qed.

Lemma simpleq_remove_after_ok m head l1 y x l2 R :
  Forall (.≠ 0) (l1 ++ y :: x :: l2) -> holds m (simpleq field head (l1 ++ y :: x :: l2) ++ R) ->
  yields (SIMPLEQ_REMOVE_AFTER field head y m)
    (simpleq field head (l1 ++ y :: l2) ++ simpleq_loose field x ++ R).
Proof.
  intros [_ Hl]%Forall_app H. apply Forall_cons in Hl as [Hy [Hx Hl]%Forall_cons].
  destruct Hl as [|z l2 Hz Hl]; split_cells H.
  - mem_front H ((y + field, Some x) :: (x + field, Some 0) ::
      (head + word, Some (x + field)) :: Seg head l1 y ++ R).
    mem_steps. mem_forget (x + field). mem_steps.
  - mem_front H ((y + field, Some x) :: (x + field, Some z) ::
      (head + word, Some (Last (z + field) l2)) :: Seg head l1 y ++ Seg (z + field) l2 0 ++ R).
    mem_steps. mem_forget (x + field). mem_steps.
Qed.

Lemma simpleq_concat_ok m head1 head2 l1 l2 R :
  Forall (.≠ 0) l2 -> holds m (simpleq field head1 l1 ++ simpleq field head2 l2 ++ R) ->
  yields (SIMPLEQ_CONCAT head1 head2 m)
    (simpleq field head1 (l1 ++ l2) ++ simpleq field head2 [] ++ R).
Proof.
  intros Hl H. destruct Hl as [|z l2 Hz Hl]; rewrite ?app_nil_r; split_cells H.
  - mem_front H ((head2, Some 0) :: (head2 + word, Some head2) ::
      (head1 + word, Some (Last head1 l1)) :: Seg head1 l1 0 ++ R).
    mem_steps.
  - rewrite !(seg_last _ head1 l1) in *.
    mem_front H ((head2, Some z) :: (head2 + word, Some (Last (z + field) l2)) ::
      (head1 + word, Some (Last head1 l1)) :: (Last head1 l1, Some 0) ::
      Lead head1 l1 ++ Seg (z + field) l2 0 ++ R).
    mem_steps.
Qed.

(** The words of a queue that is given up. *)
Lemma simpleq_scatter m head l R :
  holds m (simpleq field head l ++ R) ->
  exists a b, holds m ((head, a) :: (head + word, b) :: (l ≫= simpleq_loose field) ++ R).
Proof.
  unfold simpleq. intros H. cbn [app] in H.
  enough (forall s R, holds m (Seg s l 0 ++ R) ->
    exists v, holds m ((s, Some v) :: (l ≫= simpleq_loose field) ++ R)) as Hs.
  { mem_front H (Seg head l 0 ++ (head + word, Some (Last head l)) :: R).
    destruct (Hs _ _ H) as [v Hv]. exists (Some v), (Some (Last head l)).
    eapply holds_proper; [|exact Hv]. solve_Permutation. }
  clear H head R. induction l as [|x l IH]; intros s R H; [by exists 0|].
  cbn [seg app] in H. mem_front H (Seg (x + field) l 0 ++ (s, Some x) :: R).
  destruct (IH _ _ H) as [v H']. exists x. clear H.
  mem_front H' ((x + field, Some v) :: (s, Some x) :: (l ≫= simpleq_loose field) ++ R).
  mem_forget (x + field). eapply holds_proper; [|exact H'].
  cbn [mbind list_bind]. unfold simpleq_loose at 1. cbn [app]. solve_Permutation.
Qed.

(** A head declared with its initialiser is an empty queue. *)
Lemma simpleq_initializer_ok head : SIMPLEQ_HEAD_INITIALIZER head ≡ₚ simpleq field head [].
Proof. apply Permutation_swap. Qed.

(** The macros do what [QueueOps] promises of them. *)
#[export] Instance simpleq_laws : QueueLaws (simpleq_impl field).
Proof.
  split.
  - intros o f head l l' out R m Hf He Hn H.
    destruct o; simpl in Hf, He; simplify_eq;
      try (apply bind_Some in He as ([l1 l2] & ->%split_at_app & He); simplify_eq);
      cbn [needs mbind list_bind app queue loose simpleq_impl] in *;
      rewrite ?app_nil_r in *.
    + destruct (simpleq_scatter _ _ _ _ H) as (a & b & H'). by eapply simpleq_init_ok.
    + apply Forall_cons in Hn as [Hx Hl]. by apply simpleq_insert_head_ok.
    + apply Forall_cons in Hn as [Hx _]. by apply simpleq_insert_tail_ok.
    + apply Forall_cons in Hn as [Hx Hl]. by apply simpleq_insert_after_ok.
    + destruct l as [|x l]; simplify_eq. by apply simpleq_remove_head_ok.
    + destruct l2 as [|x l2]; simplify_eq. by apply simpleq_remove_after_ok.
  - intros f head1 head2 l1 l2 R m [= <-] [_ Hl]%Forall_app H. by apply simpleq_concat_ok.
Qed.

(** ** Access *)

Lemma simpleq_seg m head l R :
  holds m (simpleq field head l ++ R) ->
  holds m (Seg head l 0 ++ (head + word, Some (Last head l)) :: R).
Proof. intros H. eapply holds_proper; [|exact H]. unfold simpleq. solve_Permutation. Qed.

Lemma simpleq_first_ok m head l R :
  holds m (simpleq field head l ++ R) -> SIMPLEQ_FIRST m head = Ok (default 0 (hd_error l)).
Proof. intros H%simpleq_seg. by eapply seg_first. Qed.

Lemma simpleq_next_ok m head l1 x l2 R :
  x <> 0 -> holds m (simpleq field head (l1 ++ x :: l2) ++ R) ->
  SIMPLEQ_NEXT field m x = Ok (default 0 (hd_error l2)).
Proof. intros Hx H%simpleq_seg. by eapply seg_next. Qed.

Lemma simpleq_foreach {A} (f : A -> Z -> A) fuel m head l R a :
  Forall (.≠ 0) l -> holds m (simpleq field head l ++ R) -> (length l <= fuel)%nat ->
  SIMPLEQ_FOREACH field fuel head (pure_body f) (a, m) = Ok (fold_left f l a, m)
  /\ SIMPLEQ_FOREACH_SAFE field fuel head (pure_body f) (a, m) = Ok (fold_left f l a, m).
Proof. intros Hn H%simpleq_seg. by eapply (seg_foreach field). Qed.

(** ** Theorems *)

(** Any sequence of operations on any number of simple queues and elements
    that keeps to the operations' preconditions does to the links in memory
    exactly what it does to the lists of elements, meets no fault, and leaves
    all other memory as it was. *)
Theorem simpleq_ops_refine m w os w' R :
  represents (I := simpleq_impl field) m w R -> spec_ops w os = Some w' ->
  Forall (has_macro (I := simpleq_impl field)) os ->
  exists m', run_ops (I := simpleq_impl field) os m = Ok m'
    /\ represents (I := simpleq_impl field) m' w' R.
Proof. apply run_ops_represents. Qed.

End laws.

(** ** Witnesses *)

(** Two empty queues, at 100 and 200, and three elements with their entries 24
    bytes in; the word at 300 belongs to nobody. *)
Definition two_queues : mem :=
  list_to_map [(100, 0); (108, 100); (200, 0); (208, 200); (1024, 7); (2024, 7);
               (3024, 7); (300, 5)].

Lemma simpleq_ops_refine_witness :
  exists m, run_ops (I := simpleq_impl 24) [On 100 (InsertTail 1000);
      On 100 (InsertAfter 1000 2000); On 200 (InsertHead 3000); Concat 200 100;
      On 200 (RemoveAfter 1000); On 200 RemoveHead; On 100 (InsertHead 3000)] two_queues = Ok m
    /\ represents (I := simpleq_impl 24) m
         (World {[ 100 := [3000]; 200 := [1000] ]} [2000]) [(300, Some 5)].
Proof.
  apply (simpleq_ops_refine 24 two_queues
    (World {[ 100 := []; 200 := [] ]} [1000; 2000; 3000])).
  - apply (bool_decide_unpack _). vm_compute. exact I.
  - vm_compute. reflexivity.
  - repeat constructor.
Defined.

End SimpleQ.
