(* ===== verification/STailQ.v ===== *)
(** * Singly-linked tail queues ([queue.h])

    The [STAILQ] macros: the words of a simple queue, with removal of any
    element and access to the last one. [STAILQ_INSERT_AFTER] does not insert
    ([stailq_insert_after_lost]), so it is not among the operations of the
    refinement. *)

From S2P Require Import Prelude QueueMem QueueOps SimpleQ.

Module STailQ.
Import QueueMem QueueOps SimpleQ.

(** ** Heads and entries *)

Definition stqh_first (head : Z) : Z := head.
Definition stqh_last (head : Z) : Z := head + word.

(** The words of a head that is initialised where it is declared. *)
Definition STAILQ_HEAD_INITIALIZER (head : Z) : list cell :=
  [(stqh_first head, Some 0); (stqh_last head, Some (stqh_first head))].

Section macros.
Context (field : Z).

Definition stqe_next (elm : Z) : res Z := member elm field.

(** ** Access *)

Definition STAILQ_FIRST (m : mem) (head : Z) : res Z := ldw m (stqh_first head).
Definition STAILQ_END : Z := 0.
Definition STAILQ_EMPTY (m : mem) (head : Z) : res bool :=
  first ← STAILQ_FIRST m head; mret (first =? STAILQ_END).
Definition STAILQ_NEXT (m : mem) (elm : Z) : res Z := a ← stqe_next elm; ldw m a.

(** The last link less the offset of the entry in its structure. *)
Definition STAILQ_LAST (m : mem) (head : Z) : res Z :=
  empty ← STAILQ_EMPTY m head;
  if (empty : bool) then mret 0
  else last ← ldw m (stqh_last head); mret (last - field).

Definition STAILQ_FOREACH {A} (fuel : nat) (head : Z)
    (body : Z -> A * mem -> res (A * mem)) (s : A * mem) : res (A * mem) :=
  first ← STAILQ_FIRST s.2 head;
  for_each STAILQ_NEXT body fuel first s.

Definition STAILQ_FOREACH_SAFE {A} (fuel : nat) (head : Z)
    (body : Z -> A * mem -> res (A * mem)) (s : A * mem) : res (A * mem) :=
  first ← STAILQ_FIRST s.2 head;
  for_each_safe STAILQ_NEXT body fuel first s.

(** ** Functions *)

Definition STAILQ_INIT (head : Z) (m : mem) : res mem :=
  m ← stw m (stqh_first head) 0;
  stw m (stqh_last head) (stqh_first head).

Definition STAILQ_INSERT_HEAD (head elm : Z) (m : mem) : res mem :=
  elm_next ← stqe_next elm;
  first ← ldw m (stqh_first head);
  m ← stw m elm_next first;
  m ← (if first =? 0 then stw m (stqh_last head) elm_next else mret m);
  stw m (stqh_first head) elm.

Definition STAILQ_INSERT_TAIL (head elm : Z) (m : mem) : res mem :=
  elm_next ← stqe_next elm;
  m ← stw m elm_next 0;
  last ← ldw m (stqh_last head);
  m ← stw m last elm;
  stw m (stqh_last head) elm_next.

(** Every use of the element is of [elm], none of [listelm]. *)
Definition STAILQ_INSERT_AFTER (head listelm elm : Z) (m : mem) : res mem :=
  elm_next ← stqe_next elm;
  next ← STAILQ_NEXT m elm;
  m ← stw m elm_next next;
  m ← (if next =? 0 then stw m (stqh_last head) elm_next else mret m);
  stw m elm_next elm.

Definition STAILQ_REMOVE_HEAD (head : Z) (m : mem) : res mem :=
  first ← STAILQ_FIRST m head;
  next ← STAILQ_NEXT m first;
  m ← stw m (stqh_first head) next;
  if next =? 0 then stw m (stqh_last head) (stqh_first head) else mret m.

Definition STAILQ_REMOVE_AFTER (head elm : Z) (m : mem) : res mem :=
  elm_next ← stqe_next elm;
  next ← STAILQ_NEXT m elm;
  next2 ← STAILQ_NEXT m next;
  m ← stw m elm_next next2;
  if next2 =? 0 then stw m (stqh_last head) elm_next else mret m.

(** The [while] of [STAILQ_REMOVE]: walk to the element before [elm]. *)
Fixpoint stailq_search (fuel : nat) (m : mem) (curelm elm : Z) : res Z :=
  match fuel with
  | O => Err OutOfFuel
  | S fuel =>
      next ← STAILQ_NEXT m curelm;
      if next =? elm then mret curelm
      else stailq_search fuel m next elm
  end.

(** A walk longer than the number of words in memory is in a cycle. *)
Definition STAILQ_REMOVE (head elm : Z) (m : mem) : res mem :=
  first ← STAILQ_FIRST m head;
  if first =? elm then STAILQ_REMOVE_HEAD head m
  else
    curelm ← ldw m (stqh_first head);
    curelm ← stailq_search (size m) m curelm elm;
    STAILQ_REMOVE_AFTER head curelm m.

Definition STAILQ_CONCAT (head1 head2 : Z) (m : mem) : res mem :=
  empty ← STAILQ_EMPTY m head2;
  if (empty : bool) then mret m
  else
    last1 ← ldw m (stqh_last head1);
    first2 ← ldw m (stqh_first head2);
    m ← stw m last1 first2;
    last2 ← ldw m (stqh_last head2);
    m ← stw m (stqh_last head1) last2;
    STAILQ_INIT head2 m.

(** ** Representation: the words are those of a simple queue. *)

Definition stailq_macro (op : lop) : option (Z -> mem -> res mem) :=
  match op with
  | Init => Some STAILQ_INIT
  | InsertHead x => Some (fun head => STAILQ_INSERT_HEAD head x)
  | InsertTail x => Some (fun head => STAILQ_INSERT_TAIL head x)
  | RemoveHead => Some STAILQ_REMOVE_HEAD
  | RemoveAfter y => Some (fun head => STAILQ_REMOVE_AFTER head y)
  | Remove x => Some (fun head => STAILQ_REMOVE head x)
  | InsertAfter _ _ | InsertBefore _ _ | Replace _ _ => None
  end.

#[export] Instance stailq_impl : QueueImpl := {|
  queue := simpleq field;
  loose := simpleq_loose field;
  macro := stailq_macro;
  concat_macro := Some STAILQ_CONCAT
|}.

End macros.

(** ** The macros, one by one *)

Section laws.
Context (field : Z).
Implicit Types (l : list Z) (R : list cell).

Local Abbreviation Seg := (seg field).
Local Abbreviation Last := (endslot field).

Lemma stailq_first_ok m head l R :
  holds m (simpleq field head l ++ R) -> STAILQ_FIRST m head = Ok (default 0 (hd_error l)).
Proof. apply simpleq_first_ok. Qed.

Lemma stailq_next_ok m head l1 x l2 R :
  x <> 0 -> holds m (simpleq field head (l1 ++ x :: l2) ++ R) ->
  STAILQ_NEXT field m x = Ok (default 0 (hd_error l2)).
Proof. apply simpleq_next_ok. Qed.

Lemma stailq_remove_head_ok m head x l R :
  Forall (.≠ 0) (x :: l) -> holds m (simpleq field head (x :: l) ++ R) ->
  yields (STAILQ_REMOVE_HEAD field head m)
    (simpleq field head l ++ simpleq_loose field x ++ R).
Proof.
  intros Hn H. destruct (simpleq_remove_head_ok field m head x l R Hn H) as (m' & Hr & Hm').
  exists m'. split; [|done]. rewrite <- Hr. unfold STAILQ_REMOVE_HEAD, STAILQ_FIRST, STAILQ_NEXT.
  unfold SIMPLEQ_REMOVE_HEAD, stqh_first, sqh_first. destruct (ldw m head); [|done].
  cbn [mbind res_bind]. by rewrite res_bind_assoc.
Qed.

Lemma stailq_remove_after_ok m head l1 y x l2 R :
  Forall (.≠ 0) (l1 ++ y :: x :: l2) -> holds m (simpleq field head (l1 ++ y :: x :: l2) ++ R) ->
  yields (STAILQ_REMOVE_AFTER field head y m)
    (simpleq field head (l1 ++ y :: l2) ++ simpleq_loose field x ++ R).
Proof.
  intros Hn H.
  destruct (simpleq_remove_after_ok field m head l1 y x l2 R Hn H) as (m' & Hr & Hm').
  exists m'. split; [|done]. rewrite <- Hr.
  unfold STAILQ_REMOVE_AFTER, STAILQ_NEXT, SIMPLEQ_REMOVE_AFTER, stqe_next, sqe_next.
  destruct (member y field) as [a|] eqn:Ha; [|done]. cbn [mbind res_bind].
  destruct (ldw m a); [|done]. cbn [mbind res_bind]. by rewrite res_bind_assoc.
Qed.

(** The walk of [STAILQ_REMOVE] ends at the element before the one removed. *)
Lemma stailq_search_ok m head d l1 y x l2 R fuel :
  Forall (.≠ 0) (d ++ l1 ++ [y]) -> x ∉ l1 ++ [y] -> (length l1 < fuel)%nat ->
  holds m (simpleq field head (d ++ l1 ++ y :: x :: l2) ++ R) ->
  stailq_search field fuel m (default y (hd_error l1)) x = Ok y.
Proof.
  revert d fuel. induction l1 as [|z l1 IH]; intros d fuel Hn Hx Hf H;
    destruct fuel as [|fuel]; simpl in Hf; try lia; cbn [stailq_search hd_error from_option].
  - rewrite (stailq_next_ok m head d y (x :: l2) R); [|by apply Forall_app in Hn as
      [_ [? _]%Forall_cons]|done].
    cbn. by rewrite Z.eqb_refl.
  - change (id z) with z. apply not_elem_of_cons in Hx as [_ Hx].
    rewrite (stailq_next_ok m head d z (l1 ++ y :: x :: l2) R); [|by apply Forall_app in Hn as
      [_ [? _]%Forall_cons]|done].
    cbn [mbind res_bind].
    assert (default 0 (hd_error (l1 ++ y :: x :: l2)) = default y (hd_error l1)) as ->
      by by destruct l1.
    rewrite (proj2 (Z.eqb_neq _ _)).
    + apply (IH (d ++ [z]) fuel); [by rewrite <- app_assoc|done|lia|by rewrite <- app_assoc].
    + intros Hh. apply Hx. destruct l1; simpl in Hh; subst; apply list_elem_of_here.
Qed.

Lemma split_at_first x l l1 l2 : split_at x l = Some (l1, l2) -> x ∉ l1.
Proof.
  revert l1 l2. induction l as [|y l IH]; intros l1 l2; simpl; [done|].
  case_decide as Hd; [intros; simplify_eq; apply not_elem_of_nil|].
  intros ([k1 k2] & Hk & ?)%bind_Some. simplify_eq. apply not_elem_of_cons.
  split; [congruence|]. by eapply IH.
Qed.

Lemma stailq_remove_ok m head l1 x l2 R :
  Forall (.≠ 0) (l1 ++ x :: l2) -> x ∉ l1 -> holds m (simpleq field head (l1 ++ x :: l2) ++ R) ->
  yields (STAILQ_REMOVE field head x m)
    (simpleq field head (l1 ++ l2) ++ simpleq_loose field x ++ R).
Proof.
  intros Hn Hx H. unfold STAILQ_REMOVE. rewrite (stailq_first_ok _ _ _ _ H).
  cbn [mbind res_bind]. destruct l1 as [|y l1 _] using rev_ind.
  { cbn. rewrite Z.eqb_refl. by apply stailq_remove_head_ok. }
  pose proof (stailq_first_ok _ _ _ _ H) as Hfirst. unfold STAILQ_FIRST in Hfirst.
  replace ((l1 ++ [y]) ++ l2) with (l1 ++ y :: l2) by by rewrite <- app_assoc.
  rewrite <- app_assoc in *. cbn [app] in *.
  assert (default 0 (hd_error (l1 ++ y :: x :: l2)) = default y (hd_error l1)) as Hh
    by by destruct l1.
  rewrite Hh in *. rewrite (proj2 (Z.eqb_neq _ _)).
  - rewrite Hfirst. cbn [mbind res_bind].
    rewrite (stailq_search_ok m head [] l1 y x l2 R).
    + cbn [mbind res_bind]. by apply stailq_remove_after_ok.
    + simpl. rewrite (cons_middle y), app_assoc in Hn. by apply Forall_app in Hn as [? _].
    + done.
    + apply holds_app_l, holds_size in H. unfold simpleq in H.
      rewrite length_cons, length_seg, length_app in H. simpl in H. lia.
    + done.
  - intros Hd. apply Hx, elem_of_app. destruct l1; simpl in Hd; subst; [right|left];
      apply list_elem_of_here.
Qed.

(** A head declared with its initialiser is an empty queue. *)
Lemma stailq_initializer_ok head : STAILQ_HEAD_INITIALIZER head ≡ₚ simpleq field head [].
Proof. apply Permutation_swap. Qed.

(** The macros do what [QueueOps] promises of them. *)
#[export] Instance stailq_laws : QueueLaws (stailq_impl field).
Proof.
  split.
  - intros o f head l l' out R m Hf He Hn H.
    destruct o as [|x|x| | | |y|x|]; simpl in Hf; simplify_eq.
    + by apply (macro_ok (I := simpleq_impl field) Init _ head l l' out R m eq_refl).
    + by apply (macro_ok (I := simpleq_impl field) (InsertHead x) _ head l l' out R m eq_refl).
    + by apply (macro_ok (I := simpleq_impl field) (InsertTail x) _ head l l' out R m eq_refl).
    + simpl in *. destruct l as [|x l]; simplify_eq. simpl. by apply stailq_remove_head_ok.
    + simpl in *. apply bind_Some in He as ([l1 l2] & ->%split_at_app & He).
      destruct l2 as [|x l2]; simplify_eq. simpl. by apply stailq_remove_after_ok.
    + simpl in *. apply bind_Some in He as ([l1 l2] & Hs & He). simplify_eq.
      pose proof (split_at_first _ _ _ _ Hs) as Hx. apply split_at_app in Hs as ->. simpl.
      by apply stailq_remove_ok.
  - intros f head1 head2 l1 l2 R m [= <-] Hn H.
    by apply (concat_macro_ok (I := simpleq_impl field) _ head1 head2 l1 l2 R m eq_refl).
Qed.

Lemma stailq_foreach {A} (f : A -> Z -> A) fuel m head l R a :
  Forall (.≠ 0) l -> holds m (Seg head l 0 ++ R) -> (length l <= fuel)%nat ->
  STAILQ_FOREACH field fuel head (pure_body f) (a, m) = Ok (fold_left f l a, m)
  /\ STAILQ_FOREACH_SAFE field fuel head (pure_body f) (a, m) = Ok (fold_left f l a, m).
Proof. apply (seg_foreach field). Qed.

Lemma stailq_last_ok m head l R :
  holds m (simpleq field head l ++ R) -> Forall (.≠ 0) l ->
  STAILQ_LAST field m head = Ok (default 0 (last l)).
Proof.
  intros H Hn. unfold STAILQ_LAST, STAILQ_EMPTY. rewrite (stailq_first_ok _ _ _ _ H).
  cbn [mbind res_bind mret res_ret]. unfold STAILQ_END. destruct l as [|x l' _] using rev_ind; [done|].
  rewrite last_snoc.
  assert (default 0 (hd_error (l' ++ [x])) <> 0) as Hne.
  { destruct l'; simpl; [by apply Forall_cons in Hn as [? _]|].
    by apply Forall_cons in Hn as [? _]. }
  rewrite (proj2 (Z.eqb_neq _ _) Hne). unfold stqh_last, simpleq in *.
  rewrite endslot_app in H. cbn [endslot app] in H. mem_loads.
  simpl. f_equal. unfold id. lia.
Qed.

(** ** Theorems *)

(** Any sequence of operations on any number of singly-linked tail queues
    and elements, [STAILQ_INSERT_AFTER] excepted, that keeps to the operations'
    preconditions does to the links in memory exactly what it does to the lists
    of elements, meets no fault (the search of [STAILQ_REMOVE] ends), and leaves
    all other memory as it was. *)
Theorem stailq_ops_refine m w os w' R :
  represents (I := stailq_impl field) m w R -> spec_ops w os = Some w' ->
  Forall (has_macro (I := stailq_impl field)) os ->
  exists m', run_ops (I := stailq_impl field) os m = Ok m'
    /\ represents (I := stailq_impl field) m' w' R.
Proof. apply run_ops_represents. Qed.

(** [STAILQ_INSERT_AFTER] inserts nothing, whatever the element to insert
    after: the queue has the elements it had, the new element is linked to
    itself, and if its link was null before, the address of the last link is now
    that of the new element, so that an element inserted at the tail next is
    lost as well. *)
Theorem stailq_insert_after_lost m head l listelm elm v R :
  elm <> 0 -> Forall (.≠ 0) l ->
  holds m (simpleq field head l ++ (elm + field, Some v) :: R) ->
  exists m', STAILQ_INSERT_AFTER field head listelm elm m = Ok m'
    /\ holds m' ((head + word, Some (if v =? 0 then elm + field else endslot field head l))
         :: seg field head l 0 ++ (elm + field, Some elm) :: R)
    /\ (forall A (f : A -> Z -> A) a,
          STAILQ_FOREACH field (length l) head (pure_body f) (a, m') = Ok (fold_left f l a, m'))
    /\ (v = 0 -> forall x R', x <> 0 -> R = simpleq_loose field x ++ R' ->
          exists m2, STAILQ_INSERT_TAIL field head x m' = Ok m2
            /\ forall A (f : A -> Z -> A) a,
                 STAILQ_FOREACH field (length l) head (pure_body f) (a, m2)
                   = Ok (fold_left f l a, m2)).
Proof.
  intros Hx Hn H. unfold simpleq in H. rewrite <- app_comm_cons in H.
  mem_front H ((elm + field, Some v) :: (head + word, Some (Last head l)) :: Seg head l 0 ++ R).
  assert (yields (STAILQ_INSERT_AFTER field head listelm elm m)
    ((head + word, Some (if v =? 0 then elm + field else Last head l))
       :: Seg head l 0 ++ (elm + field, Some elm) :: R)) as (m' & -> & Hm').
  { unfold STAILQ_INSERT_AFTER, STAILQ_NEXT, stqe_next, stqh_last.
    destruct (Z.eqb_spec v 0) as [->|Hv]; mem_steps. }
  exists m'. split; [done|]. split; [done|]. split.
  { intros A f a. eapply (stailq_foreach _ _ _ _ _ ((head + word, Some _) :: (elm + field, Some elm) :: R));
      [done| |lia].
    eapply holds_proper; [|exact Hm']. solve_Permutation. }
  intros -> x R' Hx' ->. unfold simpleq_loose in *. cbn [Z.eqb app] in Hm'.
  mem_front Hm' ((head + word, Some (elm + field)) :: (x + field, None) ::
    (elm + field, Some elm) :: Seg head l 0 ++ R').
  assert (yields (STAILQ_INSERT_TAIL field head x m')
    (Seg head l 0 ++ (head + word, Some (x + field)) :: (x + field, Some 0) ::
       (elm + field, Some x) :: R')) as (m2 & -> & Hm2).
  { unfold STAILQ_INSERT_TAIL, stqe_next, stqh_last. mem_steps. }
  exists m2. split; [done|]. intros A f a. eapply stailq_foreach; [done|exact Hm2|lia].
Qed.

End laws.

(** ** Witnesses *)

Lemma stailq_ops_refine_witness :
  exists m, run_ops (I := stailq_impl 24) [On 100 (InsertTail 1000); On 100 (InsertTail 2000);
      On 200 (InsertHead 3000); Concat 200 100; On 200 (Remove 2000); On 200 (RemoveAfter 3000);
      On 100 (InsertHead 2000)] two_queues = Ok m
    /\ represents (I := stailq_impl 24) m
         (World {[ 100 := [2000]; 200 := [3000] ]} [1000]) [(300, Some 5)].
Proof.
  apply (stailq_ops_refine 24 two_queues
    (World {[ 100 := []; 200 := [] ]} [1000; 2000; 3000])).
  - apply (bool_decide_unpack _). vm_compute. exact I.
  - vm_compute. reflexivity.
  - repeat constructor.
Defined.

(** A queue of one element, 1000, and two more elements. *)
Definition one_element : mem :=
  list_to_map [(100, 1000); (108, 1024); (1024, 0); (2024, 0); (3024, 9)].

Lemma stailq_insert_after_lost_witness :
  exists m, STAILQ_INSERT_AFTER 24 100 1000 2000 one_element = Ok m
    /\ (forall a, STAILQ_FOREACH 24 1 100 (pure_body (fun acc x => acc ++ [x])) (a, m)
                    = Ok (a ++ [1000], m))
    /\ exists m2, STAILQ_INSERT_TAIL 24 100 3000 m = Ok m2
         /\ STAILQ_FOREACH 24 1 100 (pure_body (fun acc x => acc ++ [x])) ([], m2)
              = Ok ([1000], m2).
Proof.
  assert (holds one_element (simpleq 24 100 [1000] ++ (2000 + 24, Some 0)
    :: simpleq_loose 24 3000 ++ [])) as H
    by (apply (bool_decide_unpack _); vm_compute; exact I).
  destruct (stailq_insert_after_lost 24 one_element 100 [1000] 1000 2000 0 _
    ltac:(lia) ltac:(repeat constructor; lia) H) as (m & Hm & _ & Hf & Hlost).
  exists m. split; [exact Hm|]. split.
  - intros a. exact (Hf _ (fun acc x => acc ++ [x]) a).
  - destruct (Hlost eq_refl 3000 [] ltac:(lia) eq_refl) as (m2 & Hm2 & Hf2).
    exists m2. split; [exact Hm2|]. exact (Hf2 _ (fun acc x => acc ++ [x]) []).
Defined.

End STailQ.
