(* ===== verification/XSimpleQ.v ===== *)
(** * XOR simple queues ([queue.h])

    The [XSIMPLEQ] macros: a simple queue whose pointers are kept in memory
    exclusive-ored with a cookie of the head. The cookie comes from
    [arc4random_buf], so [XSIMPLEQ_INIT] has it as an argument; the theorems hold
    for any cookies. *)

From S2P Require Import Prelude QueueMem QueueOps SimpleQ.

Module XSimpleQ.
Import QueueMem QueueOps SimpleQ.

(** ** Heads and entries *)

(** [XSIMPLEQ_HEAD(name, type)] at [head], [XSIMPLEQ_ENTRY(type)] as the member
    [field] of the structure at [elm]. *)
Definition sqx_first (head : Z) : Z := head.
Definition sqx_last (head : Z) : Z := head + word.
Definition sqx_cookie (head : Z) : Z := head + word + word.

Section macros.
Context (field : Z).

Definition sqx_next (elm : Z) : res Z := member elm field.

(** ** Access *)

Definition XSIMPLEQ_XOR (m : mem) (head ptr : Z) : res Z :=
  cookie ← ldw m (sqx_cookie head); mret (Z.lxor cookie ptr).

Definition XSIMPLEQ_FIRST (m : mem) (head : Z) : res Z :=
  first ← ldw m (sqx_first head); XSIMPLEQ_XOR m head first.
Definition XSIMPLEQ_END : Z := 0.
Definition XSIMPLEQ_EMPTY (m : mem) (head : Z) : res bool :=
  first ← XSIMPLEQ_FIRST m head; mret (first =? XSIMPLEQ_END).
Definition XSIMPLEQ_NEXT (head : Z) (m : mem) (elm : Z) : res Z :=
  a ← sqx_next elm; next ← ldw m a; XSIMPLEQ_XOR m head next.

Definition XSIMPLEQ_FOREACH {A} (fuel : nat) (head : Z)
    (body : Z -> A * mem -> res (A * mem)) (s : A * mem) : res (A * mem) :=
  first ← XSIMPLEQ_FIRST s.2 head;
  for_each (XSIMPLEQ_NEXT head) body fuel first s.

Definition XSIMPLEQ_FOREACH_SAFE {A} (fuel : nat) (head : Z)
    (body : Z -> A * mem -> res (A * mem)) (s : A * mem) : res (A * mem) :=
  first ← XSIMPLEQ_FIRST s.2 head;
  for_each_safe (XSIMPLEQ_NEXT head) body fuel first s.

(** ** Functions *)

Definition XSIMPLEQ_INIT (cookie head : Z) (m : mem) : res mem :=
  m ← stw m (sqx_cookie head) cookie;
  null ← XSIMPLEQ_XOR m head 0;
  m ← stw m (sqx_first head) null;
  last ← XSIMPLEQ_XOR m head (sqx_first head);
  stw m (sqx_last head) last.

Definition XSIMPLEQ_INSERT_HEAD (head elm : Z) (m : mem) : res mem :=
  elm_next ← sqx_next elm;
  first ← ldw m (sqx_first head);
  m ← stw m elm_next first;
  null ← XSIMPLEQ_XOR m head 0;
  m ← (if first =? null then
         last ← XSIMPLEQ_XOR m head elm_next; stw m (sqx_last head) last
       else mret m);
  first ← XSIMPLEQ_XOR m head elm;
  stw m (sqx_first head) first.

Definition XSIMPLEQ_INSERT_TAIL (head elm : Z) (m : mem) : res mem :=
  elm_next ← sqx_next elm;
  null ← XSIMPLEQ_XOR m head 0;
  m ← stw m elm_next null;
  last ← ldw m (sqx_last head);
  last ← XSIMPLEQ_XOR m head last;
  x ← XSIMPLEQ_XOR m head elm;
  m ← stw m last x;
  last ← XSIMPLEQ_XOR m head elm_next;
  stw m (sqx_last head) last.

Definition XSIMPLEQ_INSERT_AFTER (head listelm elm : Z) (m : mem) : res mem :=
  elm_next ← sqx_next elm;
  listelm_next ← sqx_next listelm;
  next ← ldw m listelm_next;
  m ← stw m elm_next next;
  null ← XSIMPLEQ_XOR m head 0;
  m ← (if next =? null then
         last ← XSIMPLEQ_XOR m head elm_next; stw m (sqx_last head) last
       else mret m);
  x ← XSIMPLEQ_XOR m head elm;
  stw m listelm_next x.

Definition XSIMPLEQ_REMOVE_HEAD (head : Z) (m : mem) : res mem :=
  first ← ldw m (sqx_first head);
  first ← XSIMPLEQ_XOR m head first;
  first_next ← sqx_next first;
  next ← ldw m first_next;
  m ← stw m (sqx_first head) next;
  null ← XSIMPLEQ_XOR m head 0;
  if next =? null then
    last ← XSIMPLEQ_XOR m head (sqx_first head); stw m (sqx_last head) last
  else mret m.

Definition XSIMPLEQ_REMOVE_AFTER (head elm : Z) (m : mem) : res mem :=
  elm_next ← sqx_next elm;
  next ← ldw m elm_next;
  next ← XSIMPLEQ_XOR m head next;
  next_next ← sqx_next next;
  next2 ← ldw m next_next;
  m ← stw m elm_next next2;
  null ← XSIMPLEQ_XOR m head 0;
  if next2 =? null then
    last ← XSIMPLEQ_XOR m head elm_next; stw m (sqx_last head) last
  else mret m.

(** ** Representation *)

(** The words of a simple queue, encoded with a cookie. *)
Definition enc (cookie : Z) (cs : list cell) : list cell :=
  (fun c : cell => (c.1, Z.lxor cookie <$> c.2)) <$> cs.

(** [cookies] gives the cookie of each head. *)
Definition xsimpleq (cookies : Z -> Z) (head : Z) (l : list Z) : list cell :=
  (sqx_cookie head, Some (cookies head)) :: enc (cookies head) (simpleq field head l).

Definition xsimpleq_macro (op : lop) : option (Z -> mem -> res mem) :=
  match op with
  | InsertHead x => Some (fun head => XSIMPLEQ_INSERT_HEAD head x)
  | InsertTail x => Some (fun head => XSIMPLEQ_INSERT_TAIL head x)
  | InsertAfter y x => Some (fun head => XSIMPLEQ_INSERT_AFTER head y x)
  | RemoveHead => Some XSIMPLEQ_REMOVE_HEAD
  | RemoveAfter y => Some (fun head => XSIMPLEQ_REMOVE_AFTER head y)
  | Init | InsertBefore _ _ | Remove _ | Replace _ _ => None
  end.

#[export] Instance xsimpleq_impl (cookies : Z -> Z) : QueueImpl := {|
  queue := xsimpleq cookies;
  loose := simpleq_loose field;
  macro := xsimpleq_macro;
  concat_macro := None
|}.

End macros.

(** ** Encoding *)

Lemma lxor_cancel c v : Z.lxor c (Z.lxor c v) = v.
Proof. by rewrite <- Z.lxor_assoc, Z.lxor_nilpotent, Z.lxor_0_l. Qed.

Lemma lxor_eqb c v : (Z.lxor c v =? Z.lxor c 0) = (v =? 0).
Proof.
  apply eq_true_iff_eq. rewrite !Z.eqb_eq. split; [|by intros ->].
  intros Hv. rewrite <- (lxor_cancel c v), Hv. apply lxor_cancel.
Qed.

Lemma enc_app c cs cs' : enc c (cs ++ cs') = enc c cs ++ enc c cs'.
Proof. apply fmap_app. Qed.

Lemma enc_cons c a v cs : enc c ((a, Some v) :: cs) = (a, Some (Z.lxor c v)) :: enc c cs.
Proof. done. Qed.

(** ** The macros, one by one *)

Section laws.
Context (field : Z) (cookies : Z -> Z).
Implicit Types (l : list Z) (R : list cell).

Local Abbreviation Seg := (seg field).
Local Abbreviation Lead := (lead field).
Local Abbreviation Last := (endslot field).

Ltac unfold_macros :=
  unfold XSIMPLEQ_INIT, XSIMPLEQ_INSERT_HEAD, XSIMPLEQ_INSERT_TAIL, XSIMPLEQ_INSERT_AFTER,
    XSIMPLEQ_REMOVE_HEAD, XSIMPLEQ_REMOVE_AFTER, XSIMPLEQ_FIRST, XSIMPLEQ_NEXT, XSIMPLEQ_XOR,
    sqx_next.

Ltac split_cells H :=
  unfold xsimpleq, simpleq, simpleq_loose, sqx_cookie, sqx_first, sqx_last in *; unfold_macros;
  unfold sqx_cookie, sqx_first, sqx_last;
  rewrite ?seg_app, ?endslot_app in *; cbn [seg endslot app] in *;
  rewrite ?seg_app, ?endslot_app in *; cbn [seg endslot app] in *;
  repeat (rewrite ?enc_app, ?enc_cons in *; cbn [app] in *).

(** A step, decoding what was loaded. *)
Ltac xmem_step := first [rewrite lxor_eqb | rewrite lxor_cancel | mem_step].
Ltac xmem_steps := repeat xmem_step.

Lemma xsimpleq_init_ok m head cookie R a b c :
  cookies head = cookie ->
  holds m ((head, a) :: (head + word, b) :: (sqx_cookie head, c) :: R) ->
  yields (XSIMPLEQ_INIT cookie head m) (xsimpleq field cookies head [] ++ R).
Proof. intros <- H. split_cells H. xmem_steps. Qed.

Lemma xsimpleq_insert_head_ok m head l x R :
  Forall (.≠ 0) l -> x <> 0 ->
  holds m (xsimpleq field cookies head l ++ simpleq_loose field x ++ R) ->
  yields (XSIMPLEQ_INSERT_HEAD field head x m) (xsimpleq field cookies head (x :: l) ++ R).
Proof.
  set (c := cookies head). intros Hl Hx H. destruct Hl as [|y l Hy Hl]; split_cells H.
  - fold c in H |- *. mem_front H ((head, Some (Z.lxor c 0)) :: (x + field, None) ::
      (head + word, Some (Z.lxor c head)) :: (head + word + word, Some c) :: R).
    xmem_steps.
  - fold c in H |- *. mem_front H ((head, Some (Z.lxor c y)) :: (x + field, None) ::
      (head + word, Some (Z.lxor c (Last (y + field) l))) ::
      (head + word + word, Some c) :: enc c (Seg (y + field) l 0) ++ R).
    xmem_steps.
Qed.

Lemma xsimpleq_insert_tail_ok m head l x R :
  x <> 0 -> holds m (xsimpleq field cookies head l ++ simpleq_loose field x ++ R) ->
  yields (XSIMPLEQ_INSERT_TAIL field head x m) (xsimpleq field cookies head (l ++ [x]) ++ R).
Proof.
  set (c := cookies head). intros Hx H. split_cells H. rewrite !seg_last in *.
  rewrite !enc_app in *. fold c in H |- *.
  mem_front H ((head + word, Some (Z.lxor c (Last head l))) ::
    (Last head l, Some (Z.lxor c 0)) :: (x + field, None) :: (head + word + word, Some c) ::
    enc c (Lead head l) ++ R).
  xmem_steps.
Qed.

Lemma xsimpleq_insert_after_ok m head l1 y l2 x R :
  Forall (.≠ 0) (l1 ++ y :: l2) -> x <> 0 ->
  holds m (xsimpleq field cookies head (l1 ++ y :: l2) ++ simpleq_loose field x ++ R) ->
  yields (XSIMPLEQ_INSERT_AFTER field head y x m)
    (xsimpleq field cookies head (l1 ++ y :: x :: l2) ++ R).
Proof.
  set (c := cookies head).
  intros [_ Hl]%Forall_app Hx H. inversion Hl as [|? ? Hy Hl2]; subst.
  destruct Hl2 as [|z l2 Hz Hl2]; split_cells H; fold c in H |- *.
  - mem_front H ((y + field, Some (Z.lxor c 0)) :: (x + field, None) ::
      (head + word, Some (Z.lxor c (y + field))) :: (head + word + word, Some c) ::
      enc c (Seg head l1 y) ++ R).
    xmem_steps.
  - mem_front H ((y + field, Some (Z.lxor c z)) :: (x + field, None) ::
      (head + word, Some (Z.lxor c (Last (z + field) l2))) ::
      (head + word + word, Some c) :: enc c (Seg head l1 y) ++
      enc c (Seg (z + field) l2 0) ++ R).
    xmem_steps.
Qed.

Lemma xsimpleq_remove_head_ok m head x l R :
  Forall (.≠ 0) (x :: l) -> holds m (xsimpleq field cookies head (x :: l) ++ R) ->
  yields (XSIMPLEQ_REMOVE_HEAD field head m)
    (xsimpleq field cookies head l ++ simpleq_loose field x ++ R).
Proof.
  set (c := cookies head). intros [Hx Hl]%Forall_cons H.
  destruct Hl as [|z l Hz Hl]; split_cells H; fold c in H |- *.
  - mem_front H ((x + field, Some (Z.lxor c 0)) :: (head, Some (Z.lxor c x)) ::
      (head + word, Some (Z.lxor c (x + field))) :: (head + word + word, Some c) :: R).
    xmem_steps. mem_forget (x + field). xmem_steps.
  - mem_front H ((x + field, Some (Z.lxor c z)) :: (head, Some (Z.lxor c x)) ::
      (head + word, Some (Z.lxor c (Last (z + field) l))) :: (head + word + word, Some c) ::
      enc c (Seg (z + field) l 0) ++ R).
    xmem_steps. mem_forget (x + field). xmem_steps.
Qed.

Lemma xsimpleq_remove_after_ok m head l1 y x l2 R :
  Forall (.≠ 0) (l1 ++ y :: x :: l2) ->
  holds m (xsimpleq field cookies head (l1 ++ y :: x :: l2) ++ R) ->
  yields (XSIMPLEQ_REMOVE_AFTER field head y m)
    (xsimpleq field cookies head (l1 ++ y :: l2) ++ simpleq_loose field x ++ R).
Proof.
  set (c := cookies head).
  intros [_ Hl]%Forall_app H. apply Forall_cons in Hl as [Hy [Hx Hl]%Forall_cons].
  destruct Hl as [|z l2 Hz Hl]; split_cells H; fold c in H |- *.
  - mem_front H ((y + field, Some (Z.lxor c x)) :: (x + field, Some (Z.lxor c 0)) ::
      (head + word, Some (Z.lxor c (x + field))) :: (head + word + word, Some c) ::
      enc c (Seg head l1 y) ++ R).
    xmem_steps. mem_forget (x + field). xmem_steps.
  - mem_front H ((y + field, Some (Z.lxor c x)) :: (x + field, Some (Z.lxor c z)) ::
      (head + word, Some (Z.lxor c (Last (z + field) l2))) :: (head + word + word, Some c) ::
      enc c (Seg head l1 y) ++ enc c (Seg (z + field) l2 0) ++ R).
    xmem_steps. mem_forget (x + field). xmem_steps.
Qed.

(** The macros do what [QueueOps] promises of them. *)
#[export] Instance xsimpleq_laws : QueueLaws (xsimpleq_impl field cookies).
Proof.
  split; [|done].
  intros o f head l l' out R m Hf He Hn H.
  destruct o; simpl in Hf, He; simplify_eq;
    try (apply bind_Some in He as ([l1 l2] & ->%split_at_app & He); simplify_eq);
    cbn [needs mbind list_bind app queue loose xsimpleq_impl] in *;
    rewrite ?app_nil_r in *.
  - apply Forall_cons in Hn as [Hx Hl]. by apply xsimpleq_insert_head_ok.
  - apply Forall_cons in Hn as [Hx _]. by apply xsimpleq_insert_tail_ok.
  - apply Forall_cons in Hn as [Hx Hl]. by apply xsimpleq_insert_after_ok.
  - destruct l as [|x l]; simplify_eq. by apply xsimpleq_remove_head_ok.
  - destruct l2 as [|x l2]; simplify_eq. by apply xsimpleq_remove_after_ok.
Qed.

(** ** Access *)

Lemma xsimpleq_cell m head l R a v :
  holds m (xsimpleq field cookies head l ++ R) -> (a, Some v) ∈ simpleq field head l ->
  ldw m a = Ok (Z.lxor (cookies head) v).
Proof.
  intros H Hin. apply (ldw_in _ _ _ _ H), elem_of_app. left. apply elem_of_cons. right.
  change (a, Some (Z.lxor (cookies head) v)) with
    ((fun c : cell => (c.1, Z.lxor (cookies head) <$> c.2)) (a, Some v)).
  by apply list_elem_of_fmap_2.
Qed.

Lemma xsimpleq_cookie m head l R :
  holds m (xsimpleq field cookies head l ++ R) -> ldw m (sqx_cookie head) = Ok (cookies head).
Proof. intros H. by apply (ldw_holds _ _ 0 _ _ H). Qed.

Lemma xsimpleq_foreach {A} (f : A -> Z -> A) fuel m head l R a :
  Forall (.≠ 0) l -> holds m (xsimpleq field cookies head l ++ R) -> (length l <= fuel)%nat ->
  XSIMPLEQ_FOREACH field fuel head (pure_body f) (a, m) = Ok (fold_left f l a, m).
Proof.
  intros Hn H Hf. unfold XSIMPLEQ_FOREACH, XSIMPLEQ_FIRST, XSIMPLEQ_XOR, sqx_first. cbn [snd].
  rewrite (xsimpleq_cell m head l R head (default 0 (hd_error l)) H),
    (xsimpleq_cookie m head l R H).
  - cbn [mbind res_bind mret res_ret]. rewrite lxor_cancel. apply for_each_pure; [done|done|].
    intros l1 x l2 ->. unfold XSIMPLEQ_NEXT, XSIMPLEQ_XOR, sqx_next.
    rewrite member_ok by (by apply Forall_app in Hn as [_ [? _]%Forall_cons]).
    cbn [mbind res_bind].
    rewrite (xsimpleq_cell m head _ R (x + field) (default 0 (hd_error l2)) H),
      (xsimpleq_cookie m head _ R H).
    + cbn [mbind res_bind mret res_ret]. by rewrite lxor_cancel.
    + apply elem_of_cons. right. rewrite seg_app. apply elem_of_app. right.
      destruct l2; apply list_elem_of_here.
  - apply elem_of_cons. right. destruct l; apply list_elem_of_here.
Qed.

(** ** Theorems *)

(** C24: XOR simple queues are simple queues: the same sequence of operations on
    a memory with simple queues and on one with the same queues encoded, each
    with a cookie of its own, succeeds on both and leaves memories that agree:
    every word of every queue is in the one the word of the other exclusive-ored
    with the cookie, and iterating over a queue gives the same elements. *)
Theorem xsimpleq_equiv m mx w os w' R Rx :
  represents (I := simpleq_impl field) m w R ->
  represents (I := xsimpleq_impl field cookies) mx w Rx ->
  spec_ops w os = Some w' -> Forall (has_macro (I := xsimpleq_impl field cookies)) os ->
  exists m' mx',
    run_ops (I := simpleq_impl field) os m = Ok m'
    /\ run_ops (I := xsimpleq_impl field cookies) os mx = Ok mx'
    /\ forall head l, queues w' !! head = Some l ->
         (forall a v, (a, Some v) ∈ simpleq field head l ->
            ldw m' a = Ok v /\ ldw mx' a = Ok (Z.lxor (cookies head) v))
         /\ forall A (f : A -> Z -> A) fuel a, (length l <= fuel)%nat ->
              SIMPLEQ_FOREACH field fuel head (pure_body f) (a, m')
                = Ok (fold_left f l a, m')
              /\ XSIMPLEQ_FOREACH field fuel head (pure_body f) (a, mx')
                = Ok (fold_left f l a, mx').
Proof.
  intros Hm Hmx Hw Hos.
  assert (Forall (has_macro (I := simpleq_impl field)) os) as Hos'.
  { eapply Forall_impl; [done|]. by intros [? []|]. }
  destruct (run_ops_represents (I := simpleq_impl field) m w os w' R Hm Hw Hos')
    as (m' & Hr & Hm').
  destruct (run_ops_represents (I := xsimpleq_impl field cookies) mx w os w' Rx Hmx Hw Hos)
    as (mx' & Hrx & Hmx').
  exists m', mx'. split; [done|]. split; [done|]. intros head l Hl.
  destruct (represents_queue (I := simpleq_impl field) m' w' R head l Hm' Hl)
    as (R1 & Hn & H1).
  destruct (represents_queue (I := xsimpleq_impl field cookies) mx' w' Rx head l Hmx' Hl)
    as (R2 & _ & H2).
  cbn [queue simpleq_impl xsimpleq_impl] in H1, H2. split.
  - intros a v Hin. split; [|by eapply xsimpleq_cell].
    apply (ldw_in _ _ _ _ H1), elem_of_app. by left.
  - intros A f fuel a Hf. split; [|by eapply xsimpleq_foreach].
    apply simpleq_seg in H1. by eapply (seg_foreach field f).
Qed.

End laws.

(** ** Witnesses *)

(** The queues of [SimpleQ.two_queues] with the cookies 55 and 77. *)
Definition two_cookies (head : Z) : Z := if head =? 100 then 55 else 77.

Definition two_xqueues : mem :=
  list_to_map [(100, 55); (108, Z.lxor 55 100); (116, 55); (200, 77); (208, Z.lxor 77 200);
               (216, 77); (1024, 7); (2024, 7); (3024, 7)].

Lemma xsimpleq_equiv_witness :
  exists m mx,
    run_ops (I := simpleq_impl 24) [On 100 (InsertTail 1000); On 100 (InsertAfter 1000 2000);
      On 100 (InsertHead 3000); On 100 (RemoveAfter 1000); On 100 RemoveHead] two_queues = Ok m
    /\ run_ops (I := xsimpleq_impl 24 two_cookies) [On 100 (InsertTail 1000);
      On 100 (InsertAfter 1000 2000); On 100 (InsertHead 3000); On 100 (RemoveAfter 1000);
      On 100 RemoveHead] two_xqueues = Ok mx
    /\ ldw m 100 = Ok 1000 /\ ldw mx 100 = Ok (Z.lxor 55 1000)
    /\ SIMPLEQ_FOREACH 24 1 100 (pure_body (fun acc x => acc ++ [x])) ([], m) = Ok ([1000], m)
    /\ XSIMPLEQ_FOREACH 24 1 100 (pure_body (fun acc x => acc ++ [x])) ([], mx)
         = Ok ([1000], mx).
Proof.
  destruct (xsimpleq_equiv 24 two_cookies two_queues two_xqueues
    (World {[ 100 := []; 200 := [] ]} [1000; 2000; 3000])
    [On 100 (InsertTail 1000); On 100 (InsertAfter 1000 2000);
      On 100 (InsertHead 3000); On 100 (RemoveAfter 1000); On 100 RemoveHead]
    (World {[ 100 := [1000]; 200 := [] ]} [3000; 2000]) [(300, Some 5)] [])
    as (m & mx & Hm & Hmx & Hq).
  - apply (bool_decide_unpack _). vm_compute. exact I.
  - apply (bool_decide_unpack _). vm_compute. exact I.
  - vm_compute. reflexivity.
  - repeat constructor.
  - exists m, mx. split; [exact Hm|]. split; [exact Hmx|].
    destruct (Hq 100 [1000] eq_refl) as [Hcell Hloop].
    destruct (Hcell 100 1000) as [H1 H2].
    { apply (bool_decide_unpack _). vm_compute. exact I. }
    split; [exact H1|]. split; [exact H2|].
    exact (Hloop _ (fun acc x => acc ++ [x]) 1%nat [] (le_n 1)).
Defined.

End XSimpleQ.
