(* ===== verification/TailQ.v ===== *)
(** * Tail queues ([queue.h])

    The [TAILQ] macros: a head with the first element and the address of the
    last link, elements linked both ways. *)

From S2P Require Import Prelude QueueMem QueueOps.

Module TailQ.
Import QueueMem QueueOps.

(** ** Heads and entries *)

(** [TAILQ_HEAD(name, type)] at [head], [TAILQ_ENTRY(type)] as the member
    [field] of the structure at [elm]: the addresses of their fields. *)
Definition tqh_first (head : Z) : Z := head.
Definition tqh_last (head : Z) : Z := head + word.

(** The words of a head that is initialised where it is declared. *)
Definition TAILQ_HEAD_INITIALIZER (head : Z) : list cell :=
  [(tqh_first head, Some 0); (tqh_last head, Some (tqh_first head))].

Section macros.
Context (field : Z).

Definition tqe_next (elm : Z) : res Z := member elm field.
Definition tqe_prev (elm : Z) : res Z := a ← member elm field; mret (a + word).

(** ** Access *)

Definition TAILQ_FIRST (m : mem) (head : Z) : res Z := ldw m (tqh_first head).
Definition TAILQ_END : Z := 0.
Definition TAILQ_NEXT (m : mem) (elm : Z) : res Z := a ← tqe_next elm; ldw m a.

(** The word the last link points from is the second word of the last entry (or
    of the head); it has the address of the link before, cast to a head. *)
Definition TAILQ_LAST (m : mem) (head : Z) : res Z :=
  last ← ldw m (tqh_last head);
  prev ← ldw m (tqh_last last);
  ldw m prev.

Definition TAILQ_PREV (m : mem) (elm : Z) : res Z :=
  elm_prev ← tqe_prev elm;
  a ← ldw m elm_prev;
  prev ← ldw m (tqh_last a);
  ldw m prev.

Definition TAILQ_EMPTY (m : mem) (head : Z) : res bool :=
  first ← TAILQ_FIRST m head; mret (first =? TAILQ_END).

(** ** Loops *)

Definition TAILQ_FOREACH {A} (fuel : nat) (head : Z)
    (body : Z -> A * mem -> res (A * mem)) (s : A * mem) : res (A * mem) :=
  first ← TAILQ_FIRST s.2 head;
  for_each TAILQ_NEXT body fuel first s.

Definition TAILQ_FOREACH_SAFE {A} (fuel : nat) (head : Z)
    (body : Z -> A * mem -> res (A * mem)) (s : A * mem) : res (A * mem) :=
  first ← TAILQ_FIRST s.2 head;
  for_each_safe TAILQ_NEXT body fuel first s.

Definition TAILQ_FOREACH_REVERSE {A} (fuel : nat) (head : Z)
    (body : Z -> A * mem -> res (A * mem)) (s : A * mem) : res (A * mem) :=
  last ← TAILQ_LAST s.2 head;
  for_each TAILQ_PREV body fuel last s.

Definition TAILQ_FOREACH_REVERSE_SAFE {A} (fuel : nat) (head : Z)
    (body : Z -> A * mem -> res (A * mem)) (s : A * mem) : res (A * mem) :=
  last ← TAILQ_LAST s.2 head;
  for_each_safe TAILQ_PREV body fuel last s.

(** ** Functions *)

Definition TAILQ_INIT (head : Z) (m : mem) : res mem :=
  m ← stw m (tqh_first head) 0;
  stw m (tqh_last head) (tqh_first head).

Definition TAILQ_INSERT_HEAD (head elm : Z) (m : mem) : res mem :=
  elm_next ← tqe_next elm;
  first ← ldw m (tqh_first head);
  m ← stw m elm_next first;
  m ← (if first =? 0 then stw m (tqh_last head) elm_next
       else first_prev ← tqe_prev first; stw m first_prev elm_next);
  m ← stw m (tqh_first head) elm;
  elm_prev ← tqe_prev elm;
  stw m elm_prev (tqh_first head).

Definition TAILQ_INSERT_TAIL (head elm : Z) (m : mem) : res mem :=
  elm_next ← tqe_next elm;
  m ← stw m elm_next 0;
  elm_prev ← tqe_prev elm;
  last ← ldw m (tqh_last head);
  m ← stw m elm_prev last;
  last ← ldw m (tqh_last head);
  m ← stw m last elm;
  stw m (tqh_last head) elm_next.

Definition TAILQ_INSERT_AFTER (head listelm elm : Z) (m : mem) : res mem :=
  elm_next ← tqe_next elm;
  listelm_next ← tqe_next listelm;
  next ← ldw m listelm_next;
  m ← stw m elm_next next;
  m ← (if next =? 0 then stw m (tqh_last head) elm_next
       else next ← ldw m elm_next;
            next_prev ← tqe_prev next;
            stw m next_prev elm_next);
  m ← stw m listelm_next elm;
  elm_prev ← tqe_prev elm;
  stw m elm_prev listelm_next.

Definition TAILQ_INSERT_BEFORE (listelm elm : Z) (m : mem) : res mem :=
  elm_prev ← tqe_prev elm;
  listelm_prev ← tqe_prev listelm;
  prev ← ldw m listelm_prev;
  m ← stw m elm_prev prev;
  elm_next ← tqe_next elm;
  m ← stw m elm_next listelm;
  prev ← ldw m listelm_prev;
  m ← stw m prev elm;
  stw m listelm_prev elm_next.

Definition TAILQ_REMOVE (head elm : Z) (m : mem) : res mem :=
  elm_next ← tqe_next elm;
  elm_prev ← tqe_prev elm;
  next ← ldw m elm_next;
  prev ← ldw m elm_prev;
  m ← (if next =? 0 then stw m (tqh_last head) prev
       else next_prev ← tqe_prev next; stw m next_prev prev);
  prev ← ldw m elm_prev;
  next ← ldw m elm_next;
  stw m prev next.

Definition TAILQ_REPLACE (head elm elm2 : Z) (m : mem) : res mem :=
  elm2_next ← tqe_next elm2;
  elm_next ← tqe_next elm;
  next ← ldw m elm_next;
  m ← stw m elm2_next next;
  m ← (if next =? 0 then stw m (tqh_last head) elm2_next
       else next ← ldw m elm2_next;
            next_prev ← tqe_prev next;
            stw m next_prev elm2_next);
  elm2_prev ← tqe_prev elm2;
  elm_prev ← tqe_prev elm;
  prev ← ldw m elm_prev;
  m ← stw m elm2_prev prev;
  prev ← ldw m elm2_prev;
  stw m prev elm2.

Definition TAILQ_CONCAT (head1 head2 : Z) (m : mem) : res mem :=
  empty ← TAILQ_EMPTY m head2;
  if (empty : bool) then mret m
  else
    last1 ← ldw m (tqh_last head1);
    first2 ← ldw m (tqh_first head2);
    m ← stw m last1 first2;
    first2 ← ldw m (tqh_first head2);
    first2_prev ← tqe_prev first2;
    last1 ← ldw m (tqh_last head1);
    m ← stw m first2_prev last1;
    last2 ← ldw m (tqh_last head2);
    m ← stw m (tqh_last head1) last2;
    TAILQ_INIT head2 m.

End macros.
(** ** Representation *)

(** The words of the queue at [head] with the elements [l], and those of an
    element in no queue. *)
Section representation.
Context (field : Z).

Definition tailq (head : Z) (l : list Z) : list cell :=
  (head + word, Some (endslot field head l)) :: seg field head l 0 ++ back field head l.

Definition tailq_loose (elm : Z) : list cell := two_words field elm.

Definition tailq_macro (op : lop) : option (Z -> mem -> res mem) :=
  match op with
  | Init => Some TAILQ_INIT
  | InsertHead x => Some (fun head => TAILQ_INSERT_HEAD field head x)
  | InsertTail x => Some (fun head => TAILQ_INSERT_TAIL field head x)
  | InsertAfter y x => Some (fun head => TAILQ_INSERT_AFTER field head y x)
  | InsertBefore y x => Some (fun _ => TAILQ_INSERT_BEFORE field y x)
  | Remove x => Some (fun head => TAILQ_REMOVE field head x)
  | Replace y x => Some (fun head => TAILQ_REPLACE field head y x)
  | RemoveHead | RemoveAfter _ => None
  end.

#[export] Instance tailq_impl : QueueImpl := {|
  queue := tailq;
  loose := tailq_loose;
  macro := tailq_macro;
  concat_macro := Some (TAILQ_CONCAT field)
|}.

End representation.

(** ** The macros, one by one *)

Section laws.
Context (field : Z).
Implicit Types (l : list Z) (R : list cell).

Local Abbreviation Seg := (seg field).
Local Abbreviation Lead := (lead field).
Local Abbreviation Back := (back field).
Local Abbreviation Last := (endslot field).

Ltac unfold_macros :=
  unfold TAILQ_CONCAT, TAILQ_INIT, TAILQ_INSERT_HEAD, TAILQ_INSERT_TAIL, TAILQ_INSERT_AFTER,
    TAILQ_INSERT_BEFORE, TAILQ_REMOVE, TAILQ_REPLACE, TAILQ_EMPTY,
    TAILQ_LAST, TAILQ_PREV, TAILQ_FIRST, TAILQ_NEXT, TAILQ_END,
    tqe_next, tqe_prev, tqh_first, tqh_last.

(** Splits the descriptions at the elements named, and runs. *)
Ltac split_cells H :=
  unfold tailq, tailq_loose, two_words in *; unfold_macros;
  rewrite ?seg_app, ?back_app, ?endslot_app in *;
  cbn [seg back endslot app] in *;
  rewrite ?seg_app, ?back_app, ?endslot_app in *;
  cbn [seg back endslot app] in *.

Lemma tailq_init_ok m head R a b :
  holds m ((head, a) :: (head + word, b) :: R) ->
  yields (TAILQ_INIT head m) (tailq field head [] ++ R).
Proof. intros H. split_cells H. mem_steps. Qed.

Lemma tailq_insert_head_ok m head l x R :
  Forall (.≠ 0) l -> x <> 0 -> holds m (tailq field head l ++ tailq_loose field x ++ R) ->
  yields (TAILQ_INSERT_HEAD field head x m) (tailq field head (x :: l) ++ R).
Proof.
  intros Hl Hx H. destruct Hl as [|y l Hy Hl]; split_cells H; [mem_steps|].
  mem_front H ((head, Some y) :: (x + field, None) :: (x + field + word, None) ::
    (y + field + word, Some head) :: (head + word, Some (Last (y + field) l)) ::
    Seg (y + field) l 0 ++ Back (y + field) l ++ R).
  mem_steps.
Qed.

Lemma tailq_insert_tail_ok m head l x R :
  x <> 0 -> holds m (tailq field head l ++ tailq_loose field x ++ R) ->
  yields (TAILQ_INSERT_TAIL field head x m) (tailq field head (l ++ [x]) ++ R).
Proof.
  intros Hx H. split_cells H. rewrite !seg_last in *.
  mem_front H ((head + word, Some (Last head l)) :: (Last head l, Some 0) ::
    (x + field, None) :: (x + field + word, None) :: Lead head l ++ Back head l ++ R).
  mem_steps.
Qed.

Lemma tailq_insert_after_ok m head l1 y l2 x R :
  Forall (.≠ 0) (l1 ++ y :: l2) -> x <> 0 ->
  holds m (tailq field head (l1 ++ y :: l2) ++ tailq_loose field x ++ R) ->
  yields (TAILQ_INSERT_AFTER field head y x m) (tailq field head (l1 ++ y :: x :: l2) ++ R).
Proof.
  intros [_ Hl]%Forall_app Hx H. inversion Hl as [|? ? Hy Hl2]; subst.
  destruct Hl2 as [|z l2 Hz Hl2]; split_cells H.
  - mem_front H ((y + field, Some 0) :: (x + field, None) :: (x + field + word, None) ::
      (head + word, Some (y + field)) :: (y + field + word, Some (Last head l1)) ::
      Seg head l1 y ++ Back head l1 ++ R).
    mem_steps.
  - mem_front H ((y + field, Some z) :: (x + field, None) :: (x + field + word, None) ::
      (z + field + word, Some (y + field)) :: (head + word, Some (Last (z + field) l2)) ::
      (y + field + word, Some (Last head l1)) ::
      Seg head l1 y ++ Back head l1 ++ Seg (z + field) l2 0 ++ Back (z + field) l2 ++ R).
    mem_steps.
Qed.

Lemma tailq_insert_before_ok m head l1 y l2 x R :
  y <> 0 -> x <> 0 -> holds m (tailq field head (l1 ++ y :: l2) ++ tailq_loose field x ++ R) ->
  yields (TAILQ_INSERT_BEFORE field y x m) (tailq field head (l1 ++ x :: y :: l2) ++ R).
Proof.
  intros Hy Hx H. split_cells H. rewrite !(seg_last _ head l1) in *.
  mem_front H ((Last head l1, Some y) :: (y + field + word, Some (Last head l1)) ::
    (x + field, None) :: (x + field + word, None) ::
    (head + word, Some (Last (y + field) l2)) ::
    Lead head l1 ++ Back head l1 ++ Seg (y + field) l2 0 ++ Back (y + field) l2 ++ R).
  mem_steps.
Qed.

Lemma tailq_remove_ok m head l1 x l2 R :
  Forall (.≠ 0) (l1 ++ x :: l2) -> holds m (tailq field head (l1 ++ x :: l2) ++ R) ->
  yields (TAILQ_REMOVE field head x m) (tailq field head (l1 ++ l2) ++ tailq_loose field x ++ R).
Proof.
  intros [_ Hl]%Forall_app H. inversion Hl as [|? ? Hx Hl2]; subst.
  destruct Hl2 as [|z l2 Hz Hl2]; rewrite ?app_nil_r; split_cells H;
    rewrite !(seg_last _ head l1) in *.
  - mem_front H ((x + field, Some 0) :: (x + field + word, Some (Last head l1)) ::
      (Last head l1, Some x) :: (head + word, Some (x + field)) ::
      Lead head l1 ++ Back head l1 ++ R).
    mem_steps. mem_forget (x + field). mem_forget (x + field + word). mem_steps.
  - mem_front H ((x + field, Some z) :: (x + field + word, Some (Last head l1)) ::
      (Last head l1, Some x) :: (z + field + word, Some (x + field)) ::
      (head + word, Some (Last (z + field) l2)) ::
      Lead head l1 ++ Back head l1 ++ Seg (z + field) l2 0 ++ Back (z + field) l2 ++ R).
    mem_steps. mem_forget (x + field). mem_forget (x + field + word). mem_steps.
Qed.

Lemma tailq_replace_ok m head l1 y l2 x R :
  Forall (.≠ 0) (l1 ++ y :: l2) -> x <> 0 ->
  holds m (tailq field head (l1 ++ y :: l2) ++ tailq_loose field x ++ R) ->
  yields (TAILQ_REPLACE field head y x m) (tailq field head (l1 ++ x :: l2) ++ tailq_loose field y ++ R).
Proof.
  intros [_ Hl]%Forall_app Hx H. inversion Hl as [|? ? Hy Hl2]; subst.
  destruct Hl2 as [|z l2 Hz Hl2]; split_cells H; rewrite !(seg_last _ head l1) in *.
  - mem_front H ((y + field, Some 0) :: (y + field + word, Some (Last head l1)) ::
      (Last head l1, Some y) :: (head + word, Some (y + field)) :: (x + field, None) ::
      (x + field + word, None) :: Lead head l1 ++ Back head l1 ++ R).
    mem_steps. mem_forget (y + field). mem_forget (y + field + word). mem_steps.
  - mem_front H ((y + field, Some z) :: (y + field + word, Some (Last head l1)) ::
      (Last head l1, Some y) :: (z + field + word, Some (y + field)) :: (x + field, None) ::
      (x + field + word, None) :: (head + word, Some (Last (z + field) l2)) ::
      Lead head l1 ++ Back head l1 ++ Seg (z + field) l2 0 ++ Back (z + field) l2 ++ R).
    mem_steps. mem_forget (y + field). mem_forget (y + field + word). mem_steps.
Qed.

Lemma tailq_concat_ok m head1 head2 l1 l2 R :
  Forall (.≠ 0) l2 -> holds m (tailq field head1 l1 ++ tailq field head2 l2 ++ R) ->
  yields (TAILQ_CONCAT field head1 head2 m) (tailq field head1 (l1 ++ l2) ++ tailq field head2 [] ++ R).
Proof.
  intros Hl H. destruct Hl as [|z l2 Hz Hl]; rewrite ?app_nil_r; split_cells H.
  - mem_front H ((head2, Some 0) :: (head2 + word, Some head2) ::
      (head1 + word, Some (Last head1 l1)) :: Seg head1 l1 0 ++ Back head1 l1 ++ R).
    mem_steps.
  - rewrite !(seg_last _ head1 l1) in *.
    mem_front H ((head2, Some z) :: (head2 + word, Some (Last (z + field) l2)) ::
      (head1 + word, Some (Last head1 l1)) :: (Last head1 l1, Some 0) ::
      (z + field + word, Some head2) :: Lead head1 l1 ++ Back head1 l1 ++
      Seg (z + field) l2 0 ++ Back (z + field) l2 ++ R).
    mem_steps.
Qed.


(** A head declared with its initialiser is an empty queue. *)
Lemma tailq_initializer_ok head : TAILQ_HEAD_INITIALIZER head ≡ₚ tailq field head [].
Proof. apply Permutation_swap. Qed.

(** The macros do what [QueueOps] promises of them. *)
#[export] Instance tailq_laws : QueueLaws (tailq_impl field).
Proof.
  split.
  - intros o f head l l' out R m Hf He Hn H.
    destruct o; simpl in Hf, He; simplify_eq;
      try (apply bind_Some in He as ([l1 l2] & ->%split_at_app & He); simplify_eq);
      cbn [needs mbind list_bind app queue loose tailq_impl] in *;
      rewrite ?app_nil_r in *;
      try (apply Forall_cons in Hn as [Hx Hl]).
    + unfold tailq in H. rewrite <- app_comm_cons, <- app_assoc in H.
      mem_front H (Seg head out 0 ++ Back head out ++ (head + word, Some (Last head out)) :: R).
      destruct (scatter field _ _ _ _ _ H) as [v H']. clear H.
      eapply tailq_init_ok. eapply holds_proper; [|exact H']. solve_Permutation.
    + by apply tailq_insert_head_ok.
    + by apply tailq_insert_tail_ok.
    + by apply tailq_insert_after_ok.
    + apply tailq_insert_before_ok; [|done|done].
      by apply Forall_app in Hl as [_ [? _]%Forall_cons].
    + by apply tailq_remove_ok.
    + by apply tailq_replace_ok.
  - intros f head1 head2 l1 l2 R m [= <-] [_ Hl]%Forall_app H. by apply tailq_concat_ok.
Qed.

(** ** Access and loops *)

Lemma tailq_seg m head l R :
  holds m (tailq field head l ++ R) ->
  holds m (Seg head l 0 ++ (head + word, Some (Last head l)) :: Back head l ++ R).
Proof. intros H. eapply holds_proper; [|exact H]. unfold tailq. solve_Permutation. Qed.

Lemma tailq_first_ok m head l R :
  holds m (tailq field head l ++ R) -> TAILQ_FIRST m head = Ok (default 0 (hd_error l)).
Proof. intros H%tailq_seg. by eapply seg_first. Qed.

Lemma tailq_next_ok m head l1 x l2 R :
  x <> 0 -> holds m (tailq field head (l1 ++ x :: l2) ++ R) ->
  TAILQ_NEXT field m x = Ok (default 0 (hd_error l2)).
Proof. intros Hx H%tailq_seg. by eapply seg_next. Qed.

Lemma tailq_last_ok m head l R :
  holds m (tailq field head l ++ R) -> TAILQ_LAST m head = Ok (default 0 (last l)).
Proof.
  intros H. destruct l as [|w l' _] using rev_ind; split_cells H; [by mem_loads|].
  rewrite last_snoc, (seg_last _ head l') in *.
  mem_front H ((head + word, Some (w + field)) :: (w + field + word, Some (Last head l')) ::
    (Last head l', Some w) :: (w + field, Some 0) :: Lead head l' ++ Back head l' ++ R).
  by mem_loads.
Qed.

Lemma tailq_prev_ok m head l1 x l2 R :
  x <> 0 -> holds m (tailq field head (l1 ++ x :: l2) ++ R) ->
  TAILQ_PREV field m x = Ok (default 0 (last l1)).
Proof.
  intros Hx H. destruct l1 as [|w l1 _] using rev_ind; [|rewrite <- app_assoc in H; simpl in H];
    split_cells H.
  - rewrite (seg_last _ (x + field) l2) in H.
    mem_front H ((x + field + word, Some head) :: (head + word, Some (Last (x + field) l2)) ::
      (Last (x + field) l2, Some 0) :: (head, Some x) :: Lead (x + field) l2 ++
      Back (x + field) l2 ++ R).
    by mem_loads.
  - rewrite last_snoc, (seg_last _ head l1) in *.
    mem_front H ((x + field + word, Some (w + field)) ::
      (w + field + word, Some (Last head l1)) :: (Last head l1, Some w) ::
      (w + field, Some x) :: (head + word, Some (Last (x + field) l2)) ::
      Seg (x + field) l2 0 ++ Back (x + field) l2 ++ Lead head l1 ++ Back head l1 ++ R).
    by mem_loads.
Qed.

(** Freeing an element that is in no queue. *)
Definition free_element (x : Z) (m : mem) : mem :=
  delete (x + field + word) (delete (x + field) m).

Lemma holds_free m x R :
  holds m (tailq_loose field x ++ R) -> holds (free_element x m) R.
Proof. intros H. do 2 apply holds_cells_delete in H. exact H. Qed.

(** The body of a loop that empties the queue at [head], keeping count of the
    elements in order. *)
Definition remove_and_free (head x : Z) (s : list Z * mem) : res (list Z * mem) :=
  m ← TAILQ_REMOVE field head x s.2;
  mret (s.1 ++ [x], free_element x m).

Lemma remove_and_free_ok m head d l1 x l2 R :
  Forall (.≠ 0) (l1 ++ x :: l2) -> holds m (tailq field head (l1 ++ x :: l2) ++ R) ->
  exists m', remove_and_free head x (d, m) = Ok (d ++ [x], m')
    /\ holds m' (tailq field head (l1 ++ l2) ++ R).
Proof.
  intros Hn H. destruct (tailq_remove_ok m head l1 x l2 R Hn H) as (m1 & Hr & H1).
  unfold remove_and_free. simpl. rewrite Hr. eexists. split; [done|].
  apply holds_free. eapply holds_proper; [|exact H1]. solve_Permutation.
Qed.

(** ** Theorems *)

(** C23: any sequence of operations on any number of tail queues and elements
    (initialising, inserting at either end or beside an element, removing,
    replacing, moving one queue to the end of another) that keeps to the
    operations' preconditions does to the links in memory exactly what it does
    to the lists of elements, meets no fault, and leaves all other memory as it
    was. *)
Theorem tailq_ops_refine m w os w' R :
  represents (I := tailq_impl field) m w R -> spec_ops w os = Some w' ->
  Forall (has_macro (I := tailq_impl field)) os ->
  exists m', run_ops (I := tailq_impl field) os m = Ok m'
    /\ represents (I := tailq_impl field) m' w' R.
Proof. apply run_ops_represents. Qed.

(** [TAILQ_FOREACH] visits the elements of a queue in order and
    [TAILQ_FOREACH_REVERSE] in the opposite order, each element once; following
    the previous elements relies on a head and an entry having their words in
    the same places. *)
Theorem tailq_foreach_directions {A} (f : A -> Z -> A) fuel m head l R a :
  Forall (.≠ 0) l -> holds m (tailq field head l ++ R) -> (length l <= fuel)%nat ->
  TAILQ_FOREACH field fuel head (pure_body f) (a, m) = Ok (fold_left f l a, m)
  /\ TAILQ_FOREACH_REVERSE field fuel head (pure_body f) (a, m) =
       Ok (fold_left f (reverse l) a, m).
Proof.
  intros Hn H Hf. unfold TAILQ_FOREACH, TAILQ_FOREACH_REVERSE. split.
  - apply tailq_seg in H. by eapply (seg_foreach field f).
  - cbn [snd]. rewrite (tailq_last_ok m head l R H), <- head_reverse. cbn [mbind res_bind].
    apply for_each_pure; [by rewrite length_reverse|by apply Forall_reverse|].
    intros l1 x l2 Hl. apply (f_equal reverse) in Hl.
    rewrite reverse_involutive, reverse_app, reverse_cons, <- app_assoc in Hl.
    simpl in Hl. subst l. rewrite <- (last_reverse l2).
    eapply tailq_prev_ok; [|done]. by apply Forall_app in Hn as [_ [? _]%Forall_cons].
Qed.

(** The loops that are safe against removal empty a queue: with a body that
    removes and frees the element it is given, [TAILQ_FOREACH_SAFE] and
    [TAILQ_FOREACH_REVERSE_SAFE] visit every element once, never touch a freed
    one, and end with the empty queue. *)
Theorem tailq_drain fuel m head l R :
  Forall (.≠ 0) l -> holds m (tailq field head l ++ R) -> (length l <= fuel)%nat ->
  (exists m', TAILQ_FOREACH_SAFE field fuel head (remove_and_free head) ([], m) = Ok (l, m')
     /\ holds m' (tailq field head [] ++ R))
  /\ (exists m', TAILQ_FOREACH_REVERSE_SAFE field fuel head (remove_and_free head) ([], m)
        = Ok (reverse l, m') /\ holds m' (tailq field head [] ++ R)).
Proof.
  intros Hn H Hf. unfold TAILQ_FOREACH_SAFE, TAILQ_FOREACH_REVERSE_SAFE. split.
  - cbn [snd]. rewrite (tailq_first_ok m head l R H). cbn [mbind res_bind].
    destruct (for_each_safe_rule (TAILQ_NEXT field) (remove_and_free head)
      (fun todo s => s.1 ++ todo = l /\ Forall (.≠ 0) todo /\
         holds s.2 (tailq field head todo ++ R)) l fuel ([], m)) as ([d m'] & Hr & Hd & _ & Hm');
      [done|done|done| |simpl in *; rewrite app_nil_r in Hd; subst d; by exists m'].
    intros x r [d m1] (Hd & Hx & Hm1). simpl in *.
    split; [apply (tailq_next_ok m1 head [] x r R); [by apply Forall_cons in Hx as [? _]|done]|].
    destruct (remove_and_free_ok m1 head d [] x r R Hx Hm1) as (m2 & -> & Hm2).
    eexists. split; [done|]. simpl. rewrite <- app_assoc.
    split; [done|]. split; [by apply Forall_cons in Hx as [_ ?]|done].
  - cbn [snd]. rewrite (tailq_last_ok m head l R H), <- head_reverse. cbn [mbind res_bind].
    destruct (for_each_safe_rule (TAILQ_PREV field) (remove_and_free head)
      (fun todo s => s.1 ++ todo = reverse l /\ Forall (.≠ 0) (reverse todo) /\
         holds s.2 (tailq field head (reverse todo) ++ R)) (reverse l) fuel ([], m))
      as ([d m'] & Hr & Hd & _ & Hm');
      [by rewrite length_reverse|by apply Forall_reverse|by rewrite reverse_involutive| |
       simpl in *; rewrite app_nil_r in Hd; subst d; by exists m'].
    intros x r [d m1] (Hd & Hx & Hm1). simpl in *. rewrite reverse_cons in *.
    rewrite <- (last_reverse r).
    split; [apply (tailq_prev_ok m1 head _ x [] R); [by apply Forall_app in Hx as [_ [? _]%Forall_cons]|done]|].
    destruct (remove_and_free_ok m1 head d (reverse r) x [] R Hx Hm1) as (m2 & -> & Hm2).
    rewrite app_nil_r in Hm2.
    eexists. split; [done|]. simpl. rewrite <- app_assoc.
    split; [done|]. split; [by apply Forall_app in Hx as [? _]|done].
Qed.

End laws.

(** ** Witnesses *)

(** Two empty queues, at 100 and 200, and three elements with their entries 24
    bytes in; the word at 300 belongs to nobody. *)
Definition two_queues : mem :=
  list_to_map [(100, 0); (108, 100); (200, 0); (208, 200); (1024, 7); (1032, 7);
               (2024, 7); (2032, 7); (3024, 7); (3032, 7); (300, 5)].

Lemma tailq_ops_refine_witness :
  exists m, run_ops (I := tailq_impl 24) [On 100 (InsertTail 1000); On 100 (InsertHead 2000);
      On 200 (InsertHead 3000); Concat 200 100; On 200 (Remove 2000);
      On 200 (InsertBefore 1000 2000); On 200 (Remove 3000); On 200 (Replace 1000 3000)]
      two_queues = Ok m
    /\ represents (I := tailq_impl 24) m
         (World {[ 100 := []; 200 := [2000; 3000] ]} [1000]) [(300, Some 5)].
Proof.
  apply (tailq_ops_refine 24 two_queues
    (World {[ 100 := []; 200 := [] ]} [1000; 2000; 3000])).
  - apply (bool_decide_unpack _). vm_compute. exact I.
  - vm_compute. reflexivity.
  - repeat constructor.
Defined.

(** The queue of three elements. *)
Definition one_queue : mem :=
  list_to_map [(100, 1000); (108, 3024); (1024, 2000); (1032, 100); (2024, 3000);
               (2032, 1024); (3024, 0); (3032, 2024); (300, 5)].

Lemma one_queue_holds :
  Forall (.≠ 0) [1000; 2000; 3000]
  /\ holds one_queue (tailq 24 100 [1000; 2000; 3000] ++ [(300, Some 5)]).
Proof. apply (bool_decide_unpack _). vm_compute. exact I. Qed.

Lemma tailq_foreach_directions_witness :
  TAILQ_FOREACH 24 3 100 (pure_body (fun acc x => acc ++ [x])) ([], one_queue)
    = Ok ([1000; 2000; 3000], one_queue)
  /\ TAILQ_FOREACH_REVERSE 24 3 100 (pure_body (fun acc x => acc ++ [x])) ([], one_queue)
    = Ok ([3000; 2000; 1000], one_queue).
Proof.
  destruct one_queue_holds as [Hn H].
  exact (tailq_foreach_directions 24 (fun acc x => acc ++ [x]) 3 one_queue 100 _ _ [] Hn H
    (le_n 3)).
Defined.

Lemma tailq_drain_witness :
  (exists m, TAILQ_FOREACH_SAFE 24 3 100 (remove_and_free 24 100) ([], one_queue)
       = Ok ([1000; 2000; 3000], m) /\ holds m (tailq 24 100 [] ++ [(300, Some 5)]))
  /\ (exists m, TAILQ_FOREACH_REVERSE_SAFE 24 3 100 (remove_and_free 24 100) ([], one_queue)
       = Ok ([3000; 2000; 1000], m) /\ holds m (tailq 24 100 [] ++ [(300, Some 5)])).
Proof.
  destruct one_queue_holds as [Hn H].
  exact (tailq_drain 24 3 one_queue 100 _ _ Hn H (le_n 3)).
Defined.

End TailQ.
