(* ===== verification/ListQ.v ===== *)
(** * Lists ([queue.h])

    The [LIST] macros: a head with the first element only, elements linked both
    ways, so that an element is removed, replaced or inserted beside without the
    head. *)

From S2P Require Import Prelude QueueMem QueueOps.

Module ListQ.
Import QueueMem QueueOps.

(** ** Heads and entries *)

(** [LIST_HEAD(name, type)] at [head], [LIST_ENTRY(type)] as the member [field]
    of the structure at [elm]. *)
Definition lh_first (head : Z) : Z := head.

(** The word of a head that is initialised where it is declared. *)
Definition LIST_HEAD_INITIALIZER (head : Z) : list cell := [(lh_first head, Some 0)].

Section macros.
Context (field : Z).

Definition le_next (elm : Z) : res Z := member elm field.
Definition le_prev (elm : Z) : res Z := a ← member elm field; mret (a + word).

(** ** Access *)

Definition LIST_FIRST (m : mem) (head : Z) : res Z := ldw m (lh_first head).
Definition LIST_END : Z := 0.
Definition LIST_EMPTY (m : mem) (head : Z) : res bool :=
  first ← LIST_FIRST m head; mret (first =? LIST_END).
Definition LIST_NEXT (m : mem) (elm : Z) : res Z := a ← le_next elm; ldw m a.

Definition LIST_FOREACH {A} (fuel : nat) (head : Z)
    (body : Z -> A * mem -> res (A * mem)) (s : A * mem) : res (A * mem) :=
  first ← LIST_FIRST s.2 head;
  for_each LIST_NEXT body fuel first s.

Definition LIST_FOREACH_SAFE {A} (fuel : nat) (head : Z)
    (body : Z -> A * mem -> res (A * mem)) (s : A * mem) : res (A * mem) :=
  first ← LIST_FIRST s.2 head;
  for_each_safe LIST_NEXT body fuel first s.

(** ** Functions *)

Definition LIST_INIT (head : Z) (m : mem) : res mem := stw m (lh_first head) LIST_END.

Definition LIST_INSERT_AFTER (listelm elm : Z) (m : mem) : res mem :=
  elm_next ← le_next elm;
  listelm_next ← le_next listelm;
  next ← ldw m listelm_next;
  m ← stw m elm_next next;
  m ← (if next =? 0 then mret m
       else next ← ldw m listelm_next;
            next_prev ← le_prev next;
            stw m next_prev elm_next);
  m ← stw m listelm_next elm;
  elm_prev ← le_prev elm;
  stw m elm_prev listelm_next.

Definition LIST_INSERT_BEFORE (listelm elm : Z) (m : mem) : res mem :=
  elm_prev ← le_prev elm;
  listelm_prev ← le_prev listelm;
  prev ← ldw m listelm_prev;
  m ← stw m elm_prev prev;
  elm_next ← le_next elm;
  m ← stw m elm_next listelm;
  prev ← ldw m listelm_prev;
  m ← stw m prev elm;
  stw m listelm_prev elm_next.

Definition LIST_INSERT_HEAD (head elm : Z) (m : mem) : res mem :=
  elm_next ← le_next elm;
  first ← ldw m (lh_first head);
  m ← stw m elm_next first;
  m ← (if first =? 0 then mret m
       else first ← ldw m (lh_first head);
            first_prev ← le_prev first;
            stw m first_prev elm_next);
  m ← stw m (lh_first head) elm;
  elm_prev ← le_prev elm;
  stw m elm_prev (lh_first head).

Definition LIST_REMOVE (elm : Z) (m : mem) : res mem :=
  elm_next ← le_next elm;
  elm_prev ← le_prev elm;
  next ← ldw m elm_next;
  m ← (if next =? 0 then mret m
       else next_prev ← le_prev next;
            prev ← ldw m elm_prev;
            stw m next_prev prev);
  prev ← ldw m elm_prev;
  next ← ldw m elm_next;
  stw m prev next.

Definition LIST_REPLACE (elm elm2 : Z) (m : mem) : res mem :=
  elm2_next ← le_next elm2;
  elm_next ← le_next elm;
  next ← ldw m elm_next;
  m ← stw m elm2_next next;
  m ← (if next =? 0 then mret m
       else next ← ldw m elm2_next;
            next_prev ← le_prev next;
            stw m next_prev elm2_next);
  elm2_prev ← le_prev elm2;
  elm_prev ← le_prev elm;
  prev ← ldw m elm_prev;
  m ← stw m elm2_prev prev;
  prev ← ldw m elm2_prev;
  stw m prev elm2.

(** ** Representation *)

Definition listq (head : Z) (l : list Z) : list cell :=
  seg field head l 0 ++ back field head l.

Definition list_loose (elm : Z) : list cell := two_words field elm.

Definition list_macro (op : lop) : option (Z -> mem -> res mem) :=
  match op with
  | Init => Some LIST_INIT
  | InsertHead x => Some (fun head => LIST_INSERT_HEAD head x)
  | InsertAfter y x => Some (fun _ => LIST_INSERT_AFTER y x)
  | InsertBefore y x => Some (fun _ => LIST_INSERT_BEFORE y x)
  | Remove x => Some (fun _ => LIST_REMOVE x)
  | Replace y x => Some (fun _ => LIST_REPLACE y x)
  | InsertTail _ | RemoveHead | RemoveAfter _ => None
  end.

#[export] Instance list_impl : QueueImpl := {|
  queue := listq;
  loose := list_loose;
  macro := list_macro;
  concat_macro := None
|}.

End macros.

(** ** The macros, one by one *)

Section laws.
Context (field : Z).
Implicit Types (l : list Z) (R : list cell).

Local Abbreviation Seg := (seg field).
Local Abbreviation Lead := (lead field).
Local Abbreviation Back := (back field).
Local Abbreviation Last := (endslot field).

Ltac unfold_macros :=
  unfold LIST_INIT, LIST_INSERT_AFTER, LIST_INSERT_BEFORE, LIST_INSERT_HEAD, LIST_REMOVE,
    LIST_REPLACE, LIST_END, le_next, le_prev, lh_first.

Ltac split_cells H :=
  unfold listq, list_loose, two_words in *; unfold_macros;
  rewrite ?seg_app, ?back_app, ?endslot_app in *;
  cbn [seg back endslot app] in *;
  rewrite ?seg_app, ?back_app, ?endslot_app in *;
  cbn [seg back endslot app] in *.

Lemma list_init_ok m head R a :
  holds m ((head, a) :: R) -> yields (LIST_INIT head m) (listq field head [] ++ R).
Proof. intros H. split_cells H. mem_steps. Qed.

Lemma list_insert_head_ok m head l x R :
  Forall (.≠ 0) l -> x <> 0 -> holds m (listq field head l ++ list_loose field x ++ R) ->
  yields (LIST_INSERT_HEAD field head x m) (listq field head (x :: l) ++ R).
Proof.
  intros Hl Hx H. destruct Hl as [|y l Hy Hl]; split_cells H; [mem_steps|].
  mem_front H ((head, Some y) :: (x + field, None) :: (x + field + word, None) ::
    (y + field + word, Some head) :: Seg (y + field) l 0 ++ Back (y + field) l ++ R).
  mem_steps.
Qed.

Lemma list_insert_after_ok m head l1 y l2 x R :
  Forall (.≠ 0) (l1 ++ y :: l2) -> x <> 0 ->
  holds m (listq field head (l1 ++ y :: l2) ++ list_loose field x ++ R) ->
  yields (LIST_INSERT_AFTER field y x m) (listq field head (l1 ++ y :: x :: l2) ++ R).
Proof.
  intros [_ Hl]%Forall_app Hx H. inversion Hl as [|? ? Hy Hl2]; subst.
  destruct Hl2 as [|z l2 Hz Hl2]; split_cells H.
  - mem_front H ((y + field, Some 0) :: (x + field, None) :: (x + field + word, None) ::
      (y + field + word, Some (Last head l1)) :: Seg head l1 y ++ Back head l1 ++ R).
    mem_steps.
  - mem_front H ((y + field, Some z) :: (x + field, None) :: (x + field + word, None) ::
      (z + field + word, Some (y + field)) :: (y + field + word, Some (Last head l1)) ::
      Seg head l1 y ++ Back head l1 ++ Seg (z + field) l2 0 ++ Back (z + field) l2 ++ R).
    mem_steps.
Qed.

Lemma list_insert_before_ok m head l1 y l2 x R :
  y <> 0 -> x <> 0 -> holds m (listq field head (l1 ++ y :: l2) ++ list_loose field x ++ R) ->
  yields (LIST_INSERT_BEFORE field y x m) (listq field head (l1 ++ x :: y :: l2) ++ R).
Proof.
  intros Hy Hx H. split_cells H. rewrite !(seg_last _ head l1) in *.
  mem_front H ((Last head l1, Some y) :: (y + field + word, Some (Last head l1)) ::
    (x + field, None) :: (x + field + word, None) ::
    Lead head l1 ++ Back head l1 ++ Seg (y + field) l2 0 ++ Back (y + field) l2 ++ R).
  mem_steps.
Qed.

Lemma list_remove_ok m head l1 x l2 R :
  Forall (.≠ 0) (l1 ++ x :: l2) -> holds m (listq field head (l1 ++ x :: l2) ++ R) ->
  yields (LIST_REMOVE field x m) (listq field head (l1 ++ l2) ++ list_loose field x ++ R).
Proof.
  intros [_ Hl]%Forall_app H. inversion Hl as [|? ? Hx Hl2]; subst.
  destruct Hl2 as [|z l2 Hz Hl2]; rewrite ?app_nil_r; split_cells H;
    rewrite !(seg_last _ head l1) in *.
  - mem_front H ((x + field, Some 0) :: (x + field + word, Some (Last head l1)) ::
      (Last head l1, Some x) :: Lead head l1 ++ Back head l1 ++ R).
    mem_steps. mem_forget (x + field). mem_forget (x + field + word). mem_steps.
  - mem_front H ((x + field, Some z) :: (x + field + word, Some (Last head l1)) ::
      (Last head l1, Some x) :: (z + field + word, Some (x + field)) ::
      Lead head l1 ++ Back head l1 ++ Seg (z + field) l2 0 ++ Back (z + field) l2 ++ R).
    mem_steps. mem_forget (x + field). mem_forget (x + field + word). mem_steps.
Qed.

Lemma list_replace_ok m head l1 y l2 x R :
  Forall (.≠ 0) (l1 ++ y :: l2) -> x <> 0 ->
  holds m (listq field head (l1 ++ y :: l2) ++ list_loose field x ++ R) ->
  yields (LIST_REPLACE field y x m) (listq field head (l1 ++ x :: l2) ++ list_loose field y ++ R).
Proof.
  intros [_ Hl]%Forall_app Hx H. inversion Hl as [|? ? Hy Hl2]; subst.
  destruct Hl2 as [|z l2 Hz Hl2]; split_cells H; rewrite !(seg_last _ head l1) in *.
  - mem_front H ((y + field, Some 0) :: (y + field + word, Some (Last head l1)) ::
      (Last head l1, Some y) :: (x + field, None) :: (x + field + word, None) ::
      Lead head l1 ++ Back head l1 ++ R).
    mem_steps. mem_forget (y + field). mem_forget (y + field + word). mem_steps.
  - mem_front H ((y + field, Some z) :: (y + field + word, Some (Last head l1)) ::
      (Last head l1, Some y) :: (z + field + word, Some (y + field)) :: (x + field, None) ::
      (x + field + word, None) ::
      Lead head l1 ++ Back head l1 ++ Seg (z + field) l2 0 ++ Back (z + field) l2 ++ R).
    mem_steps. mem_forget (y + field). mem_forget (y + field + word). mem_steps.
Qed.

(** A head declared with its initialiser is an empty list. *)
Lemma list_initializer_ok head : LIST_HEAD_INITIALIZER head = listq field head [].
Proof. done. Qed.

(** The macros do what [QueueOps] promises of them. *)
#[export] Instance list_laws : QueueLaws (list_impl field).
Proof.
  split; [|done].
  intros o f head l l' out R m Hf He Hn H.
  destruct o; simpl in Hf, He; simplify_eq;
    try (apply bind_Some in He as ([l1 l2] & ->%split_at_app & He); simplify_eq);
    cbn [needs mbind list_bind app queue loose list_impl] in *;
    rewrite ?app_nil_r in *; try (apply Forall_cons in Hn as [Hx Hl]).
  - unfold listq in H. rewrite <- app_assoc in H.
    destruct (scatter field _ _ _ _ _ H) as [v H']. by eapply list_init_ok.
  - by apply list_insert_head_ok.
  - by apply list_insert_after_ok.
  - apply list_insert_before_ok; [|done|done].
    by apply Forall_app in Hl as [_ [? _]%Forall_cons].
  - by apply list_remove_ok.
  - by apply list_replace_ok.
Qed.

Lemma list_foreach {A} (f : A -> Z -> A) fuel m head l R a :
  Forall (.≠ 0) l -> holds m (listq field head l ++ R) -> (length l <= fuel)%nat ->
  LIST_FOREACH field fuel head (pure_body f) (a, m) = Ok (fold_left f l a, m)
  /\ LIST_FOREACH_SAFE field fuel head (pure_body f) (a, m) = Ok (fold_left f l a, m).
Proof. unfold listq. rewrite <- app_assoc. apply (seg_foreach field). Qed.

(** ** Theorems *)

(** Any sequence of operations on any number of lists and elements that
    keeps to the operations' preconditions does to the links in memory exactly
    what it does to the lists of elements, meets no fault, and leaves all other
    memory as it was; insertion beside an element, removal and replacement do so
    without being given the head. *)
Theorem list_ops_refine m w os w' R :
  represents (I := list_impl field) m w R -> spec_ops w os = Some w' ->
  Forall (has_macro (I := list_impl field)) os ->
  exists m', run_ops (I := list_impl field) os m = Ok m'
    /\ represents (I := list_impl field) m' w' R.
Proof. apply run_ops_represents. Qed.

End laws.

(** ** Witnesses *)

(** Two empty lists, at 100 and 200, and three elements with their entries 24
    bytes in; the word at 300 belongs to nobody. *)
Definition two_lists : mem :=
  list_to_map [(100, 0); (200, 0); (1024, 7); (1032, 7); (2024, 7); (2032, 7); (3024, 7);
               (3032, 7); (300, 5)].

Lemma list_ops_refine_witness :
  exists m, run_ops (I := list_impl 24) [On 100 (InsertHead 1000); On 100 (InsertAfter 1000 2000);
      On 100 (InsertBefore 2000 3000); On 100 (Remove 1000); On 200 (InsertHead 1000);
      On 100 (Remove 2000); On 100 (Replace 3000 2000)] two_lists = Ok m
    /\ represents (I := list_impl 24) m
         (World {[ 100 := [2000]; 200 := [1000] ]} [3000]) [(300, Some 5)].
Proof.
  apply (list_ops_refine 24 two_lists
    (World {[ 100 := []; 200 := [] ]} [1000; 2000; 3000])).
  - apply (bool_decide_unpack _). vm_compute. exact I.
  - vm_compute. reflexivity.
  - repeat constructor.
Defined.

End ListQ.
