(* ===== verification/OutputFile.v ===== *)
(** * The output file

    The server is built to write either a plain file or the character device.
    What it relies on of either is the class [OutputFile]; the plain file and
    the device's specification are its two instances. *)

From S2P Require Import Prelude CircularBuffer Memory Driver DriverSpec.

Module OutputFile.
Import DriverSpec.

(** [of_write] is one [write()] at the end of the file, [of_read f pos count]
    the bytes one [read()] gives at an offset, [of_data] everything the file
    reads back as. *)
Class OutputFile (F : Type) : Type := {
  of_new : F;
  of_write : F -> bytes -> F;
  of_read : F -> Z -> Z -> bytes;
  of_data : F -> bytes
}.

(** A read gives the next bytes of the data, at most as many as asked for, and
    none only at the end or when none are asked for. *)
Class OutputFileLaws (F : Type) `{OutputFile F} : Prop := {
  of_read_prefix f pos count :
    0 <= pos -> 0 <= count ->
    of_read f pos count `prefix_of` drop (Z.to_nat pos) (of_data f);
  of_read_bound f pos count :
    0 <= count -> Z.of_nat (length (of_read f pos count)) <= count;
  of_read_progress f pos count :
    0 <= pos < Z.of_nat (length (of_data f)) -> 0 < count -> of_read f pos count <> []
}.

Lemma of_read_end {F} `{OutputFileLaws F} f pos count :
  Z.of_nat (length (of_data f)) <= pos -> 0 <= count -> of_read f pos count = [].
Proof.
  intros Hp Hc. assert (0 <= pos) as Hp0 by lia.
  pose proof (of_read_prefix f pos count Hp0 Hc) as Hpre.
  rewrite drop_ge in Hpre by lia. by apply prefix_nil_inv.
Qed.

(** ** A plain file *)

Record plain_file : Type := PlainFile { contents : bytes }.

#[export] Instance plain_output : OutputFile plain_file := {|
  of_new := PlainFile [];
  of_write f bs := PlainFile (contents f ++ bs);
  of_read f pos count :=
    take (Z.to_nat count) (drop (Z.to_nat pos) (contents f));
  of_data := contents
|}.

#[export] Instance plain_output_laws : OutputFileLaws plain_file.
Proof.
  split; simpl; intros f pos count.
  - intros _ _. apply prefix_take.
  - intros Hc. rewrite length_take. lia.
  - intros Hp Hc He. apply (f_equal length) in He.
    rewrite length_take, length_drop in He. simpl in He. lia.
Qed.

(** Blocks written one after the other. *)
Definition write_blocks {F} `{OutputFile F} (f : F) (bs : list bytes) : F :=
  foldl of_write f bs.

Lemma plain_write_blocks (f : plain_file) bs :
  of_data (write_blocks f bs) = contents f ++ concat bs.
Proof.
  revert f. induction bs as [|b bs IH]; intros f; simpl; [by rewrite app_nil_r|].
  change (foldl of_write (of_write f b) bs) with (write_blocks (of_write f b) bs).
  rewrite IH. simpl. by rewrite <- app_assoc.
Qed.

(** ** The character device *)

#[export] Instance device_output : OutputFile dspec := {|
  of_new := DSpec [] [];
  of_write := spec_write;
  of_read := spec_read;
  of_data a := concat (committed a)
|}.

Lemma read_entries_bound es off count :
  0 <= count -> Z.of_nat (length (read_entries es off count)) <= count.
Proof.
  intros Hc. revert off. induction es as [|e es IH]; intros off; simpl; [lia|].
  destruct (off <? _); [|apply IH]. rewrite length_take. lia.
Qed.

#[export] Instance device_output_laws : OutputFileLaws dspec.
Proof.
  split; simpl; intros a pos count; unfold spec_read.
  - intros. by apply read_entries_concat.
  - apply read_entries_bound.
  - intros Hp Hc He. apply read_entries_nil in He; lia.
Qed.

End OutputFile.
