(* ===== verification/Process.v ===== *)
(** * The server process

    What [server/src] and [server/include] share: the server and worker
    structures, the process's memory, threads, mutexes, files and sockets, and
    the C library and system calls the code makes. [F] is the type of the output
    file. *)

From stdpp Require Export strings.
From S2P Require Import Prelude Memory SList OutputFile.
Export Memory SList OutputFile.

Open Scope Z_scope.

Module Process.

(** ** The structures of the server *)

(** [struct aesd_worker]. *)
Record aesd_worker : Type := Worker {
  client_addr : Z;
  client_fd : Z;
  exited : bool;
  shutdown : bool;
  buf_ : Z;
  buf_size_ : Z;
  char_dev_ : bool;
  output_lock_ : Z;
  output_path_ : string
}.

(** [struct aesd_worker_entry]. *)
Record aesd_worker_entry : Type := WorkerEntry {
  tid : Z;
  worker : Z;
  entries : Z     (* the [sle_next] of [SLIST_ENTRY] *)
}.

#[export] Instance worker_entry_link : SListEntry aesd_worker_entry := {|
  sle_next := entries;
  set_sle_next p e := WorkerEntry (tid e) (worker e) p
|}.

#[export] Instance worker_entry_link_laws : SListEntryLaws aesd_worker_entry.
Proof. by split; [| |intros []]. Qed.

(** [struct aesd_server]; its [output_lock_] is the mutex [SRV_LOCK]. *)
Record aesd_server : Type := Server {
  running : bool;
  s_buf_size_ : Z;
  s_char_dev_ : bool;
  s_output_path_ : string;
  port_ : string;
  sock_fd_ : Z;
  timer_ : Z;
  workers_ : slist_head
}.

(** The address of [g_srv.output_lock_]. *)
Definition SRV_LOCK : Z := 1.

(** ** The process *)

(** What arrives at a connected socket, in order: the bytes of one delivery, an
    error that [recv] reports, or the end, when the peer has shut its side down.
    When nothing is left the peer is connected and never sends again. *)
Inductive rx : Type :=
| RxData (bs : bytes)
| RxError
| RxEnd.

(** A connection: what is still to arrive, and everything sent on it. *)
Record conn : Type := Conn { inbox : list rx; sent : bytes }.

Inductive fdesc : Type :=
| FdFile (path : string) (pos : Z) (writable : bool)
| FdConn (id : Z)
| FdSocket (bound listening : bool)
| FdNull.                           (* [/dev/null] *)

Inductive log_event : Type :=
| LogListening (port : string)
| LogAccepted (addr : Z)
| LogClosed (addr : Z)
| LogStarting (daemon : bool) (path port : string) (char_device : bool)
| LogExiting (status : Z)
| LogSignal.

Record world (F : Type) : Type := World {
  mem : heap;
  workers : gmap Z aesd_worker;
  wentries : gmap Z aesd_worker_entry;
  mutexes : gmap Z bool;           (* held or not *)
  threads : gmap Z Z;              (* not yet joined, with their argument *)
  timers : gmap Z bool;            (* by id: armed or not *)
  files : gmap string F;
  fds : gmap Z fdesc;
  conns : gmap Z conn;
  logs : list log_event;
  srv : aesd_server
}.
Arguments World {F}.
Arguments mem {F}.
Arguments workers {F}.
Arguments wentries {F}.
Arguments mutexes {F}.
Arguments threads {F}.
Arguments timers {F}.
Arguments files {F}.
Arguments fds {F}.
Arguments conns {F}.
Arguments logs {F}.
Arguments srv {F}.

Section updates.
Context {F : Type}.
Implicit Types w : world F.

Definition set_mem x (w : world F) : world F := World x (workers w) (wentries w) (mutexes w) (threads w)
  (timers w) (files w) (fds w) (conns w) (logs w) (srv w).
Definition set_workers x (w : world F) : world F := World (mem w) x (wentries w) (mutexes w) (threads w)
  (timers w) (files w) (fds w) (conns w) (logs w) (srv w).
Definition set_wentries x (w : world F) : world F := World (mem w) (workers w) x (mutexes w) (threads w)
  (timers w) (files w) (fds w) (conns w) (logs w) (srv w).
Definition set_mutexes x (w : world F) : world F := World (mem w) (workers w) (wentries w) x (threads w)
  (timers w) (files w) (fds w) (conns w) (logs w) (srv w).
Definition set_threads x (w : world F) : world F := World (mem w) (workers w) (wentries w) (mutexes w) x
  (timers w) (files w) (fds w) (conns w) (logs w) (srv w).
Definition set_timers x (w : world F) : world F := World (mem w) (workers w) (wentries w) (mutexes w) (threads w)
  x (files w) (fds w) (conns w) (logs w) (srv w).
Definition set_files x (w : world F) : world F := World (mem w) (workers w) (wentries w) (mutexes w) (threads w)
  (timers w) x (fds w) (conns w) (logs w) (srv w).
Definition set_fds x (w : world F) : world F := World (mem w) (workers w) (wentries w) (mutexes w) (threads w)
  (timers w) (files w) x (conns w) (logs w) (srv w).
Definition set_conns x (w : world F) : world F := World (mem w) (workers w) (wentries w) (mutexes w) (threads w)
  (timers w) (files w) (fds w) x (logs w) (srv w).
Definition set_logs x (w : world F) : world F := World (mem w) (workers w) (wentries w) (mutexes w) (threads w)
  (timers w) (files w) (fds w) (conns w) x (srv w).
Definition set_srv x (w : world F) : world F := World (mem w) (workers w) (wentries w) (mutexes w) (threads w)
  (timers w) (files w) (fds w) (conns w) (logs w) x.

End updates.

(** ** Calls of the system *)

(** An [addrinfo]: one address to try. *)
Definition addrinfo : Type := Z.

(** The calls with an outcome the process does not control, and the reads of
    flags another thread or a signal handler sets. *)
Inductive pquery : Type :=
| QMallocWorker                          (* address, and what is there *)
| QMallocEntry                           (* address, and what is there *)
| QMalloc (n : Z)                        (* address, and what is there *)
| QOpen (path : string) (writable : bool)
| QClose (fd : Z)
| QWrite (fd : Z) (data : bytes)
| QReadFails (fd : Z)
| QSend (fd : Z) (data : bytes)          (* [None]: [SIGPIPE] is raised *)
| QShutdown (self : Z)
| QExited (self : Z)
| QStopped                               (* a signal cleared [running] *)
| QThreadCreate                          (* error number, thread id *)
| QThreadJoin (tid : Z)
| QGetaddrinfo (port : string)           (* error, the addresses *)
| QSocket (ai : addrinfo)
| QSetsockopt (fd : Z)
| QBind (fd : Z) (ai : addrinfo)
| QListen (fd backlog : Z)
| QAccept (fd : Z)                       (* fd, address, connection, arrivals *)
| QUnlink (path : string)
| QSigaction
| QTimerCreate                           (* result, timer id *)
| QTimerSettime (id : Z)
| QTimerDelete (id : Z)
| QTimestamp.                            (* the formatted time *)

Definition panswer (q : pquery) : Type :=
  match q with
  | QOpen _ _ | QClose _ | QWrite _ _ | QThreadJoin _
  | QSocket _ | QSetsockopt _ | QBind _ _ | QListen _ _ | QUnlink _ | QSigaction
  | QTimerSettime _ | QTimerDelete _ => Z
  | QSend _ _ => option Z
  | QMallocWorker => Z * aesd_worker
  | QMallocEntry => Z * aesd_worker_entry
  | QMalloc _ => Z * bytes
  | QReadFails _ | QShutdown _ | QExited _ | QStopped => bool
  | QThreadCreate | QTimerCreate => Z * Z
  | QGetaddrinfo _ => Z * list addrinfo
  | QAccept _ => Z * Z * Z * list rx
  | QTimestamp => bytes
  end.

Definition P (F : Type) : sig := {| st := world F; query := pquery; answer := panswer |}.

Section calls.
Context {F : Type} `{OutputFile F}.

Abbreviation proc := (prog (P F)).

Definition file_writable (fd : Z) (w : world F) : bool :=
  match fds w !! fd with Some (FdFile _ _ wr) => wr | _ => false end.

Definition transfer (data : bytes) (r : Z) : Prop :=
  r = -1 \/ (0 <= r <= Z.of_nat (length data) /\ (data <> [] -> 0 < r)).

(** What the C library and the system promise:
    - an allocation is null or the address of a new block;
    - a descriptor is [-1] or new; [open] without [O_CREAT] finds the file;
    - a transfer is [-1] or at most what was asked for; some bytes are
      transferred when any are asked for; [send] may also find that the peer has
      closed the connection;
    - a timer is new, and one that exists can be deleted;
    - the other results are 0 or, on failure, the value documented for it. *)
Definition posix : contract (P F) := fun w q =>
  match q return panswer q -> Prop with
  | QMallocWorker => fun r => r.1 = 0 \/ (0 < r.1 /\ workers w !! r.1 = None)
  | QMallocEntry => fun r => r.1 = 0 \/ (0 < r.1 /\ wentries w !! r.1 = None)
  | QMalloc n => fun r =>
      r.1 = 0 \/ (0 < r.1 /\ mem w !! r.1 = None /\ length r.2 = Z.to_nat n)
  | QOpen path wr => fun fd =>
      fd = -1 \/ (0 <= fd /\ fds w !! fd = None /\ (wr = false -> is_Some (files w !! path)))
  | QClose _ => fun r => r = 0 \/ r = -1
  | QWrite fd data => transfer data
  | QSend fd data => fun r => forall n, r = Some n -> transfer data n
  | QReadFails _ | QShutdown _ | QExited _ | QStopped => fun _ => True
  | QThreadCreate => fun r => r.1 <> 0 \/ threads w !! r.2 = None
  | QThreadJoin _ => fun _ => True
  | QGetaddrinfo _ => fun _ => True
  | QSocket _ => fun fd => fd = -1 \/ (0 <= fd /\ fds w !! fd = None)
  | QSetsockopt _ | QBind _ _ | QListen _ _ => fun r => r = 0 \/ r = -1
  | QAccept _ => fun r =>
      let '(fd, _, id, _) := r in
      fd = -1 \/ (0 <= fd /\ fds w !! fd = None /\ conns w !! id = None)
  | QUnlink path => fun r => r = -1 \/ (r = 0 /\ is_Some (files w !! path))
  | QSigaction | QTimerSettime _ => fun r => r = 0 \/ r = -1
  | QTimerCreate => fun r => (r.1 = 0 /\ timers w !! r.2 = None) \/ r.1 = -1
  | QTimerDelete id => fun r => r = 0 \/ (r = -1 /\ timers w !! id = None)
  | QTimestamp => fun ts => (0 < length ts < 128)%nat
  end.

(** Nothing fails, every transfer is complete, and nobody asks for a
    shutdown. *)
Definition posix_ok : contract (P F) := fun w q a =>
  posix w q a /\
  match q return panswer q -> Prop with
  | QMallocWorker => fun r => r.1 <> 0
  | QMallocEntry | QMalloc _ => fun r => r.1 <> 0
  | QOpen path wr => fun fd => (wr = true \/ is_Some (files w !! path)) -> fd <> -1
  | QClose _ | QSigaction | QTimerSettime _ | QTimerDelete _ => fun r => r = 0
  | QWrite _ data => fun r => r = Z.of_nat (length data)
  | QSend _ data => fun r => r = Some (Z.of_nat (length data))
  | QReadFails _ | QShutdown _ => fun b => b = false
  | QThreadCreate => fun r => r.1 = 0
  | QSocket _ => fun fd => fd <> -1
  | QSetsockopt _ | QBind _ _ | QListen _ _ => fun r => r = 0
  | QAccept _ => fun '(fd, _, _, _) => fd <> -1
  | QUnlink path => fun r => is_Some (files w !! path) -> r = 0
  | _ => fun _ => True
  end a.

Lemma posix_ok_posix w q a : posix_ok w q a -> posix w q a.
Proof. by intros []. Qed.

(** A system on which nothing fails. *)
Definition uninit_worker : aesd_worker := Worker 0 0 false false 0 0 false 0 "".

Definition calm : env (P F) unit := fun w x q =>
  (match q return panswer q with
   | QMallocWorker => (next_key 0 (workers w), uninit_worker)
   | QMallocEntry => (next_key 0 (wentries w), WorkerEntry 0 0 0)
   | QMalloc n => (next_key 0 (mem w), zeros n)
   | QOpen path wr =>
       if wr || bool_decide (is_Some (files w !! path)) then next_key 0 (fds w) else -1
   | QClose _ | QThreadJoin _ | QSetsockopt _ | QBind _ _ | QListen _ _
   | QSigaction | QTimerSettime _ | QTimerDelete _ => 0
   | QWrite _ data => Z.of_nat (length data)
   | QSend _ data => Some (Z.of_nat (length data))
   | QReadFails _ | QShutdown _ | QExited _ | QStopped => false
   | QThreadCreate => (0, next_key 0 (threads w))
   | QGetaddrinfo _ => (0, [1])
   | QSocket _ => next_key 0 (fds w)
   | QAccept _ => (next_key 0 (fds w), 0, next_key 0 (conns w), [])
   | QUnlink path => if decide (is_Some (files w !! path)) then 0 else -1
   | QTimerCreate => (0, next_key 0 (timers w))
   | QTimestamp => [newline]
   end, x).

Lemma calm_fresh {A} (m : gmap Z A) : 0 < next_key 0 m /\ m !! next_key 0 m = None.
Proof. split; [apply next_key_gt | apply next_key_fresh]. Qed.

Lemma calm_open (w : world F) (path : string) (wr : bool) :
  wr = true \/ is_Some (files w !! path) ->
  wr || bool_decide (is_Some (files w !! path)) = true.
Proof. intros [->|Hf]; [done|]. rewrite bool_decide_true by done. apply orb_true_r. Qed.

Lemma calm_posix w x q : posix w q (calm w x q).1.
Proof.
  pose proof (calm_fresh (workers w)). pose proof (calm_fresh (wentries w)).
  pose proof (calm_fresh (mem w)). pose proof (calm_fresh (fds w)) as [Hfd Hfd'].
  pose proof (calm_fresh (threads w)) as [_ Ht]. pose proof (calm_fresh (conns w)) as [_ Hc].
  destruct q; cbn; try done; try (by left).
  - by right.
  - by right.
  - right. split_and!; [naive_solver..|]. unfold zeros. by rewrite length_replicate.
  - destruct (writable || _) eqn:Hw; [right|by left]. split_and!; [lia|done|].
    intros ->. by apply bool_decide_eq_true in Hw.
  - right. split; [lia|]. intros Hd. destruct data; [done|simpl; lia].
  - intros n [= <-]. right. split; [lia|]. intros Hd. destruct data; [done|simpl; lia].
  - by right.
  - right. split; [lia|done].
  - right. split_and!; [lia|done|done].
  - case_decide; [by right|by left].
  - left. split; [done|]. apply calm_fresh.
  - lia.
Qed.

Lemma calm_ok : respects posix_ok calm.
Proof.
  intros w x q. split; [apply calm_posix|].
  pose proof (calm_fresh (workers w)). pose proof (calm_fresh (wentries w)).
  pose proof (calm_fresh (mem w)). pose proof (calm_fresh (fds w)) as [Hfd Hfd'].
  destruct q; cbn; try done; try lia.
  - intros Hor. rewrite calm_open by done. lia.
  - by case_decide.
Qed.

Lemma calm_respects : respects posix calm.
Proof. intros w x q. apply calm_posix. Qed.

(** *** Memory *)

Definition heap_act {A} (f : heap -> res (A * heap)) : proc A :=
  act (S := P F) (fun w => '(a, m) ← f (mem w); mret (a, set_mem m w)).

Definition memset (p : Z) (c : Byte.byte) (n : Z) : proc unit :=
  heap_act (fun m => m ← store p 0 (replicate (Z.to_nat n) c) m; mret (tt, m)).

Definition fetch (p n : Z) : proc bytes :=
  heap_act (fun m => bs ← load p 0 n m; mret (bs, m)).

(** The offset of the first byte [c], if any. *)
Definition memchr (p : Z) (c : Byte.byte) (n : Z) : proc (option Z) :=
  bs ← fetch p n;
  mret ((fun '(i, _) => Z.of_nat i) <$> list_find (eq c) bs).

Definition free (p : Z) : proc unit :=
  if p =? 0 then mret tt
  else heap_act (fun m => m ← release p m; mret (tt, m)).

(** [*self] of a worker, and of a list entry. *)
Definition worker_at (self : Z) : proc aesd_worker :=
  act (S := P F) (fun w =>
    if self =? 0 then Err NullDeref
    else match workers w !! self with Some k => Ok (k, w) | None => Err OutOfBounds end).

Definition set_worker (self : Z) (k : aesd_worker) : proc unit :=
  modify (S := P F) (fun w => set_workers (<[self := k]> (workers w)) w).

(** A store to one member of [*self]; the others stay what they are by then. *)
Definition store_worker (self : Z) (f : aesd_worker -> aesd_worker) : proc unit :=
  act (S := P F) (fun w =>
    if self =? 0 then Err NullDeref
    else match workers w !! self with
         | Some k => Ok (tt, set_workers (<[self := f k]> (workers w)) w)
         | None => Err OutOfBounds
         end).

Definition entry_at (self : Z) : proc aesd_worker_entry :=
  act (S := P F) (fun w => e ← elem_at (wentries w) self; mret (e, w)).

Definition upd_srv (f : aesd_server -> aesd_server) : proc unit :=
  modify (S := P F) (fun w => set_srv (f (srv w)) w).

Definition get_srv {A} (f : aesd_server -> A) : proc A :=
  get (S := P F) (fun w => f (srv w)).

(** *** Mutexes *)

(** Locking a mutex that is held waits for its holder, which for a caller
    alone is a deadlock. *)
Definition pthread_mutex_lock (m : Z) : proc unit :=
  act (S := P F) (fun w =>
    match mutexes w !! m with
    | Some false => Ok (tt, set_mutexes (<[m := true]> (mutexes w)) w)
    | Some true => Err Deadlock
    | None => Err OutOfBounds
    end).

Definition pthread_mutex_unlock (m : Z) : proc unit :=
  act (S := P F) (fun w =>
    match mutexes w !! m with
    | Some true => Ok (tt, set_mutexes (<[m := false]> (mutexes w)) w)
    | _ => Err BadUnlock
    end).

Definition pthread_mutex_init (m : Z) : proc unit :=
  modify (S := P F) (fun w => set_mutexes (<[m := false]> (mutexes w)) w).

(** Destroying a mutex that is held is undefined. *)
Definition pthread_mutex_destroy (m : Z) : proc unit :=
  act (S := P F) (fun w =>
    match mutexes w !! m with
    | Some false => Ok (tt, set_mutexes (delete m (mutexes w)) w)
    | _ => Err BadUnlock
    end).

(** *** Timers *)

Definition timer_create : proc (Z * Z) :=
  '(r, id) ← ask (S := P F) QTimerCreate;
  if r =? -1 then mret (-1, 0)
  else
    modify (S := P F) (fun w => set_timers (<[id := false]> (timers w)) w);;
    mret (r, id).

(** Arming a timer; the program never disarms one. *)
Definition timer_settime (id : Z) : proc Z :=
  r ← ask (S := P F) (QTimerSettime id);
  if (r : Z) =? -1 then mret (-1)
  else
    modify (S := P F) (fun w => set_timers (<[id := true]> (timers w)) w);;
    mret (r : Z).

Definition timer_delete (id : Z) : proc Z :=
  r ← ask (S := P F) (QTimerDelete id);
  if (r : Z) =? -1 then mret (-1)
  else
    modify (S := P F) (fun w => set_timers (delete id (timers w)) w);;
    mret (r : Z).

(** *** Files and sockets *)

Definition file_of (path : string) (w : world F) : F :=
  default of_new (files w !! path).

(** [open(path, O_WRONLY | O_CREAT | O_APPEND, 0644)] and
    [open(path, O_RDONLY)]. *)
Definition open (path : string) (writable : bool) : proc Z :=
  fd ← ask (S := P F) (QOpen path writable);
  if (fd : Z) =? -1 then mret (-1)
  else
    modify (S := P F) (fun w =>
      set_fds (<[fd := FdFile path 0 writable]> (fds w))
        (if writable then set_files (<[path := file_of path w]> (files w)) w else w));;
    mret (fd : Z).

(** A descriptor is released even when [close] reports an error. *)
Definition close (fd : Z) : proc Z :=
  r ← ask (S := P F) (QClose fd);
  modify (S := P F) (fun w => set_fds (delete fd (fds w)) w);;
  mret (r : Z).

(** [write] of [data] to a file opened with [O_APPEND]. *)
Definition write_bytes (fd : Z) (data : bytes) : proc Z :=
  ok ← get (S := P F) (file_writable fd);
  if negb ok then mret (-1)
  else
    r ← ask (S := P F) (QWrite fd data);
    if (r : Z) =? -1 then mret (-1)
    else
      modify (S := P F) (fun w =>
        match fds w !! fd with
        | Some (FdFile path _ _) =>
            set_files (<[path := of_write (file_of path w) (take (Z.to_nat r) data)]> (files w)) w
        | _ => w
        end);;
      mret (r : Z).

Definition write (fd p n : Z) : proc Z :=
  data ← fetch p n; write_bytes fd data.

(** The bytes [read] gives, and the offset they are read at. *)
Definition read_at (fd n : Z) (w : world F) : option (string * Z * bool * bytes) :=
  match fds w !! fd with
  | Some (FdFile path pos wr) => Some (path, pos, wr, of_read (file_of path w) pos n)
  | _ => None
  end.

Definition read (fd p n : Z) : proc Z :=
  fails ← ask (S := P F) (QReadFails fd);
  if (fails : bool) then mret (-1)
  else
    act (S := P F) (fun w =>
      match read_at fd n w with
      | None => Ok (-1, w)
      | Some (path, pos, wr, out) =>
          m ← store p 0 out (mem w);
          let k := Z.of_nat (length out) in
          mret (k, set_mem m (set_fds (<[fd := FdFile path (pos + k) wr]> (fds w)) w))
      end).

(** One [recv] of at most [n] bytes: what it delivers ([None] is an error) and
    what is left to arrive. It delivers no bytes at the end, however often it is
    called, and does not return when nothing arrives. *)
Definition recv_step (n : nat) (l : list rx) : option (option bytes * list rx) :=
  match l with
  | [] => None
  | RxEnd :: _ => Some (Some [], l)
  | RxError :: l => Some (None, l)
  | RxData bs :: l =>
      Some (Some (take n bs),
            if bool_decide (length bs <= n)%nat then l else RxData (drop n bs) :: l)
  end.

Definition conn_of (fd : Z) (w : world F) : option (Z * conn) :=
  match fds w !! fd with
  | Some (FdConn id) => c ← conns w !! id; Some (id, c)
  | _ => None
  end.

Definition recv (fd p n : Z) : proc Z :=
  act (S := P F) (fun w =>
    match conn_of fd w with
    | None => Ok (-1, w)
    | Some (id, c) =>
        match recv_step (Z.to_nat n) (inbox c) with
        | None => Err Silent
        | Some (out, rest) =>
            let w := set_conns (<[id := Conn rest (sent c)]> (conns w)) w in
            match out with
            | None => Ok (-1, w)
            | Some bs => m ← store p 0 bs (mem w); mret (Z.of_nat (length bs), set_mem m w)
            end
        end
    end).

(** A peer that has closed the connection: [SIGPIPE] is raised, and its default
    action ends the process. *)
Definition send (fd p n : Z) : proc Z :=
  data ← fetch p n;
  c ← get (S := P F) (conn_of fd);
  match c with
  | None => mret (-1)
  | Some (id, c) =>
      sent_bytes ← ask (S := P F) (QSend fd data);
      match sent_bytes : option Z with
      | None => Crash Killed
      | Some r =>
          if r =? -1 then mret (-1)
          else
            modify (S := P F) (fun w =>
              match conns w !! id with
              | Some c =>
                  set_conns (<[id := Conn (inbox c) (sent c ++ take (Z.to_nat r) data)]> (conns w)) w
              | None => w
              end);;
            mret r
      end
  end.

Definition unlink (path : string) : proc Z :=
  r ← ask (S := P F) (QUnlink path);
  if (r : Z) =? 0 then
    modify (S := P F) (fun w => set_files (delete path (files w)) w);; mret 0
  else mret (r : Z).

(** A socket for listening. *)
Definition set_fd (fd : Z) (d : fdesc) : proc unit :=
  modify (S := P F) (fun w => set_fds (<[fd := d]> (fds w)) w).

Definition socket (ai : addrinfo) : proc Z :=
  fd ← ask (S := P F) (QSocket ai);
  if (fd : Z) =? -1 then mret (-1)
  else set_fd fd (FdSocket false false);; mret (fd : Z).

Definition bind (fd : Z) (ai : addrinfo) : proc Z :=
  r ← ask (S := P F) (QBind fd ai);
  if (r : Z) =? -1 then mret (-1)
  else set_fd fd (FdSocket true false);; mret (r : Z).

Definition listen (fd backlog : Z) : proc Z :=
  r ← ask (S := P F) (QListen fd backlog);
  if (r : Z) =? -1 then mret (-1)
  else set_fd fd (FdSocket true true);; mret (r : Z).

(** The descriptor and the peer's address. *)
Definition accept (fd : Z) : proc (Z * Z) :=
  '(cfd, addr, id, arrivals) ← ask (S := P F) (QAccept fd);
  if cfd =? -1 then mret (-1, 0)
  else
    set_fd cfd (FdConn id);;
    modify (S := P F) (fun w => set_conns (<[id := Conn arrivals []]> (conns w)) w);;
    mret (cfd, addr).

Definition syslog (e : log_event) : proc unit :=
  modify (S := P F) (fun w => set_logs (logs w ++ [e]) w).

End calls.

#[export] Hint Resolve calm_ok calm_respects : envs.

End Process.
