(* ===== verification/Worker.v ===== *)
(** * Worker threads: model

    [server/src/aesd_worker.c] and [server/include/aesdsocket/aesd_worker.h]:
    a worker receives one message, appends it to the output file, sends the
    whole file back and closes the connection. *)

From S2P Require Import Prelude Process.
Export Process.

Module Worker.

Section worker.
Context {F : Type} `{OutputFile F}.

Abbreviation proc := (prog (P F)).

(** ** Flags *)

Definition set_exited (k : aesd_worker) : aesd_worker :=
  Worker (client_addr k) (client_fd k) true (shutdown k) (buf_ k) (buf_size_ k)
    (char_dev_ k) (output_lock_ k) (output_path_ k).

Definition set_shutdown (k : aesd_worker) : aesd_worker :=
  Worker (client_addr k) (client_fd k) (exited k) true (buf_ k) (buf_size_ k)
    (char_dev_ k) (output_lock_ k) (output_path_ k).

Definition set_client (fd addr : Z) (k : aesd_worker) : aesd_worker :=
  Worker addr fd (exited k) (shutdown k) (buf_ k) (buf_size_ k)
    (char_dev_ k) (output_lock_ k) (output_path_ k).

(** [self->shutdown] and [self->exited] are set by other threads and never
    reset: a read sees the flag set if it was before, and otherwise if another
    thread has stored it by then. *)
Definition load_shutdown (self : Z) : proc bool :=
  k ← worker_at self;
  if shutdown k then mret true
  else
    stored ← ask (S := P F) (QShutdown self);
    if (stored : bool) then store_worker self set_shutdown;; mret true
    else mret false.

Definition load_exited (self : Z) : proc bool :=
  k ← worker_at self;
  if exited k then mret true
  else
    stored ← ask (S := P F) (QExited self);
    if (stored : bool) then store_worker self set_exited;; mret true
    else mret false.

(** ** receive_data *)

(** The [while] loop; the result is [error]. *)
Fixpoint receive_loop (fuel : nat) (self output_fd : Z) : proc bool :=
  match fuel with
  | O => Crash OutOfFuel
  | S fuel =>
      stop ← load_shutdown self;
      if (stop : bool) then mret false
      else
        k ← worker_at self;
        memset (buf_ k) nul (buf_size_ k);;
        r ← recv (client_fd k) (buf_ k) (buf_size_ k);
        if r =? -1 then mret true
        else
          search_result ← memchr (buf_ k) newline (buf_size_ k);
          let n := match search_result : option Z with
                   | Some i => u64 (i + 1)
                   | None => buf_size_ k
                   end in
          r ← write output_fd (buf_ k) n;
          if r =? -1 then mret true
          else if bool_decide (is_Some search_result) then mret false
          else receive_loop fuel self output_fd
  end.

Definition receive_data (fuel : nat) (self : Z) : proc bool :=
  k ← worker_at self;
  pthread_mutex_lock (output_lock_ k);;
  output_fd ← open (output_path_ k) true;
  error ←
    (if output_fd =? -1 then mret true
     else
       error ← receive_loop fuel self output_fd;
       close output_fd;;
       mret error);
  pthread_mutex_unlock (output_lock_ k);;
  if (error : bool) then mret false
  else stop ← load_shutdown self; mret (negb stop).

(** ** send_response *)

(** The [while] loop; [false] is the jump to [out_close_file]. *)
Fixpoint send_loop (fuel : nat) (self output_fd : Z) : proc bool :=
  match fuel with
  | O => Crash OutOfFuel
  | S fuel =>
      stop ← load_shutdown self;
      if (stop : bool) then mret true
      else
        k ← worker_at self;
        n ← read output_fd (buf_ k) (buf_size_ k);
        if n =? -1 then mret false
        else
          r ← send (client_fd k) (buf_ k) n;
          if r =? -1 then mret false
          else if n =? 0 then mret true
          else send_loop fuel self output_fd
  end.

Definition send_response (fuel : nat) (self : Z) : proc bool :=
  k ← worker_at self;
  pthread_mutex_lock (output_lock_ k);;
  output_fd ← open (output_path_ k) false;
  result ←
    (if output_fd =? -1 then mret false
     else
       sent ← send_loop fuel self output_fd;
       result ← (if (sent : bool) then stop ← load_shutdown self; mret (negb stop)
                 else mret false);
       close output_fd;;
       mret result);
  pthread_mutex_unlock (output_lock_ k);;
  mret result.

(** ** The thread *)

Definition close_client (self : Z) : proc unit :=
  k ← worker_at self;
  if client_fd k >=? 0 then
    close (client_fd k);;
    syslog (LogClosed (client_addr k))
  else mret tt.

Definition aesd_worker_main (fuel : nat) (self : Z) : proc unit :=
  received ← receive_data fuel self;
  (if (received : bool) then send_response fuel self;; mret tt else mret tt);;
  close_client self;;
  store_worker self set_exited.

(** ** Allocation *)

Definition drop_worker (self : Z) : proc unit :=
  modify (S := P F) (fun w => set_workers (delete self (workers w)) w).

Definition aesd_worker_new (buf_size : Z) (char_dev : bool) (output_path : string)
    (output_lock : Z) : proc Z :=
  '(self, uninit) ← ask (S := P F) QMallocWorker;
  if self =? 0 then mret 0
  else
    set_worker self uninit;;
    '(buf, garbage) ← ask (S := P F) (QMalloc buf_size);
    if buf =? 0 then drop_worker self;; mret 0
    else
      heap_act (fun m => Ok (tt, <[buf := garbage]> m));;
      set_worker self
        (Worker 0 (-1) false false buf buf_size char_dev output_lock output_path);;
      mret self.

Definition aesd_worker_delete (self : Z) : proc unit :=
  k ← worker_at self;
  free (buf_ k);;
  drop_worker self.

(** ** List entries *)

Definition aesd_worker_entry_new (wk : Z) : proc Z :=
  '(self, e) ← ask (S := P F) QMallocEntry;
  if self =? 0 then mret 0
  else
    modify (S := P F) (fun w =>
      set_wentries (<[self := WorkerEntry (tid e) wk (entries e)]> (wentries w)) w);;
    mret self.

Definition aesd_worker_entry_delete (self : Z) : proc unit :=
  e ← entry_at self;
  aesd_worker_delete (worker e);;
  modify (S := P F) (fun w => set_wentries (delete self (wentries w)) w).

(** The new thread is recorded; it runs [aesd_worker_main] on the entry's
    worker. *)
Definition aesd_worker_entry_start (self : Z) : proc bool :=
  e ← entry_at self;
  '(error, id) ← ask (S := P F) QThreadCreate;
  if error =? 0 then
    modify (S := P F) (fun w =>
      set_threads (<[id := worker e]> (threads w))
        (set_wentries (<[self := WorkerEntry id (worker e) (entries e)]> (wentries w)) w));;
    mret true
  else mret false.

(** Joining a thread that is not running, or joined before, is undefined. *)
Definition aesd_worker_entry_join (self : Z) : proc unit :=
  e ← entry_at self;
  _ ← ask (S := P F) (QThreadJoin (tid e));
  act (S := P F) (fun w =>
    match threads w !! tid e with
    | Some _ => Ok (tt, set_threads (delete (tid e) (threads w)) w)
    | None => Err OutOfBounds
    end).

End worker.
End Worker.
