(* ===== verification/WorkerSpec.v ===== *)
(** * Worker threads: specification and rules

    What a worker makes of the bytes that arrive ([received]), the states it
    passes through while it holds the output file's mutex, and the weakest
    preconditions of its calls there. *)

From S2P Require Import Prelude Process Worker.

Module WorkerSpec.
Import Memory OutputFile Process Worker.

(** ** What arrives, and what is made of it *)

(** The buffer after a delivery of [bs]: it was zeroed before. *)
Definition padded (n : nat) (bs : bytes) : bytes :=
  bs ++ replicate (n - length bs) nul.

(** The bytes up to the first newline, with it. *)
Definition cut (bs : bytes) : option bytes :=
  (fun '(i, _) => take (S i) bs) <$> list_find (eq newline) bs.

Inductive ending : Type := Complete | Failed.
#[export] Instance ending_eq_dec : EqDecision ending.
Proof. solve_decision. Defined.

(** The blocks a worker with a buffer of [n] bytes writes for the arrivals [l]
    until one holds a newline or [recv] fails, and what is left to arrive. *)
Inductive received (n : nat) : list rx -> list bytes -> ending -> list rx -> Prop :=
| received_failed l l' :
    recv_step n l = Some (None, l') -> received n l [] Failed l'
| received_last l l' bs b :
    recv_step n l = Some (Some bs, l') -> cut bs = Some b -> received n l [b] Complete l'
| received_more l l1 l' bs e blocks :
    recv_step n l = Some (Some bs, l1) -> cut bs = None ->
    received n l1 blocks e l' -> received n l (padded n bs :: blocks) e l'.

Lemma cut_none bs : cut bs = None <-> newline ∉ bs.
Proof.
  unfold cut. rewrite fmap_None, list_find_None, Forall_forall. split.
  - intros Hf Hn. by apply (Hf newline).
  - intros Hn x Hx <-. done.
Qed.

Lemma cut_some bs b :
  cut bs = Some b <-> (exists msg extra, bs = msg ++ (newline :: extra)
                        /\ (newline ∉ msg) /\ b = (msg ++ [newline])).
Proof.
  unfold cut. rewrite fmap_Some. split.
  - intros ([i x] & Hf & ->). apply list_find_Some in Hf as (Hi & <- & Hb).
    exists (take i bs), (drop (S i) bs). split; [by rewrite take_drop_middle|].
    split; [|by rewrite (take_S_r _ _ newline)].
    intros [j Hj]%list_elem_of_lookup. apply lookup_take_Some in Hj as [Hj Hlt].
    by apply (Hb j newline).
  - intros (msg & extra & -> & Hm & ->). exists (length msg, newline). split.
    + apply list_find_Some. split; [by apply list_lookup_middle|]. split; [done|].
      intros j y Hj Hlt <-. apply Hm. rewrite lookup_app_l in Hj by done.
      by eapply list_elem_of_lookup_2.
    + replace (S (length msg)) with (length (msg ++ [newline])) by (rewrite length_app; simpl; lia).
      rewrite (cons_middle newline msg extra), app_assoc. by rewrite take_app_length.
Qed.

Lemma recv_step_length n l bs l' : recv_step n l = Some (Some bs, l') -> (length bs <= n)%nat.
Proof. destruct l as [|[] l]; intros [= <- <-]; [|simpl; lia]. rewrite length_take. lia. Qed.

(** The zero bytes of the buffer hold no newline. *)
Lemma find_padded n bs :
  list_find (eq newline) (padded n bs) = list_find (eq newline) bs.
Proof.
  unfold padded. destruct (list_find (eq newline) bs) as [[i x]|] eqn:Hf.
  - by apply list_find_app_l.
  - rewrite list_find_app_r by done. replace (list_find _ (replicate _ _)) with (@None (nat * Byte.byte)); [done|].
    symmetry. apply list_find_None, Forall_replicate. done.
Qed.

(** ** The states of a worker *)

Section states.
Context {F : Type} `{OutputFileLaws F}.
Implicit Types (w : world F) (k : aesd_worker).

(** [self] is a worker with a buffer and a connection, and the mutex of its
    output is free. *)
Record ready (w : world F) (self : Z) (k : aesd_worker) (id : Z) (c : conn) : Prop := Ready {
  rd_self : self <> 0;
  rd_worker : workers w !! self = Some k;
  rd_buf : buf_ k <> 0;
  rd_mem : exists bs, mem w !! buf_ k = Some bs /\ Z.of_nat (length bs) = buf_size_ k;
  rd_size : 0 < buf_size_ k < 2 ^ 63;
  rd_lock : mutexes w !! output_lock_ k = Some false;
  rd_fd : fds w !! client_fd k = Some (FdConn id);
  rd_fd0 : 0 <= client_fd k;
  rd_conn : conns w !! id = Some c;
  rd_run : shutdown k = false
}.

(** The same with the flag set that asks the worker to stop. *)
Definition flagged (self : Z) (k : aesd_worker) (stopped : bool) (w : world F) : world F :=
  if stopped then set_workers (<[self := set_shutdown k]> (workers w)) w else w.

(** The state inside the critical region: the output open as [fd], its
    contents, the connection and the buffer. *)
Definition working (w : world F) (k : aesd_worker) (id fd pos : Z) (wr : bool)
    (f : F) (c : conn) (bs : bytes) : world F :=
  World (<[buf_ k := bs]> (mem w)) (workers w) (wentries w)
    (<[output_lock_ k := true]> (mutexes w)) (threads w) (timers w)
    (<[output_path_ k := f]> (files w))
    (<[fd := FdFile (output_path_ k) pos wr]> (fds w))
    (<[id := c]> (conns w)) (logs w) (srv w).

(** The state after it. *)
Definition worked (w : world F) (k : aesd_worker) (id : Z) (f : F) (c : conn)
    (bs : bytes) : world F :=
  World (<[buf_ k := bs]> (mem w)) (workers w) (wentries w) (mutexes w) (threads w) (timers w)
    (<[output_path_ k := f]> (files w)) (fds w) (<[id := c]> (conns w)) (logs w) (srv w).

Section rules.
Context (C : contract (P F)) (HC : forall w q a, C w q a -> posix w q a).
Context (w : world F) (self : Z) (k : aesd_worker) (id : Z) (c0 : conn) (fd : Z).
Context (Hr : ready w self k id c0) (Hfd : fds w !! fd = None).

Abbreviation size := (Z.to_nat (buf_size_ k)).

(** The contract allows the answer at some time. *)
Definition may (q : pquery) (a : panswer q) : Prop := exists w', C w' q a.

Lemma wp_worker_at w' Q :
  workers w' = workers w -> Q k w' -> wp C (worker_at self) Q w'.
Proof.
  intros Hw HQ. eapply wp_act; [|exact HQ].
  by rewrite (proj2 (Z.eqb_neq _ _) (rd_self _ _ _ _ _ Hr)), Hw, (rd_worker _ _ _ _ _ Hr).
Qed.

Lemma wp_store_worker w' a k' h (Q : unit -> world F -> Prop) :
  a <> 0 -> workers w' !! a = Some k' ->
  Q tt (set_workers (<[a := h k']> (workers w')) w') -> wp C (store_worker a h) Q w'.
Proof. intros Ha Hk HQ. eapply wp_act; [|exact HQ]. by rewrite (proj2 (Z.eqb_neq _ _) Ha), Hk. Qed.

(** The flag may have been set by then. *)
Lemma wp_load_shutdown w' (Q : bool -> world F -> Prop) :
  workers w' = workers w ->
  (may (QShutdown self) true -> Q true (flagged self k true w')) ->
  Q false w' ->
  wp C (load_shutdown self) Q w'.
Proof.
  intros Hw Ht Hf. unfold load_shutdown. wp_step. apply wp_worker_at; [done|].
  rewrite (rd_run _ _ _ _ _ Hr). wp_step. apply (wp_ask (S := P F)). intros [] Ha.
  - wp_step. eapply wp_store_worker; [apply (rd_self _ _ _ _ _ Hr)|rewrite Hw; apply (rd_worker _ _ _ _ _ Hr)|].
    wp_steps. apply Ht. by exists w'.
  - by apply wp_ret.
Qed.

Lemma wp_load_shutdown_set w' (Q : bool -> world F -> Prop) :
  workers w' = workers w -> Q true (flagged self k true w') ->
  wp C (load_shutdown self) Q (flagged self k true w').
Proof.
  intros Hw Ht. unfold load_shutdown. wp_step. eapply wp_act.
  { rewrite (proj2 (Z.eqb_neq _ _) (rd_self _ _ _ _ _ Hr)). cbn.
    by rewrite lookup_insert_eq. }
  by apply wp_ret.
Qed.

Lemma wp_memset pos wr f c bs (Q : unit -> world F -> Prop) :
  length bs = size ->
  Q tt (working w k id fd pos wr f c (padded size [])) ->
  wp C (memset (buf_ k) nul (buf_size_ k)) Q (working w k id fd pos wr f c bs).
Proof.
  intros Hl HQ. eapply wp_act; [|exact HQ].
  erewrite store_within; [| apply lookup_insert_eq | apply (rd_buf _ _ _ _ _ Hr) | done |].
  - cbn [mbind res_bind]. rewrite length_replicate. cbn [Z.to_nat take app].
    rewrite drop_ge by (rewrite Hl; lia).
    unfold working, set_mem, padded; cbn. by rewrite insert_insert_eq, app_nil_r, Nat.sub_0_r.
  - rewrite length_replicate, Hl. lia.
Qed.

Lemma fd_not_client : fd <> client_fd k.
Proof. intros ->. pose proof (rd_fd _ _ _ _ _ Hr). congruence. Qed.

Lemma conn_working pos wr f c bs :
  conn_of (client_fd k) (working w k id fd pos wr f c bs) = Some (id, c).
Proof.
  unfold conn_of, working; cbn [fds conns]. rewrite lookup_insert_ne by apply fd_not_client.
  rewrite (rd_fd _ _ _ _ _ Hr), lookup_insert_eq. done.
Qed.

Lemma wp_recv pos wr f c (Q : Z -> world F -> Prop) :
  recv_step size (inbox c) <> None ->
  (forall l', recv_step size (inbox c) = Some (None, l') ->
     Q (-1) (working w k id fd pos wr f (Conn l' (sent c)) (padded size []))) ->
  (forall bs l', recv_step size (inbox c) = Some (Some bs, l') ->
     Q (Z.of_nat (length bs)) (working w k id fd pos wr f (Conn l' (sent c)) (padded size bs))) ->
  wp C (recv (client_fd k) (buf_ k) (buf_size_ k)) Q
    (working w k id fd pos wr f c (padded size [])).
Proof.
  intros Hne Hn Hs. unfold recv. destruct (recv_step size (inbox c)) as [[[bs|] l']|] eqn:Hst; [| |done].
  - eapply wp_act; [|by apply (Hs bs l')]. cbv beta. rewrite conn_working, Hst.
    apply recv_step_length in Hst.
    erewrite store_within; [| apply lookup_insert_eq | apply (rd_buf _ _ _ _ _ Hr) | done |].
    + cbn [mbind res_bind]. unfold padded; cbn [app Z.to_nat take Nat.sub length].
      rewrite drop_replicate, Nat.sub_0_r.
      unfold working, set_mem, set_conns; cbn. by rewrite !insert_insert_eq.
    + unfold padded. cbn. rewrite length_replicate. lia.
  - eapply wp_act; [|by apply (Hn l')]. cbv beta. rewrite conn_working, Hst.
    unfold set_conns, working; cbn. by rewrite insert_insert_eq.
Qed.

Lemma wp_fetch pos wr f c bs n (Q : bytes -> world F -> Prop) :
  0 <= n <= Z.of_nat (length bs) ->
  Q (take (Z.to_nat n) bs) (working w k id fd pos wr f c bs) ->
  wp C (fetch (buf_ k) n) Q (working w k id fd pos wr f c bs).
Proof.
  intros Hn HQ. eapply wp_act; [|exact HQ].
  erewrite load_within; [| apply lookup_insert_eq | apply (rd_buf _ _ _ _ _ Hr) | done | lia | lia].
  cbn [mbind res_bind]. by rewrite drop_0.
Qed.

Lemma wp_memchr pos wr f c bs (Q : option Z -> world F -> Prop) :
  length bs = size ->
  Q ((fun '(i, _) => Z.of_nat i) <$> list_find (eq newline) bs)
    (working w k id fd pos wr f c bs) ->
  wp C (memchr (buf_ k) newline (buf_size_ k)) Q (working w k id fd pos wr f c bs).
Proof.
  intros Hl HQ. unfold memchr. wp_step. apply wp_fetch.
  - pose proof (rd_size _ _ _ _ _ Hr). lia.
  - apply wp_ret. by rewrite <- Hl, firstn_all.
Qed.

Lemma wp_write pos f c bs n (Q : Z -> world F -> Prop) :
  0 < n <= Z.of_nat (length bs) ->
  (may (QWrite fd (take (Z.to_nat n) bs)) (-1) ->
     Q (-1) (working w k id fd pos true f c bs)) ->
  (forall r, 0 < r <= n ->
     C (working w k id fd pos true f c bs) (QWrite fd (take (Z.to_nat n) bs)) r ->
     Q r (working w k id fd pos true (of_write f (take (Z.to_nat r) bs)) c bs)) ->
  wp C (write fd (buf_ k) n) Q (working w k id fd pos true f c bs).
Proof.
  intros Hn Hf Hs. unfold write. wp_step. apply wp_fetch; [lia|]. unfold write_bytes. wp_steps.
  unfold file_writable at 1. cbn [fds working]. rewrite lookup_insert_eq. cbn [negb].
  wp_step. apply (wp_ask (S := P F)). intros r HCr. cbn in r.
  destruct (Z.eqb_spec r (-1)) as [->|Hr1]; [by apply wp_ret, Hf; eexists|].
  destruct (HC _ _ _ HCr) as [?|[Hb Hpos]]; [done|].
  rewrite length_take in Hb.
  assert (0 < r <= n) as Hrn.
  { split; [|lia]. apply Hpos. intros He. apply (f_equal length) in He.
    rewrite length_take in He. simpl in He. lia. }
  wp_steps. cbn [fds working]. rewrite lookup_insert_eq.
  specialize (Hs r Hrn HCr). revert Hs. rewrite take_take.
  replace (Z.to_nat r `min` Z.to_nat n)%nat with (Z.to_nat r) by lia.
  unfold set_files, file_of, working; cbn. by rewrite insert_insert_eq, lookup_insert_eq.
Qed.

Lemma wp_read pos f c bs (Q : Z -> world F -> Prop) :
  length bs = size -> 0 <= pos ->
  (may (QReadFails fd) true ->
     Q (-1) (working w k id fd pos false f c bs)) ->
  (let out := of_read f pos (buf_size_ k) in
   Q (Z.of_nat (length out))
     (working w k id fd (pos + Z.of_nat (length out)) false f c
       (out ++ drop (length out) bs))) ->
  wp C (read fd (buf_ k) (buf_size_ k)) Q (working w k id fd pos false f c bs).
Proof.
  intros Hl Hp Hf Hs. unfold read. wp_step. apply (wp_ask (S := P F)). intros [] HCr.
  { by apply wp_ret, Hf; eexists. }
  eapply wp_act; [|by apply Hs].
  pose proof (rd_size _ _ _ _ _ Hr) as Hsz.
  pose proof (of_read_bound f pos (buf_size_ k) ltac:(lia)) as Hb.
  assert (read_at fd (buf_size_ k) (working w k id fd pos false f c bs)
          = Some (output_path_ k, pos, false, of_read f pos (buf_size_ k))) as ->.
  { unfold read_at, file_of, working; cbn [fds files]. by rewrite !lookup_insert_eq. }
  erewrite store_within; [| apply lookup_insert_eq | apply (rd_buf _ _ _ _ _ Hr) | done | lia].
  cbn [mbind res_bind Z.to_nat take app Nat.add mret res_ret].
  unfold set_mem, set_fds, working; cbn. by rewrite !insert_insert_eq.
Qed.

(** [send] may end the process. *)
Lemma wpr_send pos f c bs n (Q : res (Z * world F) -> Prop) :
  0 <= n <= Z.of_nat (length bs) ->
  (may (QSend (client_fd k) (take (Z.to_nat n) bs)) None -> Q (Err Killed)) ->
  (may (QSend (client_fd k) (take (Z.to_nat n) bs)) (Some (-1)) ->
     Q (Ok (-1, working w k id fd pos false f c bs))) ->
  (forall r, 0 <= r <= n -> (0 < n -> 0 < r) ->
     C (working w k id fd pos false f c bs) (QSend (client_fd k) (take (Z.to_nat n) bs)) (Some r) ->
     Q (Ok (r, working w k id fd pos false f
                 (Conn (inbox c) (sent c ++ take (Z.to_nat r) bs)) bs))) ->
  wpr C (send (client_fd k) (buf_ k) n) Q (working w k id fd pos false f c bs).
Proof.
  intros Hn Hk Hf Hs. unfold send. apply wpr_bind_wp, wp_fetch; [lia|].
  apply wpr_bind_wp, wp_get. rewrite conn_working.
  apply wpr_bind_wp, (wp_ask (S := P F)). intros [r|] HCr; [|apply Hk; by eexists].
  destruct (Z.eqb_spec r (-1)) as [->|Hr1]; [apply Hf; by eexists|].
  destruct (HC _ _ _ HCr r eq_refl) as [?|[Hb Hpos]]; [done|].
  rewrite length_take in Hb.
  assert (0 < n -> 0 < r) as Hpos'.
  { intros Hn0. apply Hpos. intros He. apply (f_equal length) in He.
    rewrite length_take in He. simpl in He. lia. }
  apply wpr_wp. wp_steps. cbn [conns working]. rewrite lookup_insert_eq.
  specialize (Hs r ltac:(lia) Hpos' HCr). revert Hs. rewrite take_take.
  replace (Z.to_nat r `min` Z.to_nat n)%nat with (Z.to_nat r) by lia.
  unfold set_conns, working; cbn. by rewrite insert_insert_eq.
Qed.

(** Entering and leaving the critical region. *)
Lemma wp_open path wr w' (Q : Z -> world F -> Prop) :
  fds w' = fds w ->
  (C w' (QOpen path wr) (-1) -> Q (-1) w') ->
  (forall fd, 0 <= fd -> fds w !! fd = None -> (wr = false -> is_Some (files w' !! path)) ->
     Q fd (set_fds (<[fd := FdFile path 0 wr]> (fds w'))
             (if wr then set_files (<[path := file_of path w']> (files w')) w' else w'))) ->
  wp C (open path wr) Q w'.
Proof.
  intros Hw Hf Hs. unfold open. wp_step. apply (wp_ask (S := P F)). intros r HCr. cbn in r.
  destruct (Z.eqb_spec r (-1)) as [->|Hr1]; [by apply wp_ret, Hf|].
  destruct (HC _ _ _ HCr) as [?|(Hp & Hn & Hx)]; [done|]. rewrite Hw in Hn.
  wp_steps. by apply Hs.
Qed.

Lemma wp_lock_output (Q : unit -> world F -> Prop) :
  Q tt (set_mutexes (<[output_lock_ k := true]> (mutexes w)) w) ->
  wp C (pthread_mutex_lock (output_lock_ k)) Q w.
Proof. intros HQ. eapply wp_act; [|exact HQ]. by rewrite (rd_lock _ _ _ _ _ Hr). Qed.

Lemma wp_unlock_output w' (Q : unit -> world F -> Prop) :
  mutexes w' = mutexes w -> Q tt w' ->
  wp C (pthread_mutex_unlock (output_lock_ k)) Q
    (set_mutexes (<[output_lock_ k := true]> (mutexes w)) w').
Proof.
  intros Hm HQ. eapply wp_act; [cbn [mutexes set_mutexes]; by rewrite lookup_insert_eq|].
  unfold set_mutexes; cbn. rewrite insert_insert_eq, insert_id by apply (rd_lock _ _ _ _ _ Hr).
  rewrite <- Hm. by destruct w'.
Qed.

Lemma wp_close_output stopped pos wr f c bs (Q : Z -> world F -> Prop) :
  (forall r, Q r (set_mutexes (<[output_lock_ k := true]> (mutexes w))
                    (flagged self k stopped (worked w k id f c bs)))) ->
  wp C (close fd) Q (flagged self k stopped (working w k id fd pos wr f c bs)).
Proof.
  intros HQ. unfold close. wp_step. apply (wp_ask (S := P F)). intros r _. wp_steps.
  assert (delete fd (<[fd := FdFile (output_path_ k) pos wr]> (fds w)) = fds w) as Hd
    by by rewrite delete_insert_eq, delete_id.
  specialize (HQ r). destruct stopped; unfold set_fds; cbn; by rewrite Hd.
Qed.

End rules.

Lemma ready_worked w self k id c f c' bs :
  ready w self k id c -> length bs = Z.to_nat (buf_size_ k) ->
  ready (worked w k id f c' bs) self k id c'.
Proof.
  intros [] Hbs. split; cbn; try done.
  - exists bs. rewrite lookup_insert_eq. split; [done|lia].
  - by rewrite lookup_insert_eq.
Qed.

(** The state just after the output is opened. *)
Lemma working_open w self k id c0 bs f fd (wr : bool) :
  ready w self k id c0 -> mem w !! buf_ k = Some bs ->
  (if wr then f = file_of (output_path_ k) w else files w !! output_path_ k = Some f) ->
  let w' := set_mutexes (<[output_lock_ k := true]> (mutexes w)) w in
  set_fds (<[fd := FdFile (output_path_ k) 0 wr]> (fds w'))
    (if wr then set_files (<[output_path_ k := file_of (output_path_ k) w']> (files w')) w' else w')
  = working w k id fd 0 wr f c0 bs.
Proof.
  intros Hr Hm Hf w'. unfold working, w'.
  rewrite (insert_id (mem w)) by done.
  rewrite (insert_id (conns w)) by apply (rd_conn _ _ _ _ _ Hr).
  destruct wr; [by rewrite Hf|]. by rewrite (insert_id (files w)).
Qed.

End states.

(** ** A concrete worker *)

(** A worker at address 8 with a buffer of four bytes at 16 and connection 5 as
    descriptor 3. *)
Definition sample_worker : aesd_worker :=
  Worker 77 3 false false 16 4 false SRV_LOCK "/var/tmp/aesdsocketdata".

Definition sample_process {F} (f : F) (l : list rx) : world F :=
  World {[ 16 := zeros 4 ]} {[ 8 := sample_worker ]} ∅ {[ SRV_LOCK := false ]} ∅ ∅
    {[ output_path_ sample_worker := f ]} {[ 3 := FdConn 5 ]} {[ 5 := Conn l [] ]} []
    (Server true 4 false (output_path_ sample_worker) "9000" 4 0 (SListHead 0)).

Lemma sample_ready {F} `{OutputFile F} (f : F) l :
  ready (sample_process f l) 8 sample_worker 5 (Conn l []).
Proof. split; try done. by exists (zeros 4). Qed.

Definition byte_a : Byte.byte := Byte.x61.
Definition byte_b : Byte.byte := Byte.x62.

End WorkerSpec.
