(* ===== verification/WorkerReceive.v ===== *)
(** * Worker threads: receiving a message

    [receive_data] appends to the output file the blocks that [received] makes
    of the arrivals, on every ending; with nothing failing the blocks are the
    whole message, up to the zero bytes a short delivery is padded with. A client
    that sends nothing is waited for, and one that has closed its side without a
    newline is not noticed, both with the mutex held. *)

From S2P Require Import Prelude Process Worker WorkerSpec.

Module WorkerReceive.
Import Memory OutputFile Process Worker WorkerSpec.

Section receive.
Context {F : Type} `{OutputFileLaws F}.
Context (C : contract (P F)) (HC : forall w q a, C w q a -> posix w q a).

(** What a write may leave of a block in the file. *)
Context (W : bytes -> bytes -> Prop).
Context (HW : forall w fd data r, C w (QWrite fd data) r -> r <> -1 ->
                W (take (Z.to_nat r) data) data).

Section loop.
Context (w : world F) (self : Z) (k : aesd_worker) (id : Z) (c0 : conn) (fd : Z).
Context (Hr : ready w self k id c0) (Hfd : fds w !! fd = None).

Abbreviation size := (Z.to_nat (buf_size_ k)).

(** How the loop ends: which blocks were written, and why it ended. *)
Record loop_post (f : F) (blocks : list bytes) (e : ending) (l' : list rx) (snt : bytes)
    (error : bool) (w' : world F) (stopped : bool) (ws : list bytes) (l1 : list rx)
    (bs : bytes) : Prop := LoopPost {
  lp_world : w' = flagged self k stopped
               (working w k id fd 0 true (write_blocks f ws) (Conn l1 snt) bs);
  lp_buf : length bs = size;
  lp_blocks : Forall2 W ws (take (length ws) blocks);
  lp_complete : error = false -> stopped = false ->
    e = Complete /\ length ws = length blocks /\ l1 = l';
  lp_stopped : stopped = true -> may C (QShutdown self) true;
  lp_error : error = true ->
    (e = Failed /\ length ws = length blocks)
    \/ ((length ws < length blocks)%nat /\ exists data, may C (QWrite fd data) (-1))
}.

(** A block that could not be written ends the loop. *)
Lemma loop_post_unwritten f b blocks e l' snt l1 bs data :
  length bs = size -> may C (QWrite fd data) (-1) ->
  exists stopped ws l2 bs',
    loop_post f (b :: blocks) e l' snt true (working w k id fd 0 true f (Conn l1 snt) bs) stopped ws l2 bs'.
Proof.
  intros Hbs Hm. eexists false, [], _, _. split; [done..|].
  right. split; [cbn; lia|by eexists].
Qed.

(** One that was written comes before those of the rest of the loop. *)
Lemma loop_post_written f b b' blocks e l' snt error w' stopped ws l1 bs :
  W b' b -> loop_post (of_write f b') blocks e l' snt error w' stopped ws l1 bs ->
  loop_post f (b :: blocks) e l' snt error w' stopped (b' :: ws) l1 bs.
Proof.
  intros HWb [Hw' Hb' Hbl Hco Hso He]. split; [done|done| | |done|].
  - cbn [length take]. by constructor.
  - intros Her Hst'. destruct (Hco Her Hst') as (-> & Hlen & ->). by rewrite !length_cons, Hlen.
  - intros Her. destruct (He Her) as [[-> Hlt]|[Hlt Hm]]; [left|right].
    + by rewrite !length_cons, Hlt.
    + split; [cbn [length]; lia | done].
Qed.

Lemma length_padded n bs : (length bs <= n)%nat -> length (padded n bs) = n.
Proof. intros. unfold padded. rewrite length_app, length_replicate. lia. Qed.

(** One write of the loop, with the rest of it. *)
Lemma wp_write_block f c bs n b (Q : Z -> world F -> Prop) :
  take (Z.to_nat n) bs = b -> 0 < n <= Z.of_nat (length bs) ->
  (may C (QWrite fd b) (-1) -> Q (-1) (working w k id fd 0 true f c bs)) ->
  (forall r b', r <> -1 -> W b' b ->
     Q r (working w k id fd 0 true (of_write f b') c bs)) ->
  wp C (write fd (buf_ k) n) Q (working w k id fd 0 true f c bs).
Proof.
  intros Hb Hn Hf Hs. eapply wp_write; [done|done|done| |].
  - by rewrite Hb.
  - intros r Hrn HCr. apply Hs; [lia|]. apply HW in HCr; [|lia].
    rewrite take_take in HCr.
    replace (Z.to_nat r `min` Z.to_nat n)%nat with (Z.to_nat r) in HCr by lia.
    by rewrite Hb in HCr.
Qed.

Lemma wp_receive_loop fuel f c bs blocks e l' :
  received size (inbox c) blocks e l' -> (length blocks < fuel)%nat -> length bs = size ->
  wp C (receive_loop fuel self fd)
    (fun error w' => exists stopped ws l1 bs',
       loop_post f blocks e l' (sent c) error w' stopped ws l1 bs')
    (working w k id fd 0 true f c bs).
Proof.
  intros Hrec. pose proof (rd_size _ _ _ _ _ Hr) as Hsz.
  remember (inbox c) as l eqn:Hl. revert fuel f c bs Hl.
  induction Hrec as [l l' Hst|l l' d b Hst Hcut|l l1 l' d e blocks Hst Hcut Hrec IH];
    intros [|fuel] f c bs -> Hfu Hbs; cbn [length] in Hfu; try lia;
    cbn [receive_loop]; wp_step;
    (eapply wp_load_shutdown; [done|done| |];
      [intros Hmay; apply wp_ret; eexists true, [], (inbox c), bs;
       split; [by destruct c|done|done|done|done|done]|]);
    wp_step; (eapply wp_worker_at; [done|done|]);
    wp_step; (eapply wp_memset; [done|done|]);
    wp_step; (eapply wp_recv; [done|done|by rewrite Hst| |]);
    rewrite Hst; [intros ? [= <-]|done|done|intros ? ? [= <- <-]|done|intros ? ? [= <- <-]].
  - cbn [Z.eqb]. apply wp_ret. eexists false, [], _, _.
    split; [done| |done|done|done|by left]. apply length_padded; simpl; lia.
  - pose proof (recv_step_length _ _ _ _ Hst) as Hd.
    rewrite (proj2 (Z.eqb_neq _ _)) by lia. wp_step.
    eapply wp_memchr; [done|by apply length_padded|]. rewrite find_padded.
    unfold cut in Hcut. destruct (list_find (eq newline) d) as [[i x]|] eqn:Hfind; [|done].
    injection Hcut as <-. cbn [fmap option_fmap option_map].
    apply list_find_Some in Hfind as (Hi & _).
    apply lookup_lt_Some in Hi. rewrite u64_small by lia. wp_step.
    eapply wp_write_block with (b := take (S i) d).
    + replace (Z.to_nat (Z.of_nat i + 1)) with (S i) by lia. unfold padded.
      by rewrite take_app_le by lia.
    + rewrite length_padded by done. lia.
    + intros Hm. cbn [Z.eqb]. apply wp_ret. eapply loop_post_unwritten; [by apply length_padded|done].
    + intros r b' Hr1 HWb. rewrite (proj2 (Z.eqb_neq _ _) Hr1).
      rewrite bool_decide_true by done. apply wp_ret. eexists false, [b'], _, _.
      split; [done|by apply length_padded| | done|done|done]. by repeat constructor.
  - pose proof (recv_step_length _ _ _ _ Hst) as Hd.
    rewrite (proj2 (Z.eqb_neq _ _)) by lia. wp_step.
    eapply wp_memchr; [done|by apply length_padded|]. rewrite find_padded.
    unfold cut in Hcut. apply fmap_None in Hcut as ->. cbn [fmap option_fmap option_map]. wp_step.
    eapply wp_write_block with (b := padded size d).
    + rewrite firstn_all2; [done|]. by rewrite length_padded.
    + rewrite length_padded by done. lia.
    + intros Hm. cbn [Z.eqb]. apply wp_ret. eapply loop_post_unwritten; [by apply length_padded|done].
    + intros r b' Hr1 HWb. rewrite (proj2 (Z.eqb_neq _ _) Hr1).
      rewrite bool_decide_false by by intros []. 
      eapply wp_mono; [|apply (IH fuel _ (Conn l1 (sent c))); [done|lia|by apply length_padded]].
      intros error w' (stopped & ws & l2 & bs' & Hlp).
      exists stopped, (b' :: ws), l2, bs'. by apply loop_post_written.
Qed.

End loop.

(** The endings of [receive_data] from [w]: the output could not be opened, or
    some of the blocks were written, all of them exactly when the result is
    [true]. *)
Inductive receive_outcome (w : world F) (self : Z) (k : aesd_worker) (id : Z) (c : conn)
    (blocks : list bytes) (e : ending) (l' : list rx) (ret : bool) (w' : world F) : Prop :=
| receive_unopened :
    ret = false -> w' = w -> may C (QOpen (output_path_ k) true) (-1) ->
    receive_outcome w self k id c blocks e l' ret w'
| receive_blocks stopped ws l1 bs :
    w' = flagged self k stopped
           (worked w k id (write_blocks (file_of (output_path_ k) w) ws) (Conn l1 (sent c)) bs) ->
    length bs = Z.to_nat (buf_size_ k) ->
    Forall2 W ws (take (length ws) blocks) ->
    (ret = true <-> stopped = false /\ e = Complete /\ length ws = length blocks) ->
    (ret = true -> l1 = l') ->
    (stopped = true -> may C (QShutdown self) true) ->
    ((length ws < length blocks)%nat -> stopped = false ->
       exists fd data, may C (QWrite fd data) (-1)) ->
    receive_outcome w self k id c blocks e l' ret w'.

Lemma wp_receive_data w self k id c fuel blocks e l' :
  ready w self k id c -> received (Z.to_nat (buf_size_ k)) (inbox c) blocks e l' ->
  (length blocks < fuel)%nat ->
  wp C (receive_data fuel self) (receive_outcome w self k id c blocks e l') w.
Proof.
  intros Hr Hrec Hfu. destruct (rd_mem _ _ _ _ _ Hr) as (bs & Hbs & Hlen).
  unfold receive_data. wp_step. eapply wp_worker_at; [done|done|].
  wp_step. eapply wp_lock_output; [done|]. wp_step. eapply wp_open; [done..| |].
  - intros Hm. cbn [Z.eqb]. wp_step. apply wp_ret. wp_step.
    eapply wp_unlock_output; [done|done|]. apply wp_ret, receive_unopened; [done|done|].
    by eexists.
  - intros fd Hfd0 Hfd _. rewrite (proj2 (Z.eqb_neq _ _)) by lia.
    rewrite (working_open w self k id c bs _ fd true Hr Hbs eq_refl).
    do 2 wp_step. eapply wp_mono;
      [|eapply (wp_receive_loop w self k id c fd Hr Hfd); [done|done|lia]].
    intros error w' (stopped & ws & l1 & bs' & [-> Hb Hbl Hco Hso He]).
    wp_step. eapply wp_close_output; [done..|]. intros _. apply wp_ret.
    wp_step. eapply wp_unlock_output; [done|by destruct stopped|].
    destruct error; [apply wp_ret|wp_step]; cbn [negb].
    + eapply receive_blocks with stopped ws l1 bs'; try done.
      * split; [done|]. intros (_ & -> & Hl). destruct (He eq_refl) as [[? _]|[? _]]; [done|lia].
      * intros Hl _. destruct (He eq_refl) as [[_ ?]|[_ [data Hm]]]; [lia|eauto].
    + destruct stopped.
      * eapply wp_load_shutdown_set; [done|done|]. apply wp_ret.
        eapply receive_blocks with true ws l1 bs'; try done. by split; [|intros []].
      * destruct (Hco eq_refl eq_refl) as (-> & Hl & ->).
        eapply wp_load_shutdown; [done|done| |].
        -- intros Hm. apply wp_ret.
           eapply receive_blocks with true ws l' bs'; try done. by split; [|intros []].
        -- apply wp_ret. eapply receive_blocks with false ws l' bs'; try done. lia.
Qed.

End receive.

(** ** Messages *)

(** Deliveries of the bytes [cs]. *)
Definition deliveries (cs : list bytes) : list rx := RxData <$> cs.

(** Every delivery that ends within the first [m] bytes is a multiple of [n]
    long: a reader with a buffer of [n] bytes never sees it partly filled. *)
Fixpoint fills (n m : nat) (cs : list bytes) : Prop :=
  match cs with
  | [] => True
  | c :: cs => (length c <= m)%nat -> (length c `mod` n)%nat = 0%nat /\ fills n (m - length c) cs
  end.

(** The bytes that are not zero. *)
Definition nonzero (bs : bytes) : bytes := filter (.≠ nul) bs.

Lemma nonzero_app a b : nonzero (a ++ b) = nonzero a ++ nonzero b.
Proof. apply filter_app. Qed.

Lemma nonzero_padded n bs : nonzero (padded n bs) = nonzero bs.
Proof.
  unfold padded. rewrite nonzero_app. generalize (n - length bs)%nat as m.
  induction m as [|m IH]; [apply app_nil_r|].
  cbn [replicate]. unfold nonzero at 2. rewrite filter_cons_False by by intros []. done.
Qed.

(** A first piece of the data without a newline is a prefix of the message. *)
Lemma piece_of_message p q msg extra :
  p ++ q = msg ++ newline :: extra -> newline ∉ msg -> newline ∉ p ->
  exists msg', msg = p ++ msg' /\ q = msg' ++ newline :: extra.
Proof.
  intros He Hm Hp. apply app_eq_inv in He as [(k & -> & Hq)|(k & -> & ->)]; [|by exists k].
  destruct k as [|b k]; [exists []; simpl in *; by rewrite !app_nil_r|].
  injection Hq as <- _. exfalso. apply Hp, elem_of_app. right. apply list_elem_of_here.
Qed.

(** One [recv] of a delivery: the delivery or its first [n] bytes. *)
Lemma recv_delivery n c cs rest :
  (0 < n)%nat -> Forall (.≠ []) (c :: cs) ->
  exists cs', recv_step n (deliveries (c :: cs) ++ rest)
                = Some (Some (take n c), deliveries cs' ++ rest)
    /\ Forall (.≠ []) cs' /\ c ++ concat cs = take n c ++ concat cs'
    /\ (0 < length (take n c))%nat
    /\ forall m, fills n m (c :: cs) -> (length (take n c) <= m)%nat ->
         padded n (take n c) = take n c /\ fills n (m - length (take n c)) cs'.
Proof.
  intros Hn Hne. inversion Hne as [|? ? Hc0 Hne']; subst.
  assert (0 < length c)%nat as Hc by (destruct c; [done|simpl; lia]).
  cbn [deliveries fmap list_fmap app recv_step]. case_bool_decide as Hlc.
  - exists cs. rewrite firstn_all2 by done. split_and!; try done.
    intros m Hf Hlm. destruct (Hf Hlm) as [Hmod Hf']. split; [|done].
    assert (length c = n) as Hl; [|unfold padded; by rewrite Hl, Nat.sub_diag, app_nil_r].
    apply Nat.Div0.mod_divides in Hmod as [[|j] Hj]; nia.
  - assert (length (take n c) = n) as Htk by (rewrite length_take; lia).
    exists (drop n c :: cs). rewrite Htk. split_and!; try done.
    + constructor; [|done]. intros Hd. apply (f_equal length) in Hd.
      rewrite length_drop in Hd. simpl in Hd. lia.
    + cbn [concat]. by rewrite app_assoc, take_drop.
    + intros m Hf Hlm. split; [unfold padded; by rewrite Htk, Nat.sub_diag, app_nil_r|].
      cbn [fills] in *. rewrite length_drop. intros Hl. destruct Hf as [Hmod Hf]; [lia|].
      split; [|by replace (m - n - (length c - n))%nat with (m - length c)%nat by lia].
      apply Nat.Div0.mod_divides in Hmod as [j ->].
      replace (n * j - n)%nat with ((j - 1) * n)%nat by nia. apply Nat.Div0.mod_mul.
Qed.

Lemma received_message n cs rest msg extra :
  (0 < n)%nat -> Forall (.≠ []) cs -> concat cs = msg ++ newline :: extra -> newline ∉ msg ->
  exists blocks l',
    received n (deliveries cs ++ rest) blocks Complete l'
    /\ (length blocks <= S (length msg))%nat
    /\ nonzero (concat blocks) = nonzero (msg ++ [newline])
    /\ (fills n (length msg) cs -> concat blocks = msg ++ [newline]).
Proof.
  intros Hn. remember (length msg) as len eqn:Hlen. revert cs msg Hlen.
  induction (lt_wf len) as [len _ IH]; intros cs msg -> Hne Hc Hm.
  destruct cs as [|c cs]; [by destruct msg|].
  cbn [concat] in Hc.
  destruct (recv_delivery n c cs rest Hn Hne) as (cs' & Hst & Hne1 & Hcat & Hpos & Hfill).
  rewrite Hc in Hcat. symmetry in Hcat.
  destruct (cut (take n c)) as [b|] eqn:Hcut.
  - exists [b], (deliveries cs' ++ rest). split; [by eapply received_last|].
    assert (b = msg ++ [newline]) as ->; [|cbn [concat]; rewrite app_nil_r; by split_and!; [simpl; lia|..]].
    apply cut_some in Hcut as (m1 & x1 & Htk & Hm1 & ->). rewrite Htk in Hcat.
    rewrite <- app_assoc in Hcat. cbn [app] in Hcat.
    by apply not_elem_of_app_cons_inv_l in Hcat as (-> & _ & _).
  - pose proof Hcut as Hnn. apply cut_none in Hnn.
    destruct (piece_of_message _ _ _ _ Hcat Hm Hnn) as (msg' & -> & Hcs').
    rewrite length_app in *.
    destruct (IH (length msg')) with (cs := cs') (msg := msg')
      as (blocks & l' & Hrec & Hlb & Hnz & Hex); [lia|done|done|done| |].
    { intros Hin. apply Hm, elem_of_app. by right. }
    exists (padded n (take n c) :: blocks), l'. split; [by eapply received_more|].
    split; [simpl; lia|]. cbn [concat]. rewrite <- app_assoc. split.
    + rewrite !nonzero_app, nonzero_padded, Hnz, nonzero_app. done.
    + intros Hf. destruct (Hfill _ Hf ltac:(lia)) as [-> Hf'].
      f_equal. apply Hex. by replace (length msg') with
        (length (take n c) + length msg' - length (take n c))%nat by lia.
Qed.

(** ** A peer that never completes a message *)



Section spin.
Context {F : Type} `{OutputFileLaws F}.


(** A peer that sends nothing and stays is waited for. *)
Lemma wpr_receive_loop_waits w self k id c0 fd fuel f c bs :
  ready w self k id c0 -> fds w !! fd = None -> inbox c = [] ->
  length bs = Z.to_nat (buf_size_ k) ->
  wpr posix_ok (receive_loop (S fuel) self fd) (eq (Err Silent)) (working w k id fd 0 true f c bs).
Proof.
  intros Hr Hfd Hc Hbs. cbn [receive_loop]. apply wpr_bind_wp.
  eapply (wp_load_shutdown posix_ok); [done|done|by intros (? & _ & ?)|].
  apply wpr_bind_wp. eapply wp_worker_at; [done|done|].
  apply wpr_bind_wp. eapply wp_memset; [done|done|].
  apply wpr_bind. eapply wpr_act_err; [|done]. cbv beta.
  by erewrite conn_working, Hc by done.
Qed.

(** [receive_data] ends as its loop does, when that does not end well. *)
Lemma receive_data_run_err {X} (o : env (P F) X) w x self k id c fuel e :
  respects posix_ok o -> ready w self k id c ->
  (forall fd f bs, fds w !! fd = None -> length bs = Z.to_nat (buf_size_ k) ->
     wpr posix_ok (receive_loop fuel self fd) (eq (Err e)) (working w k id fd 0 true f c bs)) ->
  run o (receive_data fuel self) w x = Err e.
Proof.
  intros Ho Hr Hloop. destruct (rd_mem _ _ _ _ _ Hr) as (bs & Hbs & Hlen).
  assert (wpr posix_ok (receive_data fuel self) (eq (Err e)) w) as Hwp.
  { unfold receive_data. apply wpr_bind_wp. eapply wp_worker_at; [done|done|].
    apply wpr_bind_wp. eapply wp_lock_output; [done|]. apply wpr_bind_wp.
    eapply wp_open; [apply posix_ok_posix|done|intros (_ & Hf); exfalso; apply Hf; [by left|done]|].
    intros fd Hfd0 Hfd _. rewrite (proj2 (Z.eqb_neq _ _)) by lia.
    rewrite (working_open w self k id c bs _ fd true Hr Hbs eq_refl).
    apply wpr_bind, wpr_bind. eapply wpr_mono; [|apply Hloop; [done|lia]]. by intros r <-. }
  pose proof (wpr_run _ o _ _ w x Ho Hwp) as Hrun.
  destruct (run o (receive_data fuel self) w x) as [[[? ?] ?]|]; by simplify_eq.
Qed.

End spin.

(** With nothing failing, whatever the client does with the response, a message is
    received whole. *)
Lemma wp_receive_complete {F} `{OutputFileLaws F} (C : contract (P F)) w self k id c fuel blocks l' :
  ready w self k id c -> received (Z.to_nat (buf_size_ k)) (inbox c) blocks Complete l' ->
  (length blocks < fuel)%nat ->
  (forall w q a, C w q a -> posix w q a) ->
  (forall w q a, C w q a -> (forall fd data, q <> QSend fd data) -> posix_ok w q a) ->
  wp C (receive_data fuel self)
    (fun ret w' => ret = true /\ exists bs, length bs = Z.to_nat (buf_size_ k)
       /\ w' = worked w k id (write_blocks (file_of (output_path_ k) w) blocks)
                 (Conn l' (sent c)) bs) w.
Proof.
  intros Hr Hrec Hfu HC Hok. eapply wp_mono; [|eapply (wp_receive_data C HC eq); [|done..]].
  2: { intros ? ? data r [_ Hfull]%Hok _; [|done]. cbn in Hfull. rewrite Hfull, Nat2Z.id. apply firstn_all. }
  intros ret w' [_ _ (? & [? Hf]%Hok)|stopped ws l1 bs -> Hbs Hbl Hret Hl1 Hst Hmay].
  { exfalso. apply Hf; [by left|done]. }
  { done. }
  destruct stopped; [by destruct (Hst eq_refl) as (? & [_ ?]%Hok)|].
  assert (length ws = length blocks) as Hlen.
  { apply Forall2_length in Hbl as Hl. rewrite length_take in Hl.
    destruct (decide (length ws < length blocks)%nat) as [Hlt|]; [|lia].
    destruct (Hmay Hlt eq_refl) as (? & ? & ? & [_ Hw]%Hok); [cbn in Hw; lia|done]. }
  assert (ret = true) as -> by by apply Hret.
  rewrite Hlen, firstn_all in Hbl. apply list_eq_Forall2 in Hbl as ->.
  rewrite (Hl1 eq_refl). eauto.
Qed.

(** ** Theorems *)

Section theorems.
Context {F : Type} `{OutputFileLaws F}.

(** [receive_data], whatever fails and whenever a shutdown is requested: if
    the arrivals come to a newline or to an error of [recv], it ends; the file
    has got a prefix of each of the first blocks, in order, and is otherwise
    unchanged; the result is [true] exactly when no shutdown was seen and all
    the blocks up to the newline were written, and fewer are written without a
    shutdown only where the contract [C] allows [open] or [write] to fail. The output
    is closed again and its mutex free on every ending. *)
Theorem receive_data_outcomes {X} (C : contract (P F)) (o : env (P F) X) w x self k id c fuel blocks e l' :
  (forall w q a, C w q a -> posix w q a) -> respects C o -> ready w self k id c ->
  received (Z.to_nat (buf_size_ k)) (inbox c) blocks e l' -> (length blocks < fuel)%nat ->
  exists ret w' x',
    run o (receive_data fuel self) w x = Ok (ret, w', x')
    /\ receive_outcome C prefix w self k id c blocks e l' ret w'.
Proof.
  intros HC Ho Hr Hrec Hfu. eapply wp_run; [done|].
  eapply wp_receive_data; [done| |done|done|done].
  intros ? ? data r _ _. apply prefix_take.
Qed.

(** C22: a message, the bytes of the arrivals up to the first newline, that
    arrives in any number of deliveries, is received when nothing fails: the call
    returns [true] and appends, block by block, bytes that are the message once
    the zero bytes are dropped; they are the message itself when every delivery
    but the last fills the buffer. *)
Theorem receive_data_message {X} (o : env (P F) X) w x self k id c fuel cs rest msg extra :
  respects posix_ok o -> ready w self k id c -> inbox c = deliveries cs ++ rest ->
  Forall (.≠ []) cs -> concat cs = msg ++ newline :: extra -> newline ∉ msg ->
  (S (length msg) < fuel)%nat ->
  exists blocks l' bs x',
    run o (receive_data fuel self) w x
      = Ok (true, worked w k id (write_blocks (file_of (output_path_ k) w) blocks)
                    (Conn l' (sent c)) bs, x')
    /\ nonzero (concat blocks) = nonzero (msg ++ [newline])
    /\ (fills (Z.to_nat (buf_size_ k)) (length msg) cs -> concat blocks = msg ++ [newline]).
Proof.
  intros Ho Hr Hin Hne Hc Hm Hfu. pose proof (rd_size _ _ _ _ _ Hr) as Hsz.
  destruct (received_message (Z.to_nat (buf_size_ k)) cs rest msg extra)
    as (blocks & l' & Hrec & Hlb & Hnz & Hex); [lia|done|done|done|]. rewrite <- Hin in Hrec.
  destruct (wp_run posix_ok o (receive_data fuel self) _ w x Ho
              (wp_receive_complete posix_ok w self k id c fuel blocks l' Hr Hrec ltac:(lia)
                 posix_ok_posix (fun _ _ _ Ha _ => Ha)))
    as (ret & w' & x' & Hrun & -> & bs & _ & ->).
  by eexists _, _, _, _.
Qed.

(** A message that arrives in two deliveries, the first shorter than the
    buffer, is not stored as it was sent: the rest of the buffer goes to the
    file with it, as zero bytes in the middle of the message. *)
Theorem receive_data_pads {X} (o : env (P F) X) w x self k id c fuel c1 c2 :
  respects posix_ok o -> ready w self k id c ->
  inbox c = deliveries [c1; c2 ++ [newline]] -> newline ∉ c1 -> newline ∉ c2 ->
  (length c1 < Z.to_nat (buf_size_ k))%nat -> (length c2 < Z.to_nat (buf_size_ k))%nat ->
  (2 < fuel)%nat ->
  exists bs x',
    run o (receive_data fuel self) w x
      = Ok (true, worked w k id
                    (write_blocks (file_of (output_path_ k) w)
                       [c1 ++ zeros (buf_size_ k - Z.of_nat (length c1)); c2 ++ [newline]])
                    (Conn [] (sent c)) bs, x').
Proof.
  intros Ho Hr Hin Hc1 Hc2 Hl1 Hl2 Hfu.
  assert (received (Z.to_nat (buf_size_ k)) (inbox c)
            [padded (Z.to_nat (buf_size_ k)) c1; c2 ++ [newline]] Complete []) as Hrec.
  { rewrite Hin. cbn [deliveries fmap list_fmap]. eapply received_more; [| |eapply received_last].
    - cbn [recv_step]. by rewrite bool_decide_true, firstn_all2 by lia.
    - by apply cut_none.
    - cbn [recv_step]. by rewrite bool_decide_true, firstn_all2 by (rewrite length_app; simpl; lia).
    - apply cut_some. by exists c2, []. }
  destruct (wp_run posix_ok o (receive_data fuel self) _ w x Ho
              (wp_receive_complete posix_ok w self k id c fuel _ _ Hr Hrec Hfu
                 posix_ok_posix (fun _ _ _ Ha _ => Ha)))
    as (ret & w' & x' & Hrun & -> & bs & _ & ->).
  exists bs, x'. rewrite Hrun. unfold padded, zeros.
  by replace (Z.to_nat (buf_size_ k - Z.of_nat (length c1))) with
    (Z.to_nat (buf_size_ k) - length c1)%nat by lia.
Qed.


(** A client that connects and sends nothing is waited for, with the output's mutex
    held. *)
Theorem receive_data_waits {X} (o : env (P F) X) w x self k id c fuel :
  respects posix_ok o -> ready w self k id c -> inbox c = [] ->
  run o (receive_data (S fuel) self) w x = Err Silent.
Proof.
  intros Ho Hr Hin. eapply receive_data_run_err; [done..|]. intros fd f bs Hfd Hbs.
  by eapply wpr_receive_loop_waits.
Qed.

End theorems.

(** ** Witnesses *)

(** ["aaaab\n"] in deliveries of four and of two bytes. *)
Definition full_deliveries : list bytes :=
  [[byte_a; byte_a; byte_a; byte_a]; [byte_b; newline]].

Lemma sample_received :
  received 4 (deliveries full_deliveries)
    [[byte_a; byte_a; byte_a; byte_a]; [byte_b; newline]] Complete [].
Proof.
  apply (received_more 4 (deliveries full_deliveries) (deliveries [[byte_b; newline]]) []
           [byte_a; byte_a; byte_a; byte_a] Complete [[byte_b; newline]]); [done|done|].
  by apply (received_last 4 (deliveries [[byte_b; newline]]) [] [byte_b; newline]).
Qed.

Lemma newline_not_in (l : bytes) : forallb (fun b => negb (Byte.eqb newline b)) l = true -> newline ∉ l.
Proof.
  intros Hf Hin. rewrite forallb_forall in Hf. apply list_elem_of_In, Hf in Hin. by vm_compute in Hin.
Qed.

Lemma receive_data_outcomes_witness :
  exists ret w' x',
    run calm (receive_data 3 8) (sample_process (PlainFile []) (deliveries full_deliveries)) tt
      = Ok (ret, w', x')
    /\ receive_outcome posix_ok prefix
         (sample_process (PlainFile []) (deliveries full_deliveries)) 8 sample_worker 5
         (Conn (deliveries full_deliveries) [])
         [[byte_a; byte_a; byte_a; byte_a]; [byte_b; newline]] Complete [] ret w'.
Proof.
  apply (receive_data_outcomes posix_ok calm).
  - apply posix_ok_posix.
  - auto with envs.
  - apply sample_ready.
  - apply sample_received.
  - simpl. lia.
Defined.

Lemma receive_data_message_witness :
  exists blocks l' bs x',
    run calm (receive_data 7 8) (sample_process (PlainFile [byte_b]) (deliveries full_deliveries)) tt
      = Ok (true, worked (sample_process (PlainFile [byte_b]) (deliveries full_deliveries))
                    sample_worker 5 (write_blocks (PlainFile [byte_b]) blocks) (Conn l' []) bs, x')
    /\ nonzero (concat blocks) = [byte_a; byte_a; byte_a; byte_a; byte_b; newline]
    /\ (fills 4 5 full_deliveries ->
         concat blocks = [byte_a; byte_a; byte_a; byte_a; byte_b; newline]).
Proof.
  apply (receive_data_message calm (sample_process (PlainFile [byte_b]) (deliveries full_deliveries)) _ 8 sample_worker 5 (Conn (deliveries full_deliveries) []) 7
           full_deliveries [] [byte_a; byte_a; byte_a; byte_a; byte_b] []).
  - auto with envs.
  - apply sample_ready.
  - reflexivity.
  - by repeat constructor.
  - reflexivity.
  - by apply newline_not_in.
  - simpl. lia.
Defined.

Lemma receive_data_pads_witness :
  exists bs x',
    run calm (receive_data 3 8)
      (sample_process (PlainFile []) (deliveries [[byte_a]; [byte_b; newline]])) tt
      = Ok (true, worked (sample_process (PlainFile []) (deliveries [[byte_a]; [byte_b; newline]]))
                    sample_worker 5
                    (PlainFile [byte_a; nul; nul; nul; byte_b; newline]) (Conn [] []) bs, x').
Proof.
  destruct (receive_data_pads calm
           (sample_process (PlainFile []) (deliveries [[byte_a]; [byte_b; newline]])) tt 8
           sample_worker 5 (Conn (deliveries [[byte_a]; [byte_b; newline]]) []) 3
           [byte_a] [byte_b]) as (bs & x' & Hrun).
  - auto with envs.
  - apply sample_ready.
  - reflexivity.
  - by apply newline_not_in.
  - by apply newline_not_in.
  - simpl. lia.
  - simpl. lia.
  - lia.
  - exists bs, x'. exact Hrun.
Defined.


Lemma receive_data_waits_witness :
  run calm (receive_data 40 8) (sample_process (PlainFile []) []) tt = Err Silent.
Proof.
  apply (receive_data_waits calm (sample_process (PlainFile []) []) _ 8 sample_worker 5 (Conn [] [])).
  - auto with envs.
  - apply sample_ready.
  - reflexivity.
Defined.

End WorkerReceive.
