(* ===== verification/WorkerSend.v ===== *)
(** * Worker threads: sending the response

    [send_response] sends the output file from its start to its end, on every
    ending that the process survives: [send] to a peer that is gone raises
    [SIGPIPE]. [close_client] closes the connection. *)

From S2P Require Import Prelude Process Worker WorkerSpec.

Module WorkerSend.
Import Memory OutputFile Process Worker WorkerSpec.

Section send.
Context {F : Type} `{OutputFileLaws F}.
Context (C : contract (P F)) (HC : forall w q a, C w q a -> posix w q a).

(** What a call of [send] may transfer of the data it is given. *)
Context (W : bytes -> bytes -> Prop).
Context (HW : forall w fd data r, C w (QSend fd data) (Some r) -> r <> -1 ->
                W (take (Z.to_nat r) data) data).

(** Something that makes the response fail. *)
Definition send_failure (k : aesd_worker) : Prop :=
  (exists fd, may C (QReadFails fd) true)
  \/ (exists data, may C (QSend (client_fd k) data) (Some (-1))).

(** The client may have closed the connection, which ends the process. *)
Definition hangup (k : aesd_worker) (e : fault) : Prop :=
  e = Killed /\ exists data, may C (QSend (client_fd k) data) None.

(** Every ending: [Q], or the signal. *)
Definition or_killed {A} (k : aesd_worker) (Q : A -> world F -> Prop)
    (r : res (A * world F)) : Prop :=
  match r with Ok (a, w) => Q a w | Err e => hangup k e end.

(** The pieces [ps] of [data] were handed to [send], and [ws] transferred. *)
Record pieces_post (k : aesd_worker) (self : Z) (data : bytes) (ok stopped : bool)
    (ps ws : list bytes) : Prop := PiecesPost {
  pp_ws : Forall2 W ws ps;
  pp_prefix : concat ps `prefix_of` data;
  pp_all : ok = true -> stopped = false -> concat ps = data;
  pp_stopped : stopped = true -> may C (QShutdown self) true;
  pp_failed : ok = false -> stopped = false /\ send_failure k
}.

Lemma pieces_cons k self data out data' ok stopped ps b ws :
  data = out ++ data' -> W b out -> pieces_post k self data' ok stopped ps ws ->
  pieces_post k self data ok stopped (out :: ps) (b :: ws).
Proof.
  intros -> Hb [Hw Hp Ha Hs Hf]. split; try done.
  - by constructor.
  - cbn [concat]. by apply prefix_app.
  - intros Hok Hst. cbn [concat]. by rewrite Ha.
Qed.

Lemma pieces_nil k self data ok stopped :
  (ok = true -> stopped = false -> data = []) ->
  (stopped = true -> may C (QShutdown self) true) ->
  (ok = false -> stopped = false /\ send_failure k) ->
  pieces_post k self data ok stopped [] [].
Proof. intros Hd Hs Hf. split; try done; [apply prefix_nil|]. intros. symmetry. by apply Hd. Qed.

(** How the loop ends, started at offset [pos]. *)
Definition send_loop_post (w : world F) (self : Z) (k : aesd_worker) (id fd : Z) (f : F)
    (c : conn) (pos : Z) (ok : bool) (w' : world F) : Prop :=
  exists stopped ps ws pos' bs',
    w' = flagged self k stopped
           (working w k id fd pos' false f (Conn (inbox c) (sent c ++ concat ws)) bs')
    /\ length bs' = Z.to_nat (buf_size_ k)
    /\ pieces_post k self (drop (Z.to_nat pos) (of_data f)) ok stopped ps ws.

Lemma send_loop_end w self k id fd f c pos ok stopped pos' bs' :
  length bs' = Z.to_nat (buf_size_ k) ->
  (ok = true -> stopped = false -> drop (Z.to_nat pos) (of_data f) = []) ->
  (stopped = true -> may C (QShutdown self) true) ->
  (ok = false -> stopped = false /\ send_failure k) ->
  send_loop_post w self k id fd f c pos ok
    (flagged self k stopped (working w k id fd pos' false f c bs')).
Proof.
  intros Hb Hd Hs Hf. exists stopped, [], [], pos', bs'. destruct c as [ib snt]; cbn.
  rewrite app_nil_r. split; [done|]. split; [done|]. by apply pieces_nil.
Qed.

Lemma wpr_send_loop w self k id c0 fd fuel f pos c bs :
  ready w self k id c0 -> fds w !! fd = None -> length bs = Z.to_nat (buf_size_ k) ->
  0 <= pos -> (length (drop (Z.to_nat pos) (of_data f)) < fuel)%nat ->
  wpr C (send_loop fuel self fd)
    (or_killed k (send_loop_post w self k id fd f c pos))
    (working w k id fd pos false f c bs).
Proof.
  intros Hr Hfd. pose proof (rd_size _ _ _ _ _ Hr) as Hsz.
  revert pos c bs. induction fuel as [|fuel IH]; intros pos c bs Hbs Hpos Hfu; [lia|].
  cbn [send_loop]. apply wpr_bind_wp. eapply wp_load_shutdown; [done|done| |].
  { intros Hm. apply (send_loop_end _ _ _ _ _ _ _ _ true true); done. }
  apply wpr_bind_wp. eapply wp_worker_at; [done|done|]. apply wpr_bind_wp.
  pose proof (of_read_bound f pos (buf_size_ k) ltac:(lia)) as Hb.
  pose proof (of_read_prefix f pos (buf_size_ k) Hpos ltac:(lia)) as [rest Hpre].
  pose proof (of_read_progress f pos (buf_size_ k)) as Hprog.
  eapply wp_read; [done|done|done| |].
  { intros Hm. cbn [Z.eqb]. apply (send_loop_end _ _ _ _ _ _ _ _ false false); [done..|].
    intros _. split; [done|]. left. eauto. }
  set (out := of_read f pos (buf_size_ k)) in *. cbn zeta.
  rewrite (proj2 (Z.eqb_neq _ _)) by lia. apply wpr_bind.
  assert (length (out ++ drop (length out) bs) = Z.to_nat (buf_size_ k)) as Hbs1.
  { rewrite length_app, length_drop. lia. }
  eapply wpr_send; [done..|rewrite Hbs1; lia| | |].
  { intros Hm. split; [done|by eexists]. }
  { intros Hm. cbn [Z.eqb]. apply (send_loop_end _ _ _ _ _ _ _ _ false false); [done..|].
    intros _. split; [done|]. right. eauto. }
  intros r Hrn Hrpos HCr. rewrite (proj2 (Z.eqb_neq r (-1))) by lia.
  rewrite Nat2Z.id, take_app_length in HCr. apply HW in HCr; [|lia].
  destruct (Z.eqb_spec (Z.of_nat (length out)) 0) as [Hz|Hz].
  - destruct out as [|x out]; [|simpl in Hz; lia]. cbn [app length] in *.
    replace r with 0 by lia. cbn [Z.to_nat take]. rewrite app_nil_r. destruct c as [ib snt].
    apply (send_loop_end _ _ _ _ _ _ _ _ true false); [done| |done..]. intros _ _.
    destruct (decide (pos < Z.of_nat (length (of_data f)))) as [Hlt|]; [|by apply drop_ge; lia].
    exfalso. apply Hprog; [lia|lia|done].
  - assert (drop (Z.to_nat (pos + Z.of_nat (length out))) (of_data f) = rest) as Hrest.
    { rewrite Z2Nat.inj_add, Nat2Z.id by lia.
      by rewrite <- drop_drop, Hpre, drop_app_length. }
    eapply wpr_mono; [|eapply (IH (pos + Z.of_nat (length out))); [done|lia|]].
    + intros [[ok w']|e]; [|done]. intros (stopped & ps & ws & pos' & bs' & -> & Hb' & Hpp). cbn [inbox sent].
      rewrite take_app_le by lia.
      exists stopped, (out :: ps), (take (Z.to_nat r) out :: ws), pos', bs'.
      split; [cbn [concat]; by rewrite app_assoc|]. split; [done|].
      rewrite Hrest in Hpp. by eapply pieces_cons.
    + rewrite Hrest. rewrite Hpre, length_app in Hfu. lia.
Qed.

(** The endings of [send_response] from [w]: the output could not be opened, or
    what [send] transferred of the first pieces of its contents was sent, the
    whole of it when the result is [true]. *)
Inductive send_outcome (w : world F) (self : Z) (k : aesd_worker) (id : Z) (c : conn)
    (ret : bool) (w' : world F) : Prop :=
| send_unopened :
    ret = false -> w' = w ->
    (exists w1, files w1 = files w /\ C w1 (QOpen (output_path_ k) false) (-1)) ->
    send_outcome w self k id c ret w'
| send_pieces stopped ps ws bs :
    is_Some (files w !! output_path_ k) ->
    w' = flagged self k stopped
           (worked w k id (file_of (output_path_ k) w)
              (Conn (inbox c) (sent c ++ concat ws)) bs) ->
    length bs = Z.to_nat (buf_size_ k) ->
    Forall2 W ws ps -> concat ps `prefix_of` of_data (file_of (output_path_ k) w) ->
    (ret = true -> stopped = false /\ concat ps = of_data (file_of (output_path_ k) w)) ->
    (stopped = true -> may C (QShutdown self) true) ->
    (ret = false -> stopped = true \/ send_failure k) ->
    send_outcome w self k id c ret w'.

Lemma wpr_send_response w self k id c fuel :
  ready w self k id c ->
  (length (of_data (file_of (output_path_ k) w)) < fuel)%nat ->
  wpr C (send_response fuel self) (or_killed k (send_outcome w self k id c)) w.
Proof.
  intros Hr Hfu. destruct (rd_mem _ _ _ _ _ Hr) as (bs & Hbs & Hlen).
  unfold send_response. apply wpr_bind_wp. eapply wp_worker_at; [done|done|].
  apply wpr_bind_wp. eapply wp_lock_output; [done|]. apply wpr_bind_wp. eapply wp_open; [done..| |].
  - intros Hm. cbn [Z.eqb]. apply wpr_wp. wp_step. apply wp_ret. wp_step.
    eapply wp_unlock_output; [done|done|]. apply wp_ret, send_unopened; [done|done|].
    eexists. split; [|exact Hm]. done.
  - intros fd Hfd0 Hfd Hex. rewrite (proj2 (Z.eqb_neq _ _)) by lia.
    destruct (Hex eq_refl) as [f Hf]. cbn [files set_mutexes] in Hf.
    assert (file_of (output_path_ k) w = f) as Hfo by (unfold file_of; by rewrite Hf).
    rewrite (working_open w self k id c bs f fd false Hr Hbs Hf).
    do 2 apply wpr_bind. eapply wpr_mono;
      [|eapply (wpr_send_loop w self k id c fd); [done..|lia|done|by rewrite drop_0, <- Hfo]].
    intros [[ok w']|e]; [|done]. intros (stopped & ps & ws & pos & bs' & -> & Hb & [Hws Hpre Hall Hst Hfail]).
    rewrite drop_0 in *.
    assert (forall ret stopped,
      (ret = true -> stopped = false /\ concat ps = of_data f) ->
      (stopped = true -> may C (QShutdown self) true) ->
      (ret = false -> stopped = true \/ send_failure k) ->
      wp C (close fd;; mret ret)
        (fun ret w' => wpr C (pthread_mutex_unlock (output_lock_ k);; mret ret)
           (or_killed k (send_outcome w self k id c)) w')
        (flagged self k stopped
           (working w k id fd pos false f (Conn (inbox c) (sent c ++ concat ws)) bs'))) as Hend.
    { intros ret st Hr1 Hs1 Hf1. wp_step. eapply wp_close_output; [done..|]. intros _.
      apply wp_ret, wpr_wp. wp_step. eapply wp_unlock_output; [done|by destruct st|].
      apply wp_ret. by apply send_pieces with st ps ws bs'; rewrite ?Hfo. }
    apply wpr_wp. wp_step. destruct ok, stopped.
    + wp_step. eapply wp_load_shutdown_set; [done|done|]. apply wp_ret. apply Hend; naive_solver.
    + wp_step. eapply wp_load_shutdown; [done|done| |].
      * intros Hm. apply wp_ret. apply (Hend false true); naive_solver.
      * apply wp_ret. apply (Hend true false); naive_solver.
    + apply wp_ret. apply Hend; naive_solver.
    + apply wp_ret. apply (Hend false false); naive_solver.
Qed.

Lemma wp_close_client w' self k (Q : unit -> world F -> Prop) :
  self <> 0 -> workers w' !! self = Some k -> 0 <= client_fd k ->
  Q tt (set_logs (logs w' ++ [LogClosed (client_addr k)])
          (set_fds (delete (client_fd k) (fds w')) w')) ->
  wp C (close_client self) Q w'.
Proof.
  intros Hs Hw Hfd HQ. unfold close_client. wp_step. eapply wp_act.
  { by rewrite (proj2 (Z.eqb_neq _ _) Hs), Hw. }
  rewrite (proj2 (Z.geb_le _ _) Hfd). unfold close. do 2 wp_step.
  apply (wp_ask (S := P F)). intros r _. unfold syslog. by wp_steps.
Qed.

End send.
(** ** Theorems *)

Section theorems.
Context {F : Type} `{OutputFileLaws F}.

(** [send_response] ends whatever fails and whenever a shutdown is requested, unless
    the client has closed the connection, which ends the whole process where the
    contract [C] allows that [send] finds it closed; what it has
    sent then is, in order, what [send] took of the first pieces of the file, and a
    result of [true] means that the pieces make up the whole file. The file is
    unchanged, closed again, and its mutex free. *)
Theorem send_response_outcomes {X} (C : contract (P F)) (o : env (P F) X) w x self k id c fuel :
  (forall w q a, C w q a -> posix w q a) -> respects C o -> ready w self k id c ->
  (length (of_data (file_of (output_path_ k) w)) < fuel)%nat ->
  (exists ret w' x',
    run o (send_response fuel self) w x = Ok (ret, w', x')
    /\ send_outcome C prefix w self k id c ret w')
  \/ (run o (send_response fuel self) w x = Err Killed /\ hangup C k Killed).
Proof.
  intros HC Ho Hr Hfu.
  pose proof (wpr_run C o (send_response fuel self) _ w x Ho
    (wpr_send_response C HC prefix (fun _ _ data r _ _ => prefix_take data _)
       w self k id c fuel Hr Hfu)) as Hrun.
  destruct (run o (send_response fuel self) w x) as [[[ret w'] x']|e]; cbn in Hrun; [by eauto 6|].
  right. pose proof Hrun as [-> _]. done.
Qed.

End theorems.

(** ** Witnesses *)

Lemma send_response_outcomes_witness :
  exists ret w' x',
    run calm (send_response 6 8)
      (sample_process (PlainFile [byte_a; byte_b; byte_a; byte_b; newline]) []) tt
      = Ok (ret, w', x')
    /\ send_outcome posix_ok prefix
         (sample_process (PlainFile [byte_a; byte_b; byte_a; byte_b; newline]) [])
         8 sample_worker 5 (Conn [] []) ret w'.
Proof.
  destruct (send_response_outcomes posix_ok calm
    (sample_process (PlainFile [byte_a; byte_b; byte_a; byte_b; newline]) []) tt 8 sample_worker 5
    (Conn [] []) 6) as [Hok|[Hk _]].
  - apply posix_ok_posix.
  - auto with envs.
  - apply sample_ready.
  - vm_compute. lia.
  - exact Hok.
  - vm_compute in Hk. discriminate Hk.
Defined.

End WorkerSend.
