(* ===== verification/WorkerMain.v ===== *)
(** * Worker threads: the whole thread

    [aesd_worker_main] receives a message, sends the output file back, closes
    the connection and reports its exit, unless its client is gone before the
    response, which ends the process. Over the device's specification the response
    is the last ten messages. *)

From S2P Require Import Prelude CircularBuffer DriverSpec Process Worker WorkerSpec.
From S2P Require Import WorkerReceive WorkerSend.

Module WorkerMain.
Import Memory OutputFile Process Worker WorkerSpec WorkerReceive WorkerSend.

Section main.
Context {F : Type} `{OutputFileLaws F}.
Implicit Types (w : world F) (k : aesd_worker).

Definition stopped_worker (stopped : bool) (k : aesd_worker) : aesd_worker :=
  if stopped then set_shutdown k else k.

(** The process when the thread has run: its buffer, output file and connection
    have the contents [bs], [fs] and [c], the connection is closed, the log has
    its end, and the worker says so. *)
Definition finished (w : world F) (self : Z) (k : aesd_worker) (id : Z) (stopped : bool)
    (bs : bytes) (fs : gmap string F) (c : conn) : world F :=
  World (<[buf_ k := bs]> (mem w))
    (<[self := set_exited (stopped_worker stopped k)]> (workers w)) (wentries w) (mutexes w)
    (threads w) (timers w) fs (delete (client_fd k) (fds w)) (<[id := c]> (conns w))
    (logs w ++ [LogClosed (client_addr k)]) (srv w).

Section rules.
Context (C : contract (P F)) (HC : forall w q a, C w q a -> posix w q a).
Context (Ww Ws : bytes -> bytes -> Prop).
Context (HWw : forall w fd data r, C w (QWrite fd data) r -> r <> -1 ->
                 Ww (take (Z.to_nat r) data) data).
Context (HWs : forall w fd data r, C w (QSend fd data) (Some r) -> r <> -1 ->
                 Ws (take (Z.to_nat r) data) data).

(** The end of the thread, from a state that [receive_data] or [send_response]
    left. *)
Lemma wp_finish w self k id c0 c stopped bs fs w1 (Q : unit -> world F -> Prop) :
  ready w self k id c0 ->
  w1 = flagged self k stopped
         (World (<[buf_ k := bs]> (mem w)) (workers w) (wentries w) (mutexes w) (threads w) (timers w)
            fs (fds w) (<[id := c]> (conns w)) (logs w) (srv w)) ->
  Q tt (finished w self k id stopped bs fs c) ->
  wp C (close_client self;; store_worker self set_exited) Q
    w1.
Proof.
  intros Hr Hw1 HQ. wp_step.
  assert (workers w1 !! self = Some (stopped_worker stopped k)) as Hw.
  { subst w1. destruct stopped; [apply lookup_insert_eq | apply (rd_worker _ _ _ _ _ Hr)]. }
  eapply wp_close_client; [apply (rd_self _ _ _ _ _ Hr)|exact Hw| |].
  { pose proof (rd_fd0 _ _ _ _ _ Hr). by destruct stopped. }
  eapply wp_store_worker; [apply (rd_self _ _ _ _ _ Hr)|exact Hw|].
  unfold finished in HQ. subst w1.
  destruct stopped; unfold set_workers; cbn; [by rewrite insert_insert_eq|done].
Qed.

(** What the thread does with the blocks a message makes: it stores what can be
    written of them, in order, and sends nothing before all are stored. Some are not
    stored only after a shutdown, or where [open] or [write] may fail. *)
Inductive main_outcome (w : world F) (self : Z) (k : aesd_worker) (id : Z) (c : conn)
    (blocks : list bytes) (e : ending) (w' : world F) : Prop :=
| main_done stopped bs fs l ws out :
    w' = finished w self k id stopped bs fs (Conn l (sent c ++ out)) ->
    length bs = Z.to_nat (buf_size_ k) ->
    Forall2 Ww ws (take (length ws) blocks) ->
    (ws = [] /\ fs = files w
     \/ fs = <[output_path_ k := write_blocks (file_of (output_path_ k) w) ws]> (files w)) ->
    (out <> [] -> e = Complete /\ length ws = length blocks) ->
    (stopped = true -> may C (QShutdown self) true) ->
    (stopped = false -> (length ws < length blocks)%nat ->
       may C (QOpen (output_path_ k) true) (-1) \/ exists fd data, may C (QWrite fd data) (-1)) ->
    main_outcome w self k id c blocks e w'.

Lemma worked_id w self k id c bs :
  ready w self k id c -> mem w !! buf_ k = Some bs ->
  World (<[buf_ k := bs]> (mem w)) (workers w) (wentries w) (mutexes w) (threads w) (timers w)
    (files w) (fds w) (<[id := c]> (conns w)) (logs w) (srv w) = w.
Proof.
  intros Hr Hm. rewrite (insert_id (mem w)) by done.
  rewrite (insert_id (conns w)) by apply (rd_conn _ _ _ _ _ Hr). by destruct w.
Qed.

Lemma worked_worked w k id f c bs f' c' bs' :
  worked (worked w k id f c bs) k id f' c' bs' = worked w k id f' c' bs'.
Proof. unfold worked; cbn. by rewrite !insert_insert_eq. Qed.

Lemma file_of_worked w k id f c bs : file_of (output_path_ k) (worked w k id f c bs) = f.
Proof. unfold file_of, worked; cbn. by rewrite lookup_insert_eq. Qed.

Lemma wpr_worker_main w self k id c fuel blocks e l' :
  ready w self k id c -> received (Z.to_nat (buf_size_ k)) (inbox c) blocks e l' ->
  (length blocks < fuel)%nat ->
  (forall ws, Forall2 Ww ws blocks ->
     (length (of_data (write_blocks (file_of (output_path_ k) w) ws)) < fuel)%nat) ->
  wpr C (aesd_worker_main fuel self)
    (fun r => match r with
              | Ok (_, w') => main_outcome w self k id c blocks e w'
              | Err x => hangup C k x /\ e = Complete
              end) w.
Proof.
  intros Hr Hrec Hfu Hfd. unfold aesd_worker_main. apply wpr_bind_wp.
  destruct (rd_mem _ _ _ _ _ Hr) as (bs & Hbs & Hlen).
  eapply wp_mono; [|by eapply (wp_receive_data C HC Ww)].
  intros ret w1 [-> -> Hop|stopped ws l1 bs1 -> Hb1 Hbl Hret _ Hst Hwr].
  { apply wpr_wp. wp_step. apply wp_ret.
    eapply (wp_finish w self k id c c false bs); [done|symmetry; by apply (worked_id w self)|]. destruct c as [l snt].
    eapply main_done with false bs (files w) l [] []; rewrite ?app_nil_r; try done; [lia|by left|].
    intros _ _. by left. }
  destruct ret.
  - destruct (proj1 Hret eq_refl) as (-> & -> & Hall). cbn [flagged].
    set (f1 := write_blocks _ ws).
    pose proof (ready_worked _ _ _ _ _ f1 (Conn l1 (sent c)) bs1 Hr Hb1) as Hr1.
    do 2 apply wpr_bind. eapply wpr_mono; [|eapply (wpr_send_response C HC Ws HWs); [exact Hr1|]].
    2: { rewrite file_of_worked. apply Hfd. by rewrite Hall, firstn_all in Hbl. }
    intros [[ret w2]|x]; [|by split].
    intros [_ -> _|st ps ws2 bs2 _ -> Hb2 _ _ _ Hst2 _]; apply wpr_wp, wp_ret, wpr_wp.
    + eapply (wp_finish w self k id c _ false); [done|done|].
      eapply main_done with false bs1 _ l1 ws []; rewrite ?app_nil_r; try done; [by right|lia].
    + rewrite file_of_worked, worked_worked.
      eapply (wp_finish w self k id c _ st); [done|done|].
      eapply main_done with st bs2 _ l1 ws (concat ws2); try done; [by right|lia].
  - apply wpr_wp. wp_step. apply wp_ret. eapply (wp_finish w self k id c _ stopped); [done|done|].
    eapply main_done with stopped bs1 _ l1 ws []; rewrite ?app_nil_r; try done; [by right|].
    intros Hs Hl. right. by apply Hwr.
Qed.

End rules.
(** With nothing failing the whole file is sent. *)
Lemma wp_send_complete w self k id c fuel :
  ready w self k id c -> is_Some (files w !! output_path_ k) ->
  (length (of_data (file_of (output_path_ k) w)) < fuel)%nat ->
  wp posix_ok (send_response fuel self)
    (fun ret w' => ret = true /\ exists bs, length bs = Z.to_nat (buf_size_ k)
       /\ w' = worked w k id (file_of (output_path_ k) w)
                 (Conn (inbox c) (sent c ++ of_data (file_of (output_path_ k) w))) bs) w.
Proof.
  intros Hr Hex Hfu.
  assert (wp posix_ok (send_response fuel self) (send_outcome posix_ok eq w self k id c) w) as Hwp.
  { apply (wp_of_wpr (S := P F) posix_ok (send_response fuel self)
      (or_killed posix_ok k (send_outcome posix_ok eq w self k id c))); [by intros x (_ & ? & ? & _ & ?)|].
    apply (wpr_send_response posix_ok posix_ok_posix eq); [|done..].
    intros ? ? data r [_ [= ->]] _. by rewrite Nat2Z.id, firstn_all. }
  eapply wp_mono; [|exact Hwp].
  intros ret w' [_ _ (w1 & Hfs & Ho)|stopped ps ws bs _ -> Hb Hw _ Hret Hst Hfail].
  { exfalso. destruct Ho as [_ Ho]. apply Ho; [right; by rewrite Hfs|done]. }
  destruct stopped; [by destruct (Hst eq_refl) as (? & _ & ?)|].
  destruct ret.
  - destruct (Hret eq_refl) as [_ <-]. apply list_eq_Forall2 in Hw as ->.
    split; [done|]. by exists bs.
  - exfalso. destruct (Hfail eq_refl) as [?|[(? & ? & _ & Hr0)|(? & ? & _ & [= Hs0])]]; [done|done|lia].
Qed.

Lemma wp_main_complete w self k id c fuel blocks l' :
  ready w self k id c -> received (Z.to_nat (buf_size_ k)) (inbox c) blocks Complete l' ->
  (length blocks < fuel)%nat ->
  let f := write_blocks (file_of (output_path_ k) w) blocks in
  (length (of_data f) < fuel)%nat ->
  wp posix_ok (aesd_worker_main fuel self)
    (fun _ w' => exists bs, w' = finished w self k id false bs (<[output_path_ k := f]> (files w))
                             (Conn l' (sent c ++ of_data f))) w.
Proof.
  intros Hr Hrec Hfu f Hfd. unfold aesd_worker_main. wp_step.
  eapply wp_mono; [|by eapply (wp_receive_complete posix_ok); eauto using posix_ok_posix].
  intros ret w1 (-> & bs1 & Hb1 & ->). fold f. wp_step.
  pose proof (ready_worked _ _ _ _ _ f (Conn l' (sent c)) bs1 Hr Hb1) as Hr1.
  wp_step. eapply wp_mono; [|eapply (wp_send_complete _ _ _ _ _ _ Hr1)].
  - intros ret w2 (-> & bs2 & Hb2 & ->). apply wp_ret. rewrite file_of_worked, worked_worked.
    eapply (wp_finish posix_ok w self k id c _ false); [done|done|]. by exists bs2.
  - cbn. rewrite lookup_insert_eq. by eexists.
  - by rewrite file_of_worked.
Qed.

(** ** Theorems *)

(** C13: the whole thread, whatever fails of what [C] allows, within what POSIX
    promises, and whenever a shutdown is requested: if the arrivals come to a newline or an error, it ends with its connection closed, the
    mutex free, every other part of the process as it was and its [exited] flag set;
    it has appended a prefix of each of the first blocks of the message, and sends
    nothing before all of them are stored; without a shutdown all are stored, unless
    [C] allows [open] or [write] to fail. The one other ending is of the whole
    process, by [SIGPIPE], when the client may close the connection after its
    message. *)
Theorem aesd_worker_main_outcomes {X} (C : contract (P F)) (o : env (P F) X) w x self k id c fuel blocks e l' :
  (forall w q a, C w q a -> posix w q a) -> respects C o -> ready w self k id c ->
  received (Z.to_nat (buf_size_ k)) (inbox c) blocks e l' -> (length blocks < fuel)%nat ->
  (forall ws, Forall2 prefix ws blocks ->
     (length (of_data (write_blocks (file_of (output_path_ k) w) ws)) < fuel)%nat) ->
  (exists w' x',
    run o (aesd_worker_main fuel self) w x = Ok (tt, w', x')
    /\ main_outcome C prefix w self k id c blocks e w')
  \/ (run o (aesd_worker_main fuel self) w x = Err Killed /\ hangup C k Killed /\ e = Complete).
Proof.
  intros HC Ho Hr Hrec Hfu Hfd.
  pose proof (wpr_run C o (aesd_worker_main fuel self) _ w x Ho
    (wpr_worker_main C HC prefix prefix (fun _ _ data r _ _ => prefix_take data _)
       (fun _ _ data r _ _ => prefix_take data _) w self k id c fuel blocks e l' Hr Hrec Hfu Hfd)) as Hrun.
  destruct (run o (aesd_worker_main fuel self) w x) as [[[[] w'] x']|y]; [by eauto|].
  right. pose proof Hrun as [[-> _] _]. done.
Qed.

(** C14: with nothing failing, the thread appends the message block by block and
    then sends back everything the file reads as, its own message included. *)
Theorem aesd_worker_main_echo {X} (o : env (P F) X) w x self k id c fuel blocks l' :
  respects posix_ok o -> ready w self k id c ->
  received (Z.to_nat (buf_size_ k)) (inbox c) blocks Complete l' ->
  (length blocks < fuel)%nat ->
  let f := write_blocks (file_of (output_path_ k) w) blocks in
  (length (of_data f) < fuel)%nat ->
  exists bs x',
    run o (aesd_worker_main fuel self) w x
      = Ok (tt, finished w self k id false bs (<[output_path_ k := f]> (files w))
                  (Conn l' (sent c ++ of_data f)), x').
Proof.
  intros Ho Hr Hrec Hfu f Hfd.
  destruct (wp_run posix_ok o _ _ w x Ho (wp_main_complete w self k id c fuel blocks l' Hr Hrec Hfu Hfd))
    as ([] & w' & x' & Hrun & bs & ->). eauto.
Qed.

(** Nothing fails, but every client has closed its connection. *)
Definition hung_up : contract (P F) := fun w q =>
  match q return panswer q -> Prop with
  | QSend _ _ => fun r => r = None
  | q => posix_ok w q
  end.

Lemma hung_up_posix w q a : hung_up w q a -> posix w q a.
Proof. destruct q; cbn; try by intros []. by intros -> ?. Qed.

Lemma hung_up_ok w q a : hung_up w q a -> (forall fd data, q <> QSend fd data) -> posix_ok w q a.
Proof. destruct q; cbn; try done. intros _ Hq. by destruct (Hq fd data). Qed.

Lemma wpr_send_killed w self k id c fuel :
  ready w self k id c -> is_Some (files w !! output_path_ k) ->
  of_data (file_of (output_path_ k) w) <> [] ->
  (length (of_data (file_of (output_path_ k) w)) < fuel)%nat ->
  wpr hung_up (send_response fuel self) (eq (Err Killed)) w.
Proof.
  intros Hr Hex Hne Hfu. eapply wpr_mono; [|by eapply (wpr_send_response hung_up hung_up_posix (fun _ _ => False))].
  intros [[ret w']|x]; [|by intros [-> _]].
  intros [_ _ (w1 & Hfs & Ho)|stopped ps ws bs _ _ _ Hw _ Hret Hst Hfail]; exfalso.
  { destruct Ho as [_ Ho]. apply Ho; [right; by rewrite Hfs|done]. }
  assert (ps = []) as -> by by destruct Hw.
  destruct stopped; [by destruct (Hst eq_refl) as (? & _ & ?)|].
  destruct ret; [by destruct (Hret eq_refl) as [_ Hd]; apply Hne|].
  by destruct (Hfail eq_refl) as [?|[(? & ? & _ & ?)|(? & ? & ?)]].
Qed.

(** C29: A client that sends its message and closes the connection before it has the
    response takes the whole server down with it: the worker's [send] raises
    [SIGPIPE], and nothing handles or blocks the signal. *)
Theorem worker_killed {X} (o : env (P F) X) w x self k id c fuel blocks l' :
  respects hung_up o -> ready w self k id c ->
  received (Z.to_nat (buf_size_ k)) (inbox c) blocks Complete l' ->
  (length blocks < fuel)%nat ->
  let f := write_blocks (file_of (output_path_ k) w) blocks in
  of_data f <> [] -> (length (of_data f) < fuel)%nat ->
  run o (aesd_worker_main fuel self) w x = Err Killed.
Proof.
  intros Ho Hr Hrec Hfu f Hne Hfd.
  assert (wpr hung_up (aesd_worker_main fuel self) (eq (Err Killed)) w) as Hwp.
  { apply wpr_bind_wp. eapply wp_mono;
      [|eapply (wp_receive_complete hung_up); eauto using hung_up_posix, hung_up_ok].
    intros ret w1 (-> & bs1 & Hb1 & ->). fold f.
    pose proof (ready_worked _ _ _ _ _ f (Conn l' (sent c)) bs1 Hr Hb1) as Hr1.
    do 2 apply wpr_bind. eapply wpr_mono; [|eapply (wpr_send_killed _ _ _ _ _ _ Hr1)].
    - by intros ? <-.
    - cbn. rewrite lookup_insert_eq. by eexists.
    - by rewrite file_of_worked.
    - by rewrite file_of_worked. }
  pose proof (wpr_run _ o _ _ w x Ho Hwp) as Hrun.
  destruct (run o (aesd_worker_main fuel self) w x) as [[[? ?] ?]|]; by simplify_eq.
Qed.

End main.

(** ** Over the character device *)

Import CircularBuffer DriverSpec.

Lemma received_nonempty n l blocks e l' :
  (0 < n)%nat -> received n l blocks e l' -> Forall (.≠ []) blocks.
Proof.
  intros Hn. induction 1 as [|l l' bs b Hst Hcut|l l1 l' bs e blocks Hst Hcut Hrec IH].
  - constructor.
  - apply cut_some in Hcut as (msg & extra & _ & _ & ->). repeat constructor. by destruct msg.
  - constructor; [|done]. intros Hp. apply (f_equal length) in Hp.
    rewrite length_padded in Hp by by eapply recv_step_length. simpl in Hp. lia.
Qed.

(** Blocks that make one message make one entry of the device. *)
Lemma device_write_blocks (a : dspec) blocks msg :
  Forall (.≠ []) blocks -> concat blocks = msg ++ [newline] -> newline ∉ msg ->
  write_blocks a blocks
    = DSpec (lastn capacity (committed a ++ [pending a ++ msg ++ [newline]])) [].
Proof.
  revert a msg. induction blocks as [|b blocks IH]; intros a msg Hne Hc Hm; [by destruct msg|].
  inversion Hne as [|? ? Hb Hne']; subst. cbn [concat] in Hc. unfold write_blocks. cbn [foldl].
  destruct blocks as [|b2 blocks].
  - cbn [concat] in Hc. rewrite app_nil_r in Hc. subst b. cbn [foldl].
    unfold of_write, device_output, spec_write, spec_commit, spec_append; cbn.
    rewrite decide_True; [done|]. by rewrite !last_app.
  - inversion Hne' as [|? ? Hb2 Hne'']; subst.
    assert (exists msg', msg = b ++ msg' /\ concat (b2 :: blocks) = msg' ++ [newline])
      as (msg' & -> & Hc').
    { apply app_eq_inv in Hc as [(k & -> & Hk)|(k & -> & Hk)]; [|by exists k].
      destruct k as [|y [|z k]]; simplify_list_eq; [by exists []; rewrite app_nil_r|].
      by destruct b2. }
    assert (of_write a b = DSpec (committed a) (pending a ++ b)) as ->.
    { unfold of_write, device_output, spec_write, spec_commit, spec_append; cbn.
      rewrite decide_False; [done|]. destruct b as [|y b _] using rev_ind; [done|].
      rewrite app_assoc, last_snoc. intros [= ->]. apply Hm, elem_of_app. left.
      apply elem_of_app. right. apply list_elem_of_here. }
    fold (write_blocks (DSpec (committed a) (pending a ++ b)) (b2 :: blocks)).
    rewrite (IH _ msg' Hne' Hc'); cbn; [by rewrite <- !app_assoc|].
    intros Hin. apply Hm, elem_of_app. by right.
Qed.

(** The worker over the character device: a message whose deliveries fill
    the buffer (a single delivery, for one) becomes one entry of the device,
    after what was pending there, and the client is sent the last ten entries. *)
Theorem device_echo {X} (o : env (P dspec) X) (w : world dspec) x self k id c fuel cs rest
    msg extra (a : dspec) :
  respects posix_ok o -> ready w self k id c -> files w !! output_path_ k = Some a ->
  inbox c = deliveries cs ++ rest -> Forall (.≠ []) cs ->
  concat cs = msg ++ newline :: extra -> newline ∉ msg ->
  fills (Z.to_nat (buf_size_ k)) (length msg) cs ->
  (S (length msg) < fuel)%nat ->
  let entries := lastn capacity (committed a ++ [pending a ++ msg ++ [newline]]) in
  (length (concat entries) < fuel)%nat ->
  exists l' bs x',
    run o (aesd_worker_main fuel self) w x
      = Ok (tt, finished w self k id false bs
                  (<[output_path_ k := DSpec entries []]> (files w))
                  (Conn l' (sent c ++ concat entries)), x').
Proof.
  intros Ho Hr Hfile Hin Hne Hc Hm Hfill Hfu entries Hfe.
  pose proof (rd_size _ _ _ _ _ Hr) as Hsz.
  destruct (received_message (Z.to_nat (buf_size_ k)) cs rest msg extra)
    as (blocks & l' & Hrec & Hlb & _ & Hex); [lia|done|done|done|]. rewrite <- Hin in Hrec.
  assert (file_of (output_path_ k) w = a) as Ha by (unfold file_of; by rewrite Hfile).
  pose proof (device_write_blocks a blocks msg
    (received_nonempty (Z.to_nat (buf_size_ k)) _ _ _ _ ltac:(lia) Hrec) (Hex Hfill) Hm) as Hwb.
  destruct (wp_run posix_ok o _ _ w x Ho
    (wp_main_complete w self k id c fuel blocks l' Hr Hrec ltac:(lia)
       ltac:(rewrite Ha, Hwb; exact Hfe)))
    as ([] & w' & x' & Hrun & bs & ->).
  rewrite Ha, Hwb in Hrun. by exists l', bs, x'.
Qed.

(** ** Witnesses *)

Lemma aesd_worker_main_outcomes_witness :
  exists w' x',
    run calm (aesd_worker_main 7 8)
      (sample_process (PlainFile []) (deliveries full_deliveries)) tt = Ok (tt, w', x')
    /\ main_outcome posix_ok prefix
         (sample_process (PlainFile []) (deliveries full_deliveries)) 8 sample_worker 5
         (Conn (deliveries full_deliveries) [])
         [[byte_a; byte_a; byte_a; byte_a]; [byte_b; newline]] Complete w'.
Proof.
  destruct (aesd_worker_main_outcomes posix_ok calm
    (sample_process (PlainFile []) (deliveries full_deliveries)) tt 8 sample_worker 5
    (Conn (deliveries full_deliveries) []) 7
    [[byte_a; byte_a; byte_a; byte_a]; [byte_b; newline]] Complete []) as [Hok|[Hk _]].
  - apply posix_ok_posix.
  - auto with envs.
  - apply sample_ready.
  - apply sample_received.
  - simpl. lia.
  - intros ws Hws.
    inversion Hws as [|b1 ? ws1 ? H1 Hws1]; subst.
    inversion Hws1 as [|b2 ? ws2 ? H2 Hws2]; subst. inversion Hws2; subst.
    apply prefix_length in H1, H2. rewrite plain_write_blocks. cbn in H1, H2.
    change (OutputFile.contents (file_of _ _)) with (@nil Byte.byte).
    cbn [concat]. rewrite !length_app. cbn [length]. lia.
  - exact Hok.
  - vm_compute in Hk. discriminate Hk.
Defined.

Lemma aesd_worker_main_echo_witness :
  exists bs x',
    run calm (aesd_worker_main 8 8)
      (sample_process (PlainFile [byte_b]) (deliveries full_deliveries)) tt
      = Ok (tt, finished (sample_process (PlainFile [byte_b]) (deliveries full_deliveries))
                  8 sample_worker 5 false bs
                  {[ output_path_ sample_worker :=
                       PlainFile [byte_b; byte_a; byte_a; byte_a; byte_a; byte_b; newline] ]}
                  (Conn [] [byte_b; byte_a; byte_a; byte_a; byte_a; byte_b; newline]), x').
Proof.
  destruct (aesd_worker_main_echo calm
           (sample_process (PlainFile [byte_b]) (deliveries full_deliveries)) tt 8 sample_worker 5
           (Conn (deliveries full_deliveries) []) 8
           [[byte_a; byte_a; byte_a; byte_a]; [byte_b; newline]] []) as (bs & x' & Hrun).
  - auto with envs.
  - apply sample_ready.
  - apply sample_received.
  - simpl. lia.
  - vm_compute. lia.
  - exists bs, x'. exact Hrun.
Defined.

(** A system on which nothing fails and every client has closed its connection. *)
Definition clients_gone {F} `{OutputFile F} : env (P F) unit := fun w x q =>
  match q return panswer q * unit with
  | QSend _ _ => (None, x)
  | q => calm w x q
  end.

Lemma clients_gone_hung_up {F} `{OutputFile F} : respects hung_up (clients_gone (F := F)).
Proof. intros w x q. pose proof (calm_ok w x q) as Hok. by destruct q. Qed.

Lemma worker_killed_witness :
  run clients_gone (aesd_worker_main 8 8)
    (sample_process (PlainFile [byte_b]) (deliveries full_deliveries)) tt = Err Killed.
Proof.
  apply (worker_killed clients_gone
    (sample_process (PlainFile [byte_b]) (deliveries full_deliveries)) tt 8 sample_worker 5
    (Conn (deliveries full_deliveries) []) 8
    [[byte_a; byte_a; byte_a; byte_a]; [byte_b; newline]] []).
  - apply clients_gone_hung_up.
  - apply sample_ready.
  - apply sample_received.
  - simpl. lia.
  - discriminate.
  - vm_compute. lia.
Defined.

Lemma device_echo_witness :
  exists l' bs x',
    run calm (aesd_worker_main 12 8)
      (sample_process (DSpec [[byte_b; newline]] []) (deliveries full_deliveries)) tt
      = Ok (tt, finished (sample_process (DSpec [[byte_b; newline]] []) (deliveries full_deliveries))
                  8 sample_worker 5 false bs
                  {[ output_path_ sample_worker :=
                       DSpec [[byte_b; newline];
                              [byte_a; byte_a; byte_a; byte_a; byte_b; newline]] [] ]}
                  (Conn l' [byte_b; newline;
                            byte_a; byte_a; byte_a; byte_a; byte_b; newline]), x').
Proof.
  destruct (device_echo calm
           (sample_process (DSpec [[byte_b; newline]] []) (deliveries full_deliveries))
           tt 8 sample_worker 5 (Conn (deliveries full_deliveries) []) 12
           full_deliveries [] [byte_a; byte_a; byte_a; byte_a; byte_b] []
           (DSpec [[byte_b; newline]] [])) as (l' & bs & x' & Hrun).
  - auto with envs.
  - apply sample_ready.
  - reflexivity.
  - reflexivity.
  - by repeat constructor.
  - reflexivity.
  - by apply newline_not_in.
  - intros _. split; [reflexivity|]. cbn. intros Hl. lia.
  - simpl. lia.
  - vm_compute. lia.
  - exists l', bs, x'. exact Hrun.
Defined.

End WorkerMain.
