(* ===== verification/Server.v ===== *)
(** * The server: model

    [server/src/aesd_server.c] and [server/include/aesdsocket/aesd_server.h]:
    the listening socket, the list of workers, the timestamp timer and the
    server's run from start to shutdown, over the one server [g_srv]. *)

From S2P Require Import Prelude Process Worker.
Export Process Worker.

Module Server.

(** Signal numbers of [<signal.h>]. *)
Definition SIGINT : Z := 2.
Definition SIGALRM : Z := 14.
Definition SIGTERM : Z := 15.

(** ** Field updates *)

Definition srv_set_running (b : bool) (s : aesd_server) : aesd_server :=
  Server b (s_buf_size_ s) (s_char_dev_ s) (s_output_path_ s) (port_ s) (sock_fd_ s)
    (timer_ s) (workers_ s).
Definition srv_set_port (p : string) (s : aesd_server) : aesd_server :=
  Server (running s) (s_buf_size_ s) (s_char_dev_ s) (s_output_path_ s) p (sock_fd_ s)
    (timer_ s) (workers_ s).
Definition srv_set_sock (fd : Z) (s : aesd_server) : aesd_server :=
  Server (running s) (s_buf_size_ s) (s_char_dev_ s) (s_output_path_ s) (port_ s) fd
    (timer_ s) (workers_ s).
Definition srv_set_timer (t : Z) (s : aesd_server) : aesd_server :=
  Server (running s) (s_buf_size_ s) (s_char_dev_ s) (s_output_path_ s) (port_ s)
    (sock_fd_ s) t (workers_ s).
Definition srv_set_workers (h : slist_head) (s : aesd_server) : aesd_server :=
  Server (running s) (s_buf_size_ s) (s_char_dev_ s) (s_output_path_ s) (port_ s)
    (sock_fd_ s) (timer_ s) h.

Section server.
Context {F : Type} `{OutputFile F}.

Abbreviation proc := (prog (P F)).

(** ** The listening socket *)

(** The [for] loop of [srv_bind]. *)
Fixpoint bind_loop (srv_info : list addrinfo) : proc unit :=
  match srv_info with
  | [] => mret tt
  | pinfo :: srv_info =>
      sockfd ← socket pinfo;
      if sockfd =? -1 then bind_loop srv_info
      else
        r ← ask (S := P F) (QSetsockopt sockfd);
        if (r : Z) =? -1 then close sockfd;; mret tt
        else
          r ← bind sockfd pinfo;
          if r =? -1 then close sockfd;; bind_loop srv_info
          else upd_srv (srv_set_sock sockfd)
  end.

Definition srv_bind (port : string) : proc bool :=
  '(gai_result, srv_info) ← ask (S := P F) (QGetaddrinfo port);
  if negb (gai_result =? 0) then mret false
  else
    upd_srv (srv_set_sock (-1));;
    bind_loop srv_info;;
    fd ← get_srv sock_fd_;
    if negb (fd =? -1) then upd_srv (srv_set_port port);; mret true
    else mret false.

Definition srv_listen (backlog : Z) : proc bool :=
  fd ← get_srv sock_fd_;
  r ← listen fd backlog;
  if r =? -1 then close fd;; mret false
  else
    port ← get_srv port_;
    syslog (LogListening port);;
    mret true.

(** ** Workers *)

Definition insert_worker_entry (entry : Z) : proc unit :=
  act (S := P F) (fun w =>
    '(head, h) ← SLIST_INSERT_HEAD (workers_ (srv w)) (wentries w) entry;
    mret (tt, set_srv (srv_set_workers head (srv w)) (set_wentries h w))).

Definition remove_worker_entry (entry : Z) : proc unit :=
  act (S := P F) (fun w =>
    '(head, h) ← SLIST_REMOVE (workers_ (srv w)) (wentries w) entry;
    mret (tt, set_srv (srv_set_workers head (srv w)) (set_wentries h w))).

Definition next_worker_entry (entry : Z) : proc Z :=
  act (S := P F) (fun w => next ← SLIST_NEXT (wentries w) entry; mret (next, w)).

Definition accept_client : proc bool :=
  s ← get_srv id;
  worker ← aesd_worker_new (s_buf_size_ s) (s_char_dev_ s) (s_output_path_ s) SRV_LOCK;
  if worker =? 0 then mret false
  else
    '(client_fd, addr) ← accept (sock_fd_ s);
    store_worker worker (set_client client_fd addr);;
    if client_fd =? -1 then aesd_worker_delete worker;; mret false
    else
      syslog (LogAccepted addr);;
      entry ← aesd_worker_entry_new worker;
      let worker := 0 in                       (* worker = NULL *)
      started ← aesd_worker_entry_start entry;
      if negb (started : bool) then
        k ← worker_at worker;                  (* worker->client_fd *)
        close (Process.client_fd k);;
        e ← entry_at entry;
        aesd_worker_delete (Process.worker e);;
        mret false
      else
        insert_worker_entry entry;;
        mret true.

(** The body of the loop of [check_workers]. *)
Definition check_worker (entry : Z) : proc unit :=
  e ← entry_at entry;
  exited ← load_exited (worker e);
  if (exited : bool) then
    remove_worker_entry entry;;
    aesd_worker_entry_join entry;;
    aesd_worker_entry_delete entry
  else mret tt.

Definition check_workers : proc unit :=
  fuel ← get (S := P F) (fun w => size (wentries w));
  first ← get_srv (fun s => SLIST_FIRST (workers_ s));
  SLIST_FOREACH_SAFE next_worker_entry fuel first check_worker.

(** ** Shutdown *)

(** The body of the loop of [srv_shutdown]. *)
Definition stop_worker (entry : Z) : proc unit :=
  e ← entry_at entry;
  store_worker (worker e) set_shutdown;;
  remove_worker_entry entry;;
  aesd_worker_entry_join entry;;
  aesd_worker_entry_delete entry.

Definition srv_shutdown : proc unit :=
  s ← get_srv id;
  (if negb (timer_ s =? 0) then timer_delete (timer_ s);; mret tt else mret tt);;
  close (sock_fd_ s);;
  fuel ← get (S := P F) (fun w => size (wentries w));
  SLIST_FOREACH_SAFE next_worker_entry fuel (SLIST_FIRST (workers_ s)) stop_worker;;
  (if negb (s_char_dev_ s) then unlink (s_output_path_ s);; mret tt else mret tt);;
  pthread_mutex_destroy SRV_LOCK.

(** ** The timestamp timer *)

Definition alarm_handler (sig : Z) : proc unit :=
  if sig =? SIGALRM then
    timestamp_str ← ask (S := P F) QTimestamp;
    path ← get_srv s_output_path_;
    pthread_mutex_lock SRV_LOCK;;
    output_fd ← open path true;
    (if output_fd =? -1 then mret tt
     else write_bytes output_fd timestamp_str;; close output_fd;; mret tt);;
    pthread_mutex_unlock SRV_LOCK
  else mret tt.

Definition start_timestamp_timer : proc unit :=
  result ← ask (S := P F) QSigaction;
  if (result : Z) =? -1 then mret tt
  else
    '(result, t) ← timer_create;
    if result =? -1 then mret tt
    else
      upd_srv (srv_set_timer t);;
      timer_settime t;;
      mret tt.

(** ** The server *)

Definition aesd_server_init (buf_size : Z) (char_dev : bool) (output_path : string) : proc unit :=
  pthread_mutex_init SRV_LOCK;;
  upd_srv (fun _ => Server false buf_size char_dev output_path "" (-1) 0 SLIST_INIT);;
  if negb char_dev then start_timestamp_timer else mret tt.

(** [self->running] is cleared by a signal handler and not set again. *)
Definition load_running : proc bool :=
  r ← get_srv running;
  if negb r then mret false
  else
    stopped ← ask (S := P F) QStopped;
    if (stopped : bool) then upd_srv (srv_set_running false);; mret false
    else mret true.

Fixpoint serve (fuel : nat) : proc unit :=
  match fuel with
  | O => Crash OutOfFuel
  | S fuel =>
      r ← load_running;
      if negb (r : bool) then mret tt
      else
        accepted ← accept_client;
        (if (accepted : bool) then check_workers else mret tt);;
        serve fuel
  end.

Definition aesd_server_run (fuel : nat) (port : string) (backlog : Z) : proc Z :=
  bound ← srv_bind port;
  if negb (bound : bool) then mret (-1)
  else
    listening ← srv_listen backlog;
    if negb (listening : bool) then mret (-1)
    else
      upd_srv (srv_set_running true);;
      serve fuel;;
      srv_shutdown;;
      mret 0.

End server.
End Server.
