(* ===== verification/ServerSpec.v ===== *)
(** * The server's workers: specification and rules

    [pool] says what the server owns for its workers: a list entry, a worker, a
    buffer and a running thread each, and nothing else. The rules below take a
    worker out of the pool, or add one. *)

From S2P Require Import Prelude Process Worker WorkerSpec Server.

Module ServerSpec.
Import Memory SList OutputFile Process Worker WorkerSpec Server.

(** ** The pool *)

(** The addresses that belong to one worker. *)
Record slot : Type := Slot {
  sl_entry : Z;
  sl_worker : Z;
  sl_tid : Z;
  sl_buf : Z
}.

(** [m] holds exactly the keys [l], each once. *)
Definition holds {A} (m : gmap Z A) (l : list Z) : Prop :=
  dom m = list_to_set l /\ NoDup l.

Section pool.
Context {F : Type}.
Implicit Types (w : world F) (ps : list slot).

(** The parts of a slot refer to each other. *)
Record slot_ok (w : world F) (p : slot) : Prop := SlotOk {
  so_entry : exists next, wentries w !! sl_entry p
               = Some (WorkerEntry (sl_tid p) (sl_worker p) next);
  so_worker : exists k, workers w !! sl_worker p = Some k /\ buf_ k = sl_buf p;
  so_thread : threads w !! sl_tid p = Some (sl_worker p);
  so_nonnull : sl_worker p <> 0 /\ sl_buf p <> 0
}.

Record pool (w : world F) (ps : list slot) : Prop := Pool {
  pl_list : slist (workers_ (srv w)) (wentries w) (sl_entry <$> ps);
  pl_slots : Forall (slot_ok w) ps;
  pl_entries : holds (wentries w) (sl_entry <$> ps);
  pl_workers : holds (workers w) (sl_worker <$> ps);
  pl_threads : holds (threads w) (sl_tid <$> ps);
  pl_bufs : holds (mem w) (sl_buf <$> ps)
}.

(** Nothing else of the process changes. *)
Record same_rest (w w' : world F) : Prop := SameRest {
  sr_mutexes : mutexes w' = mutexes w;
  sr_timers : timers w' = timers w;
  sr_files : files w' = files w;
  sr_fds : fds w' = fds w;
  sr_conns : conns w' = conns w;
  sr_logs : logs w' = logs w;
  sr_srv : srv w' = srv_set_workers (workers_ (srv w')) (srv w)
}.

#[export] Instance same_rest_preorder : PreOrder same_rest.
Proof.
  split.
  - intros w. split; try done. by destruct (srv w).
  - intros w1 w2 w3 [m1 t1 f1 d1 c1 l1 s1] [m2 t2 f2 d2 c2 l2 s2]. split; try congruence.
    rewrite s2 at 1. by rewrite s1.
Qed.

(** ** Lemmas *)

Lemma holds_delete {A} (m : gmap Z A) l1 x l2 :
  holds m (l1 ++ x :: l2) -> holds (delete x m) (l1 ++ l2).
Proof.
  intros [Hd Hn]. apply NoDup_app in Hn as (Hn1 & Hdis & Hn2).
  apply list.NoDup_cons in Hn2 as [Hx Hn2]. split.
  - rewrite dom_delete_L, Hd, !list_to_set_app_L, list_to_set_cons.
    assert (x ∉ (list_to_set l1 : gset Z)) as H1.
    { rewrite elem_of_list_to_set. intros Hin. apply (Hdis x Hin), list_elem_of_here. }
    assert (x ∉ (list_to_set l2 : gset Z)) as H2 by by rewrite elem_of_list_to_set.
    set_solver.
  - apply NoDup_app. split_and!; [done| |done].
    intros y Hy Hy2. by apply (Hdis y Hy), list_elem_of_further.
Qed.

Lemma holds_insert {A} (m : gmap Z A) l x a :
  holds m l -> m !! x = None -> holds (<[x := a]> m) (x :: l).
Proof.
  intros [Hd Hn] Hx. split.
  - by rewrite dom_insert_L, Hd, list_to_set_cons.
  - apply list.NoDup_cons. split; [|done].
    apply not_elem_of_dom in Hx. by rewrite Hd, elem_of_list_to_set in Hx.
Qed.

Lemma holds_same_dom {A B} (m : gmap Z A) (m' : gmap Z B) l :
  dom m' = dom m -> holds m l -> holds m' l.
Proof. intros Hd [? ?]. split; congruence. Qed.

Lemma holds_elem {A} (m : gmap Z A) l x : holds m l -> m !! x = None -> x ∉ l.
Proof. intros [Hd _] Hx%not_elem_of_dom. by rewrite Hd, elem_of_list_to_set in Hx. Qed.

(** The other slots' addresses differ from [p]'s. *)
Lemma fmap_ne {A} (f : A -> Z) (l1 : list A) p l2 q :
  NoDup (f <$> l1 ++ p :: l2) -> q ∈ l1 ++ l2 -> f q <> f p.
Proof.
  rewrite fmap_app, fmap_cons. intros Hn Hq Heq.
  apply NoDup_app in Hn as (_ & Hdis & Hn2). apply list.NoDup_cons in Hn2 as [Hp _].
  apply elem_of_app in Hq as [Hq|Hq].
  - apply (Hdis (f q)); [by apply list_elem_of_fmap_2|].
    rewrite Heq. apply list_elem_of_here.
  - apply Hp. rewrite <- Heq. by apply list_elem_of_fmap_2.
Qed.

Lemma pool_slot w l1 p l2 : pool w (l1 ++ p :: l2) -> slot_ok w p.
Proof.
  intros [_ Hs _ _ _ _]. rewrite Forall_forall in Hs. apply Hs, elem_of_app. right.
  apply list_elem_of_here.
Qed.

(** The pool depends on the parts of the process it names only. *)
Lemma pool_frame w w' ps :
  pool w ps -> mem w' = mem w -> workers w' = workers w -> wentries w' = wentries w ->
  threads w' = threads w -> workers_ (srv w') = workers_ (srv w) -> pool w' ps.
Proof.
  intros [Hl Hs He Hw Ht Hb] Em Ew Ee Et Es.
  split; rewrite ?Em, ?Ew, ?Ee, ?Et, ?Es; try done.
  eapply Forall_impl; [exact Hs|]. intros p []. by split; rewrite ?Ew, ?Ee, ?Et.
Qed.

(** A worker's flags may change. *)
Lemma pool_set_worker w ps p k k' :
  pool w ps -> p ∈ ps -> workers w !! sl_worker p = Some k -> buf_ k' = buf_ k ->
  pool (set_workers (<[sl_worker p := k']> (workers w)) w) ps.
Proof.
  intros [Hl Hs He Hw Ht Hb] Hp Hk Hbuf. split; try done.
  - rewrite Forall_forall in Hs |- *. intros q Hq. destruct (Hs q Hq) as [? (kq & Hkq & Hbq) ? ?].
    split; try done. cbn. rewrite lookup_insert. case_decide as Heq; [|by eauto].
    exists k'. split; [done|]. rewrite Hbuf, <- Hbq. rewrite Heq in Hk. congruence.
  - eapply holds_same_dom; [|exact Hw]. cbn. rewrite dom_insert_L.
    apply elem_of_dom_2 in Hk. set_solver.
Qed.

End pool.

(** ** Rules *)

Section rules.
Context {F : Type} `{OutputFileLaws F}.
Context (C : contract (P F)) (HC : forall w q a, C w q a -> posix w q a).
Implicit Types (w : world F) (ps : list slot).

Lemma wp_entry_at w a e (Q : aesd_worker_entry -> world F -> Prop) :
  a <> 0 -> wentries w !! a = Some e -> Q e w -> wp C (entry_at a) Q w.
Proof. intros Hp He HQ. eapply wp_act; [|exact HQ]. by rewrite (elem_at_some _ _ _ Hp He). Qed.

Lemma wp_worker_at_live w a k (Q : aesd_worker -> world F -> Prop) :
  a <> 0 -> workers w !! a = Some k -> Q k w -> wp C (worker_at a) Q w.
Proof.
  intros Ha Hk HQ. eapply wp_act; [|exact HQ]. by rewrite (proj2 (Z.eqb_neq _ _) Ha), Hk.
Qed.

(** The world without the worker of [p], its list [hd] in the entries [h]. *)
Definition without (p : slot) (hd : slist_head) (h : gmap Z aesd_worker_entry) (w : world F)
    : world F :=
  World (delete (sl_buf p) (mem w)) (delete (sl_worker p) (workers w)) (delete (sl_entry p) h)
    (mutexes w) (delete (sl_tid p) (threads w)) (timers w) (files w) (fds w) (conns w) (logs w)
    (srv_set_workers hd (srv w)).

Lemma pool_without w l1 p l2 hd h :
  pool w (l1 ++ p :: l2) -> relinked (wentries w) h ->
  slist hd h (sl_entry <$> l1 ++ l2) -> pool (without p hd h w) (l1 ++ l2).
Proof.
  intros [Hl Hs He Hw Ht Hb] Hrel Hl'.
  assert (sl_entry p ∉ sl_entry <$> l1 ++ l2) as Hpe.
  { intros (q & Hq & Hin)%list_elem_of_fmap.
    by apply (fmap_ne sl_entry l1 p l2 q (proj2 He) Hin). }
  split; cbn.
  - apply chain_delete_other; [done|]. exact Hl'.
  - rewrite Forall_forall in Hs |- *. intros q Hq.
    assert (q ∈ l1 ++ p :: l2) as Hq'.
    { apply elem_of_app in Hq as [?|?]; apply elem_of_app; [by left|right].
      by apply list_elem_of_further. }
    pose proof (fmap_ne sl_entry l1 p l2 q (proj2 He) Hq).
    pose proof (fmap_ne sl_worker l1 p l2 q (proj2 Hw) Hq).
    pose proof (fmap_ne sl_tid l1 p l2 q (proj2 Ht) Hq).
    destruct (Hs q Hq') as [[next Hen] Hwo Hth Hnn]. split; cbn; [| | |done].
    + destruct (relinked_some _ _ _ _ Hrel Hen) as [n Hn]. exists n.
      by rewrite lookup_delete_ne, Hn.
    + by rewrite lookup_delete_ne.
    + by rewrite lookup_delete_ne.
  - rewrite fmap_app in *. apply holds_delete. rewrite fmap_cons in He.
    eapply holds_same_dom; [|exact He]. by apply relinked_dom.
  - rewrite fmap_app in *. by apply holds_delete.
  - rewrite fmap_app in *. by apply holds_delete.
  - rewrite fmap_app in *. by apply holds_delete.
Qed.

(** Taking a worker out of the list, joining its thread and freeing it. *)
Lemma wp_release w l1 p l2 (Q : unit -> world F -> Prop) :
  pool w (l1 ++ p :: l2) ->
  (forall w', pool w' (l1 ++ l2) -> same_rest w w' ->
     workers w' = delete (sl_worker p) (workers w) -> Q tt w') ->
  wp C (remove_worker_entry (sl_entry p);;
        aesd_worker_entry_join (sl_entry p);;
        aesd_worker_entry_delete (sl_entry p)) Q w.
Proof.
  intros Hpool HQ.
  destruct (pool_slot _ _ _ _ Hpool) as [[next Hen] (k & Hk & Hbuf) Hth [Hw0 Hb0]].
  pose proof (pl_list _ _ Hpool) as Hl. rewrite fmap_app, fmap_cons in Hl.
  assert (sl_entry p <> 0) as He0.
  { eapply chain_alloc; [exact Hl|]. apply elem_of_app. right. apply list_elem_of_here. }
  destruct (remove_ok _ _ _ _ _ Hl) as (hd & h & Hrm & Hl' & Hrel & Hsame).
  rewrite Hen in Hsame. rewrite <- fmap_app in Hl'.
  wp_step. eapply wp_act; [cbv beta; by rewrite Hrm|].
  unfold aesd_worker_entry_join. do 2 wp_step. eapply wp_entry_at; [done|exact Hsame|].
  wp_step. apply (wp_ask (S := P F)). intros r _.
  eapply wp_act; [cbn [tid threads set_srv set_wentries]; by rewrite Hth|].
  unfold aesd_worker_entry_delete. wp_step. eapply wp_entry_at; [done|exact Hsame|].
  unfold aesd_worker_delete. do 2 wp_step. eapply wp_worker_at_live; [done|exact Hk|].
  unfold free. rewrite Hbuf, (proj2 (Z.eqb_neq _ _) Hb0).
  assert (exists bs, mem w !! sl_buf p = Some bs) as [bs Hbs].
  { apply elem_of_dom. rewrite (proj1 (pl_bufs _ _ Hpool)), elem_of_list_to_set.
    apply list_elem_of_fmap_2, elem_of_app. right. apply list_elem_of_here. }
  wp_step. eapply wp_act.
  { cbn [mem set_srv set_wentries set_threads]. unfold release. by rewrite Hbs. }
  unfold drop_worker. wp_steps. apply (HQ (without p hd h w)); [|by split|done].
  by apply pool_without.
Qed.

Lemma wp_next w l1 p l2 (Q : Z -> world F -> Prop) :
  pool w (l1 ++ p :: l2) -> Q (default 0 (head (sl_entry <$> l2))) w ->
  wp C (next_worker_entry (sl_entry p)) Q w.
Proof.
  intros Hpool HQ. eapply wp_act; [|exact HQ].
  pose proof (pl_list _ _ Hpool) as Hl. rewrite fmap_app, fmap_cons in Hl.
  by rewrite (slist_next _ _ _ _ _ Hl).
Qed.

End rules.
(** ** A concrete server *)

(** A server with one worker, of a client that has not sent anything. *)
Definition sample_server : world plain_file :=
  World {[ 16 := zeros 4 ]} {[ 8 := sample_worker ]} {[ 24 := WorkerEntry 1 8 0 ]}
    {[ SRV_LOCK := false ]} {[ 1 := 8 ]} ∅ ∅ {[ 4 := FdSocket true true; 3 := FdConn 5 ]}
    {[ 5 := Conn [] [] ]} []
    (Server true 4 false (output_path_ sample_worker) "9000" 4 0 (SListHead 24)).

Definition sample_slot : slot := Slot 24 8 1 16.

Lemma holds_singleton {A} (k : Z) (a : A) : holds {[ k := a ]} [k].
Proof. split; [|apply NoDup_singleton]. rewrite dom_singleton_L. set_solver. Qed.

Lemma sample_pool : pool sample_server [sample_slot].
Proof.
  split; try apply holds_singleton.
  - split; [done|]. split; [done|]. by eexists.
  - repeat constructor; cbn; try done; by eexists.
Qed.

End ServerSpec.
