(* ===== verification/ServerWorkers.v ===== *)
(** * The server's workers: reaping and shutdown

    [check_workers] takes the workers that have exited out of the pool, and
    [srv_shutdown] all of them. *)

From S2P Require Import Prelude Process Worker WorkerSpec Server ServerSpec.

Module ServerWorkers.
Import Memory SList OutputFile Process Worker WorkerSpec Server ServerSpec.

Section workers.
Context {F : Type} `{OutputFileLaws F}.
Context (C : contract (P F)) (HC : forall w q a, C w q a -> posix w q a).
Implicit Types (w : world F) (ps : list slot).

(** ** check_workers *)

Definition worker_exited (w : world F) (p : slot) : Prop :=
  exists k, workers w !! sl_worker p = Some k /\ exited k = true.

(** The workers kept, of the slots [vps] visited so far. *)
Record checked (w0 : world F) (vps tps kept : list slot) (w : world F) : Prop := Checked {
  ck_pool : pool w (kept ++ tps);
  ck_sub : kept `sublist_of` vps;
  ck_rest : same_rest w0 w;
  ck_kept : forall p, p ∈ kept -> ~ worker_exited w0 p;
  ck_gone : forall p, p ∈ vps -> p ∉ kept ->
    worker_exited w0 p \/ may C (QExited (sl_worker p)) true;
  ck_same : forall p, p ∈ kept ++ tps -> workers w !! sl_worker p = workers w0 !! sl_worker p
}.

Lemma pool_nonnull w ps : pool w ps -> Forall (.≠ 0) (sl_entry <$> ps).
Proof. intros [Hl _ _ _ _ _]. by eapply chain_nonnull. Qed.

Lemma checked_slot w0 vps p tps kept w :
  checked w0 vps (p :: tps) kept w ->
  sl_entry p <> 0 /\ (p ∉ kept)
  /\ (forall q, q ∈ kept ++ tps -> sl_worker q <> sl_worker p)
  /\ (forall q, q ∈ kept ++ tps -> q ∈ kept ++ p :: tps).
Proof.
  intros [Hpool _ _ _ _ _].
  assert (forall q, q ∈ kept ++ tps -> sl_worker q <> sl_worker p) as Hne.
  { intros q. apply fmap_ne, (pl_workers _ _ Hpool). }
  split_and!; [| |done|].
  - pose proof (pool_nonnull _ _ Hpool) as Hn. rewrite Forall_forall in Hn.
    apply Hn, list_elem_of_fmap_2, elem_of_app. right. apply list_elem_of_here.
  - intros Hp. apply (Hne p); [|done]. apply elem_of_app. by left.
  - intros q [Hq|Hq]%elem_of_app; apply elem_of_app; [by left|right].
    by apply list_elem_of_further.
Qed.

(** A worker that is not seen to have exited is kept, *)
Lemma checked_keep w0 vps p tps kept w k :
  checked w0 vps (p :: tps) kept w ->
  workers w !! sl_worker p = Some k -> exited k = false ->
  checked w0 (vps ++ [p]) tps (kept ++ [p]) w.
Proof.
  intros [Hpool Hsub Hrest Hkept Hgone Hsame] Hk Hex. split; try done.
  - by rewrite <- app_assoc.
  - by apply sublist_app.
  - intros q [Hq|Hq]%elem_of_app; [by apply Hkept|].
    apply list_elem_of_singleton in Hq as ->. intros (k' & Hk' & Hex').
    rewrite <- Hsame, Hk in Hk'; [congruence|].
    apply elem_of_app. right. apply list_elem_of_here.
  - intros q Hq Hqk. apply not_elem_of_app in Hqk as [Hq1 Hq2].
    apply elem_of_app in Hq as [Hq|Hq]; [by apply Hgone|done].
  - intros q. rewrite <- app_assoc. apply Hsame.
Qed.

(** and one that is, is taken out. *)
Lemma wp_checked_drop w0 vps p tps kept w w1 :
  checked w0 vps (p :: tps) kept w -> pool w1 (kept ++ p :: tps) -> same_rest w0 w1 ->
  (forall q, q ∈ kept ++ tps -> workers w1 !! sl_worker q = workers w0 !! sl_worker q) ->
  worker_exited w0 p \/ may C (QExited (sl_worker p)) true ->
  wp C (remove_worker_entry (sl_entry p);; aesd_worker_entry_join (sl_entry p);;
        aesd_worker_entry_delete (sl_entry p))
    (fun _ w' => checked w0 (vps ++ [p]) tps kept w') w1.
Proof.
  intros Hck Hp1 Hr1 Hs1 Hex. destruct (checked_slot _ _ _ _ _ _ Hck) as (_ & _ & Hne & _).
  destruct Hck as [Hpool Hsub Hrest Hkept Hgone Hsame].
  eapply wp_release; [exact Hp1|]. intros w' Hp' Hr' Hw'. split; try done.
  - by apply sublist_inserts_r.
  - by etrans.
  - intros q [Hq|Hq]%elem_of_app Hqk; [by apply Hgone|].
    by apply list_elem_of_singleton in Hq as ->.
  - intros q Hq. rewrite Hw', lookup_delete_ne; [by apply Hs1|].
    intros Heq. by apply (Hne q Hq).
Qed.

Lemma wp_check_worker w0 vps p tps kept w :
  checked w0 vps (p :: tps) kept w ->
  wp C (check_worker (sl_entry p))
    (fun _ w' => exists kept', checked w0 (vps ++ [p]) tps kept' w') w.
Proof.
  intros Hck. destruct (checked_slot _ _ _ _ _ _ Hck) as (He0 & Hpk & Hne & Hmid).
  pose proof (ck_pool _ _ _ _ _ Hck) as Hpool.
  pose proof (ck_same _ _ _ _ _ Hck) as Hsame.
  destruct (pool_slot _ _ _ _ Hpool) as [[next Hen] (k & Hk & Hbuf) Hth [Hw0 Hb0]].
  assert (p ∈ kept ++ p :: tps) as Hin.
  { apply elem_of_app. right. apply list_elem_of_here. }
  unfold check_worker. wp_step. eapply wp_entry_at; [done|exact Hen|]. wp_step.
  unfold load_exited. wp_step. eapply wp_worker_at_live; [done|exact Hk|].
  destruct (exited k) eqn:Hex.
  - apply wp_ret. eapply wp_mono with (Q := fun _ w' => checked w0 (vps ++ [p]) tps kept w'); [by intros ? ? Hc; eexists; exact Hc|].
    eapply wp_checked_drop; [exact Hck|done|apply Hck|by intros q Hq; apply Hsame, Hmid|].
    left. exists k. split; [|done]. by rewrite <- Hsame.
  - wp_step. apply (wp_ask (S := P F)). intros [] Ha.
    2: { apply wp_ret, wp_ret. eexists. by eapply checked_keep. }
    wp_step. eapply wp_store_worker; [done|exact Hk|]. apply wp_ret. eapply wp_mono with (Q := fun _ w' => checked w0 (vps ++ [p]) tps kept w'); [by intros ? ? Hc; eexists; exact Hc|].
    eapply wp_checked_drop; [exact Hck|by apply (pool_set_worker w _ p k)| | |right; by exists w].
    + destruct (ck_rest _ _ _ _ _ Hck). by split.
    + intros q Hq. cbn. rewrite lookup_insert_ne; [by apply Hsame, Hmid|].
      intros Heq. by apply (Hne q Hq).
Qed.

(** The whole loop. *)
Lemma wp_check_workers w ps :
  pool w ps ->
  wp C check_workers (fun _ w' => exists kept, checked w ps [] kept w') w.
Proof.
  intros Hpool. unfold check_workers, get_srv. wp_steps.
  pose proof (pl_list _ _ Hpool) as Hl. pose proof (chain_size _ _ _ Hl) as Hsz.
  unfold SLIST_FIRST. rewrite (chain_head _ _ _ Hl).
  eapply wp_mono; [|apply wp_foreach_safe with
    (I := fun vis todo s => exists vps tps kept,
            ps = vps ++ tps /\ todo = sl_entry <$> tps /\ checked w vps tps kept s)
    (vis := [])].
  - intros _ w' (vps & tps & kept & -> & Ht & Hck).
    symmetry in Ht. apply fmap_nil_inv in Ht as ->. rewrite app_nil_r. by exists kept.
  - done.
  - by eapply pool_nonnull.
  - exists [], ps, []. split; [done|]. split; [done|].
    split; try done; intros q Hq; by apply not_elem_of_nil in Hq.
  - intros vis x r s (vps & tps & kept & -> & Ht & Hck).
    destruct tps as [|p tps]; [done|]. injection Ht as -> ->.
    by eapply wp_next; [apply Hck|].
  - intros vis x r s (vps & tps & kept & -> & Ht & Hck).
    destruct tps as [|p tps]; [done|]. injection Ht as -> ->.
    eapply wp_mono; [|by eapply wp_check_worker]. intros ? w' [kept' Hck'].
    exists (vps ++ [p]), tps, kept'. by rewrite <- app_assoc.
Qed.

(** ** srv_shutdown *)

Lemma wp_stop_worker w p tps :
  pool w (p :: tps) ->
  wp C (stop_worker (sl_entry p)) (fun _ w' => pool w' tps /\ same_rest w w') w.
Proof.
  intros Hpool. pose proof (pool_nonnull _ _ Hpool) as Hn. rewrite fmap_cons in Hn.
  inversion Hn as [|? ? He0 _]; subst.
  destruct (pool_slot w [] p tps Hpool) as [[next Hen] (k & Hk & Hbuf) Hth [Hw0 Hb0]].
  unfold stop_worker. wp_step. eapply wp_entry_at; [done|exact Hen|].
  wp_step. eapply wp_store_worker; [done|exact Hk|].
  eapply (wp_release C _ [] p tps).
  - apply (pool_set_worker w (p :: tps) p k); [done|apply list_elem_of_here|done|done].
  - intros w' Hp' Hr' _. split; [done|]. destruct Hr'. by split.
Qed.

(** The timers once the server has deleted its own; it takes a timer whose
    identifier is null for none. *)
Definition timers_left (s : aesd_server) (m : gmap Z bool) : gmap Z bool :=
  if timer_ s =? 0 then m else delete (timer_ s) m.

(** What is left of the server's resources. *)
Record shut_down (w w' : world F) : Prop := ShutDown {
  sd_pool : pool w' [];
  sd_fds : fds w' = delete (sock_fd_ (srv w)) (fds w);
  sd_lock : mutexes w' = delete SRV_LOCK (mutexes w);
  sd_timers : timers w' = timers_left (srv w) (timers w);
  sd_files :
    if s_char_dev_ (srv w) then files w' = files w
    else files w' = delete (s_output_path_ (srv w)) (files w)
         \/ (files w' = files w /\ exists w1 r, files w1 = files w
               /\ C w1 (QUnlink (s_output_path_ (srv w))) r /\ r <> 0);
  sd_conns : conns w' = conns w;
  sd_logs : logs w' = logs w
}.

Lemma wp_stop_workers w ps fuel :
  pool w ps -> (length ps <= fuel)%nat ->
  wp C (SLIST_FOREACH_SAFE next_worker_entry fuel (SLIST_FIRST (workers_ (srv w))) stop_worker)
    (fun _ w' => pool w' [] /\ same_rest w w') w.
Proof.
  intros Hpool Hfu. pose proof (pl_list _ _ Hpool) as Hl.
  unfold SLIST_FIRST. rewrite (chain_head _ _ _ Hl).
  eapply wp_mono; [|apply wp_foreach_safe with
    (I := fun (_ : list Z) todo s => exists tps,
            todo = sl_entry <$> tps /\ pool s tps /\ same_rest w s)
    (vis := [])].
  - intros ? w' (tps & Ht & Hp & Hr). symmetry in Ht. by apply fmap_nil_inv in Ht as ->.
  - by rewrite length_fmap.
  - by eapply pool_nonnull.
  - by exists ps.
  - intros vis x r s (tps & Ht & Hp & Hr). destruct tps as [|p tps]; [done|].
    injection Ht as -> ->. by apply (wp_next C s [] p tps).
  - intros vis x r s (tps & Ht & Hp & Hr). destruct tps as [|p tps]; [done|].
    injection Ht as -> ->. eapply wp_mono; [|by apply wp_stop_worker].
    intros ? w' [Hp' Hr']. exists tps. split; [done|]. split; [done|]. by etrans.
Qed.

Lemma wp_unlink path w (Q : Z -> world F -> Prop) :
  (forall r, C w (QUnlink path) r -> r <> 0 -> Q r w) ->
  Q 0 (set_files (delete path (files w)) w) ->
  wp C (unlink path) Q w.
Proof.
  intros Hf Hs. unfold unlink. wp_step. apply (wp_ask (S := P F)). intros r Hr. cbn in r.
  destruct (Z.eqb_spec r 0); [by wp_steps|]. by apply wp_ret, Hf.
Qed.

Lemma wp_timer_delete id w (Q : Z -> world F -> Prop) :
  (forall r, Q r (set_timers (delete id (timers w)) w)) -> wp C (timer_delete id) Q w.
Proof.
  intros HQ. unfold timer_delete. wp_step. apply (wp_ask (S := P F)). intros r Hr. cbn in r.
  destruct (HC _ _ _ Hr) as [->|[-> Hn]]; cbn [Z.eqb]; [wp_steps; apply HQ|]. apply wp_ret.
  specialize (HQ (-1)). rewrite delete_id in HQ by done. by destruct w.
Qed.

Lemma wp_srv_shutdown w ps :
  pool w ps -> mutexes w !! SRV_LOCK = Some false ->
  wp C srv_shutdown (fun _ w' => shut_down w w') w.
Proof.
  intros Hpool Hlock. unfold srv_shutdown, get_srv. do 2 wp_step. unfold id.
  apply wp_bind. apply wp_mono with (Q := fun _ w' => w' = set_timers (timers_left (srv w) (timers w)) w).
  2: { unfold timers_left. destruct (timer_ (srv w) =? 0); [apply wp_ret; by destruct w|].
       cbn [negb]. wp_step. apply wp_timer_delete. intros r. by apply wp_ret. }
  intros _ ? ->. unfold close. do 2 wp_step. apply (wp_ask (S := P F)). intros r _. wp_steps.
  set (w1 := set_fds (delete (sock_fd_ (srv w)) (fds w)) (set_timers (timers_left (srv w) (timers w)) w)).
  assert (pool w1 ps) as Hp1 by by apply (pool_frame w).
  pose proof (chain_size _ _ _ (pl_list _ _ Hp1)) as Hsz. rewrite length_fmap in Hsz.
  eapply wp_mono; [|apply (wp_stop_workers w1 ps _ Hp1 Hsz)].
  intros ? w2 [Hp2 [Hm Ht Hf Hd Hc Hlg Hs]]. wp_step.
  assert (forall w3, pool w3 [] -> mutexes w3 = mutexes w -> timers w3 = timers w1 -> fds w3 = fds w1 ->
    conns w3 = conns w -> logs w3 = logs w ->
    (if s_char_dev_ (srv w) then files w3 = files w
     else files w3 = delete (s_output_path_ (srv w)) (files w)
          \/ (files w3 = files w /\ exists w4 r, files w4 = files w
               /\ C w4 (QUnlink (s_output_path_ (srv w))) r /\ r <> 0)) ->
    wp C (pthread_mutex_destroy SRV_LOCK) (fun _ w' => shut_down w w') w3) as Hend.
  { intros w3 Hp3 Hm3 Ht3 Hd3 Hc3 Hl3 Hf3. eapply wp_act; [cbv beta; by rewrite Hm3, Hlock|].
    split; cbn; try done; [by apply (pool_frame w3)]. }
  destruct (s_char_dev_ (srv w)) eqn:Hdev; cbn [negb].
  - apply wp_ret. by apply Hend.
  - wp_step. apply wp_unlink.
    + intros r' Hr' Hr0. apply wp_ret. apply Hend; try done. right.
      split; [done|]. by exists w2, r'.
    + apply wp_ret. apply Hend; try done; [by apply (pool_frame w2)|].
      left. cbn. by rewrite Hf.
Qed.


End workers.

(** ** Theorems *)

Section theorems.
Context {F : Type} `{OutputFileLaws F}.
Implicit Types (w : world F) (ps : list slot).

(** C25: [check_workers] ends with the workers it keeps still in the list, in
    order and unchanged, and everything of the others freed exactly once (entry,
    worker, buffer, thread joined): no worker known to have exited is kept, and
    one that goes had its flag set, or the system allows ([C]) that the worker sets it
    before it is looked at. Nothing else of the process changes. *)
Theorem check_workers_reaps {X} (C : contract (P F)) (o : env (P F) X) w x ps :
  (forall w q a, C w q a -> posix w q a) -> respects C o -> pool w ps ->
  exists kept w' x',
    run o check_workers w x = Ok (tt, w', x') /\ checked C w ps [] kept w'.
Proof.
  intros HC Ho Hp. destruct (wp_run C o check_workers _ w x Ho (wp_check_workers _ w ps Hp))
    as ([] & w' & x' & Hrun & kept & Hck). eauto.
Qed.

(** C26: [srv_shutdown] ends with every worker's thread joined and its memory
    freed, the timer deleted unless its identifier is null, the listening socket
    closed, the mutex destroyed, and the output deleted unless it is a device or
    [unlink] fails, which it does only where the system allows it ([C]). *)
Theorem srv_shutdown_releases {X} (C : contract (P F)) (o : env (P F) X) w x ps :
  (forall w q a, C w q a -> posix w q a) -> respects C o ->
  pool w ps -> mutexes w !! SRV_LOCK = Some false ->
  exists w' x',
    run o srv_shutdown w x = Ok (tt, w', x') /\ shut_down C w w'.
Proof.
  intros HC Ho Hp Hl. destruct (wp_run C o srv_shutdown _ w x Ho (wp_srv_shutdown _ HC w ps Hp Hl))
    as ([] & w' & x' & Hrun & Hd). eauto.
Qed.

End theorems.

(** ** Witnesses *)

(** The server when its worker has set its flag. *)
Definition exited_server : world plain_file :=
  set_workers {[ 8 := set_exited sample_worker ]} sample_server.

Lemma exited_pool : pool exited_server [sample_slot].
Proof.
  split; try apply holds_singleton.
  - split; [done|]. split; [done|]. by eexists.
  - repeat constructor; cbn; try done; by eexists.
Qed.

(** Nothing fails, and no worker sets its flag meanwhile. *)
Definition none_exits {F} `{OutputFile F} : contract (P F) := fun w q x =>
  posix_ok w q x /\ match q return panswer q -> Prop with
                    | QExited _ => fun e => e = false
                    | _ => fun _ => True
                    end x.

Lemma none_exits_posix {F} `{OutputFile F} w q x : none_exits w q x -> posix w q x.
Proof. by intros [[] _]. Qed.

Lemma calm_none_exits : respects none_exits (calm (F := plain_file)).
Proof. intros w x q. pose proof (calm_ok w x q) as Hok. by destruct q; split. Qed.
#[export] Hint Resolve calm_none_exits : envs.

Lemma kept_cases {F} `{OutputFile F} (C : contract (P F)) (w w' : world F) p kept :
  checked C w [p] [] kept w' -> kept = [] \/ kept = [p].
Proof.
  intros Hck. pose proof (ck_sub _ _ _ _ _ _ Hck) as Hs.
  inversion Hs as [|? ? ? Hn|? ? ? Hn]; subst; apply sublist_nil_r in Hn as ->; by auto.
Qed.

(** A worker that has exited goes, and one that runs stays. *)
Lemma check_workers_reaps_witness :
  (exists w' x', run calm check_workers exited_server tt = Ok (tt, w', x')
     /\ checked none_exits exited_server [sample_slot] [] [] w')
  /\ exists w' x', run calm check_workers sample_server tt = Ok (tt, w', x')
     /\ checked none_exits sample_server [sample_slot] [] [sample_slot] w'.
Proof.
  split.
  - destruct (check_workers_reaps none_exits calm exited_server tt [sample_slot])
      as (kept & w' & x' & Hrun & Hck);
      [apply none_exits_posix|auto with envs|apply exited_pool|].
    exists w', x'. split; [exact Hrun|]. destruct (kept_cases _ _ _ _ _ Hck) as [->| ->]; [exact Hck|].
    exfalso. apply (ck_kept _ _ _ _ _ _ Hck sample_slot (list_elem_of_here _ _)). by eexists.
  - destruct (check_workers_reaps none_exits calm sample_server tt [sample_slot])
      as (kept & w' & x' & Hrun & Hck);
      [apply none_exits_posix|auto with envs|apply sample_pool|].
    exists w', x'. split; [exact Hrun|]. destruct (kept_cases _ _ _ _ _ Hck) as [->| ->]; [|exact Hck].
    exfalso. destruct (ck_gone _ _ _ _ _ _ Hck sample_slot) as [(k & Hk & He)|(w1 & _ & Hf)];
      [apply list_elem_of_here|apply not_elem_of_nil| |discriminate Hf].
    injection Hk as <-. discriminate He.
Defined.

Lemma srv_shutdown_releases_witness :
  exists w' x',
    run calm srv_shutdown sample_server tt = Ok (tt, w', x')
    /\ shut_down posix_ok sample_server w'.
Proof.
  apply (srv_shutdown_releases posix_ok calm sample_server tt [sample_slot]).
  - apply posix_ok_posix.
  - auto with envs.
  - apply sample_pool.
  - reflexivity.
Defined.

End ServerWorkers.
