(* ===== verification/ServerAccept.v ===== *)
(** * The server's workers: accepting a client

    [accept_client] adds one worker to the pool, ready to run, or leaves the
    process as it was; a failure of [pthread_create] it does not survive. Each ending
    comes with the failure that the system allows and that leads to it. *)

From S2P Require Import Prelude Process Worker WorkerSpec Server ServerSpec.

Module ServerAccept.
Import Memory SList OutputFile Process Worker WorkerSpec Server ServerSpec.

Section accept.
Context {F : Type} `{OutputFileLaws F}.
Context (C : contract (P F)) (HC : forall w q a, C w q a -> posix w q a).
Implicit Types (w : world F) (ps : list slot).

(** The worker [aesd_worker_new] makes. *)
Definition new_worker (s : aesd_server) (b : Z) : aesd_worker :=
  Worker 0 (-1) false false b (s_buf_size_ s) (s_char_dev_ s) SRV_LOCK (s_output_path_ s).

(** The process with a new worker [a] whose buffer [b] holds [garbage]. *)
Definition with_worker (a b : Z) (garbage : bytes) (k : aesd_worker) (w : world F) : world F :=
  set_workers (<[a := k]> (workers w)) (set_mem (<[b := garbage]> (mem w)) w).

Lemma world_workers_eta w : set_workers (workers w) w = w.
Proof. by destruct w. Qed.

Lemma wp_worker_new w size dev path lock (Q : Z -> world F -> Prop) :
  ((exists r, may C QMallocWorker r /\ r.1 = 0) \/ (exists r, may C (QMalloc size) r /\ r.1 = 0) ->
   Q 0 w) ->
  (forall a b garbage, 0 < a -> workers w !! a = None -> 0 < b -> mem w !! b = None ->
     length garbage = Z.to_nat size ->
     Q a (with_worker a b garbage (Worker 0 (-1) false false b size dev lock path) w)) ->
  wp C (aesd_worker_new size dev path lock) Q w.
Proof.
  intros Hf Hs. unfold aesd_worker_new. wp_step. apply (wp_ask (S := P F)).
  intros [a uninit] Ha. destruct (Z.eqb_spec a 0) as [->|Ha0].
  { apply wp_ret, Hf. left. eexists. split; [by eexists|done]. }
  destruct (HC _ _ _ Ha) as [?|[Hap Hfree]]; [done|]. cbn in Hap, Hfree.
  unfold set_worker. do 3 wp_step. apply (wp_ask (S := P F)). intros [b garbage] Hb.
  destruct (Z.eqb_spec b 0) as [->|Hb0].
  - unfold drop_worker. wp_steps. unfold set_workers; cbn.
    rewrite delete_insert_eq, delete_id by done.
    destruct w. apply Hf. right. eexists. split; [by eexists|done].
  - destruct (HC _ _ _ Hb) as [?|(Hbp & Hbfree & Hlen)]; [done|]. cbn in Hbp, Hbfree, Hlen.
    wp_step. eapply wp_act; [done|]. wp_steps. specialize (Hs a b garbage Hap Hfree Hbp Hbfree Hlen).
    revert Hs. unfold with_worker, set_workers, set_mem; cbn. by rewrite insert_insert_eq.
Qed.

(** What [accept] adds. *)
Definition with_client (a fd id addr : Z) (arrivals : list rx) (k : aesd_worker) (w : world F)
    : world F :=
  set_workers (<[a := set_client fd addr k]> (workers w))
    (set_conns (<[id := Conn arrivals []]> (conns w)) (set_fds (<[fd := FdConn id]> (fds w)) w)).

Lemma wp_accept w sock (Q : Z * Z -> world F -> Prop) :
  ((exists r, may C (QAccept sock) r /\ r.1.1.1 = -1) -> Q (-1, 0) w) ->
  (forall fd id addr arrivals, 0 <= fd -> fds w !! fd = None -> conns w !! id = None ->
     Q (fd, addr) (set_conns (<[id := Conn arrivals []]> (conns w))
                     (set_fds (<[fd := FdConn id]> (fds w)) w))) ->
  wp C (accept sock) Q w.
Proof.
  intros Hf Hs. unfold accept. wp_step. apply (wp_ask (S := P F)).
  intros [[[fd addr] id] arrivals] Ha. destruct (Z.eqb_spec fd (-1)) as [->|Hfd].
  { apply wp_ret, Hf. eexists. split; [by eexists|done]. }
  destruct (HC _ _ _ Ha) as [?|(Hp & Hn & Hc)]; [done|].
  unfold set_fd. wp_steps. by apply Hs.
Qed.

(** Undoing [aesd_worker_new]. *)
Lemma wp_worker_delete_new w a b garbage k k' (Q : unit -> world F -> Prop) :
  0 < a -> workers w !! a = None -> 0 < b -> mem w !! b = None -> buf_ k' = b ->
  Q tt w ->
  wp C (aesd_worker_delete a) Q
    (set_workers (<[a := k']> (workers (with_worker a b garbage k w))) (with_worker a b garbage k w)).
Proof.
  intros Ha Hna Hb Hnb Hbuf HQ. unfold aesd_worker_delete. wp_step.
  eapply wp_act.
  { rewrite (proj2 (Z.eqb_neq _ _)) by lia. cbn. by rewrite lookup_insert_eq. }
  unfold free. rewrite Hbuf, (proj2 (Z.eqb_neq _ _)) by lia. wp_step. eapply wp_act.
  { unfold release, with_worker; cbn [mem set_mem set_workers]. by rewrite lookup_insert_eq. }
  unfold drop_worker. wp_step. unfold set_workers, set_mem, with_worker; cbn.
  rewrite !delete_insert_eq, !delete_id by done. by destruct w.
Qed.

(** The process with one more worker. *)
Definition accepted (w : world F) (p : slot) (fd id addr : Z) (arrivals : list rx)
    (garbage : bytes) : world F :=
  World (<[sl_buf p := garbage]> (mem w))
    (<[sl_worker p := set_client fd addr (new_worker (srv w) (sl_buf p))]> (workers w))
    (<[sl_entry p := WorkerEntry (sl_tid p) (sl_worker p) (slh_first (workers_ (srv w)))]>
       (wentries w))
    (mutexes w) (<[sl_tid p := sl_worker p]> (threads w)) (timers w) (files w)
    (<[fd := FdConn id]> (fds w)) (<[id := Conn arrivals []]> (conns w))
    (logs w ++ [LogAccepted addr]) (srv_set_workers (SListHead (sl_entry p)) (srv w)).

(** The addresses of a new slot are new. *)
Record fresh_slot (w : world F) (p : slot) : Prop := FreshSlot {
  fs_entry : 0 < sl_entry p /\ wentries w !! sl_entry p = None;
  fs_worker : 0 < sl_worker p /\ workers w !! sl_worker p = None;
  fs_thread : threads w !! sl_tid p = None;
  fs_buf : 0 < sl_buf p /\ mem w !! sl_buf p = None
}.

Lemma pool_accepted w ps p fd id addr arrivals garbage :
  pool w ps -> fresh_slot w p -> pool (accepted w p fd id addr arrivals garbage) (p :: ps).
Proof.
  intros [Hl Hs He Hw Ht Hb] [[He0 Hen] [Hw0 Hwn] Htn [Hb0 Hbn]]. split; cbn [fmap list_fmap].
  - split; [done|]. split; [lia|]. eexists. cbn [wentries accepted].
    split; [by rewrite lookup_insert_eq|].
    apply chain_insert_other; [|exact Hl]. by eapply holds_elem.
  - constructor.
    + split; cbn; rewrite ?lookup_insert_eq; [by eexists|by eexists|done|lia].
    + rewrite Forall_forall in Hs |- *. intros q Hq.
      assert (forall f : slot -> Z, f p ∉ f <$> ps -> f q <> f p) as Hne.
      { intros f Hf Heq. apply Hf. rewrite <- Heq. by apply list_elem_of_fmap_2. }
      pose proof (Hne sl_entry (holds_elem _ _ _ He Hen)).
      pose proof (Hne sl_worker (holds_elem _ _ _ Hw Hwn)).
      pose proof (Hne sl_tid (holds_elem _ _ _ Ht Htn)).
      destruct (Hs q Hq) as [? ? ? ?]. by split; cbn; rewrite ?lookup_insert_ne by done.
  - by apply holds_insert.
  - by apply holds_insert.
  - by apply holds_insert.
  - by apply holds_insert.
Qed.

(** The new worker is in the state its thread starts from. *)
Lemma ready_accepted w p fd id addr arrivals garbage :
  fresh_slot w p -> 0 <= fd -> length garbage = Z.to_nat (s_buf_size_ (srv w)) ->
  0 < s_buf_size_ (srv w) < 2 ^ 63 -> mutexes w !! SRV_LOCK = Some false ->
  ready (accepted w p fd id addr arrivals garbage) (sl_worker p)
    (set_client fd addr (new_worker (srv w) (sl_buf p))) id (Conn arrivals []).
Proof.
  intros [[He0 Hen] [Hw0 Hwn] Htn [Hb0 Hbn]] Hfd Hg Hsz Hlock.
  split; cbn; rewrite ?lookup_insert_eq; try done; try lia.
  exists garbage. split; [done|lia].
Qed.

(** How [accept_client] ends. *)
Inductive accept_outcome (w : world F) (ps : list slot) : res (bool * world F) -> Prop :=
| accept_failed :
    ((exists r, may C QMallocWorker r /\ r.1 = 0)
     \/ (exists r, may C (QMalloc (s_buf_size_ (srv w))) r /\ r.1 = 0)
     \/ (exists r, may C (QAccept (sock_fd_ (srv w))) r /\ r.1.1.1 = -1)) ->
    accept_outcome w ps (Ok (false, w))
| accept_done p fd id addr arrivals garbage :
    fresh_slot w p -> 0 <= fd -> fds w !! fd = None -> conns w !! id = None ->
    length garbage = Z.to_nat (s_buf_size_ (srv w)) ->
    may C QThreadCreate (0, sl_tid p) ->
    pool (accepted w p fd id addr arrivals garbage) (p :: ps) ->
    accept_outcome w ps (Ok (true, accepted w p fd id addr arrivals garbage))
| accept_crashed :
    (exists r, may C QMallocEntry r /\ r.1 = 0) \/ (exists r, may C QThreadCreate r /\ r.1 <> 0) ->
    accept_outcome w ps (Err NullDeref).

Lemma wpr_accept_client w ps :
  pool w ps -> wpr C accept_client (accept_outcome w ps) w.
Proof.
  intros Hpool. unfold accept_client, get_srv. apply wpr_bind_wp. apply wp_get. unfold id.
  apply wpr_bind_wp. apply wp_worker_new.
  { intros [Hf|Hf]; apply accept_failed; [by left|right; by left]. }
  intros a b garbage Ha Hna Hb Hnb Hlen. rewrite (proj2 (Z.eqb_neq _ _)) by lia.
  apply wpr_bind_wp. apply wp_accept.
  { intros Hf. apply wpr_bind_wp. eapply wp_store_worker; [lia|cbn; by rewrite lookup_insert_eq|]. cbn [Z.eqb].
    apply wpr_bind_wp. apply wp_worker_delete_new; try done. apply accept_failed. by right; right. }
  intros fd cid addr arrivals Hfd Hfdn Hcn.
  apply wpr_bind_wp. eapply wp_store_worker; [lia|cbn; by rewrite lookup_insert_eq|]. rewrite (proj2 (Z.eqb_neq fd _)) by lia.
  apply wpr_bind_wp. unfold syslog. apply wp_modify.
  apply wpr_bind. apply wpr_wp. unfold aesd_worker_entry_new. wp_step.
  apply (wp_ask (S := P F)). intros [e uninit] He. destruct (Z.eqb_spec e 0) as [->|He0].
  { apply wp_ret. apply wpr_bind. apply wpr_bind. eapply wpr_act_err; [done|].
    apply accept_crashed. left. eexists. split; [by eexists|done]. }
  destruct (HC _ _ _ He) as [?|[Hep Hen]]; [done|]. cbn in Hep, Hen. wp_steps.
  apply wpr_bind. apply wpr_wp. unfold aesd_worker_entry_start. wp_step.
  eapply wp_entry_at; [done|cbn; by rewrite lookup_insert_eq|]. wp_step.
  apply (wp_ask (S := P F)). intros [error t] Ht. destruct (Z.eqb_spec error 0) as [->|Herr].
  2: { apply wp_ret. cbn [negb]. apply wpr_bind. eapply wpr_act_err; [done|].
       apply accept_crashed. right. eexists. split; [by eexists|done]. }
  destruct (HC _ _ _ Ht) as [?|Htn]; [done|]. cbn in Htn. wp_steps. cbn [negb].
  set (p := Slot e a t b).
  assert (fresh_slot w p) as Hp by by split.
  apply wpr_bind_wp. eapply wp_act.
  { cbn [wentries set_wentries set_threads]. unfold SLIST_INSERT_HEAD.
    rewrite (link_some _ e (WorkerEntry t a (entries uninit))); [done|done|].
    by rewrite lookup_insert_eq. }
  apply wpr_wp, wp_ret.
  set (w' := set_srv _ _). assert (w' = accepted w p fd cid addr arrivals garbage) as ->.
  { unfold w', p. clear. destruct w as [m wk en mu th ti fi fd' co lo sr].
    cbv [accepted set_srv set_wentries set_threads set_logs set_workers set_conns set_fds
      with_worker set_mem mem workers wentries mutexes threads timers files fds conns logs srv
      sl_entry sl_worker sl_tid sl_buf]. by rewrite !insert_insert_eq. }
  eapply accept_done; try done; [by eexists|by apply pool_accepted].
Qed.

End accept.

(** ** Theorems *)

Section theorems.
Context {F : Type} `{OutputFileLaws F}.

(** Nothing fails but the creation of a thread. *)
Definition posix_no_thread : contract (P F) := fun w q =>
  match q return panswer q -> Prop with
  | QThreadCreate => fun r => r.1 <> 0
  | q => fun a => posix_ok w q a
  end.

Lemma posix_no_thread_posix w q a : posix_no_thread w q a -> posix w q a.
Proof. destruct q; cbn; try (by intros []). by left. Qed.

(** C32: [accept_client] on a server with workers [ps], on any system [C] within what
    POSIX promises: it returns [true] with one more worker at the head of the list, its
    thread started and its connection open; or [false] with the process exactly as it
    was, which it does only where [C] allows that an allocation for the worker or
    [accept] fails; or it follows a null pointer, only where [C] allows that the list
    entry cannot be allocated or the thread not created. *)
Theorem accept_client_outcomes {X} (C : contract (P F)) (o : env (P F) X) w x ps :
  (forall w q a, C w q a -> posix w q a) -> respects C o -> pool w ps ->
  match run o accept_client w x with
  | Ok (ret, w', x') => accept_outcome C w ps (Ok (ret, w'))
  | Err e => accept_outcome C w ps (Err e)
  end.
Proof. intros HC Ho Hp. apply (wpr_run C); [done|]. by apply wpr_accept_client. Qed.

(** With nothing failing the client gets a worker in the state that
    [aesd_worker_main] starts from: its own buffer, its connection, and the free
    mutex of the output. *)
Theorem accept_client_ready {X} (o : env (P F) X) w x ps :
  respects posix_ok o -> pool w ps -> mutexes w !! SRV_LOCK = Some false ->
  0 < s_buf_size_ (srv w) < 2 ^ 63 ->
  exists p k id arrivals w' x',
    run o accept_client w x = Ok (true, w', x')
    /\ pool w' (p :: ps) /\ ready w' (sl_worker p) k id (Conn arrivals [])
    /\ output_path_ k = s_output_path_ (srv w) /\ buf_ k = sl_buf p
    /\ buf_size_ k = s_buf_size_ (srv w).
Proof.
  intros Ho Hp Hlock Hsz.
  pose proof (wpr_run _ o _ _ w x Ho (wpr_accept_client posix_ok posix_ok_posix w ps Hp)) as Hrun.
  destruct (run o accept_client w x) as [[[ret w'] x']|e]; inversion Hrun as
    [Hf|p fd id addr arrivals garbage Hfr Hfd0 Hfd Hid Hg _ Hpool|Hc]; subst.
  - exfalso. destruct Hf as [(r & (w1 & _ & Hr) & Hz)|[(r & (w1 & _ & Hr) & Hz)|(r & (w1 & _ & Hr) & Hz)]];
      [done|done|]. by destruct r as [[[] ?] ?].
  - eexists p, _, id, arrivals, _, x'. split; [done|]. split; [exact Hpool|].
    split; [by apply ready_accepted|done].
  - exfalso. by destruct Hc as [(r & (w1 & _ & Hr) & Hz)|(r & (w1 & _ & Hr) & Hz)].
Qed.

(** A failure of [pthread_create] is not handled but crashes the server:
    the error path reads [worker->client_fd] after [worker] was set to null. *)
Theorem accept_client_no_thread {X} (o : env (P F) X) w x ps :
  respects posix_no_thread o -> pool w ps -> run o accept_client w x = Err NullDeref.
Proof.
  intros Ho Hp.
  pose proof (wpr_run _ o _ _ w x Ho
    (wpr_accept_client posix_no_thread posix_no_thread_posix w ps Hp)) as Hrun.
  destruct (run o accept_client w x) as [[[ret w'] x']|e]; inversion Hrun as
    [Hf|p fd id addr arrivals garbage _ _ _ _ _ (w1 & Ht) _|Hc]; subst; [|done|done].
  exfalso. destruct Hf as [(r & (w1 & _ & Hr) & Hz)|[(r & (w1 & _ & Hr) & Hz)|(r & (w1 & _ & Hr) & Hz)]];
    [done|done|]. by destruct r as [[[] ?] ?].
Qed.

End theorems.

(** ** Witnesses *)

(** Nothing fails, and the client gets its worker. *)
Lemma accept_client_outcomes_witness :
  exists p fd id addr arrivals garbage x',
    fresh_slot sample_server p
    /\ run calm accept_client sample_server tt
       = Ok (true, accepted sample_server p fd id addr arrivals garbage, x').
Proof.
  pose proof (accept_client_outcomes posix_ok calm sample_server tt [sample_slot]
    posix_ok_posix calm_ok sample_pool) as Hrun.
  destruct (run calm accept_client sample_server tt) as [[[ret w'] x']|e] eqn:Hr; inversion Hrun as
    [Hf|p fd id addr arrivals garbage Hfr Hfd0 Hfd Hid Hg Ht Hpool|Hc].
  - exfalso. destruct Hf as [(r & (w1 & _ & Ha) & Hz)|[(r & (w1 & _ & Ha) & Hz)|(r & (w1 & _ & Ha) & Hz)]];
      [done|done|]. by destruct r as [[[] ?] ?].
  - exists p, fd, id, addr, arrivals, garbage, x'. split; [exact Hfr|reflexivity].
  - exfalso. destruct Hc as [(r & (w1 & _ & Ha) & Hz)|(r & (w1 & _ & Ha) & Hz)]; [by apply Ha|by apply Hz].
Defined.

Lemma accept_client_ready_witness :
  exists p k id arrivals w' x',
    run calm accept_client sample_server tt = Ok (true, w', x')
    /\ pool w' [p; sample_slot] /\ ready w' (sl_worker p) k id (Conn arrivals [])
    /\ output_path_ k = "/var/tmp/aesdsocketdata"%string /\ buf_ k = sl_buf p
    /\ buf_size_ k = 4.
Proof.
  apply (accept_client_ready calm sample_server tt [sample_slot]).
  - auto with envs.
  - apply sample_pool.
  - reflexivity.
  - done.
Defined.

(** A system that is out of threads. *)
Definition no_threads : env (P plain_file) unit := fun w x q =>
  match q return panswer q * unit with
  | QThreadCreate => ((11, 0), x)
  | q => calm w x q
  end.

Lemma no_threads_ok : respects posix_no_thread no_threads.
Proof. intros w x q. destruct q; try apply (calm_ok w x). done. Qed.
#[export] Hint Resolve no_threads_ok : envs.

Lemma accept_client_no_thread_witness :
  run no_threads accept_client sample_server tt = Err NullDeref.
Proof.
  apply (accept_client_no_thread no_threads sample_server tt [sample_slot]).
  - auto with envs.
  - apply sample_pool.
Defined.

End ServerAccept.
