(* ===== verification/ServerRun.v ===== *)
(** * The server: binding, running, timestamps

    [srv_bind] leaves one bound socket or none; [alarm_handler] appends a
    timestamp, and deadlocks when it interrupts the holder of the mutex;
    [aesd_server_run] goes from start to shutdown. *)

From S2P Require Import Prelude Process Worker WorkerSpec Server ServerSpec.
From S2P Require Import ServerWorkers ServerAccept.

Module ServerRun.
Import Memory SList OutputFile Process Worker WorkerSpec Server ServerSpec.
Import ServerWorkers ServerAccept.

Section run.
Context {F : Type} `{OutputFileLaws F}.
Context (C : contract (P F)) (HC : forall w q a, C w q a -> posix w q a).
Implicit Types (w : world F) (ps : list slot).

(** ** Sockets *)

(** The server with [fd] as its socket. *)
Definition with_sock (fd : Z) (w : world F) : world F := set_srv (srv_set_sock fd (srv w)) w.

Lemma set_fds_eta w : set_fds (fds w) w = w.
Proof. by destruct w. Qed.

(** Why no address may have been bound. *)
Definition not_bound (infos : list addrinfo) : Prop :=
  infos = [] \/ (exists ai, may C (QSocket ai) (-1)) \/ (exists fd, may C (QSetsockopt fd) (-1))
  \/ (exists fd ai, may C (QBind fd ai) (-1)).

(** How [srv_bind]'s loop ends: with a bound socket, or as it started. *)
Definition bind_post (infos : list addrinfo) (w : world F) (w' : world F) : Prop :=
  (w' = w /\ not_bound infos)
  \/ exists fd, 0 <= fd /\ fds w !! fd = None
       /\ w' = with_sock fd (set_fds (<[fd := FdSocket true false]> (fds w)) w).

Lemma wp_close_fd fd w (Q : Z -> world F -> Prop) :
  (forall r, Q r (set_fds (delete fd (fds w)) w)) -> wp C (close fd) Q w.
Proof.
  intros HQ. unfold close. wp_step. apply (wp_ask (S := P F)). intros r _. wp_steps. apply HQ.
Qed.

(** Closing a descriptor that was opened gives the table from before. *)
Lemma close_opened fd d w :
  fds w !! fd = None ->
  set_fds (delete fd (fds (set_fds (<[fd := d]> (fds w)) w))) (set_fds (<[fd := d]> (fds w)) w) = w.
Proof. intros Hn. destruct w; cbn in *. by rewrite delete_insert_eq, delete_id. Qed.

(** An address that could not be used, before others. *)
Lemma bind_post_next ai infos w w' :
  (exists a, may C (QSocket a) (-1)) \/ (exists fd a, may C (QBind fd a) (-1)) ->
  bind_post infos w w' -> bind_post (ai :: infos) w w'.
Proof. intros Hm [[-> _]|Hb]; [left|by right]. split; [done|]. right. by destruct Hm; auto. Qed.

Lemma wp_bind_loop infos w :
  wp C (bind_loop infos) (fun _ w' => bind_post infos w w') w.
Proof.
  induction infos as [|ai infos IH]; cbn [bind_loop];
    [by apply wp_ret; left; split; [|left]|].
  unfold socket. do 2 wp_step. apply (wp_ask (S := P F)). intros fd Ha. cbn in fd.
  destruct (Z.eqb_spec fd (-1)) as [->|Hfd].
  { apply wp_ret. eapply wp_mono; [|exact IH]. intros ? w'. apply bind_post_next.
    left. exists ai. by exists w. }
  destruct (HC _ _ _ Ha) as [?|[Hp Hn]]; [done|]. unfold set_fd. wp_steps.
  rewrite (proj2 (Z.eqb_neq fd (-1)) Hfd). wp_step. apply (wp_ask (S := P F)). intros r Hr. cbn in r.
  destruct (Z.eqb_spec r (-1)) as [->|_].
  { wp_step. apply wp_close_fd. intros r'. apply wp_ret. left. split; [by apply close_opened|].
    do 2 right. left. exists fd. by eexists. }
  unfold bind. do 2 wp_step. apply (wp_ask (S := P F)). intros r' Hr'. cbn in r'.
  destruct (Z.eqb_spec r' (-1)) as [->|Hr1].
  - apply wp_ret. cbv beta. rewrite Z.eqb_refl. wp_step. apply wp_close_fd. intros _.
    rewrite close_opened by done. eapply wp_mono; [|exact IH]. intros ? w'. apply bind_post_next.
    right. exists fd, ai. by eexists.
  - unfold set_fd. wp_steps. rewrite (proj2 (Z.eqb_neq r' (-1)) Hr1).
    unfold upd_srv. wp_steps. right. exists fd. split; [done|]. split; [done|].
    destruct w. unfold with_sock, set_srv, set_fds; cbn. by rewrite insert_insert_eq.
Qed.

(** Why there may be no socket. *)
Definition no_address (port : string) : Prop :=
  exists r, may C (QGetaddrinfo port) r /\ (r.1 <> 0 \/ not_bound r.2).

(** How [srv_bind] ends. *)
Inductive bind_outcome (w : world F) (port : string) : bool -> world F -> Prop :=
| bind_nothing fd : no_address port -> bind_outcome w port false (with_sock fd w)
| bind_bound fd :
    0 <= fd -> fds w !! fd = None ->
    bind_outcome w port true
      (set_srv (srv_set_port port (srv_set_sock fd (srv w)))
         (set_fds (<[fd := FdSocket true false]> (fds w)) w)).

Lemma with_sock_same w : with_sock (sock_fd_ (srv w)) w = w.
Proof. destruct w as [? ? ? ? ? ? ? ? ? ? []]. done. Qed.

Lemma wp_srv_bind port w : wp C (srv_bind port) (bind_outcome w port) w.
Proof.
  unfold srv_bind. wp_step. apply (wp_ask (S := P F)). intros [gai infos] Hg.
  destruct (Z.eqb_spec gai 0) as [->|Hgai]; cbn [negb].
  2: { apply wp_ret. rewrite <- (with_sock_same w) at 2. apply bind_nothing.
       eexists. split; [by eexists|by left]. }
  unfold upd_srv, get_srv. do 3 wp_step.
  eapply wp_mono; [|apply wp_bind_loop].
  intros _ w' [[-> Hnb]|(fd & Hfd & Hn & ->)]; wp_steps; cbn.
  - apply wp_ret. apply bind_nothing. eexists. split; [by eexists|by right].
  - rewrite (proj2 (Z.eqb_neq fd (-1))) by lia. cbn. wp_steps.
    exact (bind_bound w port fd Hfd Hn).
Qed.

Lemma wp_srv_listen backlog w :
  wp C (srv_listen backlog)
    (fun ret w' =>
       (ret = false /\ w' = set_fds (delete (sock_fd_ (srv w)) (fds w)) w
        /\ exists fd, may C (QListen fd backlog) (-1))
       \/ (ret = true /\ w' = set_logs (logs w ++ [LogListening (port_ (srv w))])
             (set_fds (<[sock_fd_ (srv w) := FdSocket true true]> (fds w)) w))) w.
Proof.
  unfold srv_listen, get_srv, listen. do 4 wp_step. apply (wp_ask (S := P F)).
  intros r Hl. cbn in r. destruct (Z.eqb_spec r (-1)) as [->|Hr].
  - apply wp_ret. cbv beta. rewrite Z.eqb_refl. wp_step. apply wp_close_fd. intros _. apply wp_ret.
    left. split_and!; [done..|]. exists (sock_fd_ (srv w)). by exists w.
  - unfold set_fd, syslog. wp_steps. rewrite (proj2 (Z.eqb_neq r (-1)) Hr). wp_steps. by right.
Qed.

(** ** The loop *)

(** The sockets that are not connections. *)
Definition same_sockets (m m' : gmap Z fdesc) : Prop :=
  forall fd b l, m' !! fd = Some (FdSocket b l) <-> m !! fd = Some (FdSocket b l).

(** What the server's loop keeps. *)
Record served (w0 w : world F) : Prop := Served {
  sv_pool : exists ps, pool w ps;
  sv_lock : mutexes w = mutexes w0;
  sv_files : files w = files w0;
  sv_timers : timers w = timers w0;
  sv_timer : timer_ (srv w) = timer_ (srv w0);
  sv_sockets : same_sockets (fds w0) (fds w);
  sv_sock : sock_fd_ (srv w) = sock_fd_ (srv w0);
  sv_dev : s_char_dev_ (srv w) = s_char_dev_ (srv w0);
  sv_path : s_output_path_ (srv w) = s_output_path_ (srv w0)
}.

Lemma served_accepted w0 w p fd id addr arrivals garbage ps :
  served w0 w -> fds w !! fd = None ->
  pool (accepted w p fd id addr arrivals garbage) ps ->
  served w0 (accepted w p fd id addr arrivals garbage).
Proof.
  intros [_ Hm Hf Hti Htm Hs Hk Hd Hp] Hn Hpool. split; try done; [by exists ps|].
  intros fd' b l. cbn. rewrite <- (Hs fd' b l).
  destruct (decide (fd' = fd)) as [->|Hne].
  - rewrite lookup_insert_eq, Hn. by split.
  - by rewrite lookup_insert_ne.
Qed.

Lemma served_checked w0 w ps kept w' :
  served w0 w -> checked C w ps [] kept w' -> served w0 w'.
Proof.
  intros [_ Hm Hf Hti Htm Hs Hk Hd Hp] [Hpool _ [Hm' Ht' Hf' Hs' _ _ Hsrv] _ _ _].
  rewrite app_nil_r in Hpool. split.
  - by exists kept.
  - congruence.
  - congruence.
  - congruence.
  - by rewrite Hsrv.
  - by rewrite Hs'.
  - by rewrite Hsrv.
  - by rewrite Hsrv.
  - by rewrite Hsrv.
Qed.

(** Why a worker could not be started. *)
Definition no_entry_or_thread : Prop :=
  (exists r, may C QMallocEntry r /\ r.1 = 0) \/ (exists r, may C QThreadCreate r /\ r.1 <> 0).

(** Why the loop may have used up its fuel. *)
Definition not_stopped (fuel : nat) : Prop := fuel = 0%nat \/ may C QStopped false.

Definition serve_post (w0 : world F) (fuel : nat) (r : res (unit * world F)) : Prop :=
  match r with
  | Ok (_, w') => served w0 w'
  | Err OutOfFuel => not_stopped fuel
  | Err e => e = NullDeref /\ no_entry_or_thread
  end.

Lemma wpr_serve w0 fuel w : served w0 w -> wpr C (serve fuel) (serve_post w0 fuel) w.
Proof.
  revert w. induction fuel as [|fuel IH]; intros w Hsv; [by left|].
  cbn [serve]. unfold load_running, get_srv. apply wpr_bind. apply wpr_bind_wp, wp_get.
  destruct (negb (running (srv w))).
  { apply wpr_wp, wp_ret. by apply wpr_wp, wp_ret. }
  apply wpr_bind_wp. apply (wp_ask (S := P F)). intros [] Hstop.
  { unfold upd_srv. apply wpr_wp. wp_steps. apply wpr_wp, wp_ret.
    destruct Hsv as [[ps Hps] ? ? ? ? ? ? ? ?]. split; try done. exists ps. by apply (pool_frame w). }
  assert (forall r, serve_post w0 fuel r -> serve_post w0 (S fuel) r) as Hmore.
  { intros [[]|[]]; cbn; try done. intros _. right. by exists w. }
  apply wpr_wp, wp_ret. cbn [negb]. destruct (sv_pool _ _ Hsv) as [ps Hps].
  apply wpr_bind. eapply wpr_mono; [|by apply wpr_accept_client].
  intros r [_|p fd id addr arrivals garbage _ _ Hn _ _ _ Hpool|Hc].
  - apply wpr_bind_wp, wp_ret. eapply wpr_mono; [exact Hmore|by apply IH].
  - apply wpr_bind_wp. eapply wp_mono; [|by apply wp_check_workers].
    intros [] w' [kept Hck]. eapply wpr_mono; [exact Hmore|]. apply IH. eapply served_checked; [|exact Hck].
    by eapply served_accepted.
  - by split.
Qed.

(** ** The whole run *)

Inductive run_outcome (w : world F) (ps : list slot) (fuel : nat) (port : string) (backlog : Z)
    : res (Z * world F) -> Prop :=
| run_refused w' :
    pool w' ps -> fds w' = fds w ->
    no_address port \/ (exists fd, may C (QListen fd backlog) (-1)) ->
    run_outcome w ps fuel port backlog (Ok (-1, w'))
| run_done w' :
    pool w' [] -> same_sockets (fds w) (fds w') ->
    mutexes w' = delete SRV_LOCK (mutexes w) ->
    timers w' = timers_left (srv w) (timers w) ->
    (if s_char_dev_ (srv w) then files w' = files w
     else files w' = delete (s_output_path_ (srv w)) (files w)
          \/ (files w' = files w /\ exists w1 r, files w1 = files w
               /\ C w1 (QUnlink (s_output_path_ (srv w))) r /\ r <> 0)) ->
    run_outcome w ps fuel port backlog (Ok (0, w'))
| run_forever :
    not_stopped fuel -> run_outcome w ps fuel port backlog (Err OutOfFuel)
| run_crashed :
    no_entry_or_thread -> run_outcome w ps fuel port backlog (Err NullDeref).

Lemma same_sockets_close m fd m' :
  m !! fd = None -> same_sockets (<[fd := FdSocket true true]> m) m' ->
  same_sockets m (delete fd m').
Proof.
  intros Hn Hs fd' b l. destruct (decide (fd' = fd)) as [->|Hne].
  - by rewrite lookup_delete_eq, Hn.
  - rewrite lookup_delete_ne by done. rewrite (Hs fd' b l). by rewrite lookup_insert_ne.
Qed.

Lemma wpr_aesd_server_run w ps fuel port backlog :
  pool w ps -> mutexes w !! SRV_LOCK = Some false ->
  wpr C (aesd_server_run fuel port backlog) (run_outcome w ps fuel port backlog) w.
Proof.
  intros Hpool Hlock. unfold aesd_server_run.
  apply wpr_bind_wp. eapply wp_mono; [|apply wp_srv_bind].
  intros ? ? [fd Hna|fd Hfd Hn]; cbn [negb].
  { apply wpr_wp, wp_ret. apply run_refused; [by apply (pool_frame w)|done|by left]. }
  apply wpr_bind_wp. eapply wp_mono; [|apply wp_srv_listen].
  intros ? ? [(-> & -> & Hl)|[-> ->]]; cbn [negb].
  { apply wpr_wp, wp_ret. apply run_refused; [by apply (pool_frame w)| |by right].
    cbn. by rewrite delete_insert_eq, delete_id. }
  unfold upd_srv. apply wpr_bind_wp, wp_modify.
  set (w1 := set_srv _ _). apply wpr_bind.
  eapply wpr_mono; [|apply (wpr_serve w1)].
  2: { split; try done. exists ps. by apply (pool_frame w). }
  intros [[[] w2]|e] Hpost; cbn in Hpost.
  - destruct Hpost as [[ps2 Hp2] Hm2 Hf2 Hti2 Htm2 Hs2 Hk2 Hd2 Hpa2].
    apply wpr_wp. wp_step. eapply wp_mono; [|apply (wp_srv_shutdown C HC w2 ps2 Hp2)].
    + intros [] w3 [Hp3 Hfd3 Hl3 Hti3 Hfile3 _ _]. apply wp_ret. apply run_done.
      * done.
      * rewrite Hfd3, Hk2. cbn. apply same_sockets_close; [done|].
        intros fd' b l. rewrite (Hs2 fd' b l). cbn. by rewrite insert_insert_eq.
      * by rewrite Hl3, Hm2.
      * unfold timers_left in *. by rewrite Htm2, Hti2 in Hti3.
      * by rewrite Hd2, Hpa2, Hf2 in Hfile3.
    + by rewrite Hm2.
  - destruct e; try (by destruct Hpost); [|by apply run_forever].
    destruct Hpost as [_ Hc]. by apply run_crashed.
Qed.

End run.
(** ** Timestamps *)

Section alarm.
Context {F : Type} `{OutputFileLaws F}.
Implicit Types w : world F.

Lemma wp_alarm_handler w :
  mutexes w !! SRV_LOCK = Some false ->
  let path := s_output_path_ (srv w) in
  wp posix_ok (alarm_handler SIGALRM)
    (fun _ w' => exists ts, (0 < length ts < 128)%nat
       /\ w' = set_files (<[path := of_write (file_of path w) ts]> (files w)) w) w.
Proof.
  intros Hlock path. unfold alarm_handler. rewrite Z.eqb_refl.
  wp_step. apply (wp_ask (S := P F)). intros ts [Hts _]. unfold get_srv. do 2 wp_step.
  wp_step. eapply wp_act; [cbv beta; by rewrite Hlock|].
  unfold open. do 2 wp_step. apply (wp_ask (S := P F)). intros fd [Hp Ho]. cbn in Hp, Ho, Hts.
  destruct (Z.eqb_spec fd (-1)) as [->|Hfd1]; [by destruct Ho; [left|]|].
  destruct Hp as [?|(Hfd & Hn & _)]; [done|]. do 2 wp_step. apply wp_ret.
  rewrite (proj2 (Z.eqb_neq fd (-1)) Hfd1). unfold write_bytes. do 4 wp_step.
  unfold file_writable at 1. cbn [fds set_fds]. rewrite lookup_insert_eq. cbn [negb].
  wp_step. apply (wp_ask (S := P F)). intros r [_ Hr]. cbn in Hr. subst r.
  rewrite (proj2 (Z.eqb_neq _ _)) by lia. wp_step. apply wp_modify. apply wp_ret.
  cbn [fds set_fds]. rewrite lookup_insert_eq, Nat2Z.id, firstn_all.
  unfold close. do 2 wp_step. apply (wp_ask (S := P F)). intros r' _. wp_step. apply wp_modify.
  do 2 apply wp_ret. eapply wp_act.
  { cbn [mutexes set_fds set_files set_mutexes]. by rewrite lookup_insert_eq. }
  exists ts. split; [done|]. unfold path, file_of.
  destruct w as [m wk en mu th ti fi fd' co lo sr]. cbn in Hn, Hlock.
  cbv [set_mutexes set_fds set_files mutexes fds files mem workers wentries threads conns logs srv].
  rewrite lookup_insert_eq, !insert_insert_eq, delete_insert_eq, delete_id, insert_id by done. done.
Qed.

(** A handler that finds the mutex held, or destroyed, goes no further. *)
Lemma alarm_handler_faults {X} (o : env (P F) X) w x e :
  match mutexes w !! SRV_LOCK with
  | Some held => held = true /\ e = Deadlock
  | None => e = OutOfBounds
  end -> run o (alarm_handler SIGALRM) w x = Err e.
Proof.
  intros Hl.
  assert (wpr (S := P F) (fun _ _ _ => True) (alarm_handler SIGALRM) (eq (Err e)) w) as Hwp.
  { unfold alarm_handler. rewrite Z.eqb_refl. apply wpr_bind_wp, (wp_ask (S := P F)).
    intros ts _. unfold get_srv. apply wpr_bind_wp, wp_get. apply wpr_bind.
    eapply wpr_act_err; [|done]. cbv beta.
    destruct (mutexes w !! SRV_LOCK); [by destruct Hl as [-> ->]|by subst e]. }
  pose proof (wpr_run _ o _ _ w x (fun _ _ _ => I) Hwp) as Hrun.
  destruct (run o (alarm_handler SIGALRM) w x) as [[[? ?] ?]|]; by simplify_eq.
Qed.

End alarm.

(** ** Theorems *)

Section theorems.
Context {F : Type} `{OutputFileLaws F}.
Implicit Types (w : world F) (ps : list slot).

(** [srv_bind] returns [true] with exactly one new descriptor, a bound
    socket, which is the server's; or [false] with the descriptors as they
    were: the sockets of the addresses that failed are closed again. Failing takes
    a call that [C] allows to fail. *)
Theorem srv_bind_outcomes {X} (C : contract (P F)) (o : env (P F) X) w x port :
  (forall w q a, C w q a -> posix w q a) -> respects C o ->
  exists ret w' x',
    run o (srv_bind port) w x = Ok (ret, w', x') /\ bind_outcome C w port ret w'.
Proof. intros HC Ho. apply (wp_run C); [done|]. by apply wp_srv_bind. Qed.

(** C18: the whole run of the server, on any system [C] within what POSIX promises: it
    refuses to start, with every descriptor it opened closed and no worker touched; or
    it shuts down with every worker joined and freed, the timer deleted unless its
    identifier is null, the listening socket closed, the mutex destroyed and the
    output deleted unless it is a device or [unlink] fails; or it runs on; or it
    crashes. It refuses only where [C] allows that the port has no address or one of
    [socket], [setsockopt], [bind] and [listen] fails; runs on only where no signal
    need come; and crashes only where a worker's list entry or thread need not be
    had. *)
Theorem aesd_server_run_outcomes {X} (C : contract (P F)) (o : env (P F) X) w x ps fuel port backlog :
  (forall w q a, C w q a -> posix w q a) -> respects C o ->
  pool w ps -> mutexes w !! SRV_LOCK = Some false ->
  match run o (aesd_server_run fuel port backlog) w x with
  | Ok (r, w', x') => run_outcome C w ps fuel port backlog (Ok (r, w'))
  | Err e => run_outcome C w ps fuel port backlog (Err e)
  end.
Proof. intros HC Ho Hp Hl. apply (wpr_run C); [done|]. by apply wpr_aesd_server_run. Qed.

(** The timer's handler appends one timestamp line to the output when
    nothing fails, and changes nothing else. *)
Theorem alarm_handler_stamps {X} (o : env (P F) X) w x :
  respects posix_ok o -> mutexes w !! SRV_LOCK = Some false ->
  exists ts x',
    (0 < length ts < 128)%nat
    /\ run o (alarm_handler SIGALRM) w x
       = Ok (tt, set_files (<[s_output_path_ (srv w) :=
                   of_write (file_of (s_output_path_ (srv w)) w) ts]> (files w)) w, x').
Proof.
  intros Ho Hl. destruct (wp_run posix_ok o _ _ w x Ho (wp_alarm_handler w Hl))
    as ([] & w' & x' & Hrun & ts & Hts & ->). eauto.
Qed.

(** Delivered to the thread that holds the output's mutex, the signal never
    returns to it: the handler waits for the mutex its own thread holds. *)
Theorem alarm_handler_deadlocks {X} (o : env (P F) X) w x :
  mutexes w !! SRV_LOCK = Some true -> run o (alarm_handler SIGALRM) w x = Err Deadlock.
Proof.
  intros Hl. apply alarm_handler_faults. by rewrite Hl.
Qed.

(** C40: A timer whose identifier is null outlives the server: [srv_shutdown] takes it for
    none and leaves it armed, and when it next fires, the handler locks the mutex that
    was destroyed. *)
Theorem null_timer_outlives {X} (o : env (P F) X) w x ps :
  respects posix o -> pool w ps -> mutexes w !! SRV_LOCK = Some false ->
  timer_ (srv w) = 0 -> timers w !! 0 = Some true ->
  exists w' x',
    run o srv_shutdown w x = Ok (tt, w', x') /\ timers w' !! 0 = Some true
    /\ run o (alarm_handler SIGALRM) w' x' = Err OutOfBounds.
Proof.
  intros Ho Hp Hl Hz Ht.
  destruct (wp_run posix o srv_shutdown _ w x Ho (wp_srv_shutdown _ (fun _ _ _ Hq => Hq) w ps Hp Hl))
    as ([] & w' & x' & Hrun & Hd).
  exists w', x'. split; [done|]. split.
  { rewrite (sd_timers _ _ _ Hd). unfold timers_left. by rewrite Hz. }
  apply alarm_handler_faults. by rewrite (sd_lock _ _ _ Hd), lookup_delete_eq.
Qed.

End theorems.

(** ** Witnesses *)

Lemma srv_bind_outcomes_witness :
  exists ret w' x',
    run calm (srv_bind "9000") sample_server tt = Ok (ret, w', x')
    /\ bind_outcome posix_ok sample_server "9000" ret w'.
Proof.
  apply (srv_bind_outcomes posix_ok calm).
  - apply posix_ok_posix.
  - auto with envs.
Defined.

(** A system on which nothing fails and a signal asks the server to stop at once. *)
Definition stop_at_once : env (P plain_file) unit := fun w x q =>
  match q return panswer q * unit with
  | QStopped => (true, x)
  | q => calm w x q
  end.

Definition stops {F} `{OutputFile F} : contract (P F) := fun w q a =>
  posix_ok w q a
  /\ match q return panswer q -> Prop with
     | QStopped => fun stopped => stopped = true
     | QGetaddrinfo _ => fun r => r.1 = 0 /\ r.2 <> []
     | _ => fun _ => True
     end a.

Lemma stops_posix {F} `{OutputFile F} w q a : stops w q a -> posix w q a.
Proof. by intros [[] _]. Qed.

Lemma stop_at_once_stops : respects stops stop_at_once.
Proof. intros w x q. pose proof (calm_ok w x q) as Hok. destruct q; by split. Qed.
#[export] Hint Resolve stop_at_once_stops : envs.

(** There it can only shut down. *)
Lemma aesd_server_run_outcomes_witness :
  exists w' x',
    run stop_at_once (aesd_server_run 1 "9000" 5) sample_server tt = Ok (0, w', x')
    /\ run_outcome stops sample_server [sample_slot] 1 "9000" 5 (Ok (0, w')).
Proof.
  pose proof (aesd_server_run_outcomes stops stop_at_once sample_server tt [sample_slot] 1 "9000" 5
    stops_posix stop_at_once_stops sample_pool eq_refl) as Hrun.
  destruct (run stop_at_once (aesd_server_run 1 "9000" 5) sample_server tt)
    as [[[r w'] x']|e] eqn:Hr; [|exfalso; vm_compute in Hr; discriminate Hr].
  assert (r = 0) as Hz.
  { assert (match run stop_at_once (aesd_server_run 1 "9000" 5) sample_server tt with
            | Ok (r, _, _) => r = 0 | Err _ => False end) as Hv by (vm_compute; reflexivity).
    rewrite Hr in Hv. exact Hv. }
  rewrite Hz in Hrun |- *. exists w', x'. split; [reflexivity|exact Hrun].
Defined.

Lemma alarm_handler_stamps_witness :
  exists ts x',
    (0 < length ts < 128)%nat
    /\ run calm (alarm_handler SIGALRM) sample_server tt
       = Ok (tt, set_files (<[output_path_ sample_worker :=
                   of_write (PlainFile []) ts]> ∅) sample_server, x').
Proof.
  destruct (alarm_handler_stamps calm sample_server tt) as (ts & x' & Hts & Hrun).
  - auto with envs.
  - reflexivity.
  - exists ts, x'. split; [exact Hts|exact Hrun].
Defined.

(** A system that numbers timers from 0. *)
Definition timers_from_zero : env (P plain_file) unit := fun w x q =>
  match q return panswer q * unit with
  | QTimerCreate => ((0, if decide (timers w !! 0 = None) then 0 else next_key 0 (timers w)), x)
  | q => calm w x q
  end.

Lemma timers_from_zero_posix : respects posix timers_from_zero.
Proof.
  intros w x q. destruct q; try apply (calm_posix w x). left. split; [done|]. cbn.
  case_decide; [done|]. apply calm_fresh.
Qed.
#[export] Hint Resolve timers_from_zero_posix : envs.

(** The server's timer as it starts it. *)
Definition with_null_timer : world plain_file :=
  match run timers_from_zero start_timestamp_timer sample_server tt with
  | Ok (_, w, _) => w
  | Err _ => sample_server
  end.

Lemma null_timer_outlives_witness :
  exists w' x',
    run timers_from_zero srv_shutdown with_null_timer tt = Ok (tt, w', x')
    /\ timers w' !! 0 = Some true
    /\ run timers_from_zero (alarm_handler SIGALRM) w' x' = Err OutOfBounds.
Proof.
  apply (null_timer_outlives timers_from_zero with_null_timer tt [sample_slot]).
  - auto with envs.
  - apply (pool_frame sample_server); [apply sample_pool|vm_compute; reflexivity..].
  - vm_compute. reflexivity.
  - vm_compute. reflexivity.
  - vm_compute. reflexivity.
Defined.

Lemma alarm_handler_deadlocks_witness :
  run calm (alarm_handler SIGALRM)
    (set_mutexes {[ SRV_LOCK := true ]} sample_server) tt = Err Deadlock.
Proof. apply (alarm_handler_deadlocks calm). reflexivity. Defined.

End ServerRun.
