(* ===== verification/WorkerPool.v ===== *)
(** * Workers at the same time

    Any number of workers, and timer signals handled by threads of their own,
    run over one process in any interleaving. They keep the discipline of the
    output's mutex ([disciplined]): whoever changes the output file holds it, so
    the changes of one critical region are never mixed with another's; and the
    holder never waits for a mutex. That the handler has a thread to itself is a
    simplification: in the program it interrupts the main thread or a worker, which
    [ServerPool] models. *)

From S2P Require Import Prelude Interleave Process Worker WorkerSpec Server.

Module WorkerPool.
Import Interleave Memory OutputFile Process Worker Server.

(** What a step of a thread does to the mutex and the output file. *)
Inductive action : Type :=
| ALock
| AUnlock
| AWrite (data : bytes)
| AOther.

(** The thread that holds the mutex, after a step; [None] when the step breaks
    the discipline. *)
Definition owner_step (o : option nat) (e : nat * action) : option (option nat) :=
  match e.2, o with
  | ALock, None => Some (Some e.1)
  | AUnlock, Some i => if decide (i = e.1) then Some None else None
  | AWrite _, Some i => if decide (i = e.1) then Some o else None
  | AOther, _ => Some o
  | _, _ => None
  end.

Fixpoint owner_run (o : option nat) (es : list (nat * action)) : option (option nat) :=
  match es with
  | [] => Some o
  | e :: es => o ← owner_step o e; owner_run o es
  end.

(** The data written by the steps, in order. *)
Definition writes (es : list (nat * action)) : list bytes :=
  omap (fun e => match e.2 with AWrite data => Some data | _ => None end) es.

Section pool.
Context {F : Type} `{OutputFile F}.
Context (path : string).
Implicit Types w : world F.

(** Every worker is given the one mutex and the one path. *)
Record shared w : Prop := Shared {
  sh_workers : forall a k, workers w !! a = Some k ->
    output_lock_ k = SRV_LOCK /\ output_path_ k = path;
  sh_srv : s_output_path_ (srv w) = path
}.

(** What a step does to the process. *)
Inductive effect w : action -> world F -> Prop :=
| eff_other w' :
    mutexes w' = mutexes w -> file_of path w' = file_of path w -> effect w AOther w'
| eff_write w' data :
    mutexes w' = mutexes w -> file_of path w' = of_write (file_of path w) data ->
    effect w (AWrite data) w'
| eff_lock :
    mutexes w !! SRV_LOCK = Some false ->
    effect w ALock (set_mutexes (<[SRV_LOCK := true]> (mutexes w)) w)
| eff_unlock :
    mutexes w !! SRV_LOCK = Some true ->
    effect w AUnlock (set_mutexes (<[SRV_LOCK := false]> (mutexes w)) w).

(** What a thread may do that does not hold the mutex, or does ([true]), and
    whether it holds it then. *)
Definition permitted (h : bool) (e : action) : option bool :=
  match e with
  | ALock => if h then None else Some true
  | AUnlock => if h then Some false else None
  | AWrite _ => if h then Some true else None
  | AOther => Some h
  end.

(** Every step of the program keeps the discipline, and it waits only for the
    mutex, when it does not hold it; [Q] says how it ends. *)
Fixpoint disciplined {A} (h : bool) (p : prog (P F) A) (Q : bool -> A -> Prop) : Prop :=
  match p with
  | Ret a => Q h a
  | Ask q k => forall a, disciplined h (k a) Q
  | Act f k => forall w, shared w ->
      match f w with
      | Ok (b, w') => shared w' /\ exists e h', effect w e w' /\ permitted h e = Some h' /\ disciplined h' (k b) Q
      | Err e => e = Deadlock -> h = false /\ mutexes w !! SRV_LOCK = Some true
      end
  | Crash _ => True
  end.

(** ** Rules *)

Lemma disciplined_bind {A B} h (p : prog (P F) A) (k : A -> prog (P F) B) Q :
  disciplined h p (fun h' a => disciplined h' (k a) Q) -> disciplined h (p ≫= k) Q.
Proof.
  revert h; induction p as [a|q g IH|T f g IH|e]; intros h; cbn; [done|by intros Hp a; apply IH| |done].
  intros Hp w Hw. specialize (Hp w Hw). destruct (f w) as [[b w']|]; [|done].
  destruct Hp as (Hs & e & h' & He & Hpe & Hp). split; [done|].
  exists e, h'. split_and!; [done|done|]. by apply IH.
Qed.

Lemma disciplined_ret {A} h (a : A) (Q : bool -> A -> Prop) : Q h a -> disciplined h (mret a) Q.
Proof. done. Qed.

Lemma disciplined_ask h q (Q : bool -> panswer q -> Prop) :
  (forall a, Q h a) -> disciplined h (ask (S := P F) q) Q.
Proof. done. Qed.

(** An access that does not concern the mutex or the output file. *)
Definition quiet {B} (f : world F -> res (B * world F)) (R : B -> Prop) : Prop :=
  forall w, shared w ->
    match f w with
    | Ok (b, w') => shared w' /\ mutexes w' = mutexes w /\ file_of path w' = file_of path w /\ R b
    | Err e => e <> Deadlock
    end.

Lemma disciplined_quiet {B} h (f : world F -> res (B * world F)) R (Q : bool -> B -> Prop) :
  quiet f R -> (forall b, R b -> Q h b) -> disciplined h (act (S := P F) f) Q.
Proof.
  intros Hf HQ w Hw. specialize (Hf w Hw). destruct (f w) as [[b w']|e]; [|by intros ->].
  destruct Hf as (Hs & Hm & Hfile & HR). split; [done|].
  exists AOther, h. split_and!; [by apply eff_other|done|by apply HQ].
Qed.

(** Accesses that leave the workers, the server, the mutexes and the files
    alone. *)
Lemma quiet_other {B} (f : world F -> res (B * world F)) :
  (forall w, match f w with
             | Ok (b, w') => workers w' = workers w /\ srv w' = srv w
                 /\ mutexes w' = mutexes w /\ files w' = files w
             | Err e => e <> Deadlock
             end) -> quiet f (fun _ => True).
Proof.
  intros Hf w [Hw Hs]. specialize (Hf w). destruct (f w) as [[b w']|]; [|done].
  destruct Hf as (Ew & Es & Em & Ef). unfold file_of. rewrite Ef. split; [|done].
  split; [by rewrite Ew|by rewrite Es].
Qed.

Lemma load_no_deadlock p off n (m : heap) : load p off n m <> Err Deadlock.
Proof. unfold load. repeat case_match; congruence. Qed.
Lemma store_no_deadlock p off bs (m : heap) : store p off bs m <> Err Deadlock.
Proof. unfold store. repeat case_match; congruence. Qed.

(** [self] is read, and its flags set. *)
Definition given (k : aesd_worker) : Prop :=
  output_lock_ k = SRV_LOCK /\ output_path_ k = path.

Lemma disciplined_worker_at h self (Q : bool -> aesd_worker -> Prop) :
  (forall k, given k -> Q h k) -> disciplined h (worker_at self) Q.
Proof.
  apply disciplined_quiet. intros w Hw. destruct (self =? 0); [done|].
  destruct (workers w !! self) as [k|] eqn:Hk; [|done]. split_and!; [done..|].
  by apply (sh_workers w Hw self).
Qed.

Lemma disciplined_store_worker h self f (Q : bool -> unit -> Prop) :
  (forall k, given k -> given (f k)) -> Q h tt -> disciplined h (store_worker self f) Q.
Proof.
  intros Hf HQ. eapply (disciplined_quiet h _ (fun _ => True)); [|by intros []].
  intros w [Hw Hs]. destruct (self =? 0); [done|].
  destruct (workers w !! self) as [k|] eqn:Hk; [|done]. split; [|done]. split; [|done]. cbn.
  intros a k'. rewrite lookup_insert. case_decide; [intros [= <-]; by eapply Hf, Hw|by apply Hw].
Qed.

Lemma disciplined_lock (Q : bool -> unit -> Prop) :
  Q true tt -> disciplined false (pthread_mutex_lock SRV_LOCK) Q.
Proof.
  intros HQ w Hw. cbn. destruct (mutexes w !! SRV_LOCK) as [[]|] eqn:Hm; [done| |done].
  split; [by destruct Hw|]. exists ALock, true. split_and!; [by apply eff_lock|done|done].
Qed.

Lemma disciplined_unlock (Q : bool -> unit -> Prop) :
  Q false tt -> disciplined true (pthread_mutex_unlock SRV_LOCK) Q.
Proof.
  intros HQ w Hw. cbn. destruct (mutexes w !! SRV_LOCK) as [[]|] eqn:Hm; [|done|done].
  split; [by destruct Hw|]. exists AUnlock, false. split_and!; [by apply eff_unlock|done|done].
Qed.

(** *** Calls *)

Lemma disciplined_get {B} h (g : world F -> B) (Q : bool -> B -> Prop) :
  (forall b, Q h b) -> disciplined h (get (S := P F) g) Q.
Proof. intros HQ. eapply (disciplined_quiet h _ (fun _ => True)); [by apply quiet_other|auto]. Qed.

Lemma disciplined_modify h (g : world F -> world F) (Q : bool -> unit -> Prop) :
  (forall w, workers (g w) = workers w /\ srv (g w) = srv w
     /\ mutexes (g w) = mutexes w /\ files (g w) = files w) ->
  Q h tt -> disciplined h (modify (S := P F) g) Q.
Proof.
  intros Hg HQ. eapply (disciplined_quiet h _ (fun _ => True)); [by apply quiet_other|by intros []].
Qed.

Lemma disciplined_memset h p c n (Q : bool -> unit -> Prop) :
  Q h tt -> disciplined h (memset p c n) Q.
Proof.
  intros HQ. eapply (disciplined_quiet h _ (fun _ => True)); [|by intros []].
  apply quiet_other. intros w. pose proof (store_no_deadlock p 0 (replicate (Z.to_nat n) c) (mem w)).
  destruct (store _ _ _ _); cbn; [done|congruence].
Qed.

Lemma disciplined_fetch h p n (Q : bool -> bytes -> Prop) :
  (forall bs, Q h bs) -> disciplined h (fetch p n) Q.
Proof.
  intros HQ. eapply (disciplined_quiet h _ (fun _ => True)); [|auto].
  apply quiet_other. intros w. pose proof (load_no_deadlock p 0 n (mem w)).
  destruct (load _ _ _ _); cbn; [done|congruence].
Qed.

Lemma disciplined_memchr h p c n (Q : bool -> option Z -> Prop) :
  (forall r, Q h r) -> disciplined h (memchr p c n) Q.
Proof. intros HQ. apply disciplined_bind, disciplined_fetch. intros bs. by apply disciplined_ret. Qed.

Lemma disciplined_recv h fd p n (Q : bool -> Z -> Prop) :
  (forall r, Q h r) -> disciplined h (recv fd p n) Q.
Proof.
  intros HQ. eapply (disciplined_quiet h _ (fun _ => True)); [|auto]. apply quiet_other. intros w.
  destruct (conn_of fd w) as [[id c]|]; [|done]. destruct (recv_step _ _) as [[[bs|] l]|]; [|done..].
  cbn [mem set_conns]. pose proof (store_no_deadlock p 0 bs (mem w)).
  destruct (store _ _ _ _); cbn; [done|congruence].
Qed.

Lemma disciplined_read h fd p n (Q : bool -> Z -> Prop) :
  (forall r, Q h r) -> disciplined h (read fd p n) Q.
Proof.
  intros HQ. apply disciplined_bind, disciplined_ask. intros []; [by apply disciplined_ret|].
  eapply (disciplined_quiet h _ (fun _ => True)); [|auto]. apply quiet_other. intros w.
  destruct (read_at fd n w) as [[[[pa pos] wr] out]|]; [|done].
  pose proof (store_no_deadlock p 0 out (mem w)). destruct (store _ _ _ _); cbn; [done|congruence].
Qed.

(** Only the holder of the mutex writes. *)
Lemma disciplined_write_bytes fd data (Q : bool -> Z -> Prop) :
  (forall r, Q true r) -> disciplined true (write_bytes fd data) Q.
Proof.
  intros HQ. apply disciplined_bind, disciplined_get. intros ok.
  destruct (negb ok); [by apply disciplined_ret|]. apply disciplined_bind, disciplined_ask.
  intros r. cbn in r. destruct (r =? -1); [by apply disciplined_ret|].
  apply disciplined_bind. intros w Hw. cbn.
  destruct (fds w !! fd) as [[p pos wr| | |]|]; cbn;
    try (split; [done|]; exists AOther, true; split_and!; [by apply eff_other|done|apply HQ]).
  split; [by destruct Hw|]. destruct (decide (p = path)) as [->|Hne].
  - exists (AWrite (take (Z.to_nat r) data)), true. split_and!; [|done|apply HQ].
    apply eff_write; [done|]. unfold file_of at 1. cbn. by rewrite lookup_insert_eq.
  - exists AOther, true. split_and!; [|done|apply HQ]. apply eff_other; [done|].
    unfold file_of. cbn. by rewrite lookup_insert_ne.
Qed.

Lemma disciplined_write fd p n (Q : bool -> Z -> Prop) :
  (forall r, Q true r) -> disciplined true (write fd p n) Q.
Proof. intros HQ. apply disciplined_bind, disciplined_fetch. intros bs. by apply disciplined_write_bytes. Qed.

Lemma disciplined_send h fd p n (Q : bool -> Z -> Prop) :
  (forall r, Q h r) -> disciplined h (send fd p n) Q.
Proof.
  intros HQ. apply disciplined_bind, disciplined_fetch. intros bs.
  apply disciplined_bind, disciplined_get. intros [[id c]|]; [|by apply disciplined_ret].
  apply disciplined_bind, disciplined_ask. intros [r|]; [|done].
  destruct (r =? -1); [by apply disciplined_ret|].
  apply disciplined_bind, disciplined_modify; [|by apply disciplined_ret].
  intros w. by destruct (conns w !! id).
Qed.

(** A file that is opened, and perhaps created, reads as before. *)
Lemma disciplined_open h wr (Q : bool -> Z -> Prop) :
  (forall r, Q h r) -> disciplined h (open path wr) Q.
Proof.
  intros HQ. apply disciplined_bind, disciplined_ask. intros fd. cbn in fd.
  destruct (fd =? -1); [by apply disciplined_ret|]. apply disciplined_bind.
  eapply (disciplined_quiet h _ (fun _ => True)); [|by intros [] _; apply disciplined_ret].
  intros w [Hw Hs]. destruct wr; cbn; (split; [done|]); (split; [done|]); (split; [|done]); [|done].
  unfold file_of at 1. cbn. by rewrite lookup_insert_eq.
Qed.

Lemma disciplined_close h fd (Q : bool -> Z -> Prop) :
  (forall r, Q h r) -> disciplined h (close fd) Q.
Proof.
  intros HQ. apply disciplined_bind, disciplined_ask. intros r.
  by apply disciplined_bind, disciplined_modify; [|apply disciplined_ret].
Qed.

Lemma disciplined_syslog h e (Q : bool -> unit -> Prop) :
  Q h tt -> disciplined h (syslog e) Q.
Proof. intros HQ. by apply disciplined_modify. Qed.

Lemma disciplined_load_shutdown h self (Q : bool -> bool -> Prop) :
  (forall b, Q h b) -> disciplined h (load_shutdown self) Q.
Proof.
  intros HQ. apply disciplined_bind, disciplined_worker_at. intros k Hk.
  destruct (shutdown k); [by apply disciplined_ret|].
  apply disciplined_bind, disciplined_ask. intros []; [|by apply disciplined_ret].
  by apply disciplined_bind, disciplined_store_worker; [|apply disciplined_ret].
Qed.

(** *** The threads *)

Lemma disciplined_receive_loop fuel self fd (Q : bool -> bool -> Prop) :
  (forall b, Q true b) -> disciplined true (receive_loop fuel self fd) Q.
Proof.
  intros HQ. induction fuel as [|fuel IH]; [done|]. cbn [receive_loop].
  apply disciplined_bind, disciplined_load_shutdown. intros []; [by apply disciplined_ret|].
  apply disciplined_bind, disciplined_worker_at. intros k _.
  apply disciplined_bind, disciplined_memset. apply disciplined_bind, disciplined_recv. intros r.
  destruct (r =? -1); [by apply disciplined_ret|].
  apply disciplined_bind, disciplined_memchr. intros found.
  apply disciplined_bind, disciplined_write. intros r'.
  destruct (r' =? -1); [by apply disciplined_ret|].
  case_bool_decide; [by apply disciplined_ret|done].
Qed.

Lemma disciplined_send_loop fuel self fd (Q : bool -> bool -> Prop) :
  (forall b, Q true b) -> disciplined true (send_loop fuel self fd) Q.
Proof.
  intros HQ. induction fuel as [|fuel IH]; [done|]. cbn [send_loop].
  apply disciplined_bind, disciplined_load_shutdown. intros []; [by apply disciplined_ret|].
  apply disciplined_bind, disciplined_worker_at. intros k _.
  apply disciplined_bind, disciplined_read. intros n. destruct (n =? -1); [by apply disciplined_ret|].
  apply disciplined_bind, disciplined_send. intros r. destruct (r =? -1); [by apply disciplined_ret|].
  destruct (n =? 0); [by apply disciplined_ret|done].
Qed.

Lemma disciplined_receive_data fuel self (Q : bool -> bool -> Prop) :
  (forall b, Q false b) -> disciplined false (receive_data fuel self) Q.
Proof.
  intros HQ. apply disciplined_bind, disciplined_worker_at. intros k [-> ->].
  apply disciplined_bind, disciplined_lock. apply disciplined_bind, disciplined_open. intros fd.
  assert (forall error : bool,
    disciplined true (pthread_mutex_unlock SRV_LOCK;;
      if error then mret false else stop ← load_shutdown self; mret (negb stop)) Q) as Hend.
  { intros error. apply disciplined_bind, disciplined_unlock.
    destruct error; [by apply disciplined_ret|].
    apply disciplined_bind, disciplined_load_shutdown. intros b. by apply disciplined_ret. }
  apply disciplined_bind. destruct (fd =? -1); [apply disciplined_ret, (Hend true)|].
  apply disciplined_bind, disciplined_receive_loop. intros error.
  apply disciplined_bind, disciplined_close. intros _. by apply disciplined_ret, Hend.
Qed.

Lemma disciplined_send_response fuel self (Q : bool -> bool -> Prop) :
  (forall b, Q false b) -> disciplined false (send_response fuel self) Q.
Proof.
  intros HQ. apply disciplined_bind, disciplined_worker_at. intros k [-> ->].
  apply disciplined_bind, disciplined_lock. apply disciplined_bind, disciplined_open. intros fd.
  assert (forall r : bool, disciplined true (pthread_mutex_unlock SRV_LOCK;; mret r) Q) as Hend.
  { intros r. apply disciplined_bind, disciplined_unlock. by apply disciplined_ret. }
  apply disciplined_bind. destruct (fd =? -1); [apply disciplined_ret, (Hend false)|].
  apply disciplined_bind, disciplined_send_loop. intros sent.
  apply disciplined_bind. destruct sent.
  - apply disciplined_bind, disciplined_load_shutdown. intros b. apply disciplined_ret.
    apply disciplined_bind, disciplined_close. intros _. by apply disciplined_ret, Hend.
  - apply disciplined_ret. apply disciplined_bind, disciplined_close. intros _. by apply disciplined_ret, Hend.
Qed.

Lemma disciplined_worker_main fuel self :
  disciplined false (aesd_worker_main fuel self) (fun h _ => h = false).
Proof.
  apply disciplined_bind, disciplined_receive_data. intros received.
  apply disciplined_bind.
  assert (disciplined false (close_client self;; store_worker self set_exited)
            (fun h _ => h = false)) as Hend.
  { apply disciplined_bind, disciplined_bind, disciplined_worker_at. intros k Hk.
    assert (disciplined false (store_worker self set_exited) (fun h _ => h = false)) as Hexit
      by by apply disciplined_store_worker.
    destruct (client_fd k >=? 0); [|by apply disciplined_ret].
    apply disciplined_bind, disciplined_close. intros _. by apply disciplined_syslog. }
  destruct received; [|by apply disciplined_ret].
  apply disciplined_bind, disciplined_send_response. intros _. by apply disciplined_ret.
Qed.

Lemma disciplined_alarm_handler sig :
  disciplined false (alarm_handler sig) (fun h _ => h = false).
Proof.
  unfold alarm_handler. destruct (sig =? SIGALRM); [|by apply disciplined_ret].
  apply disciplined_bind, disciplined_ask. intros ts. apply disciplined_bind.
  eapply (disciplined_quiet false _ (fun p => p = path)).
  { intros w Hw. split_and!; [done..|]. by apply sh_srv. }
  intros ? ->. apply disciplined_bind, disciplined_lock. apply disciplined_bind, disciplined_open.
  intros fd. apply disciplined_bind. destruct (fd =? -1).
  { by apply disciplined_ret, disciplined_unlock. }
  apply disciplined_bind, disciplined_write_bytes. intros _.
  apply disciplined_bind, disciplined_close. intros _. by apply disciplined_ret, disciplined_unlock.
Qed.

(** ** The pool *)

Context (C : contract (P F)).

(** An execution with what each of its steps did. *)
Inductive observed (c : config (S := P F)) : list (nat * action) -> config (S := P F) -> Prop :=
| obs_start : observed c [] c
| obs_step es c1 i e c2 :
    observed c es c1 -> pool_step C i c1 c2 -> effect c1.2 e c2.2 ->
    observed c (es ++ [(i, e)]) c2.

Definition owns (o : option nat) (i : nat) : bool := bool_decide (o = Some i).
Definition held (o : option nat) : bool := bool_decide (is_Some o).

(** The state of the pool when [o] holds the mutex. *)
Record pool_ok (c : config (S := P F)) (o : option nat) : Prop := PoolOk {
  po_shared : shared c.2;
  po_mutex : mutexes c.2 !! SRV_LOCK = Some (held o);
  po_owner : forall i, o = Some i -> is_Some (c.1 !! i);
  po_threads : forall i p, c.1 !! i = Some p -> disciplined (owns o i) p (fun h _ => h = false)
}.

(** A permitted step hands the mutex over as [owner_step] says. *)
Lemma permitted_owner w e w' o i h' :
  effect w e w' -> permitted (owns o i) e = Some h' -> mutexes w !! SRV_LOCK = Some (held o) ->
  exists o', owner_step o (i, e) = Some o' /\ owns o' i = h'
    /\ mutexes w' !! SRV_LOCK = Some (held o') /\ (forall j, j <> i -> owns o' j = owns o j).
Proof.
  unfold owns. intros He Hp Hm. case_bool_decide as Ho; [subst o|]; destruct He as [w' Hm' _|w' d Hm' _|Hl|Hl];
    cbn in Hp; try discriminate Hp; injection Hp as <-.
  - exists (Some i). rewrite Hm'. split_and!; [done|by rewrite bool_decide_true|done|done].
  - exists (Some i). rewrite Hm'. cbn. rewrite decide_True by done.
    split_and!; [done|by rewrite bool_decide_true|done|done].
  - exists None. cbn. rewrite decide_True, lookup_insert_eq by done. split_and!; [done..|].
    intros j Hj. rewrite !bool_decide_false; [done|congruence|done].
  - exists o. rewrite Hm'. split_and!; [done|by rewrite bool_decide_false|done|done].
  - exists (Some i). rewrite Hm in Hl. injection Hl as Hl. unfold held in Hl.
    apply bool_decide_eq_false in Hl. destruct o; [by destruct Hl; eexists|]. cbn.
    rewrite lookup_insert_eq. split_and!; [done|by rewrite bool_decide_true|done|].
    intros j Hj. rewrite !bool_decide_false; [done|done|congruence].
Qed.

Lemma effect_writes w e w' i :
  effect w e w' -> file_of path w' = write_blocks (file_of path w) (writes [(i, e)]).
Proof. by destruct 1. Qed.

Lemma pool_step_ok i c c' o :
  pool_ok c o -> pool_step C i c c' ->
  exists e o', effect c.2 e c'.2 /\ owner_step o (i, e) = Some o' /\ pool_ok c' o'.
Proof.
  intros [Hs Hm Hown Ht] Hstep. destruct Hstep as [ts w p p' w' Hp Hpp]. cbn in *.
  assert (forall j, o = Some j -> is_Some (<[i := p']> ts !! j)) as Hown'.
  { intros j Hj%Hown. apply lookup_lt_is_Some. rewrite length_insert. by apply lookup_lt_is_Some. }
  assert (is_Some (<[i := p']> ts !! i)) as Hi.
  { apply lookup_lt_is_Some. rewrite length_insert. by eapply lookup_lt_Some. }
  pose proof (Ht i p Hp) as Hd. destruct Hpp as [q k a w Ha|B f k w b w' Hf]; cbn in Hd.
  - exists AOther, o. split_and!; [by apply eff_other|done|]. split; [done|done|done|]. cbn.
    apply (forall_threads_step (fun j p => disciplined (owns o j) p (fun h _ => h = false))); auto.
  - specialize (Hd w Hs). rewrite Hf in Hd. destruct Hd as (Hs' & e & h' & He & Hpe & Hd).
    destruct (permitted_owner _ _ _ _ _ _ He Hpe Hm) as (o' & Ho' & <- & Hm' & Hj).
    exists e, o'. split_and!; [done|done|]. split; [done|done| |].
    { intros j Hoj. destruct (decide (j = i)) as [->|Hne]; [done|]. apply Hown'.
      specialize (Hj j Hne). unfold owns in Hj. rewrite bool_decide_true in Hj by done.
      by apply symmetry, bool_decide_eq_true in Hj. }
    cbn.
    apply (forall_threads_step (fun j p => disciplined (owns o j) p (fun h _ => h = false)));
      [done|done|]. intros j p2 Hne. by rewrite Hj.
Qed.

Lemma owner_run_snoc o es e :
  owner_run o (es ++ [e]) = (o' ← owner_run o es; owner_step o' e).
Proof.
  revert o. induction es as [|e' es IH]; intros o; cbn.
  - by destruct (owner_step o e).
  - destruct (owner_step o e'); [apply IH|done].
Qed.

Lemma execution_observed c tr c' :
  pool_ok c None -> execution C c tr c' ->
  exists es o, observed c es c' /\ es.*1 = tr /\ owner_run None es = Some o /\ pool_ok c' o
    /\ file_of path c'.2 = write_blocks (file_of path c.2) (writes es).
Proof.
  intros Hc. apply (execution_invariant C (fun tr c' => exists es o, observed c es c' /\ es.*1 = tr
    /\ owner_run None es = Some o /\ pool_ok c' o
    /\ file_of path c'.2 = write_blocks (file_of path c.2) (writes es))).
  { exists [], None. split_and!; [constructor|done..]. }
  intros tr1 c1 i c2 (es & o & Hobs & <- & Hrun & Hok & Hfile) Hstep.
  destruct (pool_step_ok i c1 c2 o Hok Hstep) as (e & o' & He & Ho' & Hok').
  exists (es ++ [(i, e)]), o'. split_and!; [by eapply obs_step|by rewrite fmap_app| |done|].
  - by rewrite owner_run_snoc, Hrun.
  - rewrite (effect_writes _ _ _ i He), Hfile. unfold writes, write_blocks.
    by rewrite omap_app, foldl_app.
Qed.

(** From a lock to the next unlock by the same thread, only that thread
    writes. *)
Lemma owner_keeps i es o :
  owner_run (Some i) es = Some o -> (i, AUnlock) ∉ es ->
  forall j d, (j, AWrite d) ∈ es -> j = i.
Proof.
  revert o. induction es as [|[j e] es IH]; intros o Hrun Hn j' d; [by intros ?%not_elem_of_nil|].
  apply not_elem_of_cons in Hn as [Hne Hn]. cbn in Hrun.
  assert (forall o', owner_step (Some i) (j, e) = Some o' ->
            o' = Some i /\ (forall d, e = AWrite d -> j = i)) as Hst.
  { intros o'. destruct e; cbn; [done| | |by intros [= <-]].
    - case_decide; [subst; done|done].
    - case_decide; [by intros [= <-]|done]. }
  destruct (owner_step (Some i) (j, e)) as [o'|]; [|done]. destruct (Hst o' eq_refl) as [-> Hw].
  cbn in Hrun. intros [[= -> <-]|Hin]%elem_of_cons; [by apply (Hw d)|]. by eapply IH.
Qed.

Lemma owner_run_split o es1 e es2 o' :
  owner_run o (es1 ++ e :: es2) = Some o' ->
  exists o1 o2, owner_run o es1 = Some o1 /\ owner_step o1 e = Some o2
    /\ owner_run o2 es2 = Some o'.
Proof.
  revert o. induction es1 as [|e1 es1 IH]; intros o; cbn.
  - destruct (owner_step o e) as [o2|] eqn:He; [|done]. intros Hr. by exists o, o2.
  - destruct (owner_step o e1) as [o2|]; [apply IH|done].
Qed.

(** The threads of the server that use the output file. *)
Inductive server_thread : prog (P F) unit -> Prop :=
| thread_worker fuel self : server_thread (aesd_worker_main fuel self)
| thread_alarm sig : server_thread (alarm_handler sig).

Lemma pool_start w ts :
  shared w -> mutexes w !! SRV_LOCK = Some false -> Forall server_thread ts ->
  pool_ok (ts, w) None.
Proof.
  intros Hs Hm Hts. split; [done|done|done|]. cbn. intros i p Hp.
  rewrite Forall_forall in Hts. destruct (Hts p (list_elem_of_lookup_2 _ _ _ Hp)).
  - apply disciplined_worker_main.
  - apply disciplined_alarm_handler.
Qed.

(** A thread that waits is not the holder. *)
Lemma blocked_not_owner c o i p :
  pool_ok c o -> c.1 !! i = Some p -> blocked p c.2 -> o <> Some i /\ is_Some o.
Proof.
  intros [Hs Hm _ Ht] Hp Hb. specialize (Ht i p Hp). destruct p as [|q k|B f k|e]; try done.
  destruct c as [ts w]. cbn in *. specialize (Ht w Hs). rewrite Hb in Ht. destruct (Ht eq_refl) as [Ho Hl].
  unfold owns in Ho. apply bool_decide_eq_false in Ho. split; [done|].
  rewrite Hm in Hl. injection Hl as Hl. by apply bool_decide_eq_true in Hl.
Qed.

End pool.

(** ** Theorems *)

Section theorems.
Context {F : Type} `{OutputFile F} (C : contract (P F)).
Implicit Types w : world F.

(** C15: any number of workers and timer signals, whatever the system answers
    and however their steps interleave: every change of the output file is made
    by the thread that holds the mutex, each critical region's changes come
    together, between the thread's lock and its unlock, and the file is what
    these changes, in that order, make of the one at the start. *)
Theorem workers_serialize path w0 ts0 tr ts w :
  shared path w0 -> mutexes w0 !! SRV_LOCK = Some false -> Forall server_thread ts0 ->
  execution C (ts0, w0) tr (ts, w) ->
  exists es o,
    observed path C (ts0, w0) es (ts, w) /\ es.*1 = tr /\ owner_run None es = Some o
    /\ mutexes w !! SRV_LOCK = Some (held o)
    /\ file_of path w = write_blocks (file_of path w0) (writes es)
    /\ (forall es1 i es2, es = es1 ++ (i, ALock) :: es2 -> (i, AUnlock) ∉ es2 ->
          forall j data, (j, AWrite data) ∈ es2 -> j = i).
Proof.
  intros Hs Hm Hts Hex.
  destruct (execution_observed path C _ _ _ (pool_start path w0 ts0 Hs Hm Hts) Hex)
    as (es & o & Hobs & Htr & Hrun & [_ Hlock _ _] & Hfile).
  exists es, o. split_and!; [done..|]. intros es1 i es2 -> Hn j data Hin.
  apply owner_run_split in Hrun as (o1 & o2 & _ & Ho2 & Hrun).
  destruct o1; [done|]. injection Ho2 as <-. by eapply owner_keeps.
Qed.

(** In no execution do the threads wait for each other: when one waits for
    the mutex, another holds it that neither waits nor has ended. *)
Theorem workers_no_deadlock path w0 ts0 tr ts w i p :
  shared path w0 -> mutexes w0 !! SRV_LOCK = Some false -> Forall server_thread ts0 ->
  execution C (ts0, w0) tr (ts, w) -> ts !! i = Some p -> blocked p w ->
  exists j p', j <> i /\ ts !! j = Some p' /\ ~ blocked p' w /\ ~ returned p'.
Proof.
  intros Hs Hm Hts Hex Hp Hb.
  destruct (execution_observed path C _ _ _ (pool_start path w0 ts0 Hs Hm Hts) Hex)
    as (es & o & _ & _ & _ & Hok & _).
  destruct (blocked_not_owner path _ _ _ _ Hok Hp Hb) as [Hoi [j ->]].
  destruct (po_owner path _ _ Hok j eq_refl) as [p' Hp'].
  exists j, p'. split_and!; [congruence|done| |].
  - intros Hb'. by destruct (blocked_not_owner path _ _ _ _ Hok Hp' Hb').
  - intros Hr. destruct p'; try done.
    pose proof (po_threads path _ _ Hok j _ Hp') as Hret. cbn in Hret.
    unfold owns in Hret. by rewrite bool_decide_true in Hret.
Qed.

End theorems.

(** ** Witnesses *)

(** Two workers of one process. *)
Definition two_workers : world plain_file :=
  let path := output_path_ WorkerSpec.sample_worker in
  World {[ 16 := zeros 4; 32 := zeros 4 ]}
    {[ 8 := WorkerSpec.sample_worker; 9 := Worker 78 7 false false 32 4 false SRV_LOCK path ]}
    ∅ {[ SRV_LOCK := false ]} ∅ ∅ {[ path := PlainFile [] ]} {[ 3 := FdConn 5; 7 := FdConn 6 ]}
    {[ 5 := Conn [] []; 6 := Conn [] [] ]} []
    (Server true 4 false path "9000" 4 0 (SListHead 0)).

Lemma two_workers_shared : shared (output_path_ WorkerSpec.sample_worker) two_workers.
Proof.
  split; [|done]. intros a k. cbn. rewrite lookup_insert, lookup_singleton.
  repeat case_decide; by intros [= <-].
Qed.

(** The first has locked the mutex, and the second waits for it. *)
Lemma two_workers_run :
  exists ts w p,
    execution posix ([aesd_worker_main 3 8; aesd_worker_main 3 9], two_workers) [0; 0; 1]%nat (ts, w)
    /\ ts !! 1%nat = Some p /\ blocked p w.
Proof.
  pose proof (exec_start (S := P plain_file) posix
    ([aesd_worker_main 3 8; aesd_worker_main 3 9], two_workers)) as He.
  eapply (exec_act (S := P plain_file) posix _ _ _ _ 0) in He; [|reflexivity|reflexivity].
  eapply (exec_act (S := P plain_file) posix _ _ _ _ 0) in He; [|reflexivity|reflexivity].
  eapply (exec_act (S := P plain_file) posix _ _ _ _ 1) in He; [|reflexivity|reflexivity].
  eexists _, _, _. split; [exact He|]. split; reflexivity.
Qed.

Lemma workers_serialize_witness :
  exists tr ts w es o,
    execution posix ([aesd_worker_main 3 8; aesd_worker_main 3 9], two_workers) tr (ts, w)
    /\ es.*1 = tr /\ owner_run None es = Some o
    /\ mutexes w !! SRV_LOCK = Some (held o)
    /\ file_of (output_path_ WorkerSpec.sample_worker) w = write_blocks (PlainFile []) (writes es).
Proof.
  destruct two_workers_run as (ts & w & p & Hex & _).
  destruct (workers_serialize posix (output_path_ WorkerSpec.sample_worker) two_workers
    [aesd_worker_main 3 8; aesd_worker_main 3 9] [0; 0; 1]%nat ts w)
    as (es & o & _ & Htr & Hrun & Hm & Hf & _).
  - apply two_workers_shared.
  - reflexivity.
  - repeat constructor.
  - exact Hex.
  - exists [0; 0; 1]%nat, ts, w, es, o. split; [exact Hex|]. split; [exact Htr|].
    split; [exact Hrun|]. split; [exact Hm|exact Hf].
Defined.

Lemma workers_no_deadlock_witness :
  exists ts w p j p',
    execution posix ([aesd_worker_main 3 8; aesd_worker_main 3 9], two_workers) [0; 0; 1]%nat (ts, w)
    /\ ts !! 1%nat = Some p /\ blocked p w /\ j <> 1%nat /\ ts !! j = Some p' /\ ~ blocked p' w.
Proof.
  destruct two_workers_run as (ts & w & p & Hex & Hp & Hb).
  destruct (workers_no_deadlock posix (output_path_ WorkerSpec.sample_worker) two_workers
    [aesd_worker_main 3 8; aesd_worker_main 3 9] [0; 0; 1]%nat ts w 1 p)
    as (j & p' & Hj & Hp' & Hb' & _).
  - apply two_workers_shared.
  - reflexivity.
  - repeat constructor.
  - exact Hex.
  - exact Hp.
  - exact Hb.
  - exists ts, w, p, j, p'. split_and!; assumption.
Defined.

End WorkerPool.
