(* ===== verification/WorkerOwn.v ===== *)
(** * What the threads of the server know

    Workers and timestamps over one process, with everything that is a thread's
    own: its structure, its buffer, its connection and, while it holds the mutex,
    the output file. The history of the file is a list of commits, one for each
    critical region that wrote something; what a thread knows of it is a part from
    its start, which the others only extend. [proves] is what is shown of each
    thread on its own and [pool_inv] what follows for all of them. *)

From S2P Require Import Prelude Interleave Process Worker WorkerSpec Server.

Module WorkerOwn.
Import Interleave Memory OutputFile Process Worker WorkerSpec Server.

(** ** The threads *)

(** A worker: its address and structure, its connection, the blocks it makes of
    what arrives, and what is left to arrive then. *)
Record job : Type := Job {
  j_self : Z;
  j_worker : aesd_worker;
  j_id : Z;
  j_conn : conn;
  j_blocks : list bytes;
  j_left : list rx
}.

Inductive task : Type :=
| Client (j : job)
| Timestamp.        (* the timer's signal *)

(** The handler of the signal has a thread to itself here; in the program it
    interrupts the main thread or a worker ([ServerPool]). *)
Definition thread_of {F} `{OutputFile F} (fuel : nat) (t : task) : prog (P F) unit :=
  match t with
  | Client j => aesd_worker_main fuel (j_self j)
  | Timestamp => alarm_handler SIGALRM
  end.

(** A commit: the thread and the blocks it wrote in one critical region. *)
Abbreviation history := (list (nat * list bytes)).

(** What a thread writes. *)
Definition wrote (t : task) (bs : list bytes) : Prop :=
  match t with
  | Client j => bs = j_blocks j
  | Timestamp => exists ts, bs = [ts] /\ (0 < length ts < 128)%nat
  end.

(** Every thread commits at most once, and what is its to write. *)
Record valid (tasks : list task) (log : history) : Prop := Valid {
  va_once : NoDup log.*1;
  va_wrote i bs : (i, bs) ∈ log -> exists t, tasks !! i = Some t /\ wrote t bs
}.

(** The workers have nothing in common. *)
Definition apart (tasks : list task) : Prop :=
  forall i i' j j', i <> i' -> tasks !! i = Some (Client j) -> tasks !! i' = Some (Client j') ->
    j_self j <> j_self j' /\ j_id j <> j_id j'
    /\ buf_ (j_worker j) <> buf_ (j_worker j') /\ client_fd (j_worker j) <> client_fd (j_worker j').

Section own.
Context {F : Type} `{OutputFileLaws F}.
Context (path : string) (f0 : F) (tasks : list task).
Implicit Types (w : world F) (log : history).

(** The file after the commits of a history. *)
Definition after log : F := write_blocks f0 (concat log.*2).

(** What a thread knows: the blocks it wrote in the critical region it is in, the
    history as it was then, the descriptor of the output ([None]: promised by
    [open]; an offset and whether it can be written), whether the file is there, its
    structure, its buffer, its connection, and whether that is open. *)
Record know : Type := Know {
  kn_held : option (list bytes);
  kn_log : history;
  kn_out : option (Z * option (Z * bool));
  kn_made : bool;
  kn_worker : aesd_worker;
  kn_buf : bytes;
  kn_conn : conn;
  kn_open : bool
}.

(** The descriptors that are its own. *)
Definition own_fd (t : task) (l : know) (fd : Z) : Prop :=
  (exists j, t = Client j /\ kn_open l = true /\ fd = client_fd (j_worker j))
  \/ (exists o, kn_out l = Some (fd, o)).

Definition sees_job w (l : know) (j : job) : Prop :=
  workers w !! j_self j = Some (kn_worker l)
  /\ mem w !! buf_ (j_worker j) = Some (kn_buf l)
  /\ conns w !! j_id j = Some (kn_conn l)
  /\ (kn_open l = true -> fds w !! client_fd (j_worker j) = Some (FdConn (j_id j))).

(** What it knows is so. *)
Record sees (i : nat) (t : task) (l : know) w log : Prop := Sees {
  se_job j : t = Client j -> sees_job w l j;
  se_srv : s_output_path_ (srv w) = path;
  se_mutex : is_Some (mutexes w !! SRV_LOCK);
  se_made : kn_made l = true -> is_Some (files w !! path);
  se_out fd o : kn_out l = Some (fd, o) ->
    is_Some (kn_held l) /\ fds w !! fd = (fun '(pos, wr) => FdFile path pos wr) <$> o;
  se_held done : kn_held l = Some done ->
    log = kn_log l /\ mutexes w !! SRV_LOCK = Some true
    /\ file_of path w = write_blocks (after log) done;
  se_log : kn_log l `prefix_of` log;
  se_mine : i ∈ log.*1 -> i ∈ (kn_log l).*1;
  se_valid : valid tasks log
}.

(** The history after a step: a critical region that wrote something is a commit. *)
Definition commit (i : nat) (done : list bytes) : history :=
  match done with [] => [] | _ => [(i, done)] end.

Definition next (i : nat) (l l' : know) log : history :=
  match kn_held l, kn_held l' with
  | Some done, None => log ++ commit i done
  | _, _ => log
  end.

(** What a step of the thread leaves alone, and what it does to the mutex and the
    file. *)
Record guar (t : task) (l : know) w (l' : know) w' : Prop := Guar {
  gu_workers a : (forall j, t = Client j -> a <> j_self j) -> workers w' !! a = workers w !! a;
  gu_mem a : (forall j, t = Client j -> a <> buf_ (j_worker j)) -> mem w' !! a = mem w !! a;
  gu_conns a : (forall j, t = Client j -> a <> j_id j) -> conns w' !! a = conns w !! a;
  gu_fds fd : ~ own_fd t l fd -> fds w' !! fd = fds w !! fd;
  gu_srv : srv w' = srv w;
  gu_files : is_Some (files w !! path) -> is_Some (files w' !! path);
  gu_lock :
    match kn_held l, kn_held l' with
    | None, None =>
        mutexes w' !! SRV_LOCK = mutexes w !! SRV_LOCK /\ file_of path w' = file_of path w
    | None, Some done => done = [] /\ mutexes w !! SRV_LOCK = Some false
    | Some done, None =>
        mutexes w' !! SRV_LOCK = Some false /\ file_of path w' = write_blocks (after (kn_log l)) done
    | Some _, Some _ => True
    end
}.

(** The file is what the history says while nobody holds the mutex. *)
Definition settled w log : Prop :=
  mutexes w !! SRV_LOCK = Some false -> file_of path w = after log.

(** What is shown of a thread: it meets no fault, it waits only for the mutex, when
    it does not hold it, and it keeps to [guar]; whatever the others do to what it
    does not know. *)
Fixpoint proves (i : nat) (t : task) {A} (p : prog (P F) A) (Q : A -> know -> Prop)
    (l : know) : Prop :=
  match p with
  | Ret x => Q x l
  | Ask q k => forall w log a, sees i t l w log -> posix_ok w q a ->
      exists l', sees i t l' w log /\ kn_held l' = kn_held l /\ proves i t (k a) Q l'
  | Act f k => forall w log, sees i t l w log -> settled w log ->
      match f w with
      | Ok (b, w') => exists l', guar t l w l' w' /\ sees i t l' w' (next i l l' log)
                        /\ proves i t (k b) Q l'
      | Err e => e = Deadlock /\ kn_held l = None /\ mutexes w !! SRV_LOCK = Some true
      end
  | Crash _ => False
  end.

(** ** One thread moves *)

Lemma next_held i (l l' : know) log : kn_held l' = kn_held l -> next i l l' log = log.
Proof. unfold next. intros ->. by destruct (kn_held l). Qed.

Lemma commit_fst i done k : k ∈ (commit i done).*1 -> k = i.
Proof. destruct done; cbn; [by intros ?%not_elem_of_nil|]. by intros ?%list_elem_of_singleton. Qed.

Lemma next_other i (l l' : know) log k : k ∈ (next i l l' log).*1 -> k <> i -> k ∈ log.*1.
Proof.
  unfold next. destruct (kn_held l), (kn_held l'); try done.
  rewrite fmap_app, elem_of_app. by intros [|?%commit_fst].
Qed.

Lemma next_prefix i (l l' : know) log : log `prefix_of` next i l l' log.
Proof. unfold next. destruct (kn_held l), (kn_held l'); try done. by eexists. Qed.

(** What one thread has for its own, another has not. *)
Lemma own_fd_apart i i' t t' l l' w log fd :
  apart tasks -> i <> i' -> tasks !! i = Some t -> tasks !! i' = Some t' ->
  sees i t l w log -> sees i' t' l' w log -> ~ (is_Some (kn_held l) /\ is_Some (kn_held l')) ->
  own_fd t l fd -> ~ own_fd t' l' fd.
Proof.
  intros Ha Hne Ht Ht' Hs Hs' Hh.
  assert (forall i t l fd j o, sees i t l w log -> kn_out l = Some (fd, o) ->
            fds w !! fd <> Some (FdConn j)) as Hout.
  { intros i2 t2 l2 fd2 j o Hs2 Ho. apply (se_out _ _ _ _ _ Hs2) in Ho as [_ Hfd].
    rewrite Hfd. by destruct o as [[]|]. }
  intros [(j & -> & Ho & ->)|[o Ho]] [(j' & -> & Ho' & He)|[o' Ho']].
  - by destruct (Ha i i' j j' Hne Ht Ht') as (_ & _ & _ & Hc).
  - destruct (se_job _ _ _ _ _ Hs j eq_refl) as (_ & _ & _ & Hfd).
    exact (Hout _ _ _ _ _ _ Hs' Ho' (Hfd Ho)).
  - subst fd. destruct (se_job _ _ _ _ _ Hs' j' eq_refl) as (_ & _ & _ & Hfd).
    exact (Hout _ _ _ _ _ _ Hs Ho (Hfd Ho')).
  - apply Hh. split; [by eapply (se_out _ _ _ _ _ Hs)|by eapply (se_out _ _ _ _ _ Hs')].
Qed.

(** What another thread knows stays so. *)
Lemma sees_stable i i' t t' l l2 w w' log lk :
  apart tasks -> i <> i' -> tasks !! i = Some t -> tasks !! i' = Some t' ->
  sees i t l w log -> sees i' t' lk w log -> ~ (is_Some (kn_held l) /\ is_Some (kn_held lk)) ->
  guar t l w l2 w' -> sees i t l2 w' (next i l l2 log) ->
  sees i' t' lk w' (next i l l2 log).
Proof.
  intros Ha Hne Ht Ht' Hs Hs' Hh Hg Hs2.
  assert (forall fd, own_fd t' lk fd -> fds w' !! fd = fds w !! fd) as Hfd.
  { intros fd Ho. apply (gu_fds _ _ _ _ _ Hg). intros Ho'.
    exact (own_fd_apart i i' t t' l lk w log fd Ha Hne Ht Ht' Hs Hs' Hh Ho' Ho). }
  assert (forall done, kn_held lk = Some done ->
            next i l l2 log = log /\ mutexes w' !! SRV_LOCK = mutexes w !! SRV_LOCK
            /\ file_of path w' = file_of path w) as Hlock.
  { intros done Hd. destruct (se_held _ _ _ _ _ Hs' done Hd) as (_ & Hm & _).
    pose proof (gu_lock _ _ _ _ _ Hg) as Hgl. unfold next.
    destruct (kn_held l) as [d|] eqn:El; [exfalso; apply Hh; by rewrite Hd|].
    destruct (kn_held l2); [|done]. destruct Hgl as [_ Hgl]. congruence. }
  split.
  - intros j ->. destruct (se_job _ _ _ _ _ Hs' j eq_refl) as (Hw & Hm & Hc & Ho).
    assert (forall j', t = Client j' -> j_self j <> j_self j' /\ j_id j <> j_id j'
              /\ buf_ (j_worker j) <> buf_ (j_worker j')) as Hap.
    { intros j' ->. destruct (Ha i' i j j') as (? & ? & ? & _); done. }
    unfold sees_job. rewrite (gu_workers _ _ _ _ _ Hg), (gu_mem _ _ _ _ _ Hg), (gu_conns _ _ _ _ _ Hg)
      by (intros j' Hj'; by apply (Hap j')).
    split_and!; [done..|]. intros Hop. rewrite Hfd; [by apply Ho|]. left. by exists j.
  - rewrite (gu_srv _ _ _ _ _ Hg). apply (se_srv _ _ _ _ _ Hs').
  - apply (se_mutex _ _ _ _ _ Hs2).
  - intros Hm. apply (gu_files _ _ _ _ _ Hg), (se_made _ _ _ _ _ Hs' Hm).
  - intros fd o Ho. rewrite Hfd by (right; by eexists). by apply (se_out _ _ _ _ _ Hs').
  - intros done Hd. destruct (Hlock done Hd) as (-> & -> & ->). by apply (se_held _ _ _ _ _ Hs').
  - etrans; [apply (se_log _ _ _ _ _ Hs')|apply next_prefix].
  - intros Hin. apply (se_mine _ _ _ _ _ Hs'). eapply next_other; [exact Hin|congruence].
  - apply (se_valid _ _ _ _ _ Hs2).
Qed.

Lemma after_commit log i done : after (log ++ commit i done) = write_blocks (after log) done.
Proof.
  unfold after, write_blocks. rewrite fmap_app, concat_app, foldl_app.
  destruct done as [|b done]; [done|]. cbn. by rewrite app_nil_r.
Qed.

Lemma guar_same t (l l' : know) w : kn_held l' = kn_held l -> guar t l w l' w.
Proof. intros Hh. split; try done. rewrite Hh. by destruct (kn_held l). Qed.

(** What a thread is proved of covers each of its steps. *)
Lemma proves_step i t (p p' : prog (P F) unit) Q l w w' log :
  sees i t l w log -> settled w log -> proves i t p Q l ->
  step (S := P F) posix_ok p w p' w' ->
  exists l', guar t l w l' w' /\ sees i t l' w' (next i l l' log) /\ proves i t p' Q l'.
Proof.
  intros Hs Hset Hp Hst. destruct Hst as [q k a w Ha|B f k w b w' Hf]; cbn in Hp.
  - destruct (Hp w log a Hs Ha) as (l' & Hs' & Hh & Hp'). exists l'.
    rewrite next_held by done. split_and!; [by apply guar_same|done|done].
  - specialize (Hp w log Hs Hset). by rewrite Hf in Hp.
Qed.

(** ** All of them *)

Section pool.
Context (Hapart : apart tasks).
Context (Q : nat -> task -> know -> Prop).
Context (HQ : forall i t l, Q i t l -> kn_held l = None).

Abbreviation config := (config (S := P F)).

(** The threads know [ls], and [o] holds the mutex. *)
Record pool_inv (c : config) log (ls : list know) (o : option nat) : Prop := PoolInv {
  pi_length : length ls = length tasks /\ length c.1 = length tasks;
  pi_thread i t l p : tasks !! i = Some t -> ls !! i = Some l -> c.1 !! i = Some p ->
    sees i t l c.2 log /\ proves i t p (fun _ => Q i t) l;
  pi_holder i l : ls !! i = Some l -> is_Some (kn_held l) <-> o = Some i;
  pi_owner i : o = Some i -> is_Some (ls !! i);
  pi_lock : mutexes c.2 !! SRV_LOCK = Some (bool_decide (is_Some o));
  pi_settled : o = None -> file_of path c.2 = after log;
  pi_valid : valid tasks log
}.

Lemma pool_inv_settled c log ls o : pool_inv c log ls o -> settled c.2 log.
Proof.
  intros Hi Hm. apply (pi_settled _ _ _ _ Hi). rewrite (pi_lock _ _ _ _ Hi) in Hm.
  injection Hm as Hm. apply bool_decide_eq_false in Hm. by apply eq_None_not_Some.
Qed.

(** Who holds the mutex next. *)
Definition next_owner (i : nat) (l l' : know) (o : option nat) : option nat :=
  match kn_held l, kn_held l' with
  | None, Some _ => Some i
  | Some _, None => None
  | _, _ => o
  end.

Lemma next_owner_ok i t l l' w w' log (ls : list know) o :
  (forall j k, ls !! j = Some k -> is_Some (kn_held k) <-> o = Some j) ->
  mutexes w !! SRV_LOCK = Some (bool_decide (is_Some o)) ->
  (o = None -> file_of path w = after log) ->
  ls !! i = Some l -> sees i t l w log -> guar t l w l' w' -> sees i t l' w' (next i l l' log) ->
  (forall j k, <[i := l']> ls !! j = Some k -> is_Some (kn_held k) <-> next_owner i l l' o = Some j)
  /\ mutexes w' !! SRV_LOCK = Some (bool_decide (is_Some (next_owner i l l' o)))
  /\ (next_owner i l l' o = None -> file_of path w' = after (next i l l' log)).
Proof.
  intros Hho Hlk Hset Hl Hs Hg Hs'. pose proof (gu_lock _ _ _ _ _ Hg) as Hgl.
  assert (forall o', (is_Some (kn_held l') <-> o' = Some i) ->
            (forall j, j <> i -> o' = Some j <-> o = Some j) ->
            forall j k, <[i := l']> ls !! j = Some k -> is_Some (kn_held k) <-> o' = Some j) as Hins.
  { intros o' Hi Hj j k [(<- & <- & _)|[Hne Hk]]%list_lookup_insert_Some; [done|].
    rewrite Hj by done. by apply Hho. }
  specialize (Hho i l Hl). unfold next_owner, next in *.
  destruct (kn_held l) as [done|] eqn:El, (kn_held l') as [done'|] eqn:El'.
  - rewrite (proj1 Hho) in * by done. split_and!; [by apply Hins| |done].
    rewrite bool_decide_true by done. apply (se_held _ _ _ _ _ Hs' done' El').
  - rewrite (proj1 Hho) in * by done. destruct Hgl as [-> ->]. split_and!.
    + apply Hins; [by split; [intros []|]|]. intros j Hj. by split; [|intros [= ->]].
    + by rewrite bool_decide_false by by intros [].
    + intros _. rewrite after_commit. by destruct (se_held _ _ _ _ _ Hs done El) as (-> & _).
  - destruct Hgl as [_ Hf]. rewrite Hlk in Hf. injection Hf as Hf%bool_decide_eq_false.
    apply eq_None_not_Some in Hf as ->. split_and!.
    + apply Hins; [done|]. intros j Hj. by split; [intros [= ->]|].
    + rewrite bool_decide_true by done. apply (se_held _ _ _ _ _ Hs' done' El').
    + done.
  - destruct Hgl as [-> ->]. split_and!; [|done|done]. apply Hins; [|done].
    by rewrite <- Hho.
Qed.

Lemma pool_inv_step c log ls o i c' :
  pool_inv c log ls o -> pool_step (S := P F) posix_ok i c c' ->
  exists log' ls' o', pool_inv c' log' ls' o'.
Proof.
  intros Hi Hst. pose proof (pool_inv_settled _ _ _ _ Hi) as Hset.
  destruct Hi as [[Hll Htl] Hth Hho Hown Hlk Hse Hva], Hst as [ts w p p' w' Hp Hst]. cbn [fst snd] in *.
  pose proof (lookup_lt_Some _ _ _ Hp) as Hlt.
  destruct (lookup_lt_is_Some_2 tasks i) as [t Ht]; [lia|].
  destruct (lookup_lt_is_Some_2 ls i) as [l Hl]; [lia|].
  destruct (Hth i t l p Ht Hl Hp) as [Hs Hpr].
  destruct (proves_step i t p p' _ l w w' log Hs Hset Hpr Hst) as (l' & Hg & Hs' & Hpr').
  destruct (next_owner_ok i t l l' w w' log ls o) as (Hho' & Hlk' & Hse'); [done..|].
  exists (next i l l' log), (<[i := l']> ls), (next_owner i l l' o).
  split; cbn [fst snd]; [by rewrite !length_insert| |done| |done|done|by eapply se_valid].
  - intros j tj lj pj Htj Hlj Hpj.
    apply list_lookup_insert_Some in Hlj as [(<- & <- & _)|[Hne Hlj]].
    { rewrite list_lookup_insert_eq in Hpj by done. simplify_eq. done. }
    rewrite list_lookup_insert_ne in Hpj by done.
    destruct (Hth j tj lj pj Htj Hlj Hpj) as [Hsj Hprj]. split; [|done].
    eapply (sees_stable i j); [done..| |done|done].
    intros [Hh Hh']. apply (Hho i l Hl) in Hh. apply (Hho j lj Hlj) in Hh'. congruence.
  - intros j Hj. apply lookup_lt_is_Some. rewrite length_insert. revert Hj. unfold next_owner.
    destruct (kn_held l), (kn_held l'); [|done| |];
      try (intros Hj; apply lookup_lt_is_Some, Hown, Hj). intros [= <-]. lia.
Qed.

(** ** Progress *)

Lemma thread_moves c log ls o i t l p :
  pool_inv c log ls o -> tasks !! i = Some t -> ls !! i = Some l -> c.1 !! i = Some p ->
  (returned p /\ kn_held l = None) \/ (exists c', pool_step (S := P F) posix_ok i c c')
  \/ (kn_held l = None /\ exists j, o = Some j).
Proof.
  intros Hi Ht Hl Hp. destruct (pi_thread _ _ _ _ Hi i t l p Ht Hl Hp) as [Hs Hpr].
  destruct c as [ts w]. cbn [fst snd] in *.
  assert (forall p' w', step (S := P F) posix_ok p w p' w' ->
            exists c', pool_step (S := P F) posix_ok i (ts, w) c') as Hstep.
  { intros p' w' Hst. eexists. by eapply PoolStep. }
  destruct p as [[]|q k|B f k|e]; cbn in Hpr; [left; split; [done|by eapply HQ]| | |done].
  - right; left. eapply Hstep, step_ask, (calm_ok w tt q).
  - specialize (Hpr w log Hs (pool_inv_settled _ _ _ _ Hi)). destruct (f w) as [[b w']|e] eqn:Hf.
    + right; left. by eapply Hstep, step_act.
    + destruct Hpr as (_ & Hh & Hm). right; right. split; [done|].
      pose proof (pi_lock _ _ _ _ Hi) as Hlk. cbn [snd] in Hlk. rewrite Hlk in Hm.
      by injection Hm as Hm%bool_decide_eq_true.
Qed.

Lemma all_returned_or (ts : list (prog (P F) unit)) :
  Forall returned ts \/ exists i p, ts !! i = Some p /\ ~ returned p.
Proof.
  induction ts as [|p ts [Hr|(i & p' & Hi & Hn)]]; [by left| |right; by exists (1 + i)%nat, p'].
  destruct p as [a|q k|B f k|e]; [left; by constructor|..];
    (right; eexists 0%nat, _; split; [done|by intros []]).
Qed.

(** Until all have returned, one of them moves. *)
Lemma pool_inv_progress c log ls o :
  pool_inv c log ls o ->
  Forall returned c.1 \/ exists i c', pool_step (S := P F) posix_ok i c c'.
Proof.
  intros Hi. destruct (pi_length _ _ _ _ Hi) as [Hll Htl].
  assert (forall i p, c.1 !! i = Some p -> exists t l, tasks !! i = Some t /\ ls !! i = Some l) as Hsome.
  { intros i p Hp%lookup_lt_Some. destruct (lookup_lt_is_Some_2 tasks i) as [t ?]; [lia|].
    destruct (lookup_lt_is_Some_2 ls i) as [l ?]; [lia|]. by exists t, l. }
  destruct o as [j|].
  - right. destruct (pi_owner _ _ _ _ Hi j eq_refl) as [l Hl].
    pose proof (lookup_lt_Some _ _ _ Hl) as Hlt.
    destruct (lookup_lt_is_Some_2 c.1 j) as [p Hp]; [lia|].
    destruct (lookup_lt_is_Some_2 tasks j) as [t Ht]; [lia|].
    destruct (proj2 (pi_holder _ _ _ _ Hi j l Hl) eq_refl) as [done Hh].
    destruct (thread_moves _ _ _ _ j t l p Hi Ht Hl Hp) as [[_ ?]|[[c' ?]|[? _]]]; [congruence|by eauto|congruence].
  - destruct (all_returned_or c.1) as [|(i & p & Hp & Hn)]; [by left|right].
    destruct (Hsome i p Hp) as (t & l & Ht & Hl).
    destruct (thread_moves _ _ _ _ i t l p Hi Ht Hl Hp) as [[? _]|[[c' ?]|[_ [? ?]]]]; [done|by eauto|done].
Qed.

End pool.

End own.
End WorkerOwn.
