(* ===== verification/OwnRules.v ===== *)
(** * Rules for the threads of the server

    What [proves] needs for each call a worker or the timer's handler makes, from
    what the thread knows before the call to what it knows after. *)

From S2P Require Import Prelude Interleave Process Worker WorkerSpec Server WorkerOwn.

Module OwnRules.
Import Interleave Memory OutputFile Process Worker WorkerSpec Server WorkerOwn.

Section rules.
Context {F : Type} `{OutputFileLaws F}.
Context (path : string) (f0 : F) (tasks : list task).
Context (i : nat) (t : task) (Ht : tasks !! i = Some t).
Implicit Types (w : world F) (log : history) (l : know).

Abbreviation proves := (proves path f0 tasks i t).
Abbreviation sees := (sees path f0 tasks i t).
Abbreviation guar := (guar path f0 t).
Abbreviation settled := (settled path f0).
Abbreviation after := (after f0).

(** ** Sequencing *)

Lemma proves_bind {A B} (p : prog (P F) A) (k : A -> prog (P F) B) Q l :
  proves p (fun x l => proves (k x) Q l) l -> proves (p ≫= k) Q l.
Proof.
  revert l; induction p as [x|q g IH|T f g IH|e]; intros l; cbn; [done| | |done].
  - intros Hp w log a Hs Ha. destruct (Hp w log a Hs Ha) as (l' & Hs' & Hh & Hp'). eauto.
  - intros Hp w log Hs Hse. specialize (Hp w log Hs Hse). destruct (f w) as [[b w']|e]; [|done].
    destruct Hp as (l' & Hg & Hs' & Hp'). eauto.
Qed.

Lemma proves_ret {A} (x : A) (Q : A -> know -> Prop) l : Q x l -> proves (mret x) Q l.
Proof. done. Qed.

Lemma proves_mono {A} (p : prog (P F) A) (Q Q' : A -> know -> Prop) l :
  (forall x l, Q x l -> Q' x l) -> proves p Q l -> proves p Q' l.
Proof.
  intros HQ. revert l; induction p as [x|q g IH|T f g IH|e]; intros l; cbn; [by auto| | |done].
  - intros Hp w log a Hs Ha. destruct (Hp w log a Hs Ha) as (l' & Hs' & Hh & Hp'). eauto.
  - intros Hp w log Hs Hse. specialize (Hp w log Hs Hse). destruct (f w) as [[b w']|e]; [|done].
    destruct Hp as (l' & Hg & Hs' & Hp'). eauto.
Qed.

Lemma proves_learn q (Q : panswer q -> know -> Prop) l :
  (forall w log a, sees l w log -> posix_ok w q a ->
     exists l', sees l' w log /\ kn_held l' = kn_held l /\ Q a l') ->
  proves (ask (S := P F) q) Q l.
Proof. done. Qed.

(** A question that teaches nothing that lasts. *)
Lemma proves_ask q (Q : panswer q -> know -> Prop) l :
  (forall w log a, sees l w log -> posix_ok w q a -> Q a l) -> proves (ask (S := P F) q) Q l.
Proof. intros HQ w log a Hs Ha. exists l. split_and!; [done..|]. by eapply HQ. Qed.

(** An access that changes nothing. *)
Lemma proves_read {B} (f : world F -> res (B * world F)) (Q : B -> know -> Prop) l :
  (forall w log, sees l w log -> exists b, f w = Ok (b, w) /\ Q b l) ->
  proves (act (S := P F) f) Q l.
Proof.
  intros Hf w log Hs _. destruct (Hf w log Hs) as (b & -> & HQ). exists l.
  rewrite next_held by done. split_and!; [by apply guar_same|done|done].
Qed.

(** An access that changes neither the mutex nor the file. *)
Lemma sees_update l l' w w' log :
  sees l w log -> kn_held l' = kn_held l -> kn_log l' = kn_log l ->
  mutexes w' = mutexes w -> file_of path w' = file_of path w -> srv w' = srv w ->
  (is_Some (files w !! path) -> is_Some (files w' !! path)) ->
  (kn_made l' = true -> kn_made l = true \/ is_Some (files w' !! path)) ->
  (forall j, t = Client j -> sees_job w' l' j) ->
  (forall fd o, kn_out l' = Some (fd, o) ->
     is_Some (kn_held l') /\ fds w' !! fd = (fun '(pos, wr) => FdFile path pos wr) <$> o) ->
  sees l' w' log.
Proof.
  intros [Hj Hsrv Hmx Hm Ho Hh Hl Hmi Hv] Eh El Em Ef Es Hfi Hma Hj' Ho'. split; try done.
  - by rewrite Es.
  - by rewrite Em.
  - intros Hk. destruct (Hma Hk) as [Hk'|]; [|done]. by apply Hfi, Hm.
  - rewrite Eh, El, Em, Ef. apply Hh.
  - by rewrite El.
  - by rewrite El.
Qed.

Lemma proves_update {B} (f : world F -> res (B * world F)) (Q : B -> know -> Prop) l :
  (forall w log, sees l w log -> exists b w' l', f w = Ok (b, w') /\ Q b l'
     /\ kn_held l' = kn_held l /\ mutexes w' = mutexes w /\ file_of path w' = file_of path w
     /\ (is_Some (files w !! path) -> is_Some (files w' !! path))
     /\ sees l' w' log /\ srv w' = srv w
     /\ (forall a, (forall j, t = Client j -> a <> j_self j) -> workers w' !! a = workers w !! a)
     /\ (forall a, (forall j, t = Client j -> a <> buf_ (j_worker j)) -> mem w' !! a = mem w !! a)
     /\ (forall a, (forall j, t = Client j -> a <> j_id j) -> conns w' !! a = conns w !! a)
     /\ (forall fd, ~ own_fd t l fd -> fds w' !! fd = fds w !! fd)) ->
  proves (act (S := P F) f) Q l.
Proof.
  intros Hf w log Hs _.
  destruct (Hf w log Hs) as (b & w' & l' & -> & HQ & Eh & Em & Ef & Hfi & Hs' & Es & Hw & Hm & Hc & Hfd).
  exists l'. rewrite next_held by done. split_and!; [|done|done]. split; try done.
  rewrite Eh, Em, Ef. by destruct (kn_held l).
Qed.

(** ** The critical region *)

Definition locked log l : know :=
  Know (Some []) log (kn_out l) (kn_made l) (kn_worker l) (kn_buf l) (kn_conn l) (kn_open l).

Lemma proves_lock (Q : unit -> know -> Prop) l :
  kn_held l = None ->
  (forall log, kn_log l `prefix_of` log -> (i ∈ log.*1 -> i ∈ (kn_log l).*1) ->
     valid tasks log -> Q tt (locked log l)) ->
  proves (pthread_mutex_lock SRV_LOCK) Q l.
Proof.
  intros Hh HQ w log Hs Hse. destruct (se_mutex _ _ _ _ _ _ _ _ Hs) as [b Hb]. rewrite Hb.
  destruct b; [done|]. exists (locked log l). split_and!.
  - split; try done. by rewrite Hh.
  - unfold next. rewrite Hh. destruct Hs as [Hj Hsrv Hm Hma Ho _ Hl Hmi Hv].
    split; try done; cbn; [by rewrite lookup_insert_eq|..].
    + intros fd o Hfd. split; [done|]. by apply Ho.
    + intros done [= <-]. rewrite lookup_insert_eq. split_and!; [done..|]. by apply Hse.
  - destruct Hs. by apply HQ.
Qed.

Definition unlocked (done : list bytes) l : know :=
  Know None (kn_log l ++ commit i done) None (kn_made l) (kn_worker l) (kn_buf l) (kn_conn l) (kn_open l).

(** What was written is a commit, of what the thread has to write. *)
Lemma proves_unlock (Q : unit -> know -> Prop) l done :
  kn_held l = Some done -> kn_out l = None ->
  (done = [] \/ (i ∉ (kn_log l).*1) /\ wrote t done) ->
  Q tt (unlocked done l) -> proves (pthread_mutex_unlock SRV_LOCK) Q l.
Proof.
  intros Hh Ho Hd HQ w log Hs _. destruct (se_held _ _ _ _ _ _ _ _ Hs done Hh) as (-> & Hm & Hf).
  rewrite Hm. exists (unlocked done l). split_and!; [|unfold next; rewrite Hh; cbn|done].
  - split; try done. rewrite Hh. cbn. by rewrite lookup_insert_eq.
  - pose proof Hs as [Hj Hsrv Hmx Hma Hout _ Hl Hmi Hv].
    split; try done; cbn; [by rewrite lookup_insert_eq|].
    destruct Hd as [->|[Hni Hw]]; [by rewrite app_nil_r|]. destruct Hv as [Hn Hwr]. split.
    + rewrite fmap_app. apply NoDup_app. split_and!; [done| |].
      * intros k Hk Hk'%commit_fst. congruence.
      * destruct done; cbn; [constructor|apply NoDup_singleton].
    + intros k bs [Hk|Hk]%elem_of_app; [by apply Hwr|]. exists t.
      destruct done; [by apply not_elem_of_nil in Hk|].
      by apply list_elem_of_singleton in Hk as [= -> ->].
Qed.

(** ** The output *)

Definition with_out (o : option (Z * option (Z * bool))) (made : bool) l : know :=
  Know (kn_held l) (kn_log l) o made (kn_worker l) (kn_buf l) (kn_conn l) (kn_open l).

Lemma sees_same_job l l' w log :
  sees l w log -> kn_worker l' = kn_worker l -> kn_buf l' = kn_buf l -> kn_conn l' = kn_conn l ->
  kn_open l' = kn_open l -> forall j, t = Client j -> sees_job w l' j.
Proof. intros Hs Ew Eb Ec Eo j Hj. unfold sees_job. rewrite Ew, Eb, Ec, Eo. by apply Hs. Qed.

Lemma own_out l fd o : kn_out l = Some (fd, o) -> own_fd t l fd.
Proof. intros Ho. right. by eexists. Qed.

(** The client's descriptor is not the output's. *)
Lemma sees_job_fds l w log (m : gmap Z fdesc) fd o :
  sees l w log -> kn_out l = Some (fd, o) ->
  (forall d, d <> fd -> m !! d = fds w !! d) ->
  forall l' j, t = Client j -> kn_worker l' = kn_worker l -> kn_buf l' = kn_buf l ->
    kn_conn l' = kn_conn l -> kn_open l' = kn_open l -> sees_job (set_fds m w) l' j.
Proof.
  intros Hs Ho Hm l' j Hj Ew Eb Ec Eo. destruct (se_job _ _ _ _ _ _ _ _ Hs j Hj) as (Hw & Hb & Hc & Hop).
  unfold sees_job. cbn. rewrite Ew, Eb, Ec, Eo. split_and!; [done..|].
  intros Hopen. rewrite Hm; [by apply Hop|]. intros <-.
  destruct (se_out _ _ _ _ _ _ _ _ Hs _ _ Ho) as [_ Hfd]. rewrite (Hop Hopen) in Hfd.
  by destruct o as [[]|].
Qed.

Lemma proves_open (wr : bool) (Q : Z -> know -> Prop) l done :
  kn_held l = Some done -> kn_out l = None -> (wr = false -> kn_made l = true) ->
  (forall fd, 0 <= fd -> Q fd (with_out (Some (fd, Some (0, wr))) true l)) ->
  proves (open path wr) Q l.
Proof.
  intros Hh Ho Hma HQ. unfold open. apply proves_bind, proves_learn.
  intros w log fd Hs [Hp Hok]. cbn in fd.
  assert (fd <> -1) as Hne.
  { apply Hok. destruct wr; [by left|right]. by apply (se_made _ _ _ _ _ _ _ _ Hs), Hma. }
  destruct Hp as [?|(Hp0 & Hfd & _)]; [done|].
  exists (with_out (Some (fd, None)) (kn_made l) l). split_and!; [|done|].
  { eapply sees_update; try done; [by left|by eapply sees_same_job|]. cbn. rewrite Hh. by intros ? ? [= <- <-]. }
  cbn beta. rewrite (proj2 (Z.eqb_neq _ _) Hne). apply proves_bind, proves_update. clear w log Hs Hok Hfd. intros w log Hs.
  set (l1 := with_out (Some (fd, None)) (kn_made l) l) in *.
  set (m := <[fd := FdFile path 0 wr]> (fds w)).
  assert (forall d, d <> fd -> m !! d = fds w !! d) as Hm by (intros; by apply lookup_insert_ne).
  eexists tt, _, (with_out (Some (fd, Some (0, wr))) true l). split_and!; [done| | | | | | | | | | | ].
  - by apply HQ.
  - done.
  - by destruct wr.
  - destruct wr; cbn; [|done]. unfold file_of at 1. cbn. by rewrite lookup_insert_eq.
  - destruct wr; cbn; [|done]. rewrite lookup_insert_eq. by eexists.
  - eapply (sees_update l1); try done; try by destruct wr.
    + destruct wr; cbn; [|done]. unfold file_of at 1. cbn. by rewrite lookup_insert_eq.
    + destruct wr; cbn; [|done]. rewrite lookup_insert_eq. by eexists.
    + intros _. destruct wr; cbn; [right; rewrite lookup_insert_eq; by eexists|left; by apply Hma].
    + intros j Hj. pose proof (sees_job_fds l1 w log m fd None Hs eq_refl Hm
        (with_out (Some (fd, Some (0, wr))) true l) j Hj eq_refl eq_refl eq_refl eq_refl) as Hsj.
      by destruct wr.
    + cbn. rewrite Hh. intros ? ? [= <- <-]. split; [done|].
      destruct wr; cbn; unfold m; by rewrite lookup_insert_eq.
  - by destruct wr.
  - by destruct wr.
  - by destruct wr.
  - by destruct wr.
  - intros d Hd. assert (d <> fd) as Hdf by (intros ->; by apply Hd; right; eexists).
    destruct wr; cbn; by apply Hm.
Qed.

Lemma proves_close_output (Q : Z -> know -> Prop) l fd o :
  kn_out l = Some (fd, o) -> (forall r, Q r (with_out None (kn_made l) l)) -> proves (close fd) Q l.
Proof.
  intros Ho HQ. unfold close. apply proves_bind, proves_ask. intros _ _ r _ _. cbn beta.
  apply proves_bind, proves_update. intros w log Hs.
  set (m := delete fd (fds w)).
  assert (forall d, d <> fd -> m !! d = fds w !! d) as Hm by (intros; by apply lookup_delete_ne).
  eexists tt, _, (with_out None (kn_made l) l). split_and!; try done.
  - apply HQ.
  - eapply (sees_update l); try done; [by left|].
    intros j Hj. by eapply (sees_job_fds l).
  - intros d Hd. apply Hm. intros ->. by apply Hd, (own_out l fd o).
Qed.

Definition written (done : list bytes) l : know :=
  Know (Some done) (kn_log l) (kn_out l) (kn_made l) (kn_worker l) (kn_buf l) (kn_conn l) (kn_open l).

(** A write is complete. *)
Lemma proves_write_bytes (Q : Z -> know -> Prop) l fd pos done data :
  kn_held l = Some done -> kn_out l = Some (fd, Some (pos, true)) ->
  Q (Z.of_nat (length data)) (written (done ++ [data]) l) ->
  proves (write_bytes fd data) Q l.
Proof.
  intros Hh Ho HQ. unfold write_bytes. apply proves_bind, proves_read. intros w log Hs.
  destruct (se_out _ _ _ _ _ _ _ _ Hs _ _ Ho) as [_ Hfd].
  eexists. split; [done|]. unfold file_writable. rewrite Hfd. clear w log Hs Hfd. cbn [negb].
  apply proves_bind, proves_ask. intros _ _ r _ [_ Hr]. cbn in Hr. cbn beta. subst r.
  rewrite (proj2 (Z.eqb_neq _ _)) by lia. apply proves_bind. intros w log Hs _.
  destruct (se_out _ _ _ _ _ _ _ _ Hs _ _ Ho) as [_ Hfd]. cbn in Hfd. rewrite Hfd.
  rewrite Nat2Z.id, firstn_all. cbn. exists (written (done ++ [data]) l).
  destruct (se_held _ _ _ _ _ _ _ _ Hs done Hh) as (-> & Hm & Hf).
  unfold next. rewrite Hh. cbn. split_and!; [| |done].
  - split; try done; cbn; [|by rewrite Hh]. rewrite lookup_insert_eq. by eexists.
  - destruct Hs as [Hj Hsrv Hmx Hma Hout _ Hl Hmi Hv]. split; try done; cbn.
    + rewrite lookup_insert_eq. by eexists.
    + intros d o Hd. split; [done|by apply Hout].
    + intros d' [= <-]. split_and!; [done..|]. unfold file_of at 1. cbn.
      rewrite lookup_insert_eq. cbn. rewrite Hf. unfold write_blocks. by rewrite foldl_app.
Qed.

Lemma proves_path (Q : string -> know -> Prop) l :
  Q path l -> proves (get_srv s_output_path_) Q l.
Proof.
  intros HQ. apply proves_read. intros w log Hs. eexists. split; [done|].
  by rewrite (se_srv _ _ _ _ _ _ _ _ Hs).
Qed.

End rules.

(** ** A worker *)

(** What does not change of a worker that runs. *)
Record job_ok (path : string) (j : job) : Prop := JobOk {
  jo_self : j_self j <> 0;
  jo_buf : buf_ (j_worker j) <> 0;
  jo_size : 0 < buf_size_ (j_worker j) < 2 ^ 63;
  jo_fd : 0 <= client_fd (j_worker j);
  jo_run : shutdown (j_worker j) = false;
  jo_lock : output_lock_ (j_worker j) = SRV_LOCK;
  jo_path : output_path_ (j_worker j) = path
}.

Section worker.
Context {F : Type} `{OutputFileLaws F}.
Context (path : string) (f0 : F) (tasks : list task).
Context (i : nat) (j : job) (Ht : tasks !! i = Some (Client j)) (Hj : job_ok path j).
Implicit Types (w : world F) (log : history) (l : know).

Abbreviation proves := (proves path f0 tasks i (Client j)).
Abbreviation sees := (sees path f0 tasks i (Client j)).
Abbreviation after := (after f0).
Abbreviation k := (j_worker j).
Abbreviation size := (Z.to_nat (buf_size_ (j_worker j))).

Definition with_data (b : bytes) (c : conn) l : know :=
  Know (kn_held l) (kn_log l) (kn_out l) (kn_made l) (kn_worker l) b c (kn_open l).

Lemma proves_worker_at (Q : aesd_worker -> know -> Prop) l :
  Q (kn_worker l) l -> proves (worker_at (j_self j)) Q l.
Proof.
  intros HQ. apply proves_read. intros w log Hs. exists (kn_worker l). split; [|done].
  destruct (se_job _ _ _ _ _ _ _ _ Hs j eq_refl) as (Hw & _).
  by rewrite (proj2 (Z.eqb_neq _ _) (jo_self _ _ Hj)), Hw.
Qed.

Lemma proves_load_shutdown (Q : bool -> know -> Prop) l :
  shutdown (kn_worker l) = false -> Q false l -> proves (load_shutdown (j_self j)) Q l.
Proof.
  intros Hrun HQ. unfold load_shutdown. apply proves_bind, proves_worker_at. rewrite Hrun.
  apply proves_bind, proves_ask. intros _ _ b _ [_ Hb]. cbn in Hb. by rewrite Hb.
Qed.

(** An access to the buffer or the connection. *)
Lemma proves_data {B} (f : world F -> res (B * world F)) (Q : B -> know -> Prop) l x b c o :
  (forall w log, sees l w log -> exists m cs ds,
     f w = Ok (x, set_mem m (set_conns cs (set_fds ds w)))
     /\ m = <[buf_ k := b]> (mem w) /\ cs = <[j_id j := c]> (conns w)
     /\ (forall fd, ~ own_fd (Client j) l fd -> ds !! fd = fds w !! fd)
     /\ (kn_open l = true -> ds !! client_fd k = Some (FdConn (j_id j)))
     /\ (forall fd o', o = Some (fd, o') ->
           is_Some (kn_held l) /\ ds !! fd = (fun '(pos, wr) => FdFile path pos wr) <$> o')) ->
  Q x (with_out o (kn_made l) (with_data b c l)) -> proves (act (S := P F) f) Q l.
Proof.
  intros Hf HQ. apply proves_update. intros w log Hs.
  destruct (Hf w log Hs) as (m & cs & ds & Hfw & -> & -> & Hds & Hop & Hout).
  eexists x, _, _. split_and!; [exact Hfw|exact HQ|done..| | | | | |]; try done.
  - eapply (sees_update path f0 tasks i (Client j) l); try done; [by left|].
    intros j' [= <-]. destruct (se_job _ _ _ _ _ _ _ _ Hs j eq_refl) as (Hw & Hb & Hc & _).
    unfold sees_job. cbn. by rewrite !lookup_insert_eq.
  - intros a Ha. cbn. rewrite lookup_insert_ne; [done|]. intros <-. by apply (Ha j).
  - intros a Ha. cbn. rewrite lookup_insert_ne; [done|]. intros <-. by apply (Ha j).
Qed.

Lemma world_same w (cs : gmap Z conn) (ds : gmap Z fdesc) m :
  cs = conns w -> ds = fds w -> set_mem m (set_conns cs (set_fds ds w)) = set_mem m w.
Proof. by intros -> ->. Qed.

Lemma sees_buf l w log : sees l w log -> mem w !! buf_ k = Some (kn_buf l).
Proof. intros Hs. by destruct (se_job _ _ _ _ _ _ _ _ Hs j eq_refl) as (_ & ? & _). Qed.

Lemma sees_conn l w log : sees l w log -> conns w !! j_id j = Some (kn_conn l).
Proof. intros Hs. by destruct (se_job _ _ _ _ _ _ _ _ Hs j eq_refl) as (_ & _ & ? & _). Qed.

Lemma sees_client l w log :
  sees l w log -> kn_open l = true -> fds w !! client_fd k = Some (FdConn (j_id j)).
Proof. intros Hs. by destruct (se_job _ _ _ _ _ _ _ _ Hs j eq_refl) as (_ & _ & _ & ?). Qed.

Lemma sees_conn_of l w log :
  sees l w log -> kn_open l = true -> conn_of (client_fd k) w = Some (j_id j, kn_conn l).
Proof.
  intros Hs Ho. unfold conn_of. rewrite (sees_client l w log Hs Ho). cbn.
  by rewrite (sees_conn l w log Hs).
Qed.

Definition with_buf (b : bytes) l : know := with_data b (kn_conn l) l.

Lemma with_out_same b c l : with_out (kn_out l) (kn_made l) (with_data b c l) = with_data b c l.
Proof. done. Qed.

(** Bytes stored at the start of the buffer. *)
Lemma store_buf l w log bs :
  sees l w log -> (length bs <= length (kn_buf l))%nat ->
  store (buf_ k) 0 bs (mem w) = Ok (<[buf_ k := bs ++ drop (length bs) (kn_buf l)]> (mem w)).
Proof.
  intros Hs Hl. erewrite store_within; [|by eapply sees_buf|apply Hj|done|lia]. done.
Qed.

Lemma store_whole l w log bs :
  sees l w log -> length bs = length (kn_buf l) ->
  store (buf_ k) 0 bs (mem w) = Ok (<[buf_ k := bs]> (mem w)).
Proof. intros Hs Hl. rewrite (store_buf l w log) by (done || lia). by rewrite drop_ge, app_nil_r by lia. Qed.

Lemma proves_memset (Q : unit -> know -> Prop) l :
  length (kn_buf l) = size -> Q tt (with_buf (padded size []) l) ->
  proves (memset (buf_ k) nul (buf_size_ k)) Q l.
Proof.
  intros Hl HQ. pose proof (jo_size _ _ Hj).
  eapply (proves_data _ _ l tt (padded size []) (kn_conn l) (kn_out l)); [|done].
  intros w log Hs. eexists _, (conns w), (fds w). split_and!; try done.
  - rewrite (store_whole l w log) by (done || by rewrite length_replicate).
    rewrite world_same by done. unfold padded. by rewrite Nat.sub_0_r.
  - symmetry. eapply insert_id, sees_conn, Hs.
  - by apply (sees_client l w log).
  - intros fd o Ho. by apply (se_out _ _ _ _ _ _ _ _ Hs).
Qed.

Lemma proves_fetch (Q : bytes -> know -> Prop) l n :
  0 <= n <= Z.of_nat (length (kn_buf l)) -> Q (take (Z.to_nat n) (kn_buf l)) l ->
  proves (fetch (buf_ k) n) Q l.
Proof.
  intros Hn HQ. apply proves_read. intros w log Hs. eexists. split; [|done].
  erewrite load_within; [|by eapply sees_buf|apply Hj|done|lia|lia]. cbn. rewrite drop_0. by destruct w.
Qed.

Lemma proves_memchr (Q : option Z -> know -> Prop) l :
  length (kn_buf l) = size ->
  Q ((fun '(n, _) => Z.of_nat n) <$> list_find (eq newline) (kn_buf l)) l ->
  proves (memchr (buf_ k) newline (buf_size_ k)) Q l.
Proof.
  intros Hl HQ. pose proof (jo_size _ _ Hj). apply proves_bind, proves_fetch; [lia|].
  apply proves_ret. by rewrite <- Hl, firstn_all.
Qed.

Lemma proves_recv (Q : Z -> know -> Prop) l bs rest :
  kn_open l = true -> kn_buf l = padded size [] ->
  recv_step size (inbox (kn_conn l)) = Some (Some bs, rest) ->
  Q (Z.of_nat (length bs)) (with_data (padded size bs) (Conn rest (sent (kn_conn l))) l) ->
  proves (recv (client_fd k) (buf_ k) (buf_size_ k)) Q l.
Proof.
  intros Ho Hb Hst HQ. pose proof (recv_step_length _ _ _ _ Hst).
  assert (length (kn_buf l) = size) as Hl.
  { rewrite Hb. unfold padded. cbn. rewrite length_replicate. lia. }
  eapply (proves_data _ _ l _ (padded size bs) (Conn rest (sent (kn_conn l))) (kn_out l)); [|done].
  intros w log Hs. eexists _, (<[j_id j := Conn rest (sent (kn_conn l))]> (conns w)), (fds w).
  split_and!; try done.
  - rewrite (sees_conn_of l w log Hs Ho), Hst. cbn.
    change (mem (set_conns _ w)) with (mem w). rewrite (store_buf l w log) by (done || lia).
    rewrite Hb. unfold padded. cbn. rewrite drop_replicate, Nat.sub_0_r. by destruct w.
  - by apply (sees_client l w log).
  - intros fd o Hout. by apply (se_out _ _ _ _ _ _ _ _ Hs).
Qed.

Lemma proves_write (Q : Z -> know -> Prop) l fd pos done n :
  kn_held l = Some done -> kn_out l = Some (fd, Some (pos, true)) ->
  0 <= n <= Z.of_nat (length (kn_buf l)) ->
  Q n (written (done ++ [take (Z.to_nat n) (kn_buf l)]) l) ->
  proves (write fd (buf_ k) n) Q l.
Proof.
  intros Hh Ho Hn HQ. apply proves_bind, proves_fetch; [done|]. eapply proves_write_bytes; [done..|].
  rewrite length_take. by replace (Z.of_nat _) with n by lia.
Qed.

(** A read of the output, which is what the holder of the mutex made of it. *)
Lemma proves_read_output (Q : Z -> know -> Prop) l fd pos done :
  kn_held l = Some done -> kn_out l = Some (fd, Some (pos, false)) ->
  length (kn_buf l) = size ->
  (let out := of_read (write_blocks (after (kn_log l)) done) pos (buf_size_ k) in
   Q (Z.of_nat (length out))
     (with_out (Some (fd, Some (pos + Z.of_nat (length out), false))) (kn_made l)
        (with_buf (out ++ drop (length out) (kn_buf l)) l))) ->
  proves (read fd (buf_ k) (buf_size_ k)) Q l.
Proof.
  intros Hh Ho Hl HQ. pose proof (jo_size _ _ Hj). cbv zeta in HQ. revert HQ.
  set (out := of_read _ pos (buf_size_ k)). intros HQ.
  pose proof (of_read_bound (write_blocks (after (kn_log l)) done) pos (buf_size_ k)) as Hbd. fold out in Hbd.
  apply proves_bind, proves_ask. intros _ _ b _ [_ Hb]. cbn in Hb. rewrite Hb.
  eapply (proves_data _ _ l _ (out ++ drop (length out) (kn_buf l)) (kn_conn l)); [|exact HQ].
  intros w log Hs. destruct (se_out _ _ _ _ _ _ _ _ Hs _ _ Ho) as [Hd Hfd].
  destruct (se_held _ _ _ _ _ _ _ _ Hs done Hh) as (El & _ & Hf). rewrite El in Hf.
  eexists _, (conns w), (<[fd := FdFile path (pos + Z.of_nat (length out)) false]> (fds w)).
  split_and!; try done.
  - unfold read_at. rewrite Hfd. cbn -[store]. rewrite Hf. fold out.
    rewrite (store_buf l w log) by (done || lia). by destruct w.
  - symmetry. eapply insert_id, sees_conn, Hs.
  - intros d Hnd. apply lookup_insert_ne. intros <-. by eapply Hnd, own_out.
  - intros Hop. rewrite lookup_insert_ne; [by apply (sees_client l w log)|].
    intros ->. rewrite (sees_client l w log Hs Hop) in Hfd. done.
  - intros d o [= <- <-]. split; [done|]. by rewrite lookup_insert_eq.
Qed.

Lemma proves_send (Q : Z -> know -> Prop) l n :
  kn_open l = true -> 0 <= n <= Z.of_nat (length (kn_buf l)) ->
  Q n (with_data (kn_buf l)
         (Conn (inbox (kn_conn l)) (sent (kn_conn l) ++ take (Z.to_nat n) (kn_buf l))) l) ->
  proves (send (client_fd k) (buf_ k) n) Q l.
Proof.
  intros Ho Hn HQ. apply proves_bind, proves_fetch; [done|]. apply proves_bind, proves_read.
  intros w log Hs. eexists. split; [done|]. rewrite (sees_conn_of l w log Hs Ho). clear w log Hs.
  apply proves_bind, proves_ask. intros _ _ r _ [_ Hr]. cbn in Hr. cbn beta. subst r.
  rewrite length_take. replace (Z.of_nat _) with n by lia.
  rewrite (proj2 (Z.eqb_neq n (-1))) by lia. apply proves_bind.
  eapply (proves_data _ _ l tt (kn_buf l)
    (Conn (inbox (kn_conn l)) (sent (kn_conn l) ++ take (Z.to_nat n) (kn_buf l))) (kn_out l)); [|exact HQ].
  intros w log Hs. eexists (<[buf_ k := kn_buf l]> (mem w)), _, (fds w). split_and!.
  - rewrite (insert_id (mem w)) by by eapply (sees_buf l). rewrite (sees_conn l w log Hs). rewrite take_take, Nat.min_id. f_equal.
  - done.
  - done.
  - done.
  - by apply (sees_client l w log).
  - intros fd o Hout. by apply (se_out _ _ _ _ _ _ _ _ Hs).
Qed.

Definition closed l : know :=
  Know (kn_held l) (kn_log l) (kn_out l) (kn_made l) (kn_worker l) (kn_buf l) (kn_conn l) false.

Lemma proves_syslog (Q : unit -> know -> Prop) l e : Q tt l -> proves (syslog e) Q l.
Proof.
  intros HQ. apply proves_update. intros w log Hs. eexists tt, _, l. split_and!; try done.
  eapply sees_update; try done; [by left|apply Hs|apply Hs].
Qed.

Lemma proves_close_client (Q : unit -> know -> Prop) l :
  kn_worker l = k -> kn_open l = true -> kn_out l = None -> Q tt (closed l) ->
  proves (close_client (j_self j)) Q l.
Proof.
  intros Hk Ho Hn HQ. apply proves_bind, proves_worker_at. rewrite Hk.
  rewrite (proj2 (Z.geb_le _ _) (jo_fd _ _ Hj)). apply proves_bind, proves_bind, proves_ask.
  intros _ _ r _ _. cbn beta. apply proves_bind, proves_update. intros w log Hs.
  eexists tt, _, (closed l). split_and!; try done.
  - by apply proves_ret, proves_syslog.
  - eapply (sees_update path f0 tasks i (Client j) l); try done; [by left| |].
    + intros j' [= <-]. destruct (se_job _ _ _ _ _ _ _ _ Hs j eq_refl) as (? & ? & ? & _).
      unfold sees_job. cbn. by split_and!.
    + cbn. by rewrite Hn.
  - intros d Hd. cbn. apply lookup_delete_ne. intros <-. apply Hd. left. by exists j.
Qed.

Definition with_worker (k' : aesd_worker) l : know :=
  Know (kn_held l) (kn_log l) (kn_out l) (kn_made l) k' (kn_buf l) (kn_conn l) (kn_open l).

Lemma proves_store_worker (Q : unit -> know -> Prop) l h :
  Q tt (with_worker (h (kn_worker l)) l) -> proves (store_worker (j_self j) h) Q l.
Proof.
  intros HQ. apply proves_update. intros w log Hs.
  destruct (se_job _ _ _ _ _ _ _ _ Hs j eq_refl) as (Hw & Hb & Hc & Ho).
  eexists tt, _, (with_worker (h (kn_worker l)) l). split_and!.
  1: { rewrite (proj2 (Z.eqb_neq _ _) (jo_self _ _ Hj)), Hw. done. }
  all: try done.
  - eapply (sees_update path f0 tasks i (Client j) l); try done; [by left| |].
    + intros j' [= <-]. unfold sees_job. cbn. by rewrite lookup_insert_eq.
    + intros fd o Hout. by apply (se_out _ _ _ _ _ _ _ _ Hs).
  - intros a Ha. cbn. rewrite lookup_insert_ne; [done|]. intros <-. by apply (Ha j).
Qed.

End worker.

#[global] Arguments proves : simpl never.

End OwnRules.
