(* ===== verification/WorkersEcho.v ===== *)
(** * Every client gets the file

    Any number of workers, with timestamps in between, over one process: when all
    have returned, the output file is what their messages make of it one after the
    other, each whole, and every client was sent the file as it was at one time
    after its own message; and they always return. *)

From S2P Require Import Prelude Interleave Linearize Process Worker WorkerSpec WorkerReceive.
From S2P Require Import Server WorkerOwn OwnRules.

Module WorkersEcho.
Import Interleave Linearize Memory OutputFile Process Worker WorkerSpec WorkerReceive.
Import Server WorkerOwn OwnRules.

(** ** A worker *)

Section worker.
Context {F : Type} `{OutputFileLaws F}.
Context (path : string) (f0 : F) (tasks : list task).
Context (i : nat) (j : job) (Ht : tasks !! i = Some (Client j)) (Hj : job_ok path j).
Implicit Types (w : world F) (log : history) (l : know).

Abbreviation proves := (proves path f0 tasks i (Client j)).
Abbreviation k := (j_worker j).
Abbreviation self := (j_self j).
Abbreviation size := (Z.to_nat (buf_size_ (j_worker j))).

(** What the worker counts on while it runs. *)
Record at_work l : Prop := AtWork {
  aw_worker : kn_worker l = k;
  aw_open : kn_open l = true;
  aw_buf : length (kn_buf l) = size
}.

Lemma at_work_run l : at_work l -> shutdown (kn_worker l) = false.
Proof. intros Hw. rewrite (aw_worker _ Hw). apply Hj. Qed.

Lemma at_work_data b c l : at_work l -> length b = size -> at_work (with_data b c l).
Proof. by intros [? ? ?]. Qed.

Lemma proves_receive_loop fuel l fd pos done blocks rest (Q : bool -> know -> Prop) :
  received size (inbox (kn_conn l)) blocks Complete rest -> (length blocks < fuel)%nat ->
  at_work l -> kn_held l = Some done -> kn_out l = Some (fd, Some (pos, true)) ->
  (forall b, length b = size ->
     Q false (with_data b (Conn rest (sent (kn_conn l))) (written (done ++ blocks) l))) ->
  proves (receive_loop fuel self fd) Q l.
Proof.
  intros Hrec. pose proof (jo_size _ _ Hj) as Hsz.
  remember (inbox (kn_conn l)) as ib eqn:Hib. remember Complete as e eqn:He.
  revert fuel l done Hib He. induction Hrec as [ib rest Hst|ib rest d b Hst Hcut|ib l1 rest d e blocks Hst Hcut Hrec IH];
    intros [|fuel] l done -> He Hfu Hw Hh Ho HQ; cbn [length] in Hfu; try lia; try discriminate He; subst;
    pose proof (recv_step_length _ _ _ _ Hst) as Hd; cbn [receive_loop].
  all: apply proves_bind; eapply proves_load_shutdown; [done|by apply at_work_run|].
  all: apply proves_bind; eapply proves_worker_at; [done|]; rewrite (aw_worker _ Hw).
  all: apply proves_bind; eapply proves_memset; [done|apply Hw|].
  all: apply proves_bind; eapply proves_recv; [done|apply Hw|done|exact Hst|].
  all: rewrite (proj2 (Z.eqb_neq _ _)) by lia.
  all: apply proves_bind; eapply proves_memchr; [done|by apply length_padded|].
  all: cbn [kn_buf with_data]; rewrite find_padded; unfold cut in Hcut.
  - destruct (list_find (eq newline) d) as [[n x]|] eqn:Hfind; [|done].
    injection Hcut as <-. cbn [fmap option_fmap option_map].
    apply list_find_Some in Hfind as (Hn & _). apply lookup_lt_Some in Hn. rewrite u64_small by lia.
    apply proves_bind. eapply proves_write; [done..| |].
    + cbn. rewrite length_padded by done. lia.
    + rewrite (proj2 (Z.eqb_neq _ _)) by lia. rewrite bool_decide_true by done. apply proves_ret.
      cbn [kn_buf with_data]. replace (Z.to_nat (Z.of_nat n + 1)) with (S n) by lia.
      unfold padded at 1. rewrite take_app_le by lia.
      by apply (HQ (padded size d)), length_padded.
  - apply fmap_None in Hcut as ->. cbn [fmap option_fmap option_map].
    apply proves_bind. eapply proves_write; [done..| |].
    + cbn. rewrite length_padded by done. lia.
    + rewrite (proj2 (Z.eqb_neq _ _)) by lia. rewrite bool_decide_false by by intros [].
      cbn [kn_buf with_data]. rewrite firstn_all2 by (rewrite length_padded; done).
      eapply IH; [done..|lia| |done|done|].
      * split; [apply Hw|apply Hw|by apply length_padded].
      * intros b Hb. rewrite <- app_assoc. by apply HQ.
Qed.

Lemma proves_receive_data fuel l rest (Q : bool -> know -> Prop) :
  received size (inbox (kn_conn l)) (j_blocks j) Complete rest -> (length (j_blocks j) < fuel)%nat ->
  at_work l -> kn_held l = None -> kn_out l = None -> i ∉ (kn_log l).*1 ->
  (forall log b, kn_log l `prefix_of` log -> length b = size ->
     Q true (Know None (log ++ commit i (j_blocks j)) None true k b (Conn rest (sent (kn_conn l))) true)) ->
  proves (receive_data fuel self) Q l.
Proof.
  intros Hrec Hfu Hw Hh Ho Hni HQ. unfold receive_data.
  apply proves_bind. eapply proves_worker_at; [done|]. rewrite (aw_worker _ Hw).
  rewrite (jo_lock _ _ Hj), (jo_path _ _ Hj).
  apply proves_bind. eapply proves_lock; [done|]. intros log Hpre Hmine _.
  apply proves_bind. eapply proves_open; [done|done|done|]. intros fd Hfd.
  rewrite (proj2 (Z.eqb_neq _ _)) by lia. apply proves_bind, proves_bind.
  eapply (proves_receive_loop _ _ fd 0 []); [exact Hrec|done| |done|done|].
  { by destruct Hw. }
  intros b Hb. apply proves_bind. eapply proves_close_output; [done|]. intros _. apply proves_ret.
  apply proves_bind. eapply proves_unlock; [done|done|done| |].
  - right. split; [|done]. cbn. naive_solver.
  - cbn [negb]. apply proves_bind. eapply proves_load_shutdown; [done| |].
    + cbn. rewrite (aw_worker _ Hw). apply Hj.
    + apply proves_ret. unfold unlocked. cbn. rewrite (aw_worker _ Hw), (aw_open _ Hw). by apply HQ.
Qed.

(** The rest of the file is sent, piece by piece. *)
Lemma proves_send_loop fuel l fd pos (Q : bool -> know -> Prop) :
  at_work l -> kn_held l = Some [] -> kn_out l = Some (fd, Some (pos, false)) -> 0 <= pos ->
  (length (drop (Z.to_nat pos) (of_data (after f0 (kn_log l)))) < fuel)%nat ->
  (forall b pos', length b = size ->
     Q true (with_out (Some (fd, Some (pos', false))) (kn_made l)
       (with_data b (Conn (inbox (kn_conn l))
          (sent (kn_conn l) ++ drop (Z.to_nat pos) (of_data (after f0 (kn_log l))))) l))) ->
  proves (send_loop fuel self fd) Q l.
Proof.
  pose proof (jo_size _ _ Hj) as Hsz. revert l pos.
  induction fuel as [|fuel IH]; intros l pos Hw Hh Ho Hpos Hfu HQ; [lia|]. cbn [send_loop].
  apply proves_bind. eapply proves_load_shutdown; [done|by apply at_work_run|].
  apply proves_bind. eapply proves_worker_at; [done|]. rewrite (aw_worker _ Hw).
  apply proves_bind. eapply proves_read_output; [done|exact Hh|exact Ho|apply Hw|].
  set (data := of_data (after f0 (kn_log l))) in *.
  change (write_blocks (after f0 (kn_log l)) []) with (after f0 (kn_log l)).
  pose proof (of_read_bound (after f0 (kn_log l)) pos (buf_size_ k) ltac:(lia)) as Hbd.
  pose proof (of_read_prefix (after f0 (kn_log l)) pos (buf_size_ k) Hpos ltac:(lia)) as [rest Hrest].
  pose proof (of_read_progress (after f0 (kn_log l)) pos (buf_size_ k)) as Hprog.
  fold data in Hrest, Hprog. set (out := of_read _ pos (buf_size_ k)) in *. cbv zeta.
  rewrite (proj2 (Z.eqb_neq _ _)) by lia.
  assert (length (out ++ drop (length out) (kn_buf l)) = size) as Hb.
  { rewrite length_app, length_drop, (aw_buf _ Hw). lia. }
  apply proves_bind. eapply proves_send; [done|apply Hw|cbn; rewrite Hb; lia|].
  rewrite (proj2 (Z.eqb_neq _ _)) by lia. cbn [kn_buf kn_conn with_out with_buf with_data].
  rewrite Nat2Z.id, take_app_length.
  destruct (Z.eqb_spec (Z.of_nat (length out)) 0) as [Hz|Hz].
  - apply proves_ret. destruct out as [|x out]; [|simpl in Hz; lia].
    assert (drop (Z.to_nat pos) data = []) as Hnil.
    { destruct (decide (pos < Z.of_nat (length data))); [|by apply drop_ge; lia].
      exfalso. by apply Hprog; [lia|lia|]. }
    rewrite Hnil in HQ. by apply HQ.
  - assert (drop (Z.to_nat (pos + Z.of_nat (length out))) data = rest) as Hdrop.
    { rewrite Z2Nat.inj_add, Nat2Z.id by lia. by rewrite <- drop_drop, Hrest, drop_app_length. }
    eapply IH; [|done|done|lia| |].
    + split; [apply Hw|apply Hw|done].
    + cbn [kn_log with_out with_buf with_data]. fold data. rewrite Hdrop. rewrite Hrest, length_app in Hfu. lia.
    + cbn [kn_log kn_conn inbox sent with_out with_buf with_data]. fold data. rewrite Hdrop. intros b pos' Hb'. rewrite <- app_assoc, <- Hrest. by apply HQ.
Qed.

Lemma proves_send_response fuel l (Q : bool -> know -> Prop) :
  at_work l -> kn_held l = None -> kn_out l = None -> kn_made l = true ->
  (forall log, kn_log l `prefix_of` log -> valid tasks log -> (length (of_data (after f0 log)) < fuel)%nat) ->
  (forall log b, kn_log l `prefix_of` log -> length b = size ->
     Q true (Know None log None true k b
       (Conn (inbox (kn_conn l)) (sent (kn_conn l) ++ of_data (after f0 log))) true)) ->
  proves (send_response fuel self) Q l.
Proof.
  intros Hw Hh Ho Hm Hfu HQ. unfold send_response.
  apply proves_bind. eapply proves_worker_at; [done|]. rewrite (aw_worker _ Hw).
  rewrite (jo_lock _ _ Hj), (jo_path _ _ Hj).
  apply proves_bind. eapply proves_lock; [done|]. intros log Hpre _ Hva.
  apply proves_bind. eapply proves_open; [done|done|done|]. intros fd Hfd.
  rewrite (proj2 (Z.eqb_neq _ _)) by lia. apply proves_bind, proves_bind.
  eapply (proves_send_loop _ _ fd 0); [by destruct Hw|done|done|done|rewrite drop_0; by apply Hfu|].
  intros b pos' Hb. rewrite drop_0. apply proves_bind, proves_bind.
  eapply proves_load_shutdown; [done| |].
  { cbn. rewrite (aw_worker _ Hw). apply Hj. }
  apply proves_ret. apply proves_bind. eapply proves_close_output; [done|]. intros _. apply proves_ret.
  apply proves_bind. eapply proves_unlock; [done..|by left|]. apply proves_ret.
  unfold unlocked. cbn. rewrite (aw_worker _ Hw), (aw_open _ Hw), app_nil_r. by apply HQ.
Qed.

Lemma received_some n ib blocks rest : received n ib blocks Complete rest -> blocks <> [].
Proof. by inversion 1. Qed.

(** The whole thread: its message is one commit, and what it sends is the file as
    a history with that commit has it. *)
Lemma proves_worker_main fuel l :
  received size (inbox (kn_conn l)) (j_blocks j) Complete (j_left j) ->
  (length (j_blocks j) < fuel)%nat ->
  (forall log, valid tasks log -> (length (of_data (after f0 log)) < fuel)%nat) ->
  at_work l -> kn_held l = None -> kn_out l = None -> i ∉ (kn_log l).*1 ->
  proves (aesd_worker_main fuel self)
    (fun _ l' => kn_held l' = None /\ kn_worker l' = set_exited k
       /\ (i, j_blocks j) ∈ kn_log l'
       /\ kn_conn l' = Conn (j_left j) (sent (kn_conn l) ++ of_data (after f0 (kn_log l')))) l.
Proof.
  intros Hrec Hfu Hfd Hw Hh Ho Hni. unfold aesd_worker_main. apply proves_bind.
  eapply proves_receive_data; [done..|]. intros log b _ Hb. apply proves_bind, proves_bind.
  eapply proves_send_response; [by split|done|done|done|by eauto|].
  intros log' b' Hpre Hb'. apply proves_ret.
  apply proves_bind. eapply proves_close_client; [done..|].
  eapply proves_store_worker; [done|]. cbn. split_and!; [done..| |done].
  destruct Hpre as [post ->]. cbn [kn_log]. rewrite !elem_of_app. left; right.
  pose proof (received_some _ _ _ _ Hrec). destruct (j_blocks j); [done|]. apply list_elem_of_here.
Qed.

End worker.

(** ** The timer's handler *)

Lemma proves_alarm_handler {F} `{OutputFileLaws F} path (f0 : F) tasks i l :
  tasks !! i = Some Timestamp -> kn_held l = None -> kn_out l = None -> i ∉ (kn_log l).*1 ->
  proves path f0 tasks i Timestamp (alarm_handler SIGALRM)
    (fun _ l' => kn_held l' = None /\ i ∈ (kn_log l').*1) l.
Proof.
  intros Ht Hh Ho Hni. unfold alarm_handler. apply proves_bind, proves_ask.
  intros w _ ts _ [Hts _]. cbn in Hts. clear w. apply proves_bind, proves_path.
  apply proves_bind, proves_lock; [done|]. intros log Hpre Hmine _.
  apply proves_bind. eapply proves_open; [done..|]. intros fd Hfd.
  rewrite (proj2 (Z.eqb_neq _ _)) by lia. apply proves_bind, proves_bind.
  eapply proves_write_bytes; [done..|]. apply proves_bind. eapply proves_close_output; [done|].
  intros _. apply proves_ret. eapply proves_unlock; [done..| |].
  - right. split; [cbn; naive_solver|]. by exists ts.
  - cbn. split; [done|]. rewrite fmap_app, elem_of_app. right. apply list_elem_of_here.
Qed.

(** ** All of them *)

Section theorems.
Context {F : Type} `{OutputFileLaws F}.
Implicit Types (w : world F) (log : history).

(** A process with the workers and their clients, when nothing has been received
    yet; the fuel is enough for every message and for the file at any time. *)
Record starts (fuel : nat) (path : string) (f0 : F) (tasks : list task) w : Prop := Starts {
  st_client i j : tasks !! i = Some (Client j) ->
    ready w (j_self j) (j_worker j) (j_id j) (j_conn j)
    /\ output_lock_ (j_worker j) = SRV_LOCK /\ output_path_ (j_worker j) = path
    /\ received (Z.to_nat (buf_size_ (j_worker j))) (inbox (j_conn j)) (j_blocks j) Complete (j_left j)
    /\ (length (j_blocks j) < fuel)%nat;
  st_apart : apart tasks;
  st_srv : s_output_path_ (srv w) = path;
  st_lock : mutexes w !! SRV_LOCK = Some false;
  st_file : file_of path w = f0;
  st_fuel log : valid tasks log -> (length (of_data (after f0 log)) < fuel)%nat
}.

(** How each thread ends. *)
Definition ends (f0 : F) (i : nat) (t : task) (l : know) : Prop :=
  kn_held l = None
  /\ match t with
     | Client j =>
         kn_worker l = set_exited (j_worker j) /\ (i, j_blocks j) ∈ kn_log l
         /\ kn_conn l = Conn (j_left j) (sent (j_conn j) ++ of_data (after f0 (kn_log l)))
     | Timestamp => i ∈ (kn_log l).*1
     end.

(** What each knows at the start. *)
Definition know_start w (t : task) : know :=
  match t with
  | Client j =>
      Know None [] None false (j_worker j) (default [] (mem w !! buf_ (j_worker j))) (j_conn j) true
  | Timestamp => Know None [] None false uninit_worker [] (Conn [] []) false
  end.

Lemma starts_valid tasks : valid tasks [].
Proof. split; [constructor|]. by intros i bs ?%not_elem_of_nil. Qed.

Lemma starts_sees fuel path f0 tasks w i t :
  starts fuel path f0 tasks w -> tasks !! i = Some t ->
  sees path f0 tasks i t (know_start w t) w [].
Proof.
  intros Hst Ht. split.
  - intros j ->. destruct (st_client _ _ _ _ _ Hst i j Ht) as (Hr & _).
    destruct (rd_mem _ _ _ _ _ Hr) as (bs & Hbs & _), Hr. unfold sees_job. cbn. by rewrite Hbs.
  - apply Hst.
  - rewrite (st_lock _ _ _ _ _ Hst). by eexists.
  - by destruct t.
  - by destruct t.
  - by destruct t.
  - by destruct t.
  - by intros ?%not_elem_of_nil.
  - apply starts_valid.
Qed.

Lemma starts_proves fuel path f0 tasks w i t :
  starts fuel path f0 tasks w -> tasks !! i = Some t ->
  proves path f0 tasks i t (thread_of fuel t) (fun _ => ends f0 i t) (know_start w t).
Proof.
  intros Hst Ht. destruct t as [j|].
  - destruct (st_client _ _ _ _ _ Hst i j Ht) as (Hr & Hl & Hp & Hrec & Hlen).
    destruct (rd_mem _ _ _ _ _ Hr) as (bs & Hbs & Hbl).
    eapply proves_mono; [|eapply proves_worker_main; try done].
    + intros [] l (? & ? & ? & ?). by split.
    + destruct Hr. by split.
    + apply Hst.
    + split; [done..|]. cbn. rewrite Hbs. cbn. lia.
    + apply not_elem_of_nil.
  - eapply proves_mono; [|eapply proves_alarm_handler; try done].
    + intros [] l [? ?]. by split.
    + apply not_elem_of_nil.
Qed.

Lemma ends_free f0 i t l : ends f0 i t l -> kn_held l = None.
Proof. by intros [? _]. Qed.

Lemma starts_inv fuel path f0 tasks w :
  starts fuel path f0 tasks w ->
  pool_inv path f0 tasks (ends f0) (thread_of fuel <$> tasks, w) [] (know_start w <$> tasks) None.
Proof.
  intros Hst. split; cbn [fst snd].
  - by rewrite !length_fmap.
  - intros i t l p Ht Hl Hp. apply list_lookup_fmap_Some in Hl as (t1 & -> & Ht1).
    apply list_lookup_fmap_Some in Hp as (t2 & -> & Ht2). simplify_eq.
    split; [by eapply starts_sees|by eapply starts_proves].
  - intros i l Hl. rewrite list_lookup_fmap in Hl. destruct (tasks !! i) as [t|]; [|done].
    cbn in Hl. simplify_eq. destruct t; (split; [by intros []|done]).
  - done.
  - apply Hst.
  - intros _. apply Hst.
  - apply starts_valid.
Qed.

Lemma starts_execution fuel path f0 tasks w tr c :
  starts fuel path f0 tasks w ->
  execution (S := P F) posix_ok (thread_of fuel <$> tasks, w) tr c ->
  exists log ls o, pool_inv path f0 tasks (ends f0) c log ls o.
Proof.
  intros Hst. apply (execution_invariant (S := P F) posix_ok
    (fun _ c => exists log ls o, pool_inv path f0 tasks (ends f0) c log ls o)).
  - eexists _, _, _. by eapply starts_inv.
  - intros _ c1 i c2 (log & ls & o & Hi) Hs. eapply pool_inv_step; [by eapply st_apart|done..].
Qed.

(** What is left of a pool when every thread has returned. *)
Lemma pool_inv_end path f0 tasks ts w log ls o :
  pool_inv path f0 tasks (ends f0) (ts, w) log ls o -> Forall returned ts ->
  o = None /\ forall i t, tasks !! i = Some t -> exists l,
    sees path f0 tasks i t l w log /\ ends f0 i t l.
Proof.
  intros Hi Hr. destruct (pi_length _ _ _ _ _ _ _ _ Hi) as [Hll Htl]. cbn [fst] in Htl.
  assert (forall i t, tasks !! i = Some t -> exists l, ls !! i = Some l
            /\ sees path f0 tasks i t l w log /\ ends f0 i t l) as Hend.
  { intros i t Ht. pose proof (lookup_lt_Some _ _ _ Ht).
    destruct (lookup_lt_is_Some_2 ls i) as [l Hl]; [lia|].
    destruct (lookup_lt_is_Some_2 ts i) as [p Hp]; [lia|].
    destruct (pi_thread _ _ _ _ _ _ _ _ Hi i t l p Ht Hl Hp) as [Hs Hpr].
    pose proof (Forall_lookup_1 _ _ _ _ Hr Hp) as Hret. destruct p as [[]| | |]; try done. by exists l. }
  split; [|intros i t Ht; destruct (Hend i t Ht) as (l & _ & ?); by eauto].
  destruct o as [i|]; [|done]. destruct (pi_owner _ _ _ _ _ _ _ _ Hi i eq_refl) as [l Hl].
  pose proof (lookup_lt_Some _ _ _ Hl). destruct (lookup_lt_is_Some_2 tasks i) as [t Ht]; [lia|].
  destruct (Hend i t Ht) as (l' & Hl' & _ & Hh%ends_free). simplify_eq.
  destruct (proj2 (pi_holder _ _ _ _ _ _ _ _ Hi i l Hl) eq_refl). congruence.
Qed.

(** A thread that has ended has committed. *)
Lemma ends_committed path f0 tasks i t l w log :
  sees path f0 tasks i t l w log -> ends f0 i t l -> i ∈ log.*1.
Proof.
  intros Hs [_ He]. destruct (se_log _ _ _ _ _ _ _ _ Hs) as [post ->].
  rewrite fmap_app, elem_of_app. left. destruct t as [j|]; [|done]. destruct He as (_ & Hin & _).
  by apply (list_elem_of_fmap_2 fst) in Hin.
Qed.

(** What the threads leave when all have returned. *)
Record echoed (path : string) (f0 : F) (tasks : list task) w log : Prop := Echoed {
  ec_file : file_of path w = after f0 log;
  ec_free : mutexes w !! SRV_LOCK = Some false;
  ec_once : log.*1 ≡ₚ seq 0 (length tasks);
  ec_wrote i bs : (i, bs) ∈ log -> exists t, tasks !! i = Some t /\ wrote t bs;
  ec_client i j : tasks !! i = Some (Client j) ->
    workers w !! j_self j = Some (set_exited (j_worker j))
    /\ exists seen, seen `prefix_of` log /\ (i, j_blocks j) ∈ seen
         /\ conns w !! j_id j
            = Some (Conn (j_left j) (sent (j_conn j) ++ of_data (after f0 seen)))
}.

Lemma pool_inv_echoed path f0 tasks ts w log ls o :
  pool_inv path f0 tasks (ends f0) (ts, w) log ls o -> Forall returned ts ->
  echoed path f0 tasks w log.
Proof.
  intros Hi Hr. destruct (pool_inv_end _ _ _ _ _ _ _ _ Hi Hr) as [-> Hend].
  destruct (pi_valid _ _ _ _ _ _ _ _ Hi) as [Hnd Hwr]. split.
  - by apply (pi_settled _ _ _ _ _ _ _ _ Hi).
  - apply (pi_lock _ _ _ _ _ _ _ _ Hi).
  - apply NoDup_Permutation; [done|apply NoDup_seq|]. intros i. rewrite elem_of_seq. split.
    + intros ([i' bs] & -> & Hin)%list_elem_of_fmap. destruct (Hwr i' bs Hin) as (t & Ht & _).
      apply lookup_lt_Some in Ht. cbn. lia.
    + intros [_ Hlt]. destruct (lookup_lt_is_Some_2 tasks i Hlt) as [t Ht].
      destruct (Hend i t Ht) as (l & Hs & He). by eapply ends_committed.
  - done.
  - intros i j Hj. destruct (Hend i _ Hj) as (l & Hs & _ & Hw & Hin & Hc).
    destruct (se_job _ _ _ _ _ _ _ _ Hs j eq_refl) as (Hw' & _ & Hc' & _).
    rewrite Hw', Hc', Hw, Hc. split; [done|]. exists (kn_log l). split_and!; [|done|done].
    apply (se_log _ _ _ _ _ _ _ _ Hs).
Qed.

(** A step leaves its thread with less to do. *)
Definition shorter (p' p : prog (P F) unit) : Prop :=
  match p with
  | Ask q k => exists a, p' = k a
  | Act f k => exists b, p' = k b
  | _ => False
  end.

Lemma shorter_acc p : Acc shorter p.
Proof.
  induction p as [a|q k IH|B f k IH|e]; constructor; intros p'; cbn; [done| | |done];
    intros [x ->]; apply IH.
Qed.

Lemma pool_step_acc (C : contract (P F)) c : Acc (fun c' c => exists i, pool_step C i c c') c.
Proof.
  destruct c as [ts w].
  assert (Acc (one_of shorter) ts) as Hacc by (apply one_of_acc, Forall_true; intros; apply shorter_acc).
  revert w. induction Hacc as [ts _ IH]. intros w. constructor. intros c' [i Hst].
  inversion Hst as [ts1 w1 p p' w' Hp Hs]; subst. apply IH. exists i, p, p'. split_and!; [done| |done].
  destruct Hs; cbn; by eexists.
Qed.

(** ** Theorems *)

(** C6: any number of workers, each with a client that sends its message, and any
    number of timestamps, in every interleaving, when no call fails: once all threads
    have returned, the output file is what the messages (the blocks the workers make of
    what arrives, padding included) make of it one after the other, each whole and once; and every client has been sent the whole file as it
    was at one time after its own message. *)
Theorem workers_echo fuel path f0 tasks w0 tr ts w :
  starts fuel path f0 tasks w0 ->
  execution (S := P F) posix_ok (thread_of fuel <$> tasks, w0) tr (ts, w) -> Forall returned ts ->
  exists log, echoed path f0 tasks w log.
Proof.
  intros Hst Hex Hr. destruct (starts_execution _ _ _ _ _ _ _ Hst Hex) as (log & ls & o & Hi).
  exists log. by eapply pool_inv_echoed.
Qed.

(** C7: workers and timestamps, the handler in threads of its own, always come to that
    end: from no state that an interleaving leads to
    can the threads go on for ever, and until all have returned one of them moves. *)
Theorem workers_complete fuel path f0 tasks w0 tr c :
  starts fuel path f0 tasks w0 ->
  execution (S := P F) posix_ok (thread_of fuel <$> tasks, w0) tr c ->
  Acc (fun c2 c1 => exists i, pool_step (S := P F) posix_ok i c1 c2) c
  /\ ((forall i c', ~ pool_step (S := P F) posix_ok i c c') -> Forall returned c.1).
Proof.
  intros Hst Hex. split; [apply pool_step_acc|]. intros Hstop.
  destruct (starts_execution _ _ _ _ _ _ _ Hst Hex) as (log & ls & o & Hi).
  destruct (pool_inv_progress _ _ _ _ (ends_free f0) _ _ _ _ Hi) as [|(i & c' & Hs)]; [done|].
  by destruct (Hstop i c').
Qed.

End theorems.
End WorkersEcho.
