(* ===== verification/WorkersLines.v ===== *)
(** * Workers over the device

    Clients that send lines to a server over the character device: when all workers
    have returned, the device holds the last ten lines, and every client was sent the
    last ten of a history with its own line. The witnesses of [WorkersEcho] are here
    as well. *)

From S2P Require Import Prelude CircularBuffer DriverSpec Interleave Process Worker WorkerSpec.
From S2P Require Import WorkerReceive WorkerMain Server WorkerOwn OwnRules WorkersEcho.

Module WorkersLines.
Import CircularBuffer DriverSpec Interleave Memory OutputFile Process Worker WorkerSpec.
Import WorkerReceive WorkerMain Server WorkerOwn OwnRules WorkersEcho.

Definition is_line (bs : bytes) : Prop := exists msg, bs = msg ++ [newline] /\ newline ∉ msg.

(** What was committed, as lines. *)
Definition lines (log : history) : list bytes := (fun e => concat e.2) <$> log.

(** A client of the server that sends one line. *)
Definition sends_line (t : task) : Prop :=
  exists j, t = Client j /\ Forall (.≠ []) (j_blocks j) /\ is_line (concat (j_blocks j)).

(** The device after a history of lines. *)
Lemma after_lines (a : dspec) (log : history) :
  pending a = [] -> (length (committed a) <= capacity)%nat ->
  Forall (fun e => Forall (.≠ []) e.2 /\ is_line (concat e.2)) log ->
  after a log = DSpec (lastn capacity (committed a ++ lines log)) [].
Proof.
  intros Hp Hc. induction log as [|[i bs] log IH] using rev_ind; intros Hl.
  { unfold lines. cbn. rewrite app_nil_r, lastn_all by done. destruct a; cbn in *. by subst. }
  apply Forall_app in Hl as [Hl Hb]. apply Forall_singleton in Hb as [Hne (msg & Hb & Hm)]. cbn in Hne, Hb.
  assert (bs <> []) as Hbs by (intros ->; by destruct msg).
  replace [(i, bs)] with (commit i bs) by by destruct bs.
  rewrite after_commit, (IH Hl), (device_write_blocks _ _ msg Hne Hb Hm). cbn [committed pending app].
  unfold lines. rewrite fmap_app, lastn_app_r. destruct bs as [|b bs]; [done|].
  cbn [commit fmap list_fmap]. cbn [snd]. by rewrite Hb, <- app_assoc.
Qed.

Lemma prefix_Forall {A} (P : A -> Prop) l k : l `prefix_of` k -> Forall P k -> Forall P l.
Proof. intros [x ->] Hf. by apply Forall_app in Hf as [Hf _]. Qed.

(** ** Theorem *)

(** C5: clients that send one line each to a server over the device, in every
    interleaving, when no call fails: once all workers have returned, the device
    holds the last ten of the lines (as the workers make them of the arrivals), in the order of the commits; every client was
    sent the last ten lines as they were at one time after its own; and its own is
    among them when there are at most ten clients. *)
Theorem device_workers_echo fuel path (a : dspec) tasks (w0 : world dspec) tr ts w :
  starts fuel path a tasks w0 -> pending a = [] -> (length (committed a) <= capacity)%nat ->
  Forall sends_line tasks ->
  execution (S := P dspec) posix_ok (thread_of fuel <$> tasks, w0) tr (ts, w) -> Forall returned ts ->
  exists log,
    log.*1 ≡ₚ seq 0 (length tasks)
    /\ file_of path w = DSpec (lastn capacity (committed a ++ lines log)) []
    /\ forall i j, tasks !! i = Some (Client j) -> exists seen,
         seen `prefix_of` log /\ (i, j_blocks j) ∈ seen
         /\ conns w !! j_id j = Some (Conn (j_left j)
              (sent (j_conn j) ++ concat (lastn capacity (committed a ++ lines seen))))
         /\ ((length tasks <= capacity)%nat ->
             concat (j_blocks j) ∈ lastn capacity (committed a ++ lines seen)).
Proof.
  intros Hst Hp Hc Hlines Hex Hr.
  destruct (starts_execution _ _ _ _ _ _ _ Hst Hex) as (log & ls & o & Hi).
  destruct (pool_inv_echoed _ _ _ _ _ _ _ _ Hi Hr) as [Hf _ Hperm Hw Hcl].
  assert (Forall (fun e => Forall (.≠ []) e.2 /\ is_line (concat e.2)) log) as Hall.
  { apply Forall_forall. intros [i bs] Hin. destruct (Hw i bs Hin) as (t & Ht & Hwr).
    destruct (Forall_lookup_1 _ _ _ _ Hlines Ht) as (j & -> & Hne & Hl). cbn in Hwr. by subst. }
  exists log. split_and!; [done|by rewrite Hf, after_lines|].
  intros i j Hj. destruct (Hcl i j Hj) as (_ & seen & Hpre & Hin & Hconn).
  exists seen. rewrite Hconn, after_lines by (done || by eapply prefix_Forall).
  split_and!; [done..|]. intros Hten.
  assert (length (lines seen) <= capacity)%nat as Hlen.
  { unfold lines. rewrite length_fmap. apply prefix_length in Hpre.
    apply Permutation_length in Hperm. rewrite length_fmap, length_seq in Hperm. lia. }
  assert (concat (j_blocks j) ∈ lines seen) as Hown by by apply (list_elem_of_fmap_2 (fun e => concat e.2) _ _ Hin).
  unfold lastn. rewrite drop_app_le by (rewrite length_app; lia).
  apply elem_of_app. by right.
Qed.

(** ** Witnesses *)

(** What the threads can write, when each writes at most [m] bytes. *)
Lemma valid_bytes tasks log m :
  valid tasks log ->
  (forall i t bs, tasks !! i = Some t -> wrote t bs -> (length (concat bs) <= m)%nat) ->
  (length (concat (lines log)) <= length tasks * m)%nat.
Proof.
  intros [Hn Hw] Hm.
  assert (length log <= length tasks)%nat as Hl.
  { rewrite <- (length_fmap fst log), <- (length_seq (length tasks) 0).
    apply submseteq_length, NoDup_submseteq; [done|]. intros i ([i' bs] & -> & Hin)%list_elem_of_fmap.
    destruct (Hw i' bs Hin) as (t & Ht%lookup_lt_Some & _). apply elem_of_seq. cbn. lia. }
  assert (Forall (fun e => (length (concat e.2) <= m)%nat) log) as Hall.
  { apply Forall_forall. intros [i bs] Hin. destruct (Hw i bs Hin) as (t & Ht & Hwr). by eapply Hm. }
  transitivity (length log * m)%nat; [|by apply Nat.mul_le_mono_r].
  clear Hn Hw Hl. induction Hall as [|[i bs] log Hb Hall IH]; [done|]. unfold lines in *. cbn in *.
  rewrite length_app. lia.
Qed.

Lemma concat_lines (log : history) : concat (concat log.*2) = concat (lines log).
Proof.
  induction log as [|[i bs] log IH]; [done|]. unfold lines in *. cbn. by rewrite concat_app, IH.
Qed.

(** Two workers with their clients: the first sends ["aaaab\n"] in two deliveries,
    the second ["b\n"]. *)
Definition second_worker : aesd_worker :=
  Worker 78 7 false false 32 4 false SRV_LOCK (output_path_ sample_worker).

Definition first_job : job :=
  Job 8 sample_worker 5 (Conn (deliveries full_deliveries) [])
    [[byte_a; byte_a; byte_a; byte_a]; [byte_b; newline]] [].
Definition second_job : job :=
  Job 9 second_worker 6 (Conn [RxData [byte_b; newline]] []) [[byte_b; newline]] [].

Definition two_clients {F} (f : F) : world F :=
  World {[ 16 := zeros 4; 32 := zeros 4 ]} {[ 8 := sample_worker; 9 := second_worker ]} ∅
    {[ SRV_LOCK := false ]} ∅ ∅ {[ output_path_ sample_worker := f ]}
    {[ 3 := FdConn 5; 7 := FdConn 6 ]}
    {[ 5 := j_conn first_job; 6 := j_conn second_job ]} []
    (Server true 4 false (output_path_ sample_worker) "9000" 4 0 (SListHead 0)).

Lemma two_clients_starts {F} `{OutputFile F} (f : F) (stamps : list task) fuel :
  Forall (eq Timestamp) stamps -> (2 < fuel)%nat ->
  (forall log, valid (Client first_job :: Client second_job :: stamps) log ->
     (length (of_data (after f log)) < fuel)%nat) ->
  starts fuel (output_path_ sample_worker) f (Client first_job :: Client second_job :: stamps)
    (two_clients f).
Proof.
  intros Hs Hfu Hlog.
  assert (forall i j, (Client first_job :: Client second_job :: stamps) !! i = Some (Client j) ->
            (i = 0%nat /\ j = first_job) \/ (i = 1%nat /\ j = second_job)) as Hj.
  { intros [|[|i]] j; cbn; [intros [= <-]; by left|intros [= <-]; by right|].
    intros Hi. by pose proof (Forall_lookup_1 _ _ _ _ Hs Hi). }
  split; try done.
  - intros i j [[-> ->]|[-> ->]]%Hj.
    + split; [by split; try done; exists (zeros 4)|]. split_and!; [done|done|apply sample_received|cbn; lia].
    + split; [by split; try done; exists (zeros 4)|]. split_and!; [done|done| |cbn; lia].
      by apply (received_last 4 [RxData [byte_b; newline]] [] [byte_b; newline]).
  - intros i i' j j' Hne [[-> ->]|[-> ->]]%Hj [[-> ->]|[-> ->]]%Hj; by try done.
Qed.

(** The threads take turns. *)
Definition rounds {F} `{OutputFile F} (fuel n : nat) (tasks : list task) (f : F) :=
  pool_schedule (S := P F) (fun w q => fst (calm w tt q))
    (mjoin (replicate n (seq 0 (length tasks)))) (thread_of fuel <$> tasks, two_clients f).

Lemma rounds_exec {F} `{OutputFile F} fuel n tasks (f : F) tr c :
  rounds fuel n tasks f = (tr, c) ->
  execution (S := P F) posix_ok (thread_of fuel <$> tasks, two_clients f) tr c.
Proof.
  intros Hr. eapply (pool_schedule_exec (S := P F) posix_ok _ (fun w q => calm_ok w tt q) _ _ []);
    [apply exec_start|exact Hr].
Qed.

Definition has_returned {F} (p : prog (P F) unit) : bool :=
  match p with Ret _ => true | _ => false end.

Lemma all_returned {F} (ts : list (prog (P F) unit)) : forallb has_returned ts = true -> Forall returned ts.
Proof.
  intros Hr. apply Forall_forall. intros p Hp. rewrite forallb_forall in Hr.
  apply list_elem_of_In, Hr in Hp. by destruct p.
Qed.

Definition with_stamp : list task := [Client first_job; Client second_job; Timestamp].

Lemma with_stamp_starts : starts 400 (output_path_ sample_worker) (PlainFile []) with_stamp (two_clients (PlainFile [])).
Proof.
  apply (two_clients_starts (PlainFile []) [Timestamp]); [by constructor|lia|].
  intros log Hv. pose proof (valid_bytes _ _ 127 Hv) as Hb. unfold after.
  rewrite plain_write_blocks, concat_lines. cbn [app OutputFile.contents].
  enough (length (concat (lines log)) <= 3 * 127)%nat by lia. apply Hb.
  intros [|[|[|i]]] t bs; cbn; [intros [= <-] ->; cbn; lia..| |done].
  intros [= <-] (ts & -> & Hl). cbn. rewrite app_nil_r. lia.
Qed.

(** The three threads take turns until all have returned. *)
Lemma workers_echo_witness :
  exists tr ts w log,
    execution (S := P plain_file) posix_ok (thread_of 400 <$> with_stamp, two_clients (PlainFile [])) tr (ts, w)
    /\ Forall returned ts
    /\ echoed (output_path_ sample_worker) (PlainFile []) with_stamp w log.
Proof.
  destruct (rounds 400 200 with_stamp (PlainFile [])) as [tr [ts w]] eqn:Hrun.
  assert (forallb has_returned (rounds 400 200 with_stamp (PlainFile [])).2.1 = true) as Hret
    by (vm_compute; reflexivity).
  rewrite Hrun in Hret. apply all_returned in Hret. apply rounds_exec in Hrun.
  destruct (workers_echo 400 (output_path_ sample_worker) (PlainFile []) with_stamp (two_clients (PlainFile []))
    tr ts w with_stamp_starts Hrun Hret) as [log Hlog].
  exists tr, ts, w, log. split; [exact Hrun|]. split; [exact Hret|exact Hlog].
Defined.

Lemma workers_complete_witness :
  exists tr c,
    execution (S := P plain_file) posix_ok (thread_of 400 <$> with_stamp, two_clients (PlainFile [])) tr c
    /\ Acc (fun c2 c1 => exists i, pool_step (S := P plain_file) posix_ok i c1 c2) c.
Proof.
  destruct (rounds 400 5 with_stamp (PlainFile [])) as [tr c] eqn:Hrun. apply rounds_exec in Hrun.
  exists tr, c. split; [exact Hrun|].
  apply (workers_complete 400 (output_path_ sample_worker) (PlainFile []) with_stamp (two_clients (PlainFile []))
    tr c with_stamp_starts Hrun).
Defined.

Definition two_lines : list task := [Client first_job; Client second_job].

Lemma two_lines_lines : Forall sends_line two_lines.
Proof.
  constructor; [|constructor; [|constructor]]; eexists; (split; [done|]); (split; [by repeat constructor|]).
  - exists [byte_a; byte_a; byte_a; byte_a; byte_b]. split; [done|by apply newline_not_in].
  - exists [byte_b]. split; [done|by apply newline_not_in].
Qed.

Lemma two_lines_starts : starts 20 (output_path_ sample_worker) (DSpec [] []) two_lines (two_clients (DSpec [] [])).
Proof.
  apply (two_clients_starts (DSpec [] []) []); [constructor|lia|]. intros log Hv.
  assert (length (concat (lines log)) <= 2 * 6)%nat as Hb.
  { apply (valid_bytes _ _ 6 Hv). intros [|[|i]] t bs; cbn; [intros [= <-] ->; cbn; lia..|done]. }
  rewrite after_lines; [|done|cbn; lia|].
  - cbn [of_data device_output committed app]. unfold lastn.
    rewrite <- (take_drop (length (lines log) - capacity) (lines log)), concat_app, length_app in Hb. lia.
  - apply Forall_forall. intros [i bs] Hin. destruct (va_wrote _ _ Hv i bs Hin) as (t & Ht & Hw).
    destruct (Forall_lookup_1 _ _ _ _ two_lines_lines Ht) as (j & -> & Hl). cbn in Hw. by subst.
Qed.

Lemma device_workers_echo_witness :
  exists tr ts w log,
    execution (S := P dspec) posix_ok (thread_of 20 <$> two_lines, two_clients (DSpec [] [])) tr (ts, w)
    /\ Forall returned ts /\ log.*1 ≡ₚ seq 0 2
    /\ file_of (output_path_ sample_worker) w = DSpec (lastn capacity (lines log)) [].
Proof.
  destruct (rounds 20 150 two_lines (DSpec [] [])) as [tr [ts w]] eqn:Hrun.
  assert (forallb has_returned (rounds 20 150 two_lines (DSpec [] [])).2.1 = true) as Hret
    by (vm_compute; reflexivity).
  rewrite Hrun in Hret. apply all_returned in Hret. apply rounds_exec in Hrun.
  destruct (device_workers_echo 20 (output_path_ sample_worker) (DSpec [] []) two_lines
    (two_clients (DSpec [] [])) tr ts w) as (log & Hperm & Hf & _).
  - apply two_lines_starts.
  - reflexivity.
  - cbn. lia.
  - apply two_lines_lines.
  - exact Hrun.
  - exact Hret.
  - exists tr, ts, w, log. split; [exact Hrun|]. split; [exact Hret|]. split; [exact Hperm|exact Hf].
Defined.

End WorkersLines.
