(* ===== verification/ServerPool.v ===== *)
(** * The server and its workers at the same time: model and logic

    The main thread runs the server; a thread it creates runs [aesd_worker_main]
    from then on, and [pthread_join] waits until that has returned. Flags change
    only by the stores of the threads. While the timer is armed its signal may
    interrupt the main thread, which then runs [alarm_handler]; whether it may
    interrupt a worker as well is the parameter [Delivery]. The two predicates
    [wsafe] and [msafe] are what is proved of a worker or the handler and of the
    main thread, each on its own; [inv_thread_step] puts them together. *)

From S2P Require Import Prelude Interleave Process Worker Server.

Module ServerPool.
Import Interleave Memory OutputFile Process Worker Server.

(** ** The model *)

(** Which threads the system may deliver the timer's signal to: it picks any that
    does not block the signal, and the program blocks it in none. *)
Class Delivery : Type := { any_thread : bool }.

Section model.
Context {F : Type} `{OutputFile F} `{Delivery}.
Implicit Types w : world F.

(** Allocating a list entry and creating a thread succeed (what follows when they
    do not is [accept_client_no_thread]), the timer's identifier is not null (what
    follows when it is, is [null_timer_outlives]), no client closes its connection
    before it has its response (what follows when one does is [worker_killed]), and
    nobody else sets a worker's flags. *)
Definition posix_threads : contract (P F) := fun w q a =>
  posix w q a /\
  match q return panswer q -> Prop with
  | QMallocEntry => fun r => r.1 <> 0
  | QThreadCreate => fun r => r.1 = 0
  | QTimerCreate => fun r => r.1 = 0 -> r.2 <> 0
  | QSend _ _ => fun r => r <> None
  | QShutdown _ | QExited _ => fun b => b = false
  | _ => fun _ => True
  end a.

Record config (A : Type) : Type := Config {
  main_thread : prog (P F) A;
  handler : option (prog (P F) unit);          (* what interrupts the main thread *)
  worker_threads : gmap Z (prog (P F) unit);   (* by thread id *)
  process : world F
}.
#[global] Arguments Config {A}.
#[global] Arguments main_thread {A}.
#[global] Arguments handler {A}.
#[global] Arguments worker_threads {A}.
#[global] Arguments process {A}.

(** The threads an access has created start. *)
Definition start_threads (fuel : nat) w w' (ts : gmap Z (prog (P F) unit))
    : gmap Z (prog (P F) unit) :=
  (aesd_worker_main fuel <$> (threads w' ∖ threads w)) ∪ ts.

Inductive thread : Type :=
| MainThread                                 (* and what interrupts it *)
| WorkerThread (id : Z).

#[export] Instance thread_eq_dec : EqDecision thread.
Proof. solve_decision. Defined.

(** A step of a thread. *)
Inductive thread_step (fuel : nat) {A} : thread -> config A -> config A -> Prop :=
| main_asks q k x ts w :
    posix_threads w q x ->
    (forall id, q = QThreadJoin id -> ts !! id = Some (Ret tt)) ->
    thread_step fuel MainThread (Config (Ask (S := P F) q k) None ts w) (Config (k x) None ts w)
| main_acts B (f : world F -> res (B * world F)) k b ts w w' :
    f w = Ok (b, w') ->
    thread_step fuel MainThread (Config (Act (S := P F) f k) None ts w)
      (Config (k b) None (start_threads fuel w w' ts) w')
| handler_moves p p' m ts w w' :
    step (S := P F) posix_threads p w p' w' ->
    thread_step fuel MainThread (Config m (Some p) ts w) (Config m (Some p') ts w')
| handler_returns m ts w :
    thread_step fuel MainThread (Config m (Some (Ret tt)) ts w) (Config m None ts w)
| worker_moves id p p' m h ts w w' :
    ts !! id = Some p -> step (S := P F) posix_threads p w p' w' ->
    thread_step fuel (WorkerThread id) (Config m h ts w) (Config m h (<[id := p']> ts) w').

(** The delivery of the timer's signal. The handler that interrupts a worker runs in
    the worker's thread, before what is left of it; it may be interrupted in its
    turn. *)
Inductive signal_step {A} : config A -> config A -> Prop :=
| timer_fires id m ts w :
    timers w !! id = Some true ->
    signal_step (Config m None ts w) (Config m (Some (alarm_handler SIGALRM)) ts w)
| worker_interrupted t id p m h ts w :
    any_thread = true -> timers w !! t = Some true -> ts !! id = Some p -> p <> Ret tt ->
    signal_step (Config m h ts w) (Config m h (<[id := alarm_handler SIGALRM;; p]> ts) w).

Inductive server_step (fuel : nat) {A} (c c' : config A) : Prop :=
| thread_moves t : thread_step fuel t c c' -> server_step fuel c c'
| signal_comes : signal_step c c' -> server_step fuel c c'.

(** The thread that has the mutex after a step of [t], when [o] had it before: the
    one that locked it last. *)
Definition lock_owner (t : thread) (w w' : world F) (o : option thread) : option thread :=
  match mutexes w' !! SRV_LOCK, mutexes w !! SRV_LOCK with
  | Some true, Some true => o
  | Some true, _ => Some t
  | _, _ => None
  end.

(** A run of the server from [c], and the thread that has the mutex at its end. *)
Inductive server_run (fuel : nat) {A} (c : config A) : config A -> option thread -> Prop :=
| run_start : server_run fuel c c None
| run_moves t c1 c2 o :
    server_run fuel c c1 o -> thread_step fuel t c1 c2 ->
    server_run fuel c c2 (lock_owner t (process c1) (process c2) o)
| run_signal c1 c2 o :
    server_run fuel c c1 o -> signal_step c1 c2 -> server_run fuel c c2 o.

Lemma server_run_of_steps fuel {A} (c0 c1 c2 : config A) o :
  server_run fuel c0 c1 o -> rtc (server_step fuel) c1 c2 -> exists o', server_run fuel c0 c2 o'.
Proof.
  intros Hr Hst. revert o Hr. induction Hst as [c|c c' c2 [t Hst|Hst] _ IH]; intros o Hr; [by exists o| |].
  - by eapply IH, run_moves.
  - by eapply IH, run_signal.
Qed.

(** ** What the threads know of each other *)

(** A worker without its flags. *)
Definition unflag (k : aesd_worker) : aesd_worker :=
  Worker (client_addr k) (client_fd k) false false (buf_ k) (buf_size_ k) (char_dev_ k)
    (output_lock_ k) (output_path_ k).

(** What only the main thread changes. *)
Record view : Type := View {
  v_workers : gmap Z aesd_worker;
  v_entries : gmap Z aesd_worker_entry;
  v_threads : gmap Z Z;
  v_srv : aesd_server;
  v_mem : gmap Z nat;       (* the size of each block *)
  v_locks : gset Z;
  v_timers : gmap Z bool
}.

Definition view_of w : view :=
  View (unflag <$> workers w) (wentries w) (threads w) (srv w) (length <$> mem w)
    (dom (mutexes w)) (timers w).

(** What a running worker [a] relies on: its structure [k], its buffer and the
    mutex are there. *)
Record owns (a : Z) (k : aesd_worker) (v : view) : Prop := Owns {
  ow_nonnull : a <> 0 /\ buf_ k <> 0;
  ow_worker : v_workers v !! a = Some k;
  ow_mem : v_mem v !! buf_ k = Some (Z.to_nat (buf_size_ k));
  ow_size : 0 <= buf_size_ k < 2 ^ 63;
  ow_lock : output_lock_ k = SRV_LOCK /\ SRV_LOCK ∈ v_locks v
}.

(** What the handler relies on, *)
Definition lock_there (v : view) : Prop := SRV_LOCK ∈ v_locks v.

(** and what the main thread sees to, so that it may run. *)
Definition timer_ok (v : view) : Prop := forall id, v_timers v !! id = Some true -> lock_there v.

(** An access takes the mutex, gives it back, or does neither. *)
Inductive lock_step w w' : bool -> bool -> Prop :=
| ls_same h : mutexes w' !! SRV_LOCK = mutexes w !! SRV_LOCK -> lock_step w w' h h
| ls_lock : mutexes w !! SRV_LOCK = Some false -> mutexes w' !! SRV_LOCK = Some true ->
    lock_step w w' false true
| ls_unlock : mutexes w' !! SRV_LOCK = Some false -> lock_step w w' true false.

(** A thread that relies on [R] meets no fault but the end of its fuel; it leaves the
    view as it is; and it waits only for its client, or for the mutex, when it does
    not hold it ([h]) or the signal has interrupted it. *)
Fixpoint wsafe (R : view -> Prop) {A} (h : bool) (p : prog (P F) A)
    (Q : bool -> A -> Prop) : Prop :=
  match p with
  | Ret x => Q h x
  | Ask q c => forall w x, posix_threads w q x -> wsafe R h (c x) Q
  | Act f c => forall w, R (view_of w) -> (h = true -> mutexes w !! SRV_LOCK = Some true) ->
      match f w with
      | Ok (b, w') => view_of w' = view_of w /\ exists h', lock_step w w' h h' /\ wsafe R h' (c b) Q
      | Err e => e = Silent
                 \/ e = Deadlock /\ (h = true -> any_thread = true) /\ mutexes w !! SRV_LOCK = Some true
      end
  | Crash e => e = OutOfFuel
  end.

(** The program never waits for a client. *)
Fixpoint no_client {A} (p : prog (P F) A) : Prop :=
  match p with
  | Ret _ | Crash _ => True
  | Ask q k => forall x, no_client (k x)
  | Act f k => (forall w, f w <> Err Silent) /\ forall b, no_client (k b)
  end.

(** The main thread leaves to each worker that is not known to have returned
    ([done]) what it relies on, and gives it to the ones it starts. *)
Record allowed (done : gset Z) (v v' : view) : Prop := Allowed {
  al_kept id a : v_threads v !! id = Some a -> id ∉ done ->
    v_threads v' !! id = Some a /\ forall k, owns a k v -> owns a k v';
  al_new id a : v_threads v' !! id = Some a -> v_threads v !! id = None ->
    exists k, owns a k v';
  al_timer : timer_ok v -> timer_ok v'
}.

Definition joined (q : pquery) (done : gset Z) : gset Z :=
  match q with QThreadJoin id => {[ id ]} ∪ done | _ => done end.

(** The main thread meets no fault but the end of its fuel, whatever the workers do
    within the view. The mutex is free once there are no workers. *)
Fixpoint msafe {A} (done : gset Z) (p : prog (P F) A) (Q : A -> gset Z -> view -> Prop)
    (v : view) : Prop :=
  match p with
  | Ret x => Q x done v
  | Ask q c =>
      (forall id, q = QThreadJoin id -> id ∈ dom (v_threads v))
      /\ forall w x, view_of w = v -> posix_threads w q x -> msafe (joined q done) (c x) Q v
  | Act f c => forall w, view_of w = v ->
      (v_threads v = ∅ -> mutexes w !! SRV_LOCK <> Some true) ->
      match f w with
      | Ok (b, w') =>
          allowed done v (view_of w')
          /\ (mutexes w' = mutexes w
              \/ v_threads v = ∅ /\ mutexes w' !! SRV_LOCK <> Some true)
          /\ msafe (done ∩ dom (threads w')) (c b) Q (view_of w')
      | Err _ => False
      end
  | Crash e => e = OutOfFuel
  end.

(** ** From the threads to the server *)

Lemma wsafe_bind {A B} R h (p : prog (P F) A) (c : A -> prog (P F) B) Q :
  wsafe R h p (fun h x => wsafe R h (c x) Q) -> wsafe R h (p ≫= c) Q.
Proof.
  revert h; induction p as [x|q g IH|T f g IH|e]; intros h; cbn; [done|by eauto| |done].
  intros Hp w Hw Hl. specialize (Hp w Hw Hl). destruct (f w) as [[b w']|]; [|done].
  destruct Hp as (Hv & h' & Hls & Hp). split; [done|]. exists h'. by eauto.
Qed.

Lemma wsafe_mono {A} R h (p : prog (P F) A) (Q Q' : bool -> A -> Prop) :
  (forall h x, Q h x -> Q' h x) -> wsafe R h p Q -> wsafe R h p Q'.
Proof.
  intros HQ. revert h; induction p as [x|q g IH|T f g IH|e]; intros h; cbn; [by auto|by eauto| |done].
  intros Hp w Hw Hl. specialize (Hp w Hw Hl). destruct (f w) as [[b w']|]; [|done].
  destruct Hp as (Hv & h' & Hls & Hp). split; [done|]. exists h'. by eauto.
Qed.

Lemma msafe_bind {A B} done (p : prog (P F) A) (c : A -> prog (P F) B) Q v :
  msafe done p (fun x done v => msafe done (c x) Q v) v -> msafe done (p ≫= c) Q v.
Proof.
  revert done v; induction p as [x|q g IH|T f g IH|e]; intros done v; cbn; [done| | |done].
  - intros [Hj Hp]. split; [done|]. intros w x Hw Hx. by eauto.
  - intros Hp w Hw Hl. specialize (Hp w Hw Hl). destruct (f w) as [[b w']|]; [|done].
    destruct Hp as (Ha & Hm & Hp). by eauto.
Qed.

Lemma msafe_mono {A} done (p : prog (P F) A) (Q Q' : A -> gset Z -> view -> Prop) v :
  (forall x done v, Q x done v -> Q' x done v) -> msafe done p Q v -> msafe done p Q' v.
Proof.
  intros HQ. revert done v; induction p as [x|q g IH|T f g IH|e]; intros done v; cbn; [by auto| | |done].
  - intros [Hj Hp]. split; [done|]. intros w x Hw Hx. by eauto.
  - intros Hp w Hw Hl. specialize (Hp w Hw Hl). destruct (f w) as [[b w']|]; [|done].
    destruct Hp as (Ha & Hm & Hp). by eauto.
Qed.

Section soundness.
Context (fuel : nat).
Context (Hworker : forall a k v, owns a k v ->
  wsafe (owns a k) false (aesd_worker_main fuel a) (fun h _ => h = false)).
Context (Hhandler : forall (R : view -> Prop) h, (forall v, R v -> lock_there v) ->
  (h = true -> any_thread = true) -> wsafe R h (alarm_handler SIGALRM) (fun h' _ => h' = h)).
Context (Hquiet : no_client (alarm_handler (F := F) SIGALRM)).
Context {A : Type} (Qm : A -> gset Z -> view -> Prop).

(** The thread holds the mutex; the main thread does in its handler only. *)
Definition holder (o : option thread) (t : thread) : bool := bool_decide (o = Some t).

(** The owner agrees with the mutex. *)
Definition owner_ok (o : option thread) (w : world F) : Prop :=
  forall b, mutexes w !! SRV_LOCK = Some b -> b = bool_decide (is_Some o).

(** Who holds the mutex after an access. *)
Lemma holder_step o t (w w' : world F) h' :
  owner_ok o w -> lock_there (view_of w) -> lock_step w w' (holder o t) h' ->
  holder (lock_owner t w w' o) t = h'
  /\ (forall j, j <> t -> holder (lock_owner t w w' o) j = holder o j)
  /\ owner_ok (lock_owner t w w' o) w'.
Proof.
  intros Hlk Hth Hls. unfold owner_ok, lock_owner, holder in *.
  unfold lock_there in Hth. cbn in Hth. apply elem_of_dom in Hth as [b Hb]. pose proof (Hlk b Hb) as Ho.
  remember (bool_decide (o = Some t)) as h eqn:Hh. destruct Hls as [h He|He He'|He'].
  - rewrite He, Hb. destruct b; [by rewrite <- Hh; split_and!; [..|intros ? [= <-]]|].
    assert (o = None) as -> by by destruct o. split_and!; [done..|by intros ? [= <-]].
  - rewrite He', He. assert (o = None) as -> by (rewrite He in Hb; injection Hb as <-; by destruct o).
    split_and!; [by apply bool_decide_true| |by intros ? [= <-]].
    intros j Hj. rewrite !bool_decide_false; congruence.
  - rewrite He'. symmetry in Hh. apply bool_decide_eq_true in Hh as ->.
    split_and!; [done| |by intros ? [= <-]]. intros j Hj. rewrite !bool_decide_false; congruence.
Qed.

(** The threads in [done] are known to have returned; [o] holds the mutex. *)
Record server_inv (c : config A) (done : gset Z) (o : option thread) : Prop := ServerInv {
  si_main : msafe done (main_thread c) Qm (view_of (process c));
  si_handler :
    match handler c with
    | Some p => lock_there (view_of (process c)) /\ no_client p
                /\ wsafe lock_there (holder o MainThread) p (fun h _ => h = false)
    | None => o <> Some MainThread
    end;
  si_workers id a : threads (process c) !! id = Some a -> id ∉ done ->
    exists k p, worker_threads c !! id = Some p /\ owns a k (view_of (process c))
      /\ wsafe (owns a k) (holder o (WorkerThread id)) p (fun h _ => h = false);
  si_others id p : worker_threads c !! id = Some p ->
    threads (process c) !! id = None \/ id ∈ done -> p = Ret tt;
  si_done id : id ∈ done ->
    is_Some (threads (process c) !! id) /\ worker_threads c !! id = Some (Ret tt);
  si_lock : owner_ok o (process c);
  si_holder id : o = Some (WorkerThread id) -> is_Some (threads (process c) !! id) /\ id ∉ done;
  si_timer : timer_ok (view_of (process c))
}.

(** The main thread finds the mutex free when there are no workers. *)
Lemma server_inv_free c done o :
  server_inv c done o -> handler c = None -> threads (process c) = ∅ ->
  mutexes (process c) !! SRV_LOCK <> Some true.
Proof.
  intros Hi Hh Ht Hl. apply (si_lock _ _ _ Hi) in Hl. destruct o as [[|id]|]; [| |done].
  - pose proof (si_handler _ _ _ Hi) as Hn. by rewrite Hh in Hn.
  - destruct (si_holder _ _ _ Hi id eq_refl) as [[a Ha] _]. by rewrite Ht in Ha.
Qed.

(** A thread that holds it relies on it. *)
Lemma server_inv_unheld c done o :
  server_inv c done o -> mutexes (process c) !! SRV_LOCK <> Some true -> o = None.
Proof.
  intros Hi Hl.
  assert (lock_there (view_of (process c)) -> o = None) as Hth.
  { unfold lock_there. cbn. intros [b Hb]%elem_of_dom. pose proof (si_lock _ _ _ Hi b Hb) as Ho.
    destruct o; [|done]. by subst b. }
  destruct o as [[|id]|]; [| |done]; apply Hth.
  - pose proof (si_handler _ _ _ Hi) as Hh. destruct (handler c); [apply Hh|done].
  - destruct (si_holder _ _ _ Hi id eq_refl) as [[a Ha] Hd].
    destruct (si_workers _ _ _ Hi id a Ha Hd) as (k & p & _ & Ho & _). apply Ho.
Qed.

(** A step that leaves the process as it is. *)
Lemma lock_owner_same c done o t :
  server_inv c done o -> lock_owner t (process c) (process c) o = o.
Proof.
  intros Hi. pose proof (server_inv_unheld _ _ _ Hi) as Hn. unfold lock_owner.
  destruct (mutexes (process c) !! SRV_LOCK) as [[]|]; [done| |]; symmetry; by apply Hn.
Qed.

(** A thread that has returned does not hold the mutex. *)
Lemma server_inv_returned c done o id :
  server_inv c done o -> worker_threads c !! id = Some (Ret tt) -> o <> Some (WorkerThread id).
Proof.
  intros Hi Hp ->. destruct (si_holder _ _ _ Hi id eq_refl) as [[a Ha] Hd].
  destruct (si_workers _ _ _ Hi id a Ha Hd) as (k & p & Hp' & _ & Hs).
  rewrite Hp in Hp'. injection Hp' as <-. cbn in Hs. unfold holder in Hs.
  by rewrite bool_decide_true in Hs.
Qed.

Lemma owns_lock a k v : owns a k v -> lock_there v.
Proof. intros Ho. apply Ho. Qed.

(** The one that holds the mutex finds it held. *)
Lemma holder_held o t w :
  owner_ok o w -> lock_there (view_of w) -> holder o t = true -> mutexes w !! SRV_LOCK = Some true.
Proof.
  intros Hlk Hl Hh. apply bool_decide_eq_true in Hh as ->. unfold lock_there in Hl. cbn in Hl.
  apply elem_of_dom in Hl as [b Hb]. by rewrite Hb, (Hlk b Hb).
Qed.

(** A step of a thread that relies on [R] only. *)
Lemma wsafe_step (R : view -> Prop) t (p p' : prog (P F) unit) w w' o Q :
  (forall v, R v -> lock_there v) -> owner_ok o w -> R (view_of w) ->
  wsafe R (holder o t) p Q -> step (S := P F) posix_threads p w p' w' ->
  view_of w' = view_of w
  /\ wsafe R (holder (lock_owner t w w' o) t) p' Q
  /\ (forall j, j <> t -> holder (lock_owner t w w' o) j = holder o j)
  /\ owner_ok (lock_owner t w w' o) w'.
Proof.
  intros HRl Hlk HR Hs Hst.
  assert (view_of w' = view_of w /\ exists h', lock_step w w' (holder o t) h' /\ wsafe R h' p' Q)
    as (Hv & h' & Hls & Hs').
  { destruct Hst as [q g x w Hx|B f g w b w' Hf]; cbn in Hs.
    - split; [done|]. exists (holder o t). split; [by apply ls_same|by eapply Hs].
    - specialize (Hs w HR (holder_held o t w Hlk (HRl _ HR))). by rewrite Hf in Hs. }
  destruct (holder_step o t w w' h' Hlk (HRl _ HR) Hls) as (-> & ? & ?). done.
Qed.

(** The mutex of another thread is not taken from it. *)
Lemma holder_other o o' t j :
  (forall j, j <> t -> holder o' j = holder o j) -> j <> t -> o' = Some j -> o = Some j.
Proof.
  intros Hoth Hne ->. specialize (Hoth j Hne). unfold holder in Hoth.
  rewrite (bool_decide_true (Some j = Some j)) in Hoth by done. symmetry in Hoth.
  by apply bool_decide_eq_true in Hoth.
Qed.

Lemma lookup_start w w' ts id :
  start_threads fuel w w' ts !! id =
    match threads w' !! id, threads w !! id with
    | Some a, None => Some (aesd_worker_main fuel a)
    | _, _ => ts !! id
    end.
Proof.
  unfold start_threads. rewrite lookup_union, lookup_fmap, lookup_difference.
  by destruct (threads w' !! id) as [a|], (threads w !! id), (ts !! id).
Qed.

Lemma inv_main_asks q k x ts w done o :
  server_inv (Config (Ask (S := P F) q k) None ts w) done o -> posix_threads w q x ->
  (forall id, q = QThreadJoin id -> ts !! id = Some (Ret tt)) ->
  server_inv (Config (k x) None ts w) (joined q done) o.
Proof.
  intros Hi Hx Hj. pose proof (si_main _ _ _ Hi) as [Hdom Hm]. cbn in Hdom, Hm.
  assert (forall id, id ∈ joined q done -> id ∈ done \/ ts !! id = Some (Ret tt) /\ id ∈ dom (threads w))
    as Hcase.
  { intros id Hin. destruct q; cbn in Hin; try by left.
    apply elem_of_union in Hin as [->%elem_of_singleton|]; [right; by auto|by left]. }
  assert (forall id, id ∉ joined q done -> id ∉ done) as Hsub.
  { intros id Hn Hin. apply Hn. destruct q; cbn; set_solver. }
  split; cbn.
  - by eauto.
  - apply (si_handler _ _ _ Hi).
  - intros id a Ha Hn. apply (si_workers _ _ _ Hi id a Ha). by apply Hsub.
  - intros id p Hp [Hn|Hin]; [by eapply (si_others _ _ _ Hi); eauto|].
    destruct (Hcase id Hin) as [|[Hr _]]; [by eapply (si_others _ _ _ Hi); eauto|congruence].
  - intros id Hin. destruct (Hcase id Hin) as [Hd|[Hr Hd]]; [by apply (si_done _ _ _ Hi)|].
    split; [by apply elem_of_dom|done].
  - apply (si_lock _ _ _ Hi).
  - intros id ->. destruct (si_holder _ _ _ Hi id eq_refl) as [Ha Hd]. split; [done|].
    intros Hin. destruct (Hcase id Hin) as [|[Hr _]]; [done|].
    by apply (server_inv_returned _ _ _ id Hi Hr).
  - apply (si_timer _ _ _ Hi).
Qed.

Lemma inv_main_owner B (f : world F -> res (B * world F)) k b ts w w' done o :
  server_inv (Config (Act (S := P F) f k) None ts w) done o -> f w = Ok (b, w') ->
  lock_owner MainThread w w' o = o /\ owner_ok o w'.
Proof.
  intros Hi Hf. pose proof (si_main _ _ _ Hi) as Hm. cbn in Hm.
  specialize (Hm w eq_refl (server_inv_free _ _ _ Hi eq_refl)). rewrite Hf in Hm.
  destruct Hm as (_ & [He|[Hn Hl]] & _).
  - pose proof (lock_owner_same _ _ _ MainThread Hi) as Hs. unfold lock_owner, owner_ok in *.
    rewrite He. split; [exact Hs|apply (si_lock _ _ _ Hi)].
  - assert (o = None) as ->.
    { apply (server_inv_unheld _ _ _ Hi), (server_inv_free _ _ _ Hi); done. }
    unfold lock_owner, owner_ok. by destruct (mutexes w' !! SRV_LOCK) as [[]|]; [| |]; split; try (by intros ? [= <-]).
Qed.

Lemma inv_main_acts B (f : world F -> res (B * world F)) k b ts w w' done o :
  server_inv (Config (Act (S := P F) f k) None ts w) done o -> f w = Ok (b, w') ->
  server_inv (Config (k b) None (start_threads fuel w w' ts) w') (done ∩ dom (threads w')) o.
Proof.
  intros Hi Hf. destruct (inv_main_owner _ _ _ _ _ _ _ _ _ Hi Hf) as [_ Hown]. pose proof (si_main _ _ _ Hi) as Hm. cbn in Hm.
  specialize (Hm w eq_refl (server_inv_free _ _ _ Hi eq_refl)). rewrite Hf in Hm.
  destruct Hm as (Hal & _ & Hm).
  assert (forall id a, threads w !! id = Some a -> id ∉ done ->
            threads w' !! id = Some a /\ id ∉ done ∩ dom (threads w')) as Hkeep.
  { intros id a Ha Hn. split; [by apply (al_kept _ _ _ Hal)|set_solver]. }
  split; cbn.
  - done.
  - apply (si_handler _ _ _ Hi).
  - intros id a Ha Hn. rewrite lookup_start, Ha. destruct (threads w !! id) as [a0|] eqn:Ha0.
    + assert (id ∉ done) as Hnd.
      { intros Hin. apply Hn, elem_of_intersection. split; [done|by apply elem_of_dom]. }
      destruct (al_kept _ _ _ Hal id a0 Ha0 Hnd) as [Ha' Hk]. cbn in Ha'.
      rewrite Ha in Ha'. injection Ha' as <-.
      destruct (si_workers _ _ _ Hi id a Ha0 Hnd) as (κ & p & Hp & Ho & Hs). by eauto 10.
    + destruct (al_new _ _ _ Hal id a Ha Ha0) as [κ Ho]. exists κ, (aesd_worker_main fuel a).
      split_and!; [done|done|]. replace (holder o (WorkerThread id)) with false; [by eapply Hworker|].
      symmetry. apply bool_decide_eq_false. intros ->.
      destruct (si_holder _ _ _ Hi id eq_refl) as [[? Hs] _]. cbn in Hs. congruence.
  - intros id p. rewrite lookup_start. intros Hp Hcase.
    destruct (threads w !! id) as [a0|] eqn:Ha0.
    + destruct (decide (id ∈ done)) as [Hd|Hd].
      * eapply (si_others _ _ _ Hi id p); [by destruct (threads w' !! id)|by right].
      * destruct (Hkeep id a0 Ha0 Hd) as [Ha' Hn]. rewrite Ha' in Hcase. by destruct Hcase.
    + assert (id ∉ done) as Hd.
      { intros Hd%(si_done _ _ _ Hi). destruct Hd as [[? Hd] _]. cbn in Hd. congruence. }
      destruct (threads w' !! id) as [a|]; [destruct Hcase as [|Hin]; [done|set_solver]|].
      eapply (si_others _ _ _ Hi id p); [done|by left].
  - intros id [Hd Hin%elem_of_dom]%elem_of_intersection.
    destruct (si_done _ _ _ Hi id Hd) as [[a Ha] Hr]. cbn in Ha, Hr. split; [done|].
    rewrite lookup_start, Ha. by destruct (threads w' !! id).
  - done.
  - intros id ->. destruct (si_holder _ _ _ Hi id eq_refl) as [[a Ha] Hd].
    destruct (Hkeep id a Ha Hd). by eauto.
  - apply (al_timer _ _ _ Hal), (si_timer _ _ _ Hi).
Qed.

(** The signal interrupts the main thread, *)
Lemma inv_timer_fires id m ts w done o :
  server_inv (Config m None ts w) done o -> timers w !! id = Some true ->
  server_inv (Config m (Some (alarm_handler SIGALRM)) ts w) done o.
Proof.
  intros [Hm Hh Hw Hot Hd Hl Hho Ht] Hid. split; try done. cbn in *. split_and!; [by apply (Ht id)|done|].
  unfold holder. rewrite bool_decide_false by done. by apply Hhandler.
Qed.

(** and its handler returns. *)
Lemma inv_handler_returns m ts w done o :
  server_inv (Config m (Some (Ret tt)) ts w) done o -> server_inv (Config m None ts w) done o.
Proof.
  intros [Hm (_ & _ & Hh) Hw Hot Hd Hl Hho Ht]. split; try done. cbn in *.
  by apply bool_decide_eq_false in Hh.
Qed.

(** A program that waits for no client still does not after a step. *)
Lemma no_client_step (p p' : prog (P F) unit) w w' :
  no_client p -> step (S := P F) posix_threads p w p' w' -> no_client p'.
Proof. intros Hp Hst. destruct Hst; cbn in Hp; naive_solver. Qed.

Lemma inv_handler_moves p p' m ts w w' done o :
  server_inv (Config m (Some p) ts w) done o -> step (S := P F) posix_threads p w p' w' ->
  server_inv (Config m (Some p') ts w') done (lock_owner MainThread w w' o)
  /\ (forall j, j <> MainThread -> holder (lock_owner MainThread w w' o) j = holder o j).
Proof.
  intros Hi Hst. pose proof (si_handler _ _ _ Hi) as (Hlock & Hq & Hs). cbn in Hlock, Hq, Hs.
  destruct (wsafe_step lock_there MainThread p p' w w' o _ (fun v Hv => Hv) (si_lock _ _ _ Hi) Hlock Hs Hst)
    as (Hv & Hs' & Hoth & Hlk).
  assert (threads w' = threads w) as Hth by (by injection Hv). split; [|done].
  split; cbn; rewrite ?Hth, ?Hv; try apply Hi; try done.
  - split_and!; [done|by eapply no_client_step|done].
  - intros id a Ha Hd. rewrite Hoth by done. by apply (si_workers _ _ _ Hi).
  - intros id Hid. apply (si_holder _ _ _ Hi). by eapply holder_other.
Qed.

Lemma inv_worker_moves id p p' m h ts w w' done o :
  server_inv (Config m h ts w) done o -> ts !! id = Some p ->
  step (S := P F) posix_threads p w p' w' ->
  server_inv (Config m h (<[id := p']> ts) w') done (lock_owner (WorkerThread id) w w' o)
  /\ (forall j, j <> WorkerThread id ->
        holder (lock_owner (WorkerThread id) w w' o) j = holder o j).
Proof.
  intros Hi Hp Hst.
  assert (exists a, threads w !! id = Some a /\ id ∉ done) as (a & Ha & Hd).
  { destruct (threads w !! id) as [a|] eqn:Ha.
    - destruct (decide (id ∈ done)) as [Hin|]; [|by eauto].
      pose proof (si_others _ _ _ Hi id p Hp (or_intror Hin)) as ->. inversion Hst.
    - pose proof (si_others _ _ _ Hi id p Hp (or_introl Ha)) as ->. inversion Hst. }
  destruct (si_workers _ _ _ Hi id a Ha Hd) as (k & p0 & Hp0 & Ho & Hs). cbn in Hp0, Ho.
  rewrite Hp in Hp0. injection Hp0 as <-.
  destruct (wsafe_step _ _ p p' w w' o _ (owns_lock a k) (si_lock _ _ _ Hi) Ho Hs Hst)
    as (Hv & Hs' & Hoth & Hlk).
  assert (threads w' = threads w) as Hth by (by injection Hv). split; [|done].
  split; cbn; rewrite ?Hth, ?Hv; try apply Hi; try done.
  - pose proof (si_handler _ _ _ Hi) as Hh. cbn in Hh. destruct h as [q|].
    + by rewrite Hoth.
    + intros He. apply Hh. by eapply holder_other.
  - intros j b Hj Hjd. destruct (decide (j = id)) as [->|Hne].
    + rewrite lookup_insert_eq. rewrite Ha in Hj. injection Hj as <-. by eauto.
    + rewrite lookup_insert_ne, Hoth by congruence. by apply (si_workers _ _ _ Hi).
  - intros j q [(<- & <-)|[Hne Hj]]%lookup_insert_Some Hc; [|by eapply (si_others _ _ _ Hi)].
    destruct Hc; [congruence|done].
  - intros j Hj. destruct (si_done _ _ _ Hi j Hj) as [? Hr]. split; [done|].
    rewrite lookup_insert_ne; [done|congruence].
  - intros j Hj. destruct (decide (j = id)) as [->|Hne]; [by eauto|].
    apply (si_holder _ _ _ Hi). eapply holder_other; [done|congruence|done].
Qed.

(** The signal interrupts a worker; if that has the mutex, its handler waits for it. *)
Lemma inv_worker_interrupted t id p m h ts w done o :
  server_inv (Config m h ts w) done o -> any_thread = true -> timers w !! t = Some true ->
  ts !! id = Some p -> p <> Ret tt ->
  server_inv (Config m h (<[id := alarm_handler SIGALRM;; p]> ts) w) done o.
Proof.
  intros Hi Htw Ht Hp Hne. split; try apply Hi; cbn [main_thread handler worker_threads process].
  - intros j a Ha Hd. destruct (si_workers _ _ _ Hi j a Ha Hd) as (k & q & Hq & Ho & Hs).
    destruct (decide (j = id)) as [->|Hj].
    + cbn in Hq. rewrite Hp in Hq. injection Hq as <-. eexists k, _. rewrite lookup_insert_eq.
      split_and!; [done|done|]. apply wsafe_bind. eapply wsafe_mono; [|apply Hhandler; [apply owns_lock|done]].
      by intros h' [] ->.
    + exists k, q. by rewrite lookup_insert_ne.
  - intros j q [(<- & _)|[Hj Hq]]%lookup_insert_Some Hc; [|by eapply (si_others _ _ _ Hi)].
    by destruct (si_others _ _ _ Hi id p Hp Hc).
  - intros j Hj. destruct (si_done _ _ _ Hi j Hj) as [? Hr]. split; [done|].
    rewrite lookup_insert_ne; [done|]. intros ->. cbn in Hr. congruence.
Qed.

Lemma inv_signal_step c c' done o :
  server_inv c done o -> signal_step c c' -> server_inv c' done o.
Proof.
  intros Hi Hst. destruct Hst; [by eapply inv_timer_fires|by eapply inv_worker_interrupted].
Qed.

(** A step of any thread; it leaves the mutex to another that has it. *)
Lemma inv_thread_step t c c' done o :
  server_inv c done o -> thread_step fuel t c c' ->
  (exists done', server_inv c' done' (lock_owner t (process c) (process c') o))
  /\ (forall j, j <> t -> holder (lock_owner t (process c) (process c') o) j = holder o j).
Proof.
  intros Hi Hst. destruct Hst as [q k x ts w Hx Hj|B f k b ts w w' Hf|p p' m ts w w' Hst
                                 |m ts w|id p p' m h ts w w' Hp Hst]; cbn [process].
  - pose proof (lock_owner_same _ _ _ MainThread Hi) as He. cbn in He. rewrite He. split; [|done]. eexists. by apply inv_main_asks.
  - destruct (inv_main_owner _ _ _ _ _ _ _ _ _ Hi Hf) as [-> _]. split; [|done]. eexists. by eapply inv_main_acts.
  - destruct (inv_handler_moves p p' m ts w w' done o Hi Hst). by eauto.
  - pose proof (lock_owner_same _ _ _ MainThread Hi) as He. cbn in He. rewrite He. split; [|done]. eexists. by apply inv_handler_returns.
  - destruct (inv_worker_moves id p p' m h ts w w' done o Hi Hp Hst). by eauto.
Qed.

Lemma server_inv_run c0 c o done :
  server_inv c0 done None -> server_run fuel c0 c o -> exists done', server_inv c done' o.
Proof.
  intros Hi Hr. induction Hr as [|t c1 c2 o _ (d & Hi1) Hst|c1 c2 o _ (d & Hi1) Hst]; [by eauto| |].
  - by eapply inv_thread_step in Hi1 as [? _].
  - eexists. by eapply inv_signal_step.
Qed.

(** *** A worker that its own signal stops *)

(** The thread does not end while the mutex is held, and leaves it so. *)
Fixpoint never_past {B} (p : prog (P F) B) : Prop :=
  match p with
  | Ret _ | Crash _ => False
  | Ask q k => forall x, never_past (k x)
  | Act f k => forall w, mutexes w !! SRV_LOCK = Some true ->
      match f w with
      | Ok (b, w') => mutexes w' = mutexes w /\ never_past (k b)
      | Err _ => True
      end
  end.

Lemma never_past_handler B (p : prog (P F) B) : never_past (alarm_handler SIGALRM;; p).
Proof. cbn. intros ts w _. split; [done|]. intros w1 Hl. by rewrite Hl. Qed.

Lemma never_past_step B (p p' : prog (P F) B) w w' :
  never_past p -> mutexes w !! SRV_LOCK = Some true -> step (S := P F) posix_threads p w p' w' ->
  never_past p' /\ mutexes w' = mutexes w.
Proof.
  intros Hp Hl Hst. destruct Hst as [q k x w Hx|T f k w b w' Hf]; cbn in Hp; [by split|].
  specialize (Hp w Hl). rewrite Hf in Hp. by destruct Hp.
Qed.

(** The one that holds the mutex finds it held. *)
Lemma owner_held c done id :
  server_inv c done (Some (WorkerThread id)) -> mutexes (process c) !! SRV_LOCK = Some true.
Proof.
  intros Hi. destruct (si_holder _ _ _ Hi id eq_refl) as [[a Ha] Hd].
  destruct (si_workers _ _ _ Hi id a Ha Hd) as (k & _ & _ & Ho & _).
  eapply (holder_held (Some (WorkerThread id)) (WorkerThread id));
    [apply (si_lock _ _ _ Hi)|by eapply owns_lock|by apply bool_decide_eq_true].
Qed.

(** The worker is the only thread that can have the mutex: the signal's handler does
    not run in the main thread, and the other workers have returned. *)
Definition sole_worker (c : config A) (id : Z) : Prop :=
  handler c = None /\ forall j p, j <> id -> worker_threads c !! j = Some p -> p = Ret tt.

Lemma sole_worker_owner c done o id :
  server_inv c done o -> sole_worker c id -> mutexes (process c) !! SRV_LOCK = Some true ->
  o = Some (WorkerThread id).
Proof.
  intros Hi [Hh Hoth] Hl. apply (si_lock _ _ _ Hi) in Hl. destruct o as [[|j]|]; [| |done].
  - pose proof (si_handler _ _ _ Hi) as Hn. by rewrite Hh in Hn.
  - destruct (decide (j = id)) as [->|Hne]; [done|].
    destruct (si_holder _ _ _ Hi j eq_refl) as [[a Ha] Hd].
    destruct (si_workers _ _ _ Hi j a Ha Hd) as (k & p & Hp & _).
    rewrite (Hoth j p Hne Hp) in Hp. by destruct (server_inv_returned _ _ _ j Hi Hp).
Qed.

(** It keeps the mutex for ever. *)
Definition hung (c : config A) (id : Z) : Prop :=
  (exists done, server_inv c done (Some (WorkerThread id)))
  /\ exists p, worker_threads c !! id = Some p /\ never_past p.

Lemma hung_owner t c c' done id p :
  server_inv c done (Some (WorkerThread id)) -> worker_threads c !! id = Some p -> never_past p ->
  thread_step fuel t c c' ->
  lock_owner t (process c) (process c') (Some (WorkerThread id)) = Some (WorkerThread id).
Proof.
  intros Hi Hp Hn Hst. pose proof (owner_held _ _ _ Hi) as Hl.
  destruct (decide (t = WorkerThread id)) as [->|Hne].
  - inversion Hst as [| | | |id' q q' m h ts w w' Hq Hs]; subst. cbn in *.
    rewrite Hp in Hq. injection Hq as <-. destruct (never_past_step _ _ _ _ _ Hn Hl Hs) as [_ Hm].
    unfold lock_owner. by rewrite Hm, Hl.
  - destruct (inv_thread_step _ _ _ _ _ Hi Hst) as [_ Hoth].
    eapply (holder_other _ (Some (WorkerThread id)) t); [|congruence|done].
    intros j Hj. symmetry. by apply Hoth.
Qed.

Lemma hung_thread_step t c c' id : hung c id -> thread_step fuel t c c' -> hung c' id.
Proof.
  intros ([done Hi] & p & Hp & Hn) Hst. split.
  { destruct (inv_thread_step _ _ _ _ _ Hi Hst) as [[d Hi'] _].
    rewrite (hung_owner _ _ _ _ _ _ Hi Hp Hn Hst) in Hi'. by exists d. }
  pose proof (owner_held _ _ _ Hi) as Hl. destruct (si_holder _ _ _ Hi id eq_refl) as [[a Ha] _].
  destruct Hst as [q k x ts w Hx Hj|B f k b ts w w' Hf|q q' m ts w w' Hst
                  |m ts w|j q q' m h ts w w' Hj Hst]; cbn in *; try by eauto.
  - exists p. rewrite lookup_start, Ha. by destruct (threads w' !! id).
  - destruct (decide (j = id)) as [->|Hne]; [|exists p; by rewrite lookup_insert_ne].
    rewrite Hp in Hj. injection Hj as <-. destruct (never_past_step _ p q' w w' Hn Hl Hst) as [Hn' _].
    exists q'. by rewrite lookup_insert_eq.
Qed.

Lemma hung_signal_step c c' id : hung c id -> signal_step c c' -> hung c' id.
Proof.
  intros ([done Hi] & p & Hp & Hn) Hst. split; [exists done; by eapply inv_signal_step|].
  destruct Hst as [t m ts w Ht|t j q m h ts w Hat Ht Hj Hne]; cbn in *; [by eauto|].
  destruct (decide (j = id)) as [->|Hji]; [|exists p; by rewrite lookup_insert_ne].
  eexists. rewrite lookup_insert_eq. split; [done|apply never_past_handler].
Qed.

Lemma hung_steps c c' id : hung c id -> rtc (server_step fuel) c c' -> hung c' id.
Proof.
  intros Hh Hst. induction Hst as [c|c c1 c2 [t Hst|Hst] _ IH]; [done| |].
  - by eapply IH, hung_thread_step.
  - by eapply IH, hung_signal_step.
Qed.

Lemma server_inv_start (m : prog (P F) A) w :
  msafe ∅ m Qm (view_of w) -> threads w = ∅ -> timers w = ∅ -> mutexes w !! SRV_LOCK <> Some true ->
  server_inv (Config m None ∅ w) ∅ None.
Proof.
  intros Hm Ht Hti Hl. split; cbn; try done.
  - intros id a. by rewrite Ht.
  - by intros [] Hb.
  - intros id. cbn. by rewrite Hti.
Qed.

(** ** What follows of a reachable state *)

(** The next access of the thread meets no fault but, when it may wait, one of those
    in [waits]; or its fuel has run out. *)
Definition faultless {B} (waits : list fault) (p : prog (P F) B) w : Prop :=
  match p with
  | Act f _ => match f w with Ok _ => True | Err e => e ∈ waits end
  | Crash e => e = OutOfFuel
  | _ => True
  end.

Lemma wsafe_faultless (R : view -> Prop) t (p : prog (P F) unit) w o Q :
  (forall v, R v -> lock_there v) -> owner_ok o w -> R (view_of w) -> wsafe R (holder o t) p Q ->
  faultless [Deadlock; Silent] p w.
Proof.
  intros HRl Hlk HR Hs. destruct p as [x|q g|B f g|e]; cbn in *; try done.
  specialize (Hs w HR (holder_held o t w Hlk (HRl _ HR))). destruct (f w); [done|].
  destruct Hs as [->|[-> _]]; [by right; left|by left].
Qed.

Lemma no_client_faultless (p : prog (P F) unit) w :
  no_client p -> faultless [Deadlock; Silent] p w -> faultless [Deadlock] p w.
Proof.
  destruct p as [x|q g|B f g|e]; cbn; try done. intros [Hf _]. specialize (Hf w).
  destruct (f w) as [|e]; [done|]. intros [->|Hs]%elem_of_cons; [by left|].
  apply list_elem_of_singleton in Hs as ->. by destruct Hf.
Qed.

Lemma server_inv_faultless c done o :
  server_inv c done o ->
  (handler c = None -> faultless [] (main_thread c) (process c))
  /\ (forall p, handler c = Some p -> faultless [Deadlock] p (process c))
  /\ forall id p, worker_threads c !! id = Some p -> faultless [Deadlock; Silent] p (process c).
Proof.
  intros Hi. split_and!.
  - intros Hh. pose proof (si_main _ _ _ Hi) as Hm. destruct (main_thread c) as [x|q k|B f k|e]; cbn in *; try done.
    specialize (Hm (process c) eq_refl (server_inv_free _ _ _ Hi Hh)). by destruct (f (process c)).
  - intros p Hp. pose proof (si_handler _ _ _ Hi) as Hh. rewrite Hp in Hh. destruct Hh as (Hl & Hq & Hs).
    apply no_client_faultless; [done|].
    by eapply (wsafe_faultless lock_there); [|apply (si_lock _ _ _ Hi)|..].
  - intros id p Hp. destruct (threads (process c) !! id) as [a|] eqn:Ha.
    2: { by rewrite (si_others _ _ _ Hi id p Hp (or_introl Ha)). }
    destruct (decide (id ∈ done)) as [Hd|Hd].
    { by rewrite (si_others _ _ _ Hi id p Hp (or_intror Hd)). }
    destruct (si_workers _ _ _ Hi id a Ha Hd) as (k & p' & Hp' & Ho & Hs).
    rewrite Hp in Hp'. injection Hp' as <-.
    by eapply (wsafe_faultless (owns a k)); [apply owns_lock|apply (si_lock _ _ _ Hi)|..].
Qed.

(** *** Who waits for whom *)

(** The next step of the thread, the handler's while the signal interrupts it. *)
Definition next_of (c : config A) (t : thread) (X : forall B, prog (P F) B -> world F -> Prop) : Prop :=
  match t with
  | MainThread =>
      match handler c with
      | Some p => X _ p (process c)
      | None => X _ (main_thread c) (process c)
      end
  | WorkerThread id => exists p, worker_threads c !! id = Some p /\ X _ p (process c)
  end.

(** A loop of the thread has used up its fuel: it would go round again. *)
Definition out_of_fuel (c : config A) (t : thread) : Prop :=
  next_of c t (fun _ p _ => p = Crash OutOfFuel).

(** The thread is in [recv], and its client is silent; *)
Definition awaits_client (c : config A) (t : thread) : Prop :=
  next_of c t (fun _ p w => match p with Act f _ => f w = Err Silent | _ => False end).

(** it is at a mutex that is held; *)
Definition at_mutex (c : config A) (t : thread) : Prop := next_of c t (fun _ p w => blocked p w).

(** the main thread joins a worker. *)
Definition joins (c : config A) (id : Z) : Prop :=
  handler c = None /\ exists k, main_thread c = Ask (S := P F) (QThreadJoin id) k.

(** [t] waits for [t'], when [o] has the mutex. *)
Definition waits_for (o : option thread) (c : config A) (t t' : thread) : Prop :=
  (at_mutex c t /\ o = Some t' /\ t' <> t)
  \/ (t = MainThread /\ exists id, t' = WorkerThread id /\ joins c id).

(** It waits for no thread. *)
Definition unblocked (c : config A) (t : thread) : Prop :=
  (exists c', thread_step fuel t c c') \/ out_of_fuel c t \/ awaits_client c t.

Definition ended (c : config A) (t : thread) : Prop :=
  match t with
  | MainThread => handler c = None /\ exists x, main_thread c = Ret x
  | WorkerThread id => worker_threads c !! id = None \/ worker_threads c !! id = Some (Ret tt)
  end.

Section progress.
Context (Hno : any_thread = false) (HC : forall w q, exists x, posix_threads w q x).

(** A worker or handler that has not ended waits for nobody, or at the mutex for the
    thread that holds it. *)
Lemma wsafe_next (R : view -> Prop) t (p : prog (P F) unit) w o :
  (forall v, R v -> lock_there v) -> owner_ok o w -> R (view_of w) ->
  wsafe R (holder o t) p (fun h _ => h = false) ->
  (p = Ret tt /\ o <> Some t) \/ p = Crash OutOfFuel
  \/ (exists p' w', step (S := P F) posix_threads p w p' w')
  \/ match p with Act f _ => f w = Err Silent | _ => False end
  \/ (blocked p w /\ exists t', o = Some t' /\ t' <> t).
Proof.
  intros HRl Hlk HR Hs. destruct p as [[]|q g|B f g|e]; cbn in Hs.
  - left. split; [done|]. by apply bool_decide_eq_false in Hs.
  - destruct (HC w q) as [x Hx]. do 2 right. left. eexists _, _. by apply step_ask.
  - specialize (Hs w HR (holder_held o t w Hlk (HRl _ HR))). do 2 right. cbn.
    destruct (f w) as [[b w']|e] eqn:Hf; [left; eexists _, _; by apply step_act|right].
    destruct Hs as [->|(-> & Hh & Hl)]; [by left|right]. split; [done|]. apply Hlk in Hl.
    destruct o as [t'|]; [|done]. exists t'. split; [done|].
    intros ->. unfold holder in Hh. rewrite bool_decide_true in Hh by done. by rewrite Hh in Hno.
  - subst e. by right; left.
Qed.

Lemma worker_next c done o id a :
  server_inv c done o -> threads (process c) !! id = Some a -> id ∉ done ->
  (ended c (WorkerThread id) /\ o <> Some (WorkerThread id)) \/ unblocked c (WorkerThread id)
  \/ (at_mutex c (WorkerThread id) /\ exists t', o = Some t' /\ t' <> WorkerThread id).
Proof.
  intros Hi Ha Hd. destruct (si_workers _ _ _ Hi id a Ha Hd) as (k & p & Hp & Ho & Hs).
  destruct (wsafe_next _ _ _ _ _ (owns_lock a k) (si_lock _ _ _ Hi) Ho Hs)
    as [[-> ?]|[->|[(p' & w' & Hst)|[Hc|[Hb ?]]]]].
  - left. split; [by right|done].
  - right; left. right; left. by eexists.
  - right; left. left. destruct c as [m h ts w]. eexists. by eapply worker_moves.
  - right; left. right; right. by exists p.
  - right; right. split; [by exists p|done].
Qed.

Lemma handler_next c done o p :
  server_inv c done o -> handler c = Some p ->
  unblocked c MainThread \/ (at_mutex c MainThread /\ exists t', o = Some t' /\ t' <> MainThread).
Proof.
  intros Hi Hp. pose proof (si_handler _ _ _ Hi) as Hh. rewrite Hp in Hh. destruct Hh as (Hl & _ & Hs).
  unfold unblocked, out_of_fuel, awaits_client, at_mutex, next_of. rewrite Hp.
  destruct (wsafe_next _ _ _ _ _ (fun v Hv => Hv) (si_lock _ _ _ Hi) Hl Hs)
    as [[-> _]|[?|[(p' & w' & Hst)|[?|?]]]]; [left; left|by eauto|left; left|by eauto|by eauto].
  - destruct c as [m h ts w]. cbn in Hp. subst h. eexists. by apply handler_returns.
  - destruct c as [m h ts w]. cbn in Hp. subst h. eexists. by eapply handler_moves.
Qed.

(** The one that holds the mutex waits for nobody. *)
Lemma owner_unblocked c done o t : server_inv c done o -> o = Some t -> unblocked c t.
Proof.
  intros Hi ->. destruct t as [|id].
  - pose proof (si_handler _ _ _ Hi) as Hh. destruct (handler c) as [p|] eqn:Hp; [|done].
    destruct (handler_next _ _ _ _ Hi Hp) as [?|(_ & t' & [= <-] & ?)]; done.
  - destruct (si_holder _ _ _ Hi id eq_refl) as [[a Ha] Hd].
    by destruct (worker_next _ _ _ _ _ Hi Ha Hd) as [[_ ?]|[?|(_ & t' & [= <-] & ?)]].
Qed.

(** One that is at the mutex waits for that one. *)
Lemma waits_owner c done o t t' :
  server_inv c done o -> at_mutex c t -> o = Some t' -> t' <> t ->
  waits_for o c t t' /\ unblocked c t'.
Proof. intros Hi Hm Ho Hne. split; [by left|by eapply owner_unblocked]. Qed.

Lemma worker_waits c done o id :
  server_inv c done o ->
  ended c (WorkerThread id) \/ unblocked c (WorkerThread id)
  \/ exists t', waits_for o c (WorkerThread id) t' /\ unblocked c t'.
Proof.
  intros Hi. destruct (worker_threads c !! id) as [p|] eqn:Hp; [|by left; left].
  assert (threads (process c) !! id = None \/ id ∈ done -> ended c (WorkerThread id)) as Hend.
  { intros Hor. right. rewrite Hp. by rewrite (si_others _ _ _ Hi id p Hp Hor). }
  destruct (threads (process c) !! id) as [a|] eqn:Ha; [|by left; apply Hend; left].
  destruct (decide (id ∈ done)) as [Hd|Hd]; [by left; apply Hend; right|].
  destruct (worker_next _ _ _ _ _ Hi Ha Hd) as [[? _]|[?|(Hm & t' & Ho & Hne)]]; [by left|by right; left|].
  right; right. exists t'. by eapply waits_owner.
Qed.

(** The main thread waits for a worker, which may wait for the one that holds the
    mutex; or its handler waits for that one. *)
Lemma server_inv_waits c done o t :
  server_inv c done o ->
  ended c t \/ unblocked c t
  \/ exists t', waits_for o c t t'
       /\ (unblocked c t' \/ exists t'', waits_for o c t' t'' /\ unblocked c t'').
Proof.
  intros Hi. destruct t as [|id].
  2: { destruct (worker_waits _ _ _ id Hi) as [?|[?|(t' & ? & ?)]]; by eauto 10. }
  destruct (handler c) as [h|] eqn:Hh.
  { destruct (handler_next _ _ _ _ Hi Hh) as [?|(Hm & t' & Ho & Hne)]; [by eauto|].
    destruct (waits_owner _ _ _ _ _ Hi Hm Ho Hne). by eauto 10. }
  pose proof (si_main _ _ _ Hi) as Hm. destruct c as [m h ts w].
  cbn [main_thread handler process worker_threads] in *. subst h. destruct m as [x|q k|B f k|e].
  - left. split; [done|by eexists].
  - right. destruct (HC w q) as [x Hx].
    assert ((forall id, q <> QThreadJoin id) \/ exists id, q = QThreadJoin id) as [Hq|[id ->]].
    { destruct q; try (left; congruence). right. by eexists. }
    { left. left. eexists. eapply main_asks; [exact Hx|]. intros id ->. by destruct (Hq id). }
    assert (ts !! id = Some (Ret tt) \/ ts !! id <> Some (Ret tt)) as [Hr|Hr]
      by (destruct (ts !! id) as [[[]| | |]|]; by auto).
    { left. left. eexists. eapply main_asks; [exact Hx|]. by intros ? [= <-]. }
    right. destruct Hm as [Hj _]. specialize (Hj id eq_refl). apply elem_of_dom in Hj as [a Ha]. cbn in Ha.
    exists (WorkerThread id). split; [right; split; [done|]; exists id; split; [done|]; by split; [|eexists]|].
    destruct (worker_waits _ _ _ id Hi) as [[Hn|Hn]|[?|?]]; [|done|by left|by right].
    exfalso. cbn in Hn. destruct (decide (id ∈ done)) as [Hd|Hd].
    + destruct (si_done _ _ _ Hi id Hd) as [_ Hr']. cbn in Hr'. congruence.
    + destruct (si_workers _ _ _ Hi id a Ha Hd) as (? & p & Hp & _). cbn in Hp. congruence.
  - right; left; left. cbn in Hm. specialize (Hm w eq_refl (server_inv_free _ _ _ Hi eq_refl)).
    destruct (f w) as [[b w']|e] eqn:Hf; [|done]. eexists. by eapply main_acts.
  - cbn in Hm. subst e. by right; left; right; left.
Qed.

End progress.
End soundness.
End model.
End ServerPool.
