(* ===== verification/PoolWorker.v ===== *)
(** * The server and its workers at the same time: a worker, and the handler

    The timer's handler gives the mutex back ([wsafe_alarm_handler]). A running
    worker reaches only its own structure and buffer, leaves to the main thread
    everything but its flags, and gives the mutex back before it ends
    ([wsafe_worker_main]). *)

From S2P Require Import Prelude Interleave Process Worker WorkerSpec Server ServerPool.

Module PoolWorker.
Import Interleave Memory SList OutputFile Process Worker WorkerSpec Server ServerPool.

Section accesses.
Context {F : Type} `{OutputFileLaws F} `{Delivery}.
Implicit Types w : world F.

Lemma store_size p new bs (m : heap) :
  m !! p = Some bs -> p <> 0 -> (length new <= length bs)%nat ->
  exists m', store p 0 new m = Ok m' /\ length <$> m' = length <$> m.
Proof.
  intros Hp Hp0 Hl. rewrite (store_within p 0 new bs) by (done || lia). eexists. split; [done|].
  rewrite fmap_insert. apply insert_id. rewrite lookup_fmap, Hp. cbn. f_equal.
  rewrite !length_app, length_take, length_drop. lia.
Qed.

(** ** Accesses of any thread but the main one *)

Section threads.
Context {R : view -> Prop} (HR : forall v, R v -> lock_there v).

(** An access that keeps the view and the mutex, with results in [T]. *)
Lemma wsafe_access {B} h (f : world F -> res (B * world F)) (T : B -> Prop) (Q : bool -> B -> Prop) :
  (forall w, R (view_of w) -> exists b w', f w = Ok (b, w')
     /\ view_of w' = view_of w /\ mutexes w' = mutexes w /\ T b) ->
  (forall b, T b -> Q h b) -> wsafe R h (act (S := P F) f) Q.
Proof.
  intros Hf HQ w Ho _. destruct (Hf w Ho) as (b & w' & -> & Hv & Hm & Hb).
  split; [done|]. exists h. split; [|by apply HQ]. apply ls_same. by rewrite Hm.
Qed.

Lemma wsafe_ret {B} h (b : B) (Q : bool -> B -> Prop) : Q h b -> wsafe (F := F) R h (mret b) Q.
Proof. done. Qed.

Lemma wsafe_ask h q (Q : bool -> panswer q -> Prop) :
  (forall w x, posix_threads w q x -> Q h x) -> wsafe R h (ask (S := P F) q) Q.
Proof. done. Qed.

Lemma wsafe_get {B} h (g : world F -> B) (Q : bool -> B -> Prop) :
  (forall b, Q h b) -> wsafe R h (get (S := P F) g) Q.
Proof. intros HQ. apply (wsafe_access h _ (fun _ => True)); [by eauto 10|by auto]. Qed.

Lemma wsafe_modify h (g : world F -> world F) (Q : bool -> unit -> Prop) :
  (forall w, view_of (g w) = view_of w /\ mutexes (g w) = mutexes w) -> Q h tt ->
  wsafe R h (modify (S := P F) g) Q.
Proof.
  intros Hg HQ. apply (wsafe_access h _ (fun _ => True)); [|by intros []].
  intros w _. destruct (Hg w). by eauto 10.
Qed.

Lemma wsafe_write_bytes h fd data (Q : bool -> Z -> Prop) :
  (forall r, Q h r) -> wsafe R h (write_bytes (F := F) fd data) Q.
Proof.
  intros HQ. apply wsafe_bind, wsafe_get. intros ok. destruct (negb ok); [by apply wsafe_ret|].
  apply wsafe_bind, wsafe_ask. intros _ r _. cbn in r. destruct (r =? -1); [by apply wsafe_ret|].
  apply wsafe_bind, wsafe_modify; [|by apply wsafe_ret]. intros w. by destruct (fds w !! fd) as [[]|].
Qed.

Lemma wsafe_open h path wr (Q : bool -> Z -> Prop) :
  (forall r, Q h r) -> wsafe R h (open (F := F) path wr) Q.
Proof.
  intros HQ. apply wsafe_bind, wsafe_ask. intros _ fd _. cbn in fd.
  destruct (fd =? -1); [by apply wsafe_ret|].
  apply wsafe_bind, wsafe_modify; [|by apply wsafe_ret]. intros w. by destruct wr.
Qed.

Lemma wsafe_close h fd (Q : bool -> Z -> Prop) :
  (forall r, Q h r) -> wsafe R h (close (F := F) fd) Q.
Proof.
  intros HQ. apply wsafe_bind, wsafe_ask. intros _ r _.
  by apply wsafe_bind, wsafe_modify; [|apply wsafe_ret].
Qed.

(** The mutex of the output. *)
Lemma lock_in_dom w : R (view_of w) -> exists b, mutexes w !! SRV_LOCK = Some b.
Proof. intros Ho%HR. unfold lock_there in Ho. cbn in Ho. by apply elem_of_dom in Ho. Qed.

Lemma view_set_lock b b' w :
  mutexes w !! SRV_LOCK = Some b -> view_of (set_mutexes (<[SRV_LOCK := b']> (mutexes w)) w) = view_of w.
Proof.
  intros Hb. unfold view_of. cbn. f_equal. rewrite dom_insert_L. apply (elem_of_dom_2 (D := gset Z)) in Hb. set_solver.
Qed.

Lemma wsafe_lock (Q : bool -> unit -> Prop) :
  Q true tt -> wsafe R false (pthread_mutex_lock (F := F) SRV_LOCK) Q.
Proof.
  intros HQ w Ho _. destruct (lock_in_dom w Ho) as [[] Hb]; rewrite Hb; [by right|].
  split; [by eapply view_set_lock|]. exists true. split; [|done].
  apply ls_lock; [done|]. cbn. by rewrite lookup_insert_eq.
Qed.

(** The handler finds the mutex held that its own thread has: it waits. *)
Lemma wsafe_lock_held (Q : bool -> unit -> Prop) :
  any_thread = true -> wsafe R true (pthread_mutex_lock (F := F) SRV_LOCK) Q.
Proof. intros Hd w _ Hl. rewrite (Hl eq_refl). by right. Qed.

Lemma wsafe_unlock (Q : bool -> unit -> Prop) :
  Q false tt -> wsafe R true (pthread_mutex_unlock (F := F) SRV_LOCK) Q.
Proof.
  intros HQ w Ho Hl. rewrite (Hl eq_refl). split; [by eapply view_set_lock, Hl|].
  exists false. split; [|done]. apply ls_unlock. cbn. by rewrite lookup_insert_eq.
Qed.

(** The timer's handler appends a line to the output with the mutex held. *)
Lemma wsafe_alarm_handler h :
  (h = true -> any_thread = true) ->
  wsafe R h (alarm_handler (F := F) SIGALRM) (fun h' _ => h' = h).
Proof.
  intros Hd. unfold alarm_handler. rewrite Z.eqb_refl. apply wsafe_bind, wsafe_ask. intros _ ts _.
  apply wsafe_bind, wsafe_get. intros path. apply wsafe_bind.
  destruct h; [by apply wsafe_lock_held, Hd|]. apply wsafe_lock.
  apply wsafe_bind, wsafe_open. intros fd. apply wsafe_bind.
  destruct (fd =? -1); [by apply wsafe_ret, wsafe_unlock|].
  apply wsafe_bind, wsafe_write_bytes. intros _. apply wsafe_bind, wsafe_close. intros _.
  by apply wsafe_ret, wsafe_unlock.
Qed.

End threads.

(** It waits for no client. *)
Lemma no_client_bind {B B'} (p : prog (P F) B) (c : B -> prog (P F) B') :
  no_client p -> (forall b, no_client (c b)) -> no_client (p ≫= c).
Proof. intros Hp Hc. induction p; cbn in *; naive_solver. Qed.

Lemma no_client_act {B} (f : world F -> res (B * world F)) :
  (forall w, f w <> Err Silent) -> no_client (act (S := P F) f).
Proof. by split. Qed.

Lemma no_client_open path wr : no_client (open (F := F) path wr).
Proof. apply no_client_bind; [done|]. intros fd. cbn in fd. by destruct (fd =? -1). Qed.

Lemma no_client_write_bytes fd data : no_client (write_bytes (F := F) fd data).
Proof.
  apply no_client_bind; [done|]. intros ok. destruct (negb ok); [done|].
  apply no_client_bind; [done|]. intros r. cbn in r. by destruct (r =? -1).
Qed.

Lemma no_client_alarm_handler : no_client (alarm_handler (F := F) SIGALRM).
Proof.
  unfold alarm_handler. rewrite Z.eqb_refl. apply no_client_bind; [done|]. intros ts.
  apply no_client_bind; [done|]. intros path.
  assert (no_client (pthread_mutex_unlock (F := F) SRV_LOCK)) as Hun
    by (apply no_client_act; intros w; by repeat case_match).
  apply no_client_bind; [apply no_client_act; intros w; by repeat case_match|]. intros _.
  apply no_client_bind; [apply no_client_open|]. intros fd. apply no_client_bind; [|by intros _].
  destruct (fd =? -1); [done|]. apply no_client_bind; [apply no_client_write_bytes|]. by intros _.
Qed.

(** ** A worker *)

Section worker.
Context (a : Z) (k : aesd_worker).

Lemma owns_worker w : owns a k (view_of w) -> exists k', workers w !! a = Some k' /\ unflag k' = k.
Proof.
  intros Ho. pose proof (ow_worker _ _ _ Ho) as Hk. cbn in Hk. rewrite lookup_fmap in Hk.
  destruct (workers w !! a) as [k'|]; [|done]. exists k'. split; [done|]. by injection Hk.
Qed.

Lemma owns_buf w :
  owns a k (view_of w) ->
  exists bs, mem w !! buf_ k = Some bs /\ length bs = Z.to_nat (buf_size_ k).
Proof.
  intros Ho. pose proof (ow_mem _ _ _ Ho) as Hb. cbn in Hb. rewrite lookup_fmap in Hb.
  destruct (mem w !! buf_ k) as [bs|]; [|done]. exists bs. split; [done|]. by injection Hb.
Qed.

Lemma wsafe_worker_at h (Q : bool -> aesd_worker -> Prop) :
  (forall k', unflag k' = k -> Q h k') -> wsafe (owns a k) h (worker_at (F := F) a) Q.
Proof.
  intros HQ. apply (wsafe_access h _ (fun k' => unflag k' = k)); [|exact HQ].
  intros w Ho. destruct (owns_worker w Ho) as (k' & Hk & Hu).
  rewrite (proj2 (Z.eqb_neq _ _) (proj1 (ow_nonnull _ _ _ Ho))), Hk. by eauto 10.
Qed.

(** A store to a flag. *)
Lemma wsafe_store h f (Q : bool -> unit -> Prop) :
  (forall k', unflag (f k') = unflag k') -> Q h tt -> wsafe (owns a k) h (store_worker (F := F) a f) Q.
Proof.
  intros Hf HQ. apply (wsafe_access h _ (fun _ => True)); [|by intros []].
  intros w Ho. destruct (owns_worker w Ho) as (k' & Hk & Hu).
  rewrite (proj2 (Z.eqb_neq _ _) (proj1 (ow_nonnull _ _ _ Ho))), Hk.
  eexists _, _. split; [done|]. split; [|done]. unfold view_of. cbn. f_equal.
  rewrite fmap_insert, Hf. apply insert_id. by rewrite lookup_fmap, Hk.
Qed.

(** Filling the first [n] bytes of the buffer. *)
Lemma view_set_mem m w : length <$> m = length <$> mem w -> view_of (set_mem m w) = view_of w.
Proof. intros Hm. unfold view_of. cbn. by rewrite Hm. Qed.

Lemma wsafe_memset h c (Q : bool -> unit -> Prop) :
  Q h tt -> wsafe (owns a k) h (memset (F := F) (buf_ k) c (buf_size_ k)) Q.
Proof.
  intros HQ. apply (wsafe_access h _ (fun _ => True)); [|by intros []].
  intros w Ho. destruct (owns_buf w Ho) as (bs & Hb & Hl).
  destruct (store_size (buf_ k) (replicate (Z.to_nat (buf_size_ k)) c) bs (mem w)) as (m & Hs & Hm);
    [done|apply (ow_nonnull _ _ _ Ho)|rewrite length_replicate; lia|].
  rewrite Hs. cbn. eexists _, _. split; [done|]. by split; [apply view_set_mem|].
Qed.

Lemma wsafe_fetch h n (Q : bool -> bytes -> Prop) :
  0 <= n <= buf_size_ k -> (forall bs, length bs = Z.to_nat n -> Q h bs) ->
  wsafe (owns a k) h (fetch (F := F) (buf_ k) n) Q.
Proof.
  intros Hn HQ. apply (wsafe_access h _ (fun bs => length bs = Z.to_nat n)); [|exact HQ].
  intros w Ho. destruct (owns_buf w Ho) as (bs & Hb & Hl).
  rewrite (load_within (buf_ k) 0 n bs) by (apply (ow_nonnull _ _ _ Ho) || done || lia). cbn.
  eexists _, _. split; [done|]. split; [by apply view_set_mem|]. split; [done|].
  rewrite length_take. change (Z.to_nat 0) with 0%nat. rewrite drop_0. lia.
Qed.

Lemma wsafe_memchr h c (Q : bool -> option Z -> Prop) :
  0 <= buf_size_ k ->
  (forall r, match r with Some i => 0 <= i < buf_size_ k | None => True end -> Q h r) ->
  wsafe (owns a k) h (memchr (F := F) (buf_ k) c (buf_size_ k)) Q.
Proof.
  intros Hk HQ. apply wsafe_bind, wsafe_fetch; [lia|]. intros bs Hl. apply wsafe_ret, HQ.
  destruct (list_find (eq c) bs) as [[i x]|] eqn:Hf; [|done]. cbn.
  apply list_find_Some in Hf as (Hi & _). apply lookup_lt_Some in Hi. lia.
Qed.

Lemma wsafe_recv h fd (Q : bool -> Z -> Prop) :
  (forall r, Q h r) -> wsafe (owns a k) h (recv (F := F) fd (buf_ k) (buf_size_ k)) Q.
Proof.
  intros HQ w Ho _.
  assert (forall r w', view_of w' = view_of w -> mutexes w' = mutexes w ->
    view_of w' = view_of w /\ exists h', lock_step w w' h h' /\ wsafe (F := F) (owns a k) h' (Ret r) Q) as Hok.
  { intros r w' Hv Hm. split; [done|]. exists h. split; [apply ls_same; by rewrite Hm|apply HQ]. }
  destruct (conn_of fd w) as [[id c]|]; [|by apply Hok].
  destruct (recv_step _ _) as [[[out|] l]|] eqn:Hr; [|by apply Hok|by left].
  apply recv_step_length in Hr. destruct (owns_buf w Ho) as (bs & Hb & Hl).
  destruct (store_size (buf_ k) out bs (mem w)) as (m & Hs & Hm);
    [done|apply (ow_nonnull _ _ _ Ho)|lia|].
  cbn [mem set_conns]. rewrite Hs. apply Hok; [|done]. unfold view_of. cbn. by rewrite Hm.
Qed.

Lemma wsafe_read h fd (Q : bool -> Z -> Prop) :
  (forall r, r = -1 \/ 0 <= r <= buf_size_ k -> Q h r) ->
  wsafe (owns a k) h (read (F := F) fd (buf_ k) (buf_size_ k)) Q.
Proof.
  intros HQ. apply wsafe_bind, wsafe_ask. intros _ [] _; [by apply wsafe_ret, HQ; left|].
  apply (wsafe_access h _ (fun r => r = -1 \/ 0 <= r <= buf_size_ k)); [|exact HQ].
  intros w Ho. unfold read_at. destruct (fds w !! fd) as [[path pos wr| | |]|]; [|by eauto 10..].
  destruct (owns_buf w Ho) as (bs & Hb & Hl). pose proof (ow_size _ _ _ Ho) as Hsz.
  pose proof (of_read_bound (file_of path w) pos (buf_size_ k) ltac:(lia)) as Hlen.
  destruct (store_size (buf_ k) (of_read (file_of path w) pos (buf_size_ k)) bs (mem w))
    as (m & Hs & Hm); [done|apply (ow_nonnull _ _ _ Ho)|lia|].
  rewrite Hs. cbn. eexists _, _. split; [done|]. split; [|split; [done|right; lia]].
  unfold view_of. cbn. by rewrite Hm.
Qed.

Lemma wsafe_write h fd n (Q : bool -> Z -> Prop) :
  0 <= n <= buf_size_ k -> (forall r, Q h r) -> wsafe (owns a k) h (write (F := F) fd (buf_ k) n) Q.
Proof. intros Hn HQ. apply wsafe_bind, wsafe_fetch; [done|]. intros bs _. by apply wsafe_write_bytes. Qed.

Lemma wsafe_send h fd n (Q : bool -> Z -> Prop) :
  0 <= n <= buf_size_ k -> (forall r, Q h r) -> wsafe (owns a k) h (send (F := F) fd (buf_ k) n) Q.
Proof.
  intros Hn HQ. apply wsafe_bind, wsafe_fetch; [done|]. intros bs _.
  apply wsafe_bind, wsafe_get. intros [[id c]|]; [|by apply wsafe_ret].
  apply wsafe_bind, wsafe_ask. intros _ [r|] [_ Hr]; [|by destruct Hr].
  destruct (r =? -1); [by apply wsafe_ret|].
  apply wsafe_bind, wsafe_modify; [|by apply wsafe_ret]. intros w. by destruct (conns w !! id).
Qed.

Lemma wsafe_load_shutdown h (Q : bool -> bool -> Prop) :
  (forall b, Q h b) -> wsafe (owns a k) h (load_shutdown (F := F) a) Q.
Proof.
  intros HQ. apply wsafe_bind, wsafe_worker_at. intros k' _.
  destruct (shutdown k'); [by apply wsafe_ret|]. apply wsafe_bind, wsafe_ask. intros _ [] _.
  - by apply wsafe_bind, wsafe_store; [|apply wsafe_ret].
  - by apply wsafe_ret.
Qed.

(** ** The worker's thread *)

Context (Hsz : 0 <= buf_size_ k < 2 ^ 63) (Hlock : output_lock_ k = SRV_LOCK).

(** What a reading of the structure gives. *)
Lemma unflag_fields k' :
  unflag k' = k -> buf_ k' = buf_ k /\ buf_size_ k' = buf_size_ k /\ output_lock_ k' = SRV_LOCK.
Proof. intros <-. by rewrite <- Hlock. Qed.

Lemma wsafe_receive_loop fuel fd (Q : bool -> bool -> Prop) :
  (forall b, Q true b) -> wsafe (owns a k) true (receive_loop (F := F) fuel a fd) Q.
Proof.
  intros HQ. induction fuel as [|fuel IH]; [done|]. cbn [receive_loop].
  apply wsafe_bind, wsafe_load_shutdown. intros []; [by apply wsafe_ret|].
  apply wsafe_bind, wsafe_worker_at. intros k' (-> & -> & _)%unflag_fields.
  apply wsafe_bind, wsafe_memset. apply wsafe_bind, wsafe_recv. intros r.
  destruct (r =? -1); [by apply wsafe_ret|].
  apply wsafe_bind, wsafe_memchr; [lia|]. intros found Hfound.
  apply wsafe_bind, wsafe_write.
  { destruct found as [i|]; [|lia]. rewrite u64_small; lia. }
  intros r'. destruct (r' =? -1); [by apply wsafe_ret|].
  case_bool_decide; [by apply wsafe_ret|done].
Qed.

Lemma wsafe_send_loop fuel fd (Q : bool -> bool -> Prop) :
  (forall b, Q true b) -> wsafe (owns a k) true (send_loop (F := F) fuel a fd) Q.
Proof.
  intros HQ. induction fuel as [|fuel IH]; [done|]. cbn [send_loop].
  apply wsafe_bind, wsafe_load_shutdown. intros []; [by apply wsafe_ret|].
  apply wsafe_bind, wsafe_worker_at. intros k' (-> & -> & _)%unflag_fields.
  apply wsafe_bind, wsafe_read. intros n Hn. destruct (Z.eqb_spec n (-1)); [by apply wsafe_ret|].
  apply wsafe_bind, wsafe_send; [lia|]. intros r. destruct (r =? -1); [by apply wsafe_ret|].
  destruct (n =? 0); [by apply wsafe_ret|done].
Qed.

Lemma wsafe_receive_data fuel (Q : bool -> bool -> Prop) :
  (forall b, Q false b) -> wsafe (owns a k) false (receive_data (F := F) fuel a) Q.
Proof.
  intros HQ. apply wsafe_bind, wsafe_worker_at. intros k' (_ & _ & ->)%unflag_fields.
  apply wsafe_bind, (wsafe_lock (owns_lock a k)). apply wsafe_bind, wsafe_open. intros fd.
  assert (forall error : bool,
    wsafe (owns a k) true (pthread_mutex_unlock (F := F) SRV_LOCK;;
      if error then mret false else stop ← load_shutdown a; mret (negb stop)) Q) as Hend.
  { intros error. apply wsafe_bind, (wsafe_unlock (owns_lock a k)).
    destruct error; [by apply wsafe_ret|].
    apply wsafe_bind, wsafe_load_shutdown. intros b. by apply wsafe_ret. }
  apply wsafe_bind. destruct (fd =? -1); [apply wsafe_ret, (Hend true)|].
  apply wsafe_bind, wsafe_receive_loop. intros error.
  apply wsafe_bind, wsafe_close. intros _. by apply wsafe_ret, Hend.
Qed.

Lemma wsafe_send_response fuel (Q : bool -> bool -> Prop) :
  (forall b, Q false b) -> wsafe (owns a k) false (send_response (F := F) fuel a) Q.
Proof.
  intros HQ. apply wsafe_bind, wsafe_worker_at. intros k' (_ & _ & ->)%unflag_fields.
  apply wsafe_bind, (wsafe_lock (owns_lock a k)). apply wsafe_bind, wsafe_open. intros fd.
  assert (forall r : bool, wsafe (owns a k) true (pthread_mutex_unlock (F := F) SRV_LOCK;; mret r) Q) as Hend.
  { intros r. apply wsafe_bind, (wsafe_unlock (owns_lock a k)). by apply wsafe_ret. }
  apply wsafe_bind. destruct (fd =? -1); [apply wsafe_ret, (Hend false)|].
  apply wsafe_bind, wsafe_send_loop. intros sent. apply wsafe_bind. destruct sent.
  - apply wsafe_bind, wsafe_load_shutdown. intros b. apply wsafe_ret.
    apply wsafe_bind, wsafe_close. intros _. by apply wsafe_ret, Hend.
  - apply wsafe_ret. apply wsafe_bind, wsafe_close. intros _. by apply wsafe_ret, Hend.
Qed.

Lemma wsafe_worker_main fuel : wsafe (owns a k) false (aesd_worker_main (F := F) fuel a) (fun h _ => h = false).
Proof.
  apply wsafe_bind, wsafe_receive_data. intros received. apply wsafe_bind.
  assert (wsafe (owns a k) false (close_client (F := F) a;; store_worker a set_exited) (fun h _ => h = false)) as Hend.
  { apply wsafe_bind, wsafe_bind, wsafe_worker_at. intros k' _.
    assert (wsafe (owns a k) false (store_worker (F := F) a set_exited) (fun h _ => h = false)) as Hexit
      by by apply wsafe_store.
    destruct (client_fd k' >=? 0); [|by apply wsafe_ret].
    apply wsafe_bind, wsafe_close. intros _. by apply wsafe_modify. }
  destruct received; [|by apply wsafe_ret].
  apply wsafe_bind, wsafe_send_response. intros _. by apply wsafe_ret.
Qed.

End worker.
End accesses.
End PoolWorker.
