(* ===== verification/PoolMain.v ===== *)
(** * The server and its workers at the same time: the main thread

    The main thread's view stays a [pool] while the workers run; it takes from a
    worker only after joining its thread, and gives a new one its structure,
    buffer and mutex before it starts. *)

From S2P Require Import Prelude Interleave Process Worker WorkerSpec Server ServerSpec ServerAccept ServerPool.

Module PoolMain.
Import Interleave Memory SList OutputFile Process Worker WorkerSpec Server ServerSpec ServerAccept ServerPool.

Section main.
Context {F : Type} `{OutputFileLaws F}.
Implicit Types (w : world F) (ps : list slot).

(** ** The same view *)

Lemma view_eqs w w1 :
  view_of w1 = view_of w ->
  unflag <$> workers w1 = unflag <$> workers w /\ wentries w1 = wentries w
  /\ threads w1 = threads w /\ srv w1 = srv w /\ length <$> mem w1 = length <$> mem w
  /\ (dom (mutexes w1) : gset Z) = dom (mutexes w) /\ timers w1 = timers w.
Proof. intros Hv. by injection Hv. Qed.

Lemma view_worker w w1 a k :
  view_of w1 = view_of w -> workers w !! a = Some k ->
  exists k1, workers w1 !! a = Some k1 /\ unflag k1 = unflag k.
Proof.
  intros (Hw & _)%view_eqs Hk. assert (unflag <$> workers w1 !! a = Some (unflag k)) as Hk1.
  { by rewrite <- lookup_fmap, Hw, lookup_fmap, Hk. }
  apply fmap_Some in Hk1 as (k1 & -> & ->). by eauto.
Qed.

Lemma fmap_fresh {A B} (f : A -> B) (m m1 : gmap Z A) a :
  f <$> m1 = f <$> m -> m1 !! a = None -> m !! a = None.
Proof. intros He Hn. by rewrite <- (fmap_None f), <- lookup_fmap, <- He, lookup_fmap, Hn. Qed.

(** Two states that differ in what the workers change only. *)
Definition same_view_map (g : world F -> world F) : Prop :=
  forall w w1, view_of w1 = view_of w ->
    view_of (g w1) = view_of (g w) /\ mutexes (g w1) = mutexes w1.

(** ** What a step of the main thread leaves to the workers *)

(** No running worker is [a] or has the buffer [b]. *)
Definition unshared (a b : Z) w : Prop :=
  forall id c, threads w !! id = Some c ->
    exists k, workers w !! c = Some k /\ c <> a /\ buf_ k <> b.

(** Only the structure [a] and the block [b] change, of what workers use. *)
Record touches (a b : Z) w w' : Prop := Touches {
  to_threads : threads w' = threads w;
  to_locks : (dom (mutexes w') : gset Z) = dom (mutexes w);
  to_timers : timers w' = timers w;
  to_workers c : c <> a -> workers w' !! c = workers w !! c;
  to_mem c : c <> b -> mem w' !! c = mem w !! c
}.

Lemma touches_unshared a b w w' : touches a b w w' -> unshared a b w -> unshared a b w'.
Proof.
  intros Ht Hu id c. rewrite (to_threads _ _ _ _ Ht). intros Hc.
  destruct (Hu id c Hc) as (k & Hk & Hca & Hkb). exists k.
  by rewrite (to_workers _ _ _ _ Ht) by done.
Qed.

Lemma owns_kept a b w w' c k k' :
  (dom (mutexes w') : gset Z) = dom (mutexes w) ->
  (forall c, c <> a -> workers w' !! c = workers w !! c) ->
  (forall c, c <> b -> mem w' !! c = mem w !! c) ->
  workers w !! c = Some k' -> c <> a -> buf_ k' <> b ->
  owns c k (view_of w) -> owns c k (view_of w').
Proof.
  intros Hl Hw Hm Hk Hca Hkb [Hn Ho Hb Hs Hlk]. cbn in *. rewrite lookup_fmap, Hk in Ho.
  injection Ho as <-. split; cbn in *; [done| | |done|by rewrite Hl].
  - by rewrite lookup_fmap, Hw, Hk.
  - by rewrite lookup_fmap, Hm, <- lookup_fmap.
Qed.

Lemma timer_ok_same w w' :
  (dom (mutexes w') : gset Z) = dom (mutexes w) -> timers w' = timers w ->
  timer_ok (view_of w) -> timer_ok (view_of w').
Proof. intros El Et Hok id. unfold lock_there. cbn. rewrite El, Et. apply Hok. Qed.

Lemma allowed_touches a b w w' :
  unshared a b w -> touches a b w w' -> allowed ∅ (view_of w) (view_of w').
Proof.
  intros Hu Ht. split; cbn; rewrite ?(to_threads _ _ _ _ Ht); [|congruence|].
  2: { apply timer_ok_same; apply Ht. }
  intros id c Hc _. split; [done|]. intros k. destruct (Hu id c Hc) as (k' & Hk & Hca & Hkb).
  apply (owns_kept a b _ _ _ _ k'); try done; apply Ht.
Qed.

Lemma owns_same c k w w' :
  workers w' = workers w -> mem w' = mem w -> mutexes w' = mutexes w ->
  owns c k (view_of w) -> owns c k (view_of w').
Proof. intros Ew Em El []. by split; cbn in *; rewrite ?Ew, ?Em, ?El. Qed.

Lemma allowed_same w w' :
  threads w' = threads w -> workers w' = workers w -> mem w' = mem w -> mutexes w' = mutexes w ->
  timers w' = timers w -> allowed ∅ (view_of w) (view_of w').
Proof.
  intros Et Ew Em El Eti. split; cbn; rewrite ?Et; [|congruence|].
  2: { apply timer_ok_same; [by rewrite El|done]. }
  intros id c Hc _. split; [done|].
  intros k. by apply owns_same.
Qed.

(** ** Rules *)

(** [p] is safe from every state with the view of [w], at rest: no thread has been
    joined that is still counted. *)
Definition ms {A} (p : prog (P F) A) (Q : A -> world F -> Prop) w : Prop :=
  msafe ∅ p (fun x d v => d = ∅ /\ exists w', view_of w' = v /\ Q x w') (view_of w).

Lemma ms_ret {A} (x : A) (Q : A -> world F -> Prop) w : Q x w -> ms (mret x) Q w.
Proof. intros HQ. split; [done|]. by exists w. Qed.

Lemma ms_bind {A B} (p : prog (P F) A) (c : A -> prog (P F) B) Q w :
  ms p (fun x w' => ms (c x) Q w') w -> ms (p ≫= c) Q w.
Proof.
  intros Hp. apply msafe_bind. eapply msafe_mono; [|exact Hp].
  by intros x d v (-> & w' & <- & Hc).
Qed.

Lemma ms_mono {A} (p : prog (P F) A) (Q Q' : A -> world F -> Prop) w :
  (forall x w', Q x w' -> Q' x w') -> ms p Q w -> ms p Q' w.
Proof.
  intros HQ. apply msafe_mono. intros x d v (-> & w' & Hv & Hx). split; [done|]. by eauto.
Qed.

Lemma ms_view {A} (p : prog (P F) A) Q w w' : view_of w = view_of w' -> ms p Q w' -> ms p Q w.
Proof. unfold ms. by intros ->. Qed.

Lemma ms_ask q (Q : panswer q -> world F -> Prop) w :
  (forall id, q <> QThreadJoin id) ->
  (forall w1 x, view_of w1 = view_of w -> posix_threads w1 q x -> Q x w) ->
  ms (ask (S := P F) q) Q w.
Proof.
  intros Hq HQ. split; [by intros id ->; destruct (Hq id)|]. intros w1 x Hv Hx.
  replace (joined q ∅) with (∅ : gset Z) by (destruct q; (done || by destruct (Hq tid0))).
  split; [done|]. exists w. by eauto.
Qed.

(** An access, from every state with the view of [w]: the view becomes that of
    [w'], and the result is in [R]. *)
Lemma ms_access {B} (f : world F -> res (B * world F)) (R : B -> Prop) (Q : B -> world F -> Prop)
    w w' :
  (forall w1, view_of w1 = view_of w -> exists b w1', f w1 = Ok (b, w1')
     /\ view_of w1' = view_of w' /\ mutexes w1' = mutexes w1 /\ R b) ->
  allowed ∅ (view_of w) (view_of w') -> (forall b, R b -> Q b w') ->
  ms (act (S := P F) f) Q w.
Proof.
  intros Hf Ha HQ w1 Hv _. destruct (Hf w1 Hv) as (b & w1' & -> & Hv' & Hm & Hb).
  rewrite Hv'. split; [done|]. split; [by left|]. split; [set_solver|]. exists w'. by eauto.
Qed.

(** One that only looks. *)
Lemma ms_look {B} (f : world F -> res (B * world F)) (R : B -> Prop) (Q : B -> world F -> Prop) w :
  (forall w1, view_of w1 = view_of w -> exists b, f w1 = Ok (b, w1) /\ R b) ->
  (forall b, R b -> Q b w) -> ms (act (S := P F) f) Q w.
Proof.
  intros Hf. apply (ms_access f R Q w w); [|by apply allowed_same].
  intros w1 Hv. destruct (Hf w1 Hv) as (b & -> & Hb). by eauto 10.
Qed.

Lemma ms_get_srv {B} (f : aesd_server -> B) (Q : B -> world F -> Prop) w :
  Q (f (srv w)) w -> ms (get_srv (F := F) f) Q w.
Proof.
  intros HQ. apply (ms_look _ (fun b => b = f (srv w))); [|by intros ? ->].
  intros w1 (_ & _ & _ & Hs & _)%view_eqs. exists (f (srv w1)). by rewrite Hs.
Qed.

Lemma ms_entry_at a e (Q : aesd_worker_entry -> world F -> Prop) w :
  a <> 0 -> wentries w !! a = Some e -> Q e w -> ms (entry_at (F := F) a) Q w.
Proof.
  intros Ha He HQ. apply (ms_look _ (fun b => b = e)); [|by intros ? ->].
  intros w1 (_ & Hen & _)%view_eqs. exists e. split; [|done].
  rewrite (elem_at_some _ _ e Ha); [done|]. by rewrite Hen.
Qed.

(** What it reads of a worker are the fields that are not flags. *)
Lemma ms_worker_at a k (Q : aesd_worker -> world F -> Prop) w :
  a <> 0 -> workers w !! a = Some k ->
  (forall k1, unflag k1 = unflag k -> Q k1 w) -> ms (worker_at (F := F) a) Q w.
Proof.
  intros Ha Hk. apply ms_look. intros w1 Hv. destruct (view_worker _ _ _ _ Hv Hk) as (k1 & Hk1 & Hu).
  exists k1. by rewrite (proj2 (Z.eqb_neq _ _) Ha), Hk1.
Qed.

Lemma ms_modify (g : world F -> world F) (Q : unit -> world F -> Prop) w :
  same_view_map g -> allowed ∅ (view_of w) (view_of (g w)) -> Q tt (g w) ->
  ms (modify (S := P F) g) Q w.
Proof.
  intros Hg Ha HQ. apply (ms_access _ (fun _ => True) _ w (g w)); [|done|by intros []].
  intros w1 Hv. destruct (Hg w w1 Hv). by eauto 10.
Qed.

(** One that does not change the view. *)
Lemma ms_modify_same (g : world F -> world F) (Q : unit -> world F -> Prop) w :
  (forall w1, view_of (g w1) = view_of w1 /\ mutexes (g w1) = mutexes w1) -> Q tt w ->
  ms (modify (S := P F) g) Q w.
Proof.
  intros Hg HQ. apply (ms_access _ (fun _ => True) _ w w); [|by apply allowed_same|by intros []].
  intros w1 Hv. destruct (Hg w1) as [Hv1 Hm]. rewrite Hv in Hv1. by eauto 10.
Qed.

Lemma ms_upd_srv (f : aesd_server -> aesd_server) (Q : unit -> world F -> Prop) w :
  Q tt (set_srv (f (srv w)) w) -> ms (upd_srv (F := F) f) Q w.
Proof.
  apply (ms_modify (fun w => set_srv (f (srv w)) w)); [|by apply allowed_same]. intros w0 w1 Hv.
  destruct (view_eqs _ _ Hv) as (E1 & E2 & E3 & E4 & E5 & E6 & E7). split; [|done].
  unfold view_of; cbn. congruence.
Qed.

(** The loop over a list whose elements the body may remove. *)
Lemma ms_foreach_safe fuel (I : list Z -> world F -> Prop) next (body : Z -> prog (P F) unit) todo w :
  (length todo <= fuel)%nat -> Forall (.≠ 0) todo -> I todo w ->
  (forall x r w, I (x :: r) w -> ms (next x) (fun t w' => t = default 0 (head r) /\ w' = w) w) ->
  (forall x r w, I (x :: r) w -> ms (body x) (fun _ w' => I r w') w) ->
  ms (SLIST_FOREACH_SAFE next fuel (default 0 (head todo)) body) (fun _ w' => I [] w') w.
Proof.
  intros Hf Hn HI Hnext Hbody. revert fuel w Hf HI.
  induction todo as [|x r IH]; intros fuel w Hf HI.
  { destruct fuel; by apply ms_ret. }
  inversion Hn as [|? ? Hx Hr]; subst. destruct fuel as [|fuel]; simpl in Hf; [lia|].
  change (default 0 (head (x :: r))) with x. cbn [SLIST_FOREACH_SAFE].
  unfold SLIST_END. rewrite (proj2 (Z.eqb_neq _ _) Hx). apply ms_bind.
  eapply ms_mono; [|by apply (Hnext x r w HI)]. intros t w1 [-> ->]. apply ms_bind.
  eapply ms_mono; [|by apply (Hbody x r w HI)]. intros ? w2 H2. apply IH; [done|lia|done].
Qed.

(** ** The structures of a worker that is not running *)

Lemma ms_touch (g : world F -> world F) a b (Q : unit -> world F -> Prop) w :
  same_view_map g -> unshared a b w -> touches a b w (g w) -> Q tt (g w) ->
  ms (modify (S := P F) g) Q w.
Proof. intros Hg Hu Ht. apply ms_modify; [done|]. by eapply allowed_touches. Qed.

Lemma ms_set_worker a b k (Q : unit -> world F -> Prop) w :
  unshared a b w -> Q tt (set_workers (<[a := k]> (workers w)) w) -> ms (set_worker (F := F) a k) Q w.
Proof.
  intros Hu. apply (ms_touch (fun w => set_workers (<[a := k]> (workers w)) w) a b); [|done|].
  - intros w0 w1 (E1 & E2 & E3 & E4 & E5 & E6 & E7)%view_eqs. split; [|done].
    unfold view_of; cbn. rewrite !fmap_insert. congruence.
  - split; cbn; try done. intros c Hc. by rewrite lookup_insert_ne.
Qed.

Lemma ms_drop_worker a b (Q : unit -> world F -> Prop) w :
  unshared a b w -> Q tt (set_workers (delete a (workers w)) w) -> ms (drop_worker (F := F) a) Q w.
Proof.
  intros Hu. apply (ms_touch (fun w => set_workers (delete a (workers w)) w) a b); [|done|].
  - intros w0 w1 (E1 & E2 & E3 & E4 & E5 & E6 & E7)%view_eqs. split; [|done].
    unfold view_of; cbn. rewrite !fmap_delete. congruence.
  - split; cbn; try done. intros c Hc. by rewrite lookup_delete_ne.
Qed.

(** An access to the memory that gives the block [b] or takes it. *)
Lemma ms_heap a b (f : heap -> res (unit * heap)) (g : heap -> heap) (Q : unit -> world F -> Prop) w :
  (forall m1, length <$> m1 = length <$> mem w ->
     f m1 = Ok (tt, g m1) /\ length <$> g m1 = length <$> g (mem w)) ->
  (forall c, c <> b -> g (mem w) !! c = mem w !! c) ->
  unshared a b w -> Q tt (set_mem (g (mem w)) w) -> ms (heap_act (F := F) f) Q w.
Proof.
  intros Hf Hg Hu HQ. apply (ms_access _ (fun _ => True) _ w (set_mem (g (mem w)) w)); [| |by intros []].
  - intros w1 (E1 & E2 & E3 & E4 & E5 & E6 & E7)%view_eqs. destruct (Hf (mem w1) E5) as [-> Hl].
    cbn. eexists _, _. split; [done|]. split; [|done]. unfold view_of; cbn. congruence.
  - eapply allowed_touches; [exact Hu|]. by split.
Qed.

Lemma ms_worker_delete a k (Q : unit -> world F -> Prop) w :
  a <> 0 -> workers w !! a = Some k -> buf_ k <> 0 -> is_Some (mem w !! buf_ k) ->
  unshared a (buf_ k) w ->
  Q tt (set_workers (delete a (workers w)) (set_mem (delete (buf_ k) (mem w)) w)) ->
  ms (aesd_worker_delete (F := F) a) Q w.
Proof.
  intros Ha Hk Hb [bs Hbs] Hu HQ. apply ms_bind, (ms_worker_at a k); [done..|]. intros k1 Hk1.
  assert (buf_ k1 = buf_ k) as -> by by injection Hk1. apply ms_bind. unfold free.
  rewrite (proj2 (Z.eqb_neq _ _) Hb). apply (ms_heap a (buf_ k) _ (delete (buf_ k))); [| |done|].
  - intros m1 Hm. rewrite !fmap_delete, Hm. split; [|done].
    assert (is_Some (m1 !! buf_ k)) as [bs1 Hbs1].
    { apply (fmap_is_Some (length (A := Byte.byte))). rewrite <- lookup_fmap, Hm, lookup_fmap, Hbs. by eexists. }
    unfold release. by rewrite Hbs1.
  - intros c Hc. by rewrite lookup_delete_ne.
  - apply (ms_drop_worker a (buf_ k)); [|done]. eapply touches_unshared; [|exact Hu].
    split; cbn; try done. intros c Hc. by rewrite lookup_delete_ne.
Qed.

(** Setting a member of a structure that only the main thread has, *)
Lemma ms_store_worker a b k f (Q : unit -> world F -> Prop) w :
  (forall k k1, unflag k1 = unflag k -> unflag (f k1) = unflag (f k)) ->
  a <> 0 -> workers w !! a = Some k -> unshared a b w ->
  Q tt (set_workers (<[a := f k]> (workers w)) w) -> ms (store_worker (F := F) a f) Q w.
Proof.
  intros Hf Ha Hk Hu HQ.
  apply (ms_access _ (fun _ => True) _ w (set_workers (<[a := f k]> (workers w)) w)); [| |by intros []].
  - intros w1 Hv. destruct (view_worker _ _ _ _ Hv Hk) as (k1 & Hk1 & Hu1).
    rewrite (proj2 (Z.eqb_neq _ _) Ha), Hk1. eexists _, _. split; [done|]. split; [|done].
    apply view_eqs in Hv as (E1 & E2 & E3 & E4 & E5 & E6 & E7).
    unfold view_of; cbn. rewrite !fmap_insert, (Hf k k1 Hu1). congruence.
  - eapply allowed_touches; [exact Hu|]. split; cbn; try done. intros c Hc. by rewrite lookup_insert_ne.
Qed.

(** and a flag of one that is running. *)
Lemma ms_store_flag a k f (Q : unit -> world F -> Prop) w :
  (forall k, unflag (f k) = unflag k) -> a <> 0 -> workers w !! a = Some k -> Q tt w ->
  ms (store_worker (F := F) a f) Q w.
Proof.
  intros Hf Ha Hk HQ. apply (ms_access _ (fun _ => True) _ w w); [|by apply allowed_same|by intros []].
  intros w1 Hv. destruct (view_worker _ _ _ _ Hv Hk) as (k1 & Hk1 & Hu1).
  rewrite (proj2 (Z.eqb_neq _ _) Ha), Hk1. eexists _, _. split; [done|]. split; [|done].
  rewrite <- Hv. unfold view_of; cbn. f_equal. rewrite fmap_insert, Hf. apply insert_id.
  by rewrite lookup_fmap, Hk1.
Qed.

End main.
End PoolMain.
