(* ===== verification/PoolServer.v ===== *)
(** * The server and its workers at the same time: the server's operations

    What the main thread does to its workers while they run: starting one, reaping
    the ones that have exited, and stopping all ([ms_accept_client],
    [ms_check_workers], [ms_srv_shutdown]), up to the server's whole run. *)

From S2P Require Import Prelude Interleave Process Worker WorkerSpec Server ServerSpec ServerWorkers ServerAccept ServerPool PoolMain.

Module PoolServer.
Import Interleave Memory SList OutputFile Process Worker WorkerSpec Server ServerSpec ServerWorkers ServerAccept.
Import ServerPool PoolMain.

Section server.
Context {F : Type} `{OutputFileLaws F}.
Implicit Types (w : world F) (ps : list slot).

(** The next call of the main thread, by what is proved of it. *)
Ltac ms_call L := apply ms_bind; eapply ms_mono; [|by eapply L]; cbv beta.

(** ** Lemmas *)

(** The running workers are those of the slots. *)
Lemma pool_thread w ps id c :
  pool w ps -> threads w !! id = Some c ->
  exists q, q ∈ ps /\ sl_tid q = id /\ slot_ok w q /\ sl_worker q = c.
Proof.
  intros Hp Hc. assert (id ∈ sl_tid <$> ps) as Hin.
  { apply (elem_of_list_to_set (C := gset Z)). rewrite <- (proj1 (pl_threads _ _ Hp)). by eapply elem_of_dom_2. }
  apply list_elem_of_fmap in Hin as (q & -> & Hq).
  pose proof (pl_slots _ _ Hp) as Hs. rewrite Forall_forall in Hs. specialize (Hs q Hq).
  exists q. split_and!; [done..|]. pose proof (so_thread _ _ Hs). congruence.
Qed.

Lemma pool_unshared w a b ps :
  pool w ps -> workers w !! a = None -> mem w !! b = None -> unshared a b w.
Proof.
  intros Hp Ha Hb id c Hc. destruct (pool_thread _ _ _ _ Hp Hc) as (q & Hq & _ & Hok & <-).
  destruct (so_worker _ _ Hok) as (k & Hk & Hbuf). exists k. split_and!; [done|congruence|].
  rewrite Hbuf. intros <-. apply (holds_elem _ _ _ (pl_bufs _ _ Hp) Hb).
  by apply list_elem_of_fmap_2.
Qed.

(** Once its thread is gone, nobody uses what a slot [p] has. *)
Lemma joined_unshared w l1 p l2 w' :
  pool w (l1 ++ p :: l2) -> threads w' = delete (sl_tid p) (threads w) -> workers w' = workers w ->
  unshared (sl_worker p) (sl_buf p) w'.
Proof.
  intros Hp Et Ew id c. rewrite Et, Ew. intros [Hne Hc]%lookup_delete_Some.
  destruct (pool_thread _ _ _ _ Hp Hc) as (q & Hq & Hid & Hok & <-).
  destruct (so_worker _ _ Hok) as (k & Hk & Hbuf). exists k. split; [done|].
  assert (q ∈ l1 ++ l2) as Hq'.
  { apply elem_of_app in Hq as [Hq|Hq]; apply elem_of_app; [by left|right].
    apply elem_of_cons in Hq as [->|]; [|done]. by destruct Hne. }
  rewrite Hbuf. split.
  - exact (fmap_ne sl_worker _ _ _ _ (proj2 (pl_workers _ _ Hp)) Hq').
  - exact (fmap_ne sl_buf _ _ _ _ (proj2 (pl_bufs _ _ Hp)) Hq').
Qed.

(** ** Joining *)

Lemma ms_join a e c (Q : unit -> world F -> Prop) w :
  a <> 0 -> wentries w !! a = Some e -> threads w !! tid e = Some c ->
  Q tt (set_threads (delete (tid e) (threads w)) w) -> ms (aesd_worker_entry_join (F := F) a) Q w.
Proof.
  intros Ha He Hc HQ. apply ms_bind. eapply ms_entry_at; [done..|]. split.
  { intros id [= <-]. by eapply elem_of_dom_2. }
  intros w1 x _ _. cbn [joined]. intros w2 Hv _.
  destruct (view_eqs _ _ Hv) as (E1 & E2 & E3 & E4 & E5 & E6 & E7). rewrite E3, Hc.
  assert (view_of (set_threads (delete (tid e) (threads w)) w2)
          = view_of (set_threads (delete (tid e) (threads w)) w)) as Hv'.
  { unfold view_of; cbn. congruence. }
  rewrite Hv'. split; [|split; [by left|]].
  - split; cbn.
    + intros id b Hb Hn. rewrite lookup_delete_ne by set_solver. split; [done|]. by intros k [].
    + intros id b [_ Hb]%lookup_delete_Some. congruence.
    + by apply timer_ok_same.
  - cbn. split; [rewrite dom_delete_L; set_solver|]. by eexists; split; [reflexivity|].
Qed.

(** Taking a worker out of the list, joining its thread and freeing it. *)
Lemma ms_release w l1 p l2 (Q : unit -> world F -> Prop) :
  pool w (l1 ++ p :: l2) ->
  (forall hd h, pool (without p hd h w) (l1 ++ l2) -> Q tt (without p hd h w)) ->
  ms (remove_worker_entry (sl_entry p);;
      aesd_worker_entry_join (sl_entry p);;
      aesd_worker_entry_delete (sl_entry p)) Q w.
Proof.
  intros Hpool HQ.
  destruct (pool_slot _ _ _ _ Hpool) as [[next Hen] (k & Hk & Hbuf) Hth [Hw0 Hb0]].
  pose proof (pl_list _ _ Hpool) as Hl. rewrite fmap_app, fmap_cons in Hl.
  assert (sl_entry p <> 0) as He0.
  { eapply chain_alloc; [exact Hl|]. apply elem_of_app. right. apply list_elem_of_here. }
  destruct (remove_ok _ _ _ _ _ Hl) as (hd & h & Hrm & Hl' & Hrel & Hsame).
  rewrite Hen in Hsame. rewrite <- fmap_app in Hl'.
  apply ms_bind. set (w1 := set_srv (srv_set_workers hd (srv w)) (set_wentries h w)).
  apply (ms_access _ (fun _ => True) _ w w1); [|by apply allowed_same|intros [] _].
  { intros w0 (E1 & E2 & E3 & E4 & E5 & E6 & E7)%view_eqs. rewrite E2, E4, Hrm. cbn.
    eexists _, _. split; [done|]. split; [|done]. unfold view_of; cbn. congruence. }
  apply ms_bind. eapply ms_join; [done|exact Hsame|exact Hth|]. cbn [tid].
  set (w2 := set_threads _ w1).
  apply ms_bind. eapply ms_entry_at; [done|exact Hsame|]. cbn [Process.worker].
  assert (is_Some (mem w2 !! buf_ k)) as Hmem.
  { apply elem_of_dom. unfold w2, w1; cbn. rewrite (proj1 (pl_bufs _ _ Hpool)), elem_of_list_to_set, Hbuf.
    apply list_elem_of_fmap_2, elem_of_app. right. apply list_elem_of_here. }
  apply ms_bind, (ms_worker_delete _ k); [done|exact Hk|by rewrite Hbuf|done| |].
  { rewrite Hbuf. by eapply joined_unshared. }
  apply (ms_modify (fun w => set_wentries (delete (sl_entry p) (wentries w)) w)).
  - intros w3 w4 (E1 & E2 & E3 & E4 & E5 & E6 & E7)%view_eqs. split; [|done]. unfold view_of; cbn. congruence.
  - by apply allowed_same.
  - rewrite Hbuf. apply (HQ hd h). by apply pool_without.
Qed.

(** ** Reaping and stopping *)

(** The process's timer, if there is one, is the server's, which knows of it. *)
Definition timers_known (w : world F) : Prop :=
  timers w = ∅ \/ (timer_ (srv w) <> 0 /\ exists armed, timers w = {[ timer_ (srv w) := armed ]}).

(** The main thread's state between operations: the pool of its workers, the mutex
    they share, and the size of their buffers. *)
Record steady (w : world F) ps : Prop := Steady {
  sy_pool : pool w ps;
  sy_lock : SRV_LOCK ∈ dom (mutexes w);
  sy_timers : timers_known w;
  sy_size : 0 <= s_buf_size_ (srv w) < 2 ^ 63
}.

Lemma steady_without w l1 p l2 hd h :
  steady w (l1 ++ p :: l2) -> pool (without p hd h w) (l1 ++ l2) ->
  steady (without p hd h w) (l1 ++ l2).
Proof. by intros [_ Hl Ht Hs] Hp. Qed.

Lemma ms_next w l1 p l2 :
  pool w (l1 ++ p :: l2) ->
  ms (next_worker_entry (F := F) (sl_entry p))
    (fun t w' => t = default 0 (head (sl_entry <$> l2)) /\ w' = w) w.
Proof.
  intros Hpool. pose proof (pl_list _ _ Hpool) as Hl. rewrite fmap_app, fmap_cons in Hl.
  apply (ms_look _ (fun t => t = default 0 (head (sl_entry <$> l2)))); [|done].
  intros w1 (_ & -> & _)%view_eqs. rewrite (slist_next _ _ _ _ _ Hl). by eexists.
Qed.

(** A worker's flag as the worker has stored it by then. *)
Lemma ms_load_exited a k (Q : bool -> world F -> Prop) w :
  a <> 0 -> workers w !! a = Some k -> (forall b, Q b w) -> ms (load_exited (F := F) a) Q w.
Proof.
  intros Ha Hk HQ. apply ms_bind, (ms_worker_at a k); [done..|]. intros k1 _.
  destruct (exited k1); [by apply ms_ret|]. apply ms_bind, ms_ask; [done|].
  intros w1 b _ [_ Hb]. cbn in Hb. subst b. by apply ms_ret.
Qed.

Lemma ms_check_worker w l1 p l2 :
  steady w (l1 ++ p :: l2) ->
  ms (check_worker (F := F) (sl_entry p)) (fun _ w' => exists l, steady w' (l ++ l2)) w.
Proof.
  intros Hw. pose proof (sy_pool _ _ Hw) as Hpool.
  destruct (pool_slot _ _ _ _ Hpool) as [[next Hen] (k & Hk & _) _ [Hw0 _]].
  assert (sl_entry p <> 0) as He0.
  { pose proof (pool_nonnull _ _ Hpool) as Hn. rewrite fmap_app, fmap_cons in Hn.
    by apply Forall_app in Hn as [_ [? _]%Forall_cons]. }
  apply ms_bind. eapply ms_entry_at; [done|exact Hen|].
  apply ms_bind. eapply ms_load_exited; [done|exact Hk|]. intros [].
  - eapply ms_release; [exact Hpool|]. intros hd h Hp. exists l1. by eapply steady_without.
  - apply ms_ret. exists (l1 ++ [p]). by rewrite <- app_assoc.
Qed.

Lemma ms_check_workers w ps :
  steady w ps -> ms (check_workers (F := F)) (fun _ w' => exists kept, steady w' kept) w.
Proof.
  intros Hw. pose proof (sy_pool _ _ Hw) as Hpool. pose proof (pl_list _ _ Hpool) as Hl.
  apply ms_bind. apply (ms_look _ (fun n => n = size (wentries w))); [|intros ? ->].
  { intros w1 (_ & -> & _)%view_eqs. by eexists. }
  apply ms_bind, ms_get_srv. unfold SLIST_FIRST. rewrite (chain_head _ _ _ Hl).
  eapply ms_mono; [|apply (ms_foreach_safe _
    (fun todo w => exists l tps, todo = sl_entry <$> tps /\ steady w (l ++ tps)))].
  - intros _ w' (l & tps & Ht & Hw'). symmetry in Ht. apply fmap_nil_inv in Ht as ->. by eauto.
  - by eapply chain_size.
  - by eapply pool_nonnull.
  - by exists [], ps.
  - intros x r w1 (l & [|p tps] & Ht & Hw1); [done|]. injection Ht as -> ->.
    eapply ms_next, Hw1.
  - intros x r w1 (l & [|p tps] & Ht & Hw1); [done|]. injection Ht as -> ->.
    eapply ms_mono; [|by eapply ms_check_worker]. intros ? w2 [l' Hw2]. by exists l', tps.
Qed.

Lemma ms_stop_worker w p ps :
  steady w (p :: ps) ->
  ms (stop_worker (F := F) (sl_entry p)) (fun _ w' => steady w' ps /\ timers w' = timers w) w.
Proof.
  intros Hw. pose proof (sy_pool _ _ Hw) as Hpool.
  destruct (pool_slot w [] p ps Hpool) as [[next Hen] (k & Hk & _) _ [Hw0 _]].
  pose proof (pool_nonnull _ _ Hpool) as Hn. apply Forall_cons in Hn as [He0 _].
  apply ms_bind. eapply ms_entry_at; [done|exact Hen|].
  apply ms_bind. eapply ms_store_flag; [done|done|exact Hk|].
  apply (ms_release w [] p ps _ Hpool). intros hd h Hp. split; [|done].
  by apply (steady_without w [] p ps).
Qed.

Lemma ms_stop_workers fuel w ps :
  (length ps <= fuel)%nat -> steady w ps ->
  ms (SLIST_FOREACH_SAFE (next_worker_entry (F := F)) fuel (SLIST_FIRST (workers_ (srv w))) stop_worker)
    (fun _ w' => steady w' [] /\ timers w' = timers w) w.
Proof.
  intros Hfu Hw. pose proof (sy_pool _ _ Hw) as Hpool. pose proof (pl_list _ _ Hpool) as Hl.
  unfold SLIST_FIRST. rewrite (chain_head _ _ _ Hl).
  eapply ms_mono; [|apply (ms_foreach_safe _
    (fun todo w' => exists tps, todo = sl_entry <$> tps /\ steady w' tps /\ timers w' = timers w))].
  - intros _ w' (tps & Ht & Hw'). symmetry in Ht. by apply fmap_nil_inv in Ht as ->.
  - by rewrite length_fmap.
  - by eapply pool_nonnull.
  - by exists ps.
  - intros x r w1 ([|p tps] & Ht & Hw1 & _); [done|]. injection Ht as -> ->.
    apply (ms_next w1 [] p tps), Hw1.
  - intros x r w1 ([|p tps] & Ht & Hw1 & Hti); [done|]. injection Ht as -> ->.
    eapply ms_mono; [|by apply ms_stop_worker]. intros ? w2 [Hw2 E].
    exists tps. by rewrite E.
Qed.

(** ** Files and sockets *)

(** They are not in the view. *)
Lemma ms_close fd (Q : Z -> world F -> Prop) w : (forall r, Q r w) -> ms (close (F := F) fd) Q w.
Proof.
  intros HQ. apply ms_bind, ms_ask; [done|]. intros _ r _ _.
  by apply ms_bind, ms_modify_same; [|apply ms_ret].
Qed.

Lemma ms_set_fd fd d (Q : unit -> world F -> Prop) w : Q tt w -> ms (set_fd (F := F) fd d) Q w.
Proof. by apply ms_modify_same. Qed.

Lemma ms_syslog e (Q : unit -> world F -> Prop) w : Q tt w -> ms (syslog (F := F) e) Q w.
Proof. by apply ms_modify_same. Qed.

Lemma ms_accept sock (Q : Z * Z -> world F -> Prop) w :
  (forall fd addr, Q (fd, addr) w) -> ms (accept (F := F) sock) Q w.
Proof.
  intros HQ. apply ms_bind, ms_ask; [done|]. intros _ [[[fd addr] id] arrivals] _ _.
  destruct (fd =? -1); [by apply ms_ret|]. apply ms_bind, ms_set_fd.
  by apply ms_bind, ms_modify_same; [|apply ms_ret].
Qed.

(** [socket], [bind] and [listen] alike: a question, and on success a descriptor. *)
Lemma ms_fd_call q d (fd : panswer q -> Z) (f : panswer q -> Z) (Q : Z -> world F -> Prop) w :
  (forall id, q <> QThreadJoin id) -> (forall r, Q r w) ->
  ms (r ← ask (S := P F) q; if fd r =? -1 then mret (-1) else set_fd (F := F) (f r) d;; mret (fd r)) Q w.
Proof.
  intros Hq HQ. apply ms_bind, ms_ask; [done|]. intros _ r _ _.
  destruct (fd r =? -1); [by apply ms_ret|]. by apply ms_bind, ms_set_fd, ms_ret.
Qed.

Lemma steady_srv w ps (f : aesd_server -> aesd_server) :
  (forall s, workers_ (f s) = workers_ s /\ s_buf_size_ (f s) = s_buf_size_ s /\ timer_ (f s) = timer_ s) ->
  steady w ps -> steady (set_srv (f (srv w)) w) ps.
Proof.
  intros Hf [Hp Hl Ht Hs]. destruct (Hf (srv w)) as (Ew & Es & Et).
  split; unfold timers_known; cbn; rewrite ?Es, ?Et; [by apply (pool_frame w)|done..].
Qed.

Lemma ms_steady_srv (f : aesd_server -> aesd_server) w ps :
  (forall s, workers_ (f s) = workers_ s /\ s_buf_size_ (f s) = s_buf_size_ s /\ timer_ (f s) = timer_ s) ->
  steady w ps -> ms (upd_srv (F := F) f) (fun _ w' => steady w' ps) w.
Proof. intros Hf Hw. by apply ms_upd_srv, steady_srv. Qed.

Lemma ms_bind_loop infos w ps :
  steady w ps -> ms (bind_loop (F := F) infos) (fun _ w' => steady w' ps) w.
Proof.
  intros Hw. induction infos as [|ai infos IH]; cbn [bind_loop]; [by apply ms_ret|].
  apply ms_bind, (ms_fd_call (QSocket ai) _ id id); [done|]. intros fd.
  destruct (fd =? -1); [done|]. apply ms_bind, ms_ask; [done|]. intros _ r _ _. cbn in r.
  destruct (r =? -1); [by apply ms_bind, ms_close; intros ?; apply ms_ret|].
  apply ms_bind, (ms_fd_call (QBind fd ai) _ id (fun _ => fd)); [done|]. intros r'.
  destruct (r' =? -1); [by apply ms_bind, ms_close|]. by apply ms_steady_srv.
Qed.

Lemma ms_srv_bind port w ps :
  steady w ps -> ms (srv_bind (F := F) port) (fun _ w' => steady w' ps) w.
Proof.
  intros Hw. apply ms_bind, ms_ask; [done|]. intros _ [gai infos] _ _.
  destruct (negb (gai =? 0)); [by apply ms_ret|].
  ms_call ms_steady_srv. intros ? w1 Hw1.
  ms_call ms_bind_loop. intros ? w2 Hw2.
  apply ms_bind, ms_get_srv. destruct (negb _); [|by apply ms_ret].
  ms_call ms_steady_srv. intros ? w3 Hw3. by apply ms_ret.
Qed.

Lemma ms_srv_listen backlog w ps :
  steady w ps -> ms (srv_listen (F := F) backlog) (fun _ w' => steady w' ps) w.
Proof.
  intros Hw. apply ms_bind, ms_get_srv.
  apply ms_bind, (ms_fd_call (QListen (sock_fd_ (srv w)) backlog) _ id (fun _ => sock_fd_ (srv w)));
    [done|]. intros r.
  destruct (r =? -1); [by apply ms_bind, ms_close; intros ?; apply ms_ret|].
  by apply ms_bind, ms_get_srv, ms_bind, ms_syslog, ms_ret.
Qed.

(** ** Starting a worker *)

Lemma view_fresh_worker w w1 a :
  view_of w1 = view_of w -> workers w1 !! a = None -> workers w !! a = None.
Proof. intros (E & _)%view_eqs. by eapply fmap_fresh. Qed.

Lemma view_fresh_mem w w1 b :
  view_of w1 = view_of w -> mem w1 !! b = None -> mem w !! b = None.
Proof. intros (_ & _ & _ & _ & E & _)%view_eqs. by eapply fmap_fresh. Qed.

(** The new structure and its buffer are nobody else's. *)
Lemma ms_worker_new size dev path lock (Q : Z -> world F -> Prop) w ps :
  pool w ps -> Q 0 w ->
  (forall a b garbage, 0 < a -> workers w !! a = None -> 0 < b -> mem w !! b = None ->
     length garbage = Z.to_nat size ->
     Q a (with_worker a b garbage (Worker 0 (-1) false false b size dev lock path) w)) ->
  ms (aesd_worker_new (F := F) size dev path lock) Q w.
Proof.
  intros Hp Hnull HQ. apply ms_bind, ms_ask; [done|]. intros w1 [a uninit] Hv1 [Ha _].
  destruct (Z.eqb_spec a 0) as [->|Ha0]; [by apply ms_ret|].
  destruct Ha as [?|[Hap Hfree]]; [done|]. cbn in Hap, Hfree. apply (view_fresh_worker _ _ _ Hv1) in Hfree.
  apply ms_bind, (ms_set_worker a (next_key 0 (mem w))).
  { eapply pool_unshared; [done..|]. apply next_key_fresh. }
  apply ms_bind, ms_ask; [done|]. intros w2 [b garbage] Hv2 [Hb _].
  destruct (Z.eqb_spec b 0) as [->|Hb0].
  - apply ms_bind, (ms_drop_worker a (next_key 0 (mem w))).
    + eapply touches_unshared; [|eapply pool_unshared; [done..|]; apply next_key_fresh].
      split; try done. intros c Hc. cbn. by rewrite lookup_insert_ne.
    + apply ms_ret. unfold set_workers; cbn. rewrite delete_insert_eq, delete_id by done. by destruct w.
  - destruct Hb as [?|(Hbp & Hbfree & Hlen)]; [done|]. cbn in Hbp, Hbfree, Hlen.
    apply (view_fresh_mem _ _ _ Hv2) in Hbfree. cbn in Hbfree.
    pose proof (pool_unshared _ a b _ Hp Hfree Hbfree) as Hu.
    apply ms_bind, (ms_heap a b _ (fun m => <[b := garbage]> m)).
    + intros m1 Hm. by rewrite !fmap_insert, Hm.
    + intros c Hc. by rewrite lookup_insert_ne.
    + eapply touches_unshared; [|exact Hu]. split; try done. intros c Hc. cbn. by rewrite lookup_insert_ne.
    + apply ms_bind, (ms_set_worker a b).
      { eapply touches_unshared; [|exact Hu].
        split; try done; intros c Hc; cbn; by rewrite lookup_insert_ne. }
      apply ms_ret. specialize (HQ a b garbage Hap Hfree Hbp Hbfree Hlen).
      revert HQ. unfold with_worker, set_workers, set_mem; cbn. by rewrite insert_insert_eq.
Qed.

(** A new thread starts with what it relies on. *)
Lemma allowed_spawn t a k w w' :
  threads w !! t = None -> threads w' = <[t := a]> (threads w) -> workers w' = workers w ->
  mem w' = mem w -> mutexes w' = mutexes w -> timers w' = timers w -> owns a k (view_of w') ->
  allowed ∅ (view_of w) (view_of w').
Proof.
  intros Ht Et Ew Em El Eti Ho. split; cbn; rewrite ?Et.
  3: { apply timer_ok_same; [by rewrite El|done]. }
  - intros id c Hc _. split; [rewrite lookup_insert_ne; congruence|].
    intros κ. by apply owns_same.
  - intros id c [[<- <-]|[_ Hc]]%lookup_insert_Some Hn; [by exists k|congruence].
Qed.

Lemma ms_entry_new a (Q : Z -> world F -> Prop) w :
  (forall e en, 0 < e -> wentries w !! e = None -> worker en = a ->
     Q e (set_wentries (<[e := en]> (wentries w)) w)) ->
  ms (aesd_worker_entry_new (F := F) a) Q w.
Proof.
  intros HQ. apply ms_bind, ms_ask; [done|]. intros w1 [e uninit] Hv [He Hne]. cbn in Hne.
  rewrite (proj2 (Z.eqb_neq e 0) Hne). destruct He as [?|[Hep Hen]]; [done|]. cbn in Hep, Hen.
  rewrite (proj1 (proj2 (view_eqs _ _ Hv))) in Hen. apply ms_bind.
  apply (ms_modify (fun w => set_wentries (<[e := WorkerEntry (tid uninit) a (entries uninit)]> (wentries w)) w)).
  - intros w3 w4 (E1 & E2 & E3 & E4 & E5 & E6 & E7)%view_eqs. split; [|done]. unfold view_of; cbn. congruence.
  - by apply allowed_same.
  - by apply ms_ret, HQ.
Qed.

Lemma ms_insert_entry e en (Q : unit -> world F -> Prop) w :
  e <> 0 -> wentries w !! e = Some en ->
  Q tt (set_srv (srv_set_workers (SListHead e) (srv w))
          (set_wentries (<[e := set_sle_next (slh_first (workers_ (srv w))) en]> (wentries w)) w)) ->
  ms (insert_worker_entry (F := F) e) Q w.
Proof.
  intros He Hen HQ. eapply (ms_access _ (fun _ => True)); [| |by intros [] _].
  - intros w1 (E1 & E2 & E3 & E4 & E5 & E6 & E7)%view_eqs. rewrite E2, E4. unfold SLIST_INSERT_HEAD.
    rewrite (link_some _ e en) by done. cbn. eexists _, _. split; [done|]. split; [|done].
    unfold view_of; cbn. congruence.
  - by apply allowed_same.
Qed.

Lemma ms_entry_start e en k (Q : bool -> world F -> Prop) w :
  e <> 0 -> wentries w !! e = Some en -> owns (worker en) k (view_of w) ->
  (forall t, threads w !! t = None ->
     Q true (set_threads (<[t := worker en]> (threads w))
               (set_wentries (<[e := WorkerEntry t (worker en) (entries en)]> (wentries w)) w))) ->
  ms (aesd_worker_entry_start (F := F) e) Q w.
Proof.
  intros He Hen Ho HQ. apply ms_bind. eapply ms_entry_at; [done|exact Hen|].
  apply ms_bind, ms_ask; [done|]. intros w1 [error t] Hv [Ht Hok]. cbn in Hok. subst error.
  destruct Ht as [?|Ht]; [done|]. cbn in Ht. pose proof (view_eqs _ _ Hv) as (_ & _ & E & _).
  rewrite E in Ht. cbn [Z.eqb]. apply ms_bind.
  apply (ms_modify (fun w => set_threads (<[t := worker en]> (threads w))
    (set_wentries (<[e := WorkerEntry t (worker en) (entries en)]> (wentries w)) w))).
  - intros w2 w3 (E1 & E2 & E3 & E4 & E5 & E6 & E7)%view_eqs. split; [|done]. unfold view_of; cbn. congruence.
  - by eapply allowed_spawn; [exact Ht|..|destruct Ho].
  - by apply ms_ret, HQ.
Qed.

(** The worker that [accept_client] starts. *)
Lemma new_owns w a b garbage fd addr :
  0 < a -> 0 < b -> length garbage = Z.to_nat (s_buf_size_ (srv w)) ->
  SRV_LOCK ∈ dom (mutexes w) -> 0 <= s_buf_size_ (srv w) < 2 ^ 63 ->
  let k := set_client fd addr (new_worker (srv w) b) in
  owns a (unflag k) (view_of (with_worker a b garbage k w)).
Proof.
  intros Ha Hb Hl Hlock Hs k. split; cbn; [lia| | |done|done].
  - by rewrite lookup_fmap, lookup_insert_eq.
  - rewrite lookup_fmap, lookup_insert_eq. cbn. by rewrite Hl.
Qed.

Lemma ms_accept_client w ps :
  steady w ps -> ms (accept_client (F := F)) (fun _ w' => exists ps', steady w' ps') w.
Proof.
  intros Hw. pose proof Hw as [Hp Hlock Hti Hsz]. apply ms_bind, ms_get_srv. unfold id.
  apply ms_bind, (ms_worker_new _ _ _ _ _ w ps); [done|by apply ms_ret; exists ps|].
  intros a b garbage Ha Hna Hb Hnb Hlen. rewrite (proj2 (Z.eqb_neq a 0)) by lia.
  set (k0 := Worker _ _ _ _ _ _ _ _ _).
  assert (forall k, unshared a b (with_worker a b garbage k w)) as Hu.
  { intros k. eapply touches_unshared; [|by eapply pool_unshared].
    split; try done; intros c Hc; cbn; by rewrite lookup_insert_ne. }
  apply ms_bind, ms_accept. intros fd addr.
  apply ms_bind, (ms_store_worker a b k0); [|lia|cbn; by rewrite lookup_insert_eq|done|].
  { intros k k1 E. injection E as E1 E2 E3 E4 E5 E6 E7. unfold set_client, unflag; cbn. congruence. }
  set (k := set_client fd addr k0).
  replace (set_workers (<[a := k]> (workers (with_worker a b garbage k0 w))) (with_worker a b garbage k0 w))
    with (with_worker a b garbage k w).
  2: { unfold with_worker, set_workers, set_mem; cbn. by rewrite insert_insert_eq. }
  destruct (fd =? -1).
  - apply ms_bind, (ms_worker_delete a k); [lia|cbn; by rewrite lookup_insert_eq|cbn; lia| |done|].
    + cbn. rewrite lookup_insert_eq. by eexists.
    + apply ms_ret. exists ps. unfold set_workers, set_mem, with_worker; cbn.
      rewrite !delete_insert_eq, !delete_id by done. by destruct w.
  - apply ms_bind, ms_syslog.
    apply ms_bind, ms_entry_new. intros e en Hep Hen Ha'. cbn in Hen.
    apply ms_bind. eapply ms_entry_start; [lia|cbn; by rewrite lookup_insert_eq| |].
    { rewrite Ha'. by eapply owns_same; [..|apply (new_owns w a b garbage fd addr)]. }
    intros t Ht. cbn in Ht. cbn [negb].
    apply ms_bind. eapply ms_insert_entry; [lia|cbn; by rewrite lookup_insert_eq|].
    apply ms_ret. exists (Slot e a t b :: ps). split; [|done..].
    apply (pool_frame (accepted w (Slot e a t b) fd 0 addr [] garbage)); [by apply pool_accepted|done..| | |done].
    + cbn. by rewrite !insert_insert_eq, Ha'.
    + cbn. by rewrite Ha'.
Qed.

(** ** The whole run *)

Lemma ms_load_running w ps :
  steady w ps -> ms (load_running (F := F)) (fun _ w' => steady w' ps) w.
Proof.
  intros Hw. apply ms_bind, ms_get_srv. destruct (negb _); [by apply ms_ret|].
  apply ms_bind, ms_ask; [done|]. intros _ [] _ _; [|by apply ms_ret].
  ms_call ms_steady_srv. intros ? w1 Hw1. by apply ms_ret.
Qed.

Lemma ms_serve fuel w ps :
  steady w ps -> ms (serve (F := F) fuel) (fun _ w' => exists ps', steady w' ps') w.
Proof.
  revert w ps. induction fuel as [|fuel IH]; intros w ps Hw; [done|]. cbn [serve].
  ms_call ms_load_running. intros running w1 Hw1.
  destruct (negb running); [apply ms_ret; by exists ps|].
  ms_call ms_accept_client. intros accepted w2 [ps2 Hw2].
  apply ms_bind. destruct accepted.
  - eapply ms_mono; [|by eapply ms_check_workers]. intros ? w3 [ps3 Hw3]. by eapply IH.
  - apply ms_ret. by eapply IH.
Qed.

(** Nobody holds the mutex once there are no workers. *)
Lemma ms_mutex_access (f : world F -> res (unit * world F)) b (Q : unit -> world F -> Prop) w :
  threads w = ∅ ->
  (forall w1, view_of w1 = view_of w -> mutexes w1 !! SRV_LOCK <> Some true ->
     f w1 = Ok (tt, set_mutexes (partial_alter (fun _ => b) SRV_LOCK (mutexes w1)) w1)) ->
  b <> Some true -> b = Some false \/ timers w = ∅ ->
  Q tt (set_mutexes (partial_alter (fun _ => b) SRV_LOCK (mutexes w)) w) -> ms (act (S := P F) f) Q w.
Proof.
  intros Ht Hf Hb Hti HQ w1 Hv Hl. rewrite (Hf w1 Hv (Hl Ht)).
  destruct (view_eqs _ _ Hv) as (E1 & E2 & E3 & E4 & E5 & E6 & E7).
  assert (view_of (set_mutexes (partial_alter (fun _ => b) SRV_LOCK (mutexes w1)) w1)
          = view_of (set_mutexes (partial_alter (fun _ => b) SRV_LOCK (mutexes w)) w)) as Hv'.
  { unfold view_of; cbn. f_equal; try done.
    apply set_eq. intros c. rewrite !elem_of_dom. destruct (decide (c = SRV_LOCK)) as [->|Hc].
    - by rewrite !lookup_partial_alter_eq.
    - by rewrite !lookup_partial_alter_ne, <- !(elem_of_dom (D := gset Z)), E6. }
  rewrite Hv'. split; [|split; [|split; [set_solver|by eexists; split; [reflexivity|]]]].
  - split; cbn; rewrite ?Ht.
    + intros id c Hc. by rewrite lookup_empty in Hc.
    + intros id c Hc. by rewrite lookup_empty in Hc.
    + intros _ id. unfold lock_there. cbn. destruct Hti as [->| ->]; [|done].
      intros _. apply elem_of_dom. by rewrite lookup_partial_alter_eq.
  - right. split; [done|]. cbn. by rewrite lookup_partial_alter_eq.
Qed.

Lemma ms_mutex_destroy (Q : unit -> world F -> Prop) w :
  threads w = ∅ -> timers w = ∅ -> SRV_LOCK ∈ dom (mutexes w) ->
  Q tt (set_mutexes (delete SRV_LOCK (mutexes w)) w) ->
  ms (pthread_mutex_destroy (F := F) SRV_LOCK) Q w.
Proof.
  intros Ht Hti Hd. apply (ms_mutex_access _ None); [done| |done|by right].
  intros w1 (_ & _ & _ & _ & _ & E & _)%view_eqs Hl. rewrite <- E in Hd.
  apply elem_of_dom in Hd as [[] Hb]; by rewrite Hb in Hl |- *.
Qed.

Lemma ms_mutex_init (Q : unit -> world F -> Prop) w :
  threads w = ∅ -> Q tt (set_mutexes (<[SRV_LOCK := false]> (mutexes w)) w) ->
  ms (pthread_mutex_init (F := F) SRV_LOCK) Q w.
Proof. intros Ht. by apply (ms_mutex_access _ (Some false)); [| | |left]. Qed.

Lemma pool_no_threads w : pool w [] -> threads w = ∅.
Proof. intros Hp. apply dom_empty_inv_L. by rewrite (proj1 (pl_threads _ _ Hp)). Qed.

(** Timers. *)
Lemma allowed_timers m w :
  SRV_LOCK ∈ dom (mutexes w) -> allowed ∅ (view_of w) (view_of (set_timers m w)).
Proof.
  intros Hl. split; cbn; [|congruence|by intros _ id _].
  intros id c Hc _. split; [done|]. intros k. by apply owns_same.
Qed.

Lemma ms_set_timers (g : gmap Z bool -> gmap Z bool) (Q : unit -> world F -> Prop) w :
  SRV_LOCK ∈ dom (mutexes w) -> Q tt (set_timers (g (timers w)) w) ->
  ms (modify (S := P F) (fun w => set_timers (g (timers w)) w)) Q w.
Proof.
  intros Hl. apply (ms_modify (fun w => set_timers (g (timers w)) w)); [|by apply allowed_timers].
  intros w0 w1 (E1 & E2 & E3 & E4 & E5 & E6 & E7)%view_eqs. split; [|done]. unfold view_of; cbn. congruence.
Qed.

Lemma ms_timer_delete id (Q : Z -> world F -> Prop) w :
  SRV_LOCK ∈ dom (mutexes w) -> (forall r, Q r (set_timers (delete id (timers w)) w)) ->
  ms (timer_delete (F := F) id) Q w.
Proof.
  intros Hl HQ. apply ms_bind, ms_ask; [done|]. intros w1 r Hv [Hr _]. cbn in r.
  destruct Hr as [->|[-> Hn]]; cbn [Z.eqb].
  - by apply ms_bind, (ms_set_timers (delete id)); [|apply ms_ret].
  - apply ms_ret. specialize (HQ (-1)). destruct (view_eqs _ _ Hv) as (_ & _ & _ & _ & _ & _ & E).
    rewrite delete_id in HQ by by rewrite <- E. by destruct w.
Qed.

Lemma ms_unlink path (Q : Z -> world F -> Prop) w : (forall r, Q r w) -> ms (unlink (F := F) path) Q w.
Proof.
  intros HQ. apply ms_bind, ms_ask; [done|]. intros _ r _ _. cbn in r.
  destruct (r =? 0); [|by apply ms_ret]. by apply ms_bind, ms_modify_same; [|apply ms_ret].
Qed.

Lemma ms_stop_timer w ps :
  steady w ps ->
  ms (if negb (timer_ (srv w) =? 0) then timer_delete (F := F) (timer_ (srv w));; mret tt else mret tt)
    (fun _ w' => w' = set_timers ∅ w) w.
Proof.
  intros Hw. pose proof (sy_timers _ _ Hw) as Hti. destruct (Z.eqb_spec (timer_ (srv w)) 0) as [Hz|Hz]; cbn [negb].
  - apply ms_ret. destruct Hti as [<-|[? _]]; [by destruct w|done].
  - apply ms_bind, ms_timer_delete; [apply Hw|]. intros r. apply ms_ret.
    by destruct Hti as [->|[_ [armed ->]]]; rewrite ?delete_empty, ?delete_singleton_eq.
Qed.

Lemma ms_srv_shutdown w ps :
  steady w ps -> ms (srv_shutdown (F := F)) (fun _ w' => pool w' [] /\ timers w' = ∅) w.
Proof.
  intros Hw. apply ms_bind, ms_get_srv. unfold id. apply ms_bind.
  apply ms_mono with (Q := fun _ w' => w' = set_timers ∅ w).
  2: { by eapply ms_stop_timer. }
  intros ? ? ->. apply ms_bind, ms_close. intros _. set (w0 := set_timers ∅ w).
  assert (steady w0 ps) as Hw0 by (destruct Hw; split; [by apply (pool_frame w)|done|by left|done]).
  apply ms_bind. apply (ms_look _ (fun n => n = size (wentries w))); [|intros ? ->].
  { intros w1 (_ & -> & _)%view_eqs. by eexists. }
  apply ms_bind. eapply ms_mono; [|apply (ms_stop_workers _ w0 ps); [|done]].
  2: { pose proof (chain_size _ _ _ (pl_list _ _ (sy_pool _ _ Hw))) as Hsz. by rewrite length_fmap in Hsz. }
  intros ? w1 [[Hp Hl _ _] Hti]. apply ms_bind. apply ms_mono with (Q := fun _ w' => w' = w1).
  2: { destruct (negb _); [|by apply ms_ret]. apply ms_bind, ms_unlink. intros r. by apply ms_ret. }
  intros ? ? ->. apply ms_mutex_destroy; [by apply pool_no_threads|done|done|].
  split; [by apply (pool_frame w1)|done].
Qed.

Lemma ms_server_run fuel port backlog w :
  steady w [] -> ms (aesd_server_run (F := F) fuel port backlog) 
    (fun r w' => pool w' [] /\ (r = 0 -> timers w' = ∅)) w.
Proof.
  intros Hw. ms_call ms_srv_bind. intros bound w1 Hw1.
  destruct (negb bound); [by apply ms_ret; split; [apply Hw1|]|].
  ms_call ms_srv_listen. intros listening w2 Hw2.
  destruct (negb listening); [by apply ms_ret; split; [apply Hw2|]|].
  ms_call ms_steady_srv. intros ? w3 Hw3.
  ms_call ms_serve. intros ? w4 [ps Hw4].
  ms_call ms_srv_shutdown. intros ? w5 [Hp Hti]. by apply ms_ret.
Qed.

(** What the process has before the server starts: none of the server's things. *)
Record unused (w : world F) : Prop := Unused {
  un_mem : mem w = ∅;
  un_workers : workers w = ∅;
  un_entries : wentries w = ∅;
  un_threads : threads w = ∅
}.

Lemma pool_unused w : pool w [] -> unused w.
Proof.
  intros [_ _ [He _] [Hw _] [Ht _] [Hm _]]. by split; apply dom_empty_inv_L.
Qed.

Lemma unused_pool w : unused w -> workers_ (srv w) = SLIST_INIT -> pool w [].
Proof.
  intros [Hm Hw He Ht] Hs. split; rewrite ?Hm, ?Hw, ?He, ?Ht, ?Hs;
    by first [done|apply Forall_nil_2|split; [rewrite dom_empty_L|apply NoDup_nil_2]].
Qed.

Lemma steady_timers w ps t armed :
  steady w ps -> t <> 0 ->
  steady (set_srv (srv_set_timer t (srv w)) (set_timers {[ t := armed ]} w)) ps.
Proof. intros [Hp Hl _ Hs] Ht. split; [by apply (pool_frame w)|done|right; by eauto|done]. Qed.

Lemma ms_start_timer w ps :
  steady w ps -> timers w = ∅ ->
  ms (start_timestamp_timer (F := F)) (fun _ w' => steady w' ps) w.
Proof.
  intros Hw Hti. apply ms_bind, ms_ask; [done|]. intros _ r _ _. cbn in r.
  destruct (r =? -1); [by apply ms_ret|].
  apply ms_bind, ms_bind, ms_ask; [done|]. intros w1 [r' t] _ [Hr Ht].
  destruct (Z.eqb_spec r' (-1)) as [->|Hne]; [by apply ms_ret, ms_ret|].
  destruct Hr as [[Hr _]|?]; [|done]. cbn in Hr, Ht. specialize (Ht Hr).
  apply ms_bind, (ms_set_timers (<[t := false]>)); [apply Hw|]. apply ms_ret.
  rewrite (proj2 (Z.eqb_neq _ _) Hne), Hti, insert_empty. apply ms_bind, ms_upd_srv.
  apply ms_bind, ms_bind, ms_ask; [done|]. intros _ r2 _ _. cbn in r2.
  destruct (r2 =? -1); [by apply ms_ret, ms_ret, (steady_timers w)|].
  apply ms_bind, (ms_set_timers (<[t := true]>)); [apply Hw|]. apply ms_ret, ms_ret. cbn.
  rewrite insert_singleton_eq. exact (steady_timers w ps t true Hw Ht).
Qed.

Lemma ms_server_init size dev path w :
  unused w -> timers w = ∅ -> 0 <= size < 2 ^ 63 ->
  ms (aesd_server_init (F := F) size dev path) (fun _ w' => steady w' []) w.
Proof.
  intros Hu Hti Hs. apply ms_bind, ms_mutex_init; [apply Hu|]. apply ms_bind, ms_upd_srv.
  set (w1 := set_srv _ _). assert (steady w1 []) as Hw.
  { split; [|cbn; set_solver|by left|done]. apply unused_pool; [|done]. by destruct Hu. }
  destruct (negb dev); [|by apply ms_ret]. by apply ms_start_timer.
Qed.

End server.
End PoolServer.
