(* ===== verification/ServerConcurrent.v ===== *)
(** * The server and its workers at the same time: theorems

    [aesd_server_init] and [aesd_server_run] in the main thread, with every worker it
    starts and the timer's signal, in every interleaving of their accesses. *)

From S2P Require Import Prelude Interleave Process Worker WorkerSpec Server ServerSpec ServerPool PoolWorker PoolMain PoolServer.

Module ServerConcurrent.
Import Interleave Memory SList OutputFile Process Worker WorkerSpec Server ServerSpec.
Import ServerPool PoolWorker PoolMain PoolServer.

Section server.
Context {F : Type} `{OutputFileLaws F} `{Delivery}.
Implicit Types w : world F.

(** The server as [main] runs it. *)
Definition server_main (fuel : nat) (size : Z) (dev : bool) (path port : string) (backlog : Z)
    : prog (P F) Z :=
  aesd_server_init size dev path;; aesd_server_run fuel port backlog.

(** A process in which the server has not started. *)
Record fresh_process (w : world F) : Prop := FreshProcess {
  fp_unused : unused w;
  fp_lock : mutexes w !! SRV_LOCK = None;
  fp_timers : timers w = ∅
}.

Definition server_start fuel size dev path port backlog w : config Z :=
  Config (server_main fuel size dev path port backlog) None ∅ w.

(** What the main thread leaves when it returns; its status is 0 after a shutdown. *)
Definition stopped (r : Z) (done : gset Z) (v : view) : Prop :=
  exists w, view_of w = v /\ unused w /\ (r = 0 -> timers w = ∅).

Lemma server_main_safe fuel size dev path port backlog w :
  fresh_process w -> 0 <= size < 2 ^ 63 ->
  msafe ∅ (server_main fuel size dev path port backlog) stopped (view_of w).
Proof.
  intros [Hu _ Ht] Hs. eapply msafe_mono; [|apply (ms_bind (aesd_server_init size dev path)
    (fun _ => aesd_server_run fuel port backlog) (fun r w' => unused w' /\ (r = 0 -> timers w' = ∅)))].
  { intros r d v (_ & w' & Hv & Hq). by exists w'. }
  eapply ms_mono; [|by apply ms_server_init]. intros ? w1 Hw1.
  eapply ms_mono; [|by apply ms_server_run]. intros ? w2 [Hp Ht2]. split; [by apply pool_unused|done].
Qed.

Lemma view_unused w w1 : view_of w1 = view_of w -> unused w -> unused w1.
Proof.
  intros (E1 & E2 & E3 & _ & E5 & _)%view_eqs [Hm Hw He Ht]. rewrite Hm, fmap_empty in E5.
  rewrite Hw, fmap_empty in E1. apply fmap_empty_inv in E1, E5. split; congruence.
Qed.

(** The threads of every reachable state satisfy the invariant. *)
Lemma workers_safe fuel a k v :
  owns a k v -> wsafe (owns a k) false (aesd_worker_main (F := F) fuel a) (fun h _ => h = false).
Proof. intros Ho. apply wsafe_worker_main; apply Ho. Qed.

Lemma handlers_safe (R : view -> Prop) h :
  (forall v, R v -> lock_there v) -> (h = true -> any_thread = true) ->
  wsafe R h (alarm_handler (F := F) SIGALRM) (fun h' _ => h' = h).
Proof. intros HR Hd. by apply wsafe_alarm_handler. Qed.

Lemma run_inv fuel size dev path port backlog w c o :
  fresh_process w -> 0 <= size < 2 ^ 63 ->
  server_run fuel (server_start fuel size dev path port backlog w) c o ->
  exists done, server_inv stopped c done o.
Proof.
  intros Hw Hs Hr. eapply server_inv_run; [apply workers_safe|apply handlers_safe|
    apply no_client_alarm_handler| |exact Hr].
  apply server_inv_start; [by apply server_main_safe|apply Hw|apply Hw|].
  by rewrite (fp_lock _ Hw).
Qed.

Lemma reachable_inv fuel size dev path port backlog w c :
  fresh_process w -> 0 <= size < 2 ^ 63 ->
  rtc (server_step fuel) (server_start fuel size dev path port backlog w) c ->
  exists done o, server_inv stopped c done o.
Proof.
  intros Hw Hs Hst. destruct (server_run_of_steps _ _ _ _ _ (run_start _ _) Hst) as [o Hr].
  destruct (run_inv _ _ _ _ _ _ _ _ _ Hw Hs Hr) as [done Hi]. by exists done, o.
Qed.

Lemma calm_threads w q : posix_threads w q (calm w tt q).1.
Proof.
  split; [apply calm_posix|]. pose proof (calm_fresh (wentries w)) as [? _].
  pose proof (calm_fresh (timers w)) as [? _]. destruct q; cbn; (done || lia).
Qed.

Lemma posix_threads_total w q : exists x, posix_threads w q x.
Proof. eexists. apply calm_threads. Qed.

(** C8: while the server runs, with its workers and with the timer's signal
    interrupting it or any of them, however their accesses interleave, whatever
    clients send and whichever calls fail, except that entries and threads can be had,
    the timer's identifier is not null and no client closes its connection before its
    response: no thread reads or writes a worker, entry or buffer that is freed,
    outside its block or through a null pointer, frees or unlocks what is not its own,
    uses the mutex once it is destroyed or destroys it while it is held, or joins a
    thread twice; the main thread waits for the mutex in the signal's handler only,
    and only workers wait for a client. When it returns, all workers have returned and
    nothing it allocated is left; and when it has shut down, the timer is deleted. *)
Theorem server_pool_safe fuel size dev path port backlog w c :
  fresh_process w -> 0 <= size < 2 ^ 63 ->
  rtc (server_step fuel) (server_start fuel size dev path port backlog w) c ->
  (handler c = None -> faultless [] (main_thread c) (process c))
  /\ (forall p, handler c = Some p -> faultless [Deadlock] p (process c))
  /\ (forall id p, worker_threads c !! id = Some p -> faultless [Deadlock; Silent] p (process c))
  /\ (forall r, main_thread c = Ret r ->
        unused (process c) /\ (r = 0 -> timers (process c) = ∅)
        /\ forall id p, worker_threads c !! id = Some p -> p = Ret tt).
Proof.
  intros Hw Hs Hr. destruct (reachable_inv _ _ _ _ _ _ _ _ Hw Hs Hr) as (done & o & Hi).
  destruct (server_inv_faultless _ _ _ _ Hi) as (Hmain & Hhandler & Hworkers). split_and!; [done..|].
  intros r Hret. pose proof (si_main _ _ _ _ Hi) as Hm. rewrite Hret in Hm.
  destruct Hm as (w1 & Hv & Hun & Hti). assert (unused (process c)) as Hpu by by eapply view_unused.
  split_and!; [done| |].
  - intros Hz. apply view_eqs in Hv as (_ & _ & _ & _ & _ & _ & <-). by apply Hti.
  - intros id p Hp. apply (si_others _ _ _ _ Hi id p Hp). left. by rewrite (un_threads _ Hpu).
Qed.

(** C9: no thread of the server takes part in a deadlock while the timer's signal goes
    to the main thread. In every state a run leads to, with [o] the thread that locked
    the mutex last and has not unlocked it: a thread has ended, or waits for no other
    thread (it can take a step; its client is silent; or a loop has used up its fuel
    and would go round again), or it waits for one that does not, or for one that waits
    for one that does not. Only the main thread waits to join, and at the mutex a
    thread waits for [o]. So a wait is without end only where the worker that has the
    mutex goes on without end, for its client is silent ([receive_data_waits]) or
    gone ([receive_data_spins]). *)
Theorem server_pool_progress fuel size dev path port backlog w c o t :
  any_thread = false -> fresh_process w -> 0 <= size < 2 ^ 63 ->
  server_run fuel (server_start fuel size dev path port backlog w) c o ->
  ended c t \/ unblocked fuel c t
  \/ exists t', waits_for o c t t'
       /\ (unblocked fuel c t' \/ exists t'', waits_for o c t' t'' /\ unblocked fuel c t'').
Proof.
  intros Hno Hw Hs Hr. destruct (run_inv _ _ _ _ _ _ _ _ _ Hw Hs Hr) as [done Hi].
  by apply (server_inv_waits fuel stopped Hno posix_threads_total c done o).
Qed.

(** C28: when the system delivers the timer's signal to the worker that has the output's
    mutex, the handler waits there for its own thread: whatever happens after that, the
    worker does not return, the mutex is not free again, and the server does not stop,
    since its shutdown waits for the worker. *)
Theorem interrupted_worker_hangs fuel size dev path port backlog w t id p m h ts w1 c :
  any_thread = true -> fresh_process w -> 0 <= size < 2 ^ 63 ->
  server_run fuel (server_start fuel size dev path port backlog w) (Config m h ts w1)
    (Some (WorkerThread id)) ->
  timers w1 !! t = Some true -> ts !! id = Some p ->
  rtc (server_step fuel) (Config m h (<[id := alarm_handler SIGALRM;; p]> ts) w1) c ->
  worker_threads c !! id <> Some (Ret tt) /\ mutexes (process c) !! SRV_LOCK = Some true
  /\ forall r, main_thread c <> Ret r.
Proof.
  intros Hat Hw Hs Hr Ht Hp Hr2. destruct (run_inv _ _ _ _ _ _ _ _ _ Hw Hs Hr) as [done Hi].
  assert (p <> Ret tt) as Hne by (intros ->; by eapply server_inv_returned in Hi).
  assert (hung stopped c id) as ([d Hi'] & q & Hq & Hn).
  { eapply hung_steps; [apply workers_safe|apply handlers_safe|apply no_client_alarm_handler| |exact Hr2].
    split; [|eexists; split; [apply lookup_insert_eq|apply never_past_handler]].
    exists done. eapply inv_worker_interrupted; [apply handlers_safe|done..]. }
  split_and!.
  - intros He. rewrite Hq in He. by injection He as ->.
  - by eapply owner_held.
  - intros r Hret. pose proof (si_main _ _ _ _ Hi') as Hm. rewrite Hret in Hm.
    destruct Hm as (w2 & Hv & Hun & _). destruct (si_holder _ _ _ _ Hi' id eq_refl) as [[a Ha] _].
    assert (unused (process c)) as Hpu by by eapply view_unused. by rewrite (un_threads _ Hpu) in Ha.
Qed.

End server.

(** ** Witnesses *)

(** A scheduler: each turn names the thread that moves, or the timer that fires. One
    that cannot is passed over. *)
Inductive turn : Type :=
| Main
| Handler
| Fire (timer : Z)
| Work (id : Z)
| Interrupt (timer id : Z).

Section schedule.
Context {F : Type} `{OutputFile F} `{Delivery} (fuel : nat) (o : env (P F) unit).
Context (Ho : respects posix_threads o).

Definition main_next {A} (m : prog (P F) A) ts (w : world F) : config A :=
  match m with
  | Ask q k =>
      let x := fst (o w tt q) in
      match q with
      | QThreadJoin id =>
          match ts !! id with
          | Some (Ret tt) => Config (k x) None ts w
          | _ => Config m None ts w
          end
      | _ => Config (k x) None ts w
      end
  | Act f k =>
      match f w with
      | Ok (b, w') => Config (k b) None (start_threads fuel w w' ts) w'
      | Err _ => Config m None ts w
      end
  | _ => Config m None ts w
  end.

Definition thread_next (p : prog (P F) unit) (w : world F) : prog (P F) unit * world F :=
  match p with
  | Ask q k => (k (fst (o w tt q)), w)
  | Act f k => match f w with Ok (b, w') => (k b, w') | Err _ => (p, w) end
  | _ => (p, w)
  end.

Definition take_turn {A} (c : config (F := F) A) (t : turn) : config A :=
  let '(Config m h ts w) := c in
  match t, h with
  | Main, None => main_next m ts w
  | Handler, Some (Ret tt) => Config m None ts w
  | Handler, Some p => let '(p', w') := thread_next p w in Config m (Some p') ts w'
  | Fire id, None =>
      match timers w !! id with
      | Some true => Config m (Some (alarm_handler SIGALRM)) ts w
      | _ => c
      end
  | Work id, _ =>
      match ts !! id with
      | Some p => let '(p', w') := thread_next p w in Config m h (<[id := p']> ts) w'
      | None => c
      end
  | Interrupt t id, _ =>
      if any_thread && bool_decide (timers w !! t = Some true) then
        match ts !! id with
        | None | Some (Ret tt) => c
        | Some p => Config m h (<[id := alarm_handler SIGALRM;; p]> ts) w
        end
      else c
  | _, _ => c
  end.

Definition schedule {A} (l : list turn) (c : config (F := F) A) : config A := foldl take_turn c l.

Lemma main_next_steps {A} (m : prog (P F) A) ts w :
  rtc (server_step fuel) (Config m None ts w) (main_next m ts w).
Proof.
  destruct m as [x|q k|B f k|e]; cbn; try done.
  - assert ((forall id, q = QThreadJoin id -> ts !! id = Some (Ret tt)) ->
      rtc (server_step fuel) (Config (Ask q k) None ts w) (Config (k (o w tt q).1) None ts w)) as Hst.
    { intros Hj. apply rtc_once. eapply thread_moves, main_asks; [apply Ho|done]. }
    destruct q; try by apply Hst.
    destruct (ts !! tid0) as [[[]| | |]|] eqn:Hr; try done. apply Hst. by intros id [= <-].
  - destruct (f w) as [[b w']|] eqn:Hf; [|done]. apply rtc_once. by eapply thread_moves, main_acts.
Qed.

Lemma thread_next_steps p w :
  thread_next p w = (p, w)
  \/ step (S := P F) posix_threads p w (thread_next p w).1 (thread_next p w).2.
Proof.
  destruct p as [x|q k|B f k|e]; cbn; [by left| | |by left].
  - right. apply step_ask, Ho.
  - destruct (f w) as [[b w']|] eqn:Hf; [right; cbn|by left]. by apply step_act.
Qed.

Lemma take_turn_steps {A} (c : config A) t : rtc (server_step fuel) c (take_turn c t).
Proof.
  destruct c as [m h ts w]. destruct t as [| |id|id|t id]; cbn.
  - destruct h; [done|]. apply main_next_steps.
  - destruct h as [p|]; [|done]. destruct p as [[]|q k|B f k|e] eqn:Hp.
    { eapply rtc_once, thread_moves, handler_returns. }
    all: rewrite <- Hp; destruct (thread_next_steps p w) as [->|Hst]; [done|];
      destruct (thread_next p w); by eapply rtc_once, thread_moves, handler_moves.
  - destruct h; [done|]. destruct (timers w !! id) as [[]|] eqn:Ht; try done.
    by eapply rtc_once, signal_comes, timer_fires.
  - destruct (ts !! id) as [p|] eqn:Hp; [|by destruct h].
    destruct (thread_next_steps p w) as [He|Hst].
    + rewrite He. rewrite insert_id by done. by destruct h.
    + destruct (thread_next p w). destruct h; by eapply rtc_once, thread_moves, worker_moves.
  - destruct (any_thread && _) eqn:Ht; [|by destruct h].
    apply andb_prop in Ht as [Hd Ht%bool_decide_eq_true].
    destruct (ts !! id) as [p|] eqn:Hp; [|by destruct h].
    assert (p <> Ret tt -> rtc (server_step fuel) (Config m h ts w)
              (Config m h (<[id := alarm_handler SIGALRM;; p]> ts) w)) as Hst.
    { intros Hne. by eapply rtc_once, signal_comes, worker_interrupted. }
    destruct p as [[]| | |]; (done || by apply Hst).
Qed.

Lemma schedule_steps {A} l (c : config A) : rtc (server_step fuel) c (schedule l c).
Proof.
  revert c. induction l as [|t l IH]; intros c; [done|]. cbn.
  etrans; [apply take_turn_steps|apply IH].
Qed.

End schedule.

Definition empty_process : world plain_file :=
  World ∅ ∅ ∅ ∅ ∅ ∅ ∅ ∅ ∅ [] (Server false 0 false "" "" (-1) 0 SLIST_INIT).

Lemma empty_fresh : fresh_process empty_process.
Proof. by split. Qed.

(** One client connects and sends a line; then a signal stops the server. *)
Definition one_client : env (P plain_file) unit := fun w x q =>
  match q return panswer q * unit with
  | QAccept _ => ((next_key 0 (fds w), 7, next_key 0 (conns w), [RxData [Byte.x68; newline]]), x)
  | QStopped => (bool_decide (1 <= size (threads w))%nat, x)
  | q => calm w x q
  end.

Lemma one_client_threads : respects posix_threads one_client.
Proof.
  intros w [] q. destruct q; try apply (calm_threads w); [by split|].
  pose proof (calm_fresh (fds w)) as [? ?]. pose proof (calm_fresh (conns w)) as [_ ?].
  split; [|done]. right. split_and!; [lia|done|done].
Qed.

Definition sample_start : config Z := server_start 6 4 false "/out" "9000" 5 empty_process.

Lemma sample_reached `{Delivery} l :
  rtc (server_step 6) sample_start (schedule 6 one_client l sample_start).
Proof. apply schedule_steps, one_client_threads. Qed.

(** The timer fires once before the client is there, and its signal goes to the main
    thread; the second time it goes to the worker, which has started but not locked
    the mutex. The worker runs between the steps of the main thread. *)
Definition every_thread : Delivery := {| any_thread := true |}.
Definition main_only : Delivery := {| any_thread := false |}.

Definition sample_end : config Z :=
  schedule (H0 := every_thread) 6 one_client
    (replicate 20 Main ++ [Fire 1] ++ replicate 20 Handler ++ replicate 22 Main ++ [Interrupt 1 1]
     ++ mjoin (replicate 60 [Work 1; Work 1; Main]) ++ replicate 40 Main) sample_start.

(** The client has the two timestamps and its line, the server has stopped, and nothing
    is left. *)
Lemma server_pool_safe_witness :
  main_thread sample_end = Ret 0
  /\ conns (process sample_end) !! 1 = Some (Conn [] [newline; newline; Byte.x68; newline])
  /\ unused (process sample_end) /\ timers (process sample_end) = ∅
  /\ (forall id p, worker_threads sample_end !! id = Some p -> p = Ret tt).
Proof.
  assert (main_thread sample_end = Ret 0) as Hr by (vm_compute; reflexivity).
  split; [exact Hr|]. split; [vm_compute; reflexivity|].
  destruct (server_pool_safe (H1 := every_thread) 6 4 false "/out" "9000" 5 empty_process sample_end)
    as (_ & _ & _ & Hend).
  - apply empty_fresh.
  - lia.
  - apply sample_reached.
  - destruct (Hend 0 Hr) as (Hu & Ht & Hw). split; [exact Hu|]. split; [exact (Ht eq_refl)|exact Hw].
Defined.

(** The worker has locked the mutex when the signal comes. *)
Definition sample_locked : config Z :=
  schedule (H0 := every_thread) 6 one_client (replicate 42 Main ++ replicate 5 (Work 1)) sample_start.

Definition locked_worker : prog (P plain_file) unit :=
  default (Ret tt) (worker_threads sample_locked !! 1).

Definition sample_hangs : config Z :=
  schedule (H0 := every_thread) 6 one_client (mjoin (replicate 60 [Work 1; Main]))
    (Config (main_thread sample_locked) None
       (<[1 := alarm_handler SIGALRM;; locked_worker]> (worker_threads sample_locked))
       (process sample_locked)).

Lemma sample_locked_config :
  sample_locked = Config (main_thread sample_locked) None (worker_threads sample_locked) (process sample_locked).
Proof.
  assert (handler sample_locked = None) as Hh by (vm_compute; reflexivity).
  revert Hh. by destruct sample_locked as [m [h|] ts w].
Qed.

Lemma sample_locked_worker : worker_threads sample_locked !! 1 = Some locked_worker.
Proof.
  assert (bool_decide (is_Some (worker_threads sample_locked !! 1)) = true) as Hs by (vm_compute; reflexivity).
  apply bool_decide_eq_true in Hs as [p Hp]. unfold locked_worker. by rewrite Hp.
Qed.

Lemma sample_locked_run :
  server_run (H0 := every_thread) 6 sample_start sample_locked (Some (WorkerThread 1)).
Proof.
  destruct (server_run_of_steps (H0 := every_thread) 6 sample_start sample_start sample_locked None)
    as [o Hr]; [apply run_start|apply sample_reached|].
  destruct (run_inv (H1 := every_thread) 6 4 false "/out" "9000" 5 empty_process sample_locked o)
    as [done Hi]; [apply empty_fresh|lia|exact Hr|].
  rewrite (sole_worker_owner (H0 := every_thread) stopped _ _ _ 1 Hi) in Hr; [exact Hr| |vm_compute; reflexivity].
  assert (bool_decide (dom (worker_threads sample_locked) = {[1]}) = true) as Hd by (vm_compute; reflexivity).
  apply bool_decide_eq_true in Hd. split; [vm_compute; reflexivity|].
  intros j p Hj Hp%elem_of_dom_2. rewrite Hd in Hp.
  apply elem_of_singleton in Hp. by destruct (Hj Hp).
Qed.

Lemma interrupted_worker_hangs_witness :
  mutexes (process sample_hangs) !! SRV_LOCK = Some true
  /\ forall r, main_thread sample_hangs <> Ret r.
Proof.
  apply (interrupted_worker_hangs (H1 := every_thread) 6 4 false "/out" "9000" 5 empty_process 1 1
    locked_worker (main_thread sample_locked) None (worker_threads sample_locked) (process sample_locked)
    sample_hangs).
  - reflexivity.
  - apply empty_fresh.
  - lia.
  - rewrite <- sample_locked_config. apply sample_locked_run.
  - vm_compute. reflexivity.
  - apply sample_locked_worker.
  - apply schedule_steps, one_client_threads.
Defined.

(** The signal has interrupted the main thread, and its handler waits for the worker
    to give the mutex back. *)
Definition sample_waiting : config Z :=
  schedule (H0 := main_only) 6 one_client
    (replicate 42 Main ++ replicate 5 (Work 1) ++ [Fire 1] ++ replicate 5 Handler) sample_start.

Definition handler_waits {F A} (c : config (F := F) A) : bool :=
  match handler c with
  | Some (Act f _) => match f (process c) with Err Deadlock => true | _ => false end
  | _ => false
  end.

Lemma handler_waits_blocked {F} `{OutputFile F} {A} fuel (c : config (F := F) A) :
  handler_waits c = true -> ~ unblocked fuel c MainThread.
Proof.
  unfold handler_waits, unblocked, out_of_fuel, awaits_client, next_of.
  destruct c as [m h ts w]. cbn. destruct h as [[x|q k|B f k|e]|]; try done.
  destruct (f w) as [|[]] eqn:Hf; try done. intros _ [[c' Hst]|[|]]; try done.
  inversion Hst as [| |p p' m' ts' w1 w2 Hp| |]; subst. apply step_ok in Hp as [x Hx]. congruence.
Qed.

(** It can only wait for the worker, which waits for nobody. *)
Lemma server_pool_progress_witness :
  exists o, server_run (H0 := main_only) 6 sample_start sample_waiting o
    /\ exists t', waits_for o sample_waiting MainThread t'
         /\ (unblocked 6 sample_waiting t'
             \/ exists t'', waits_for o sample_waiting t' t''
                  /\ unblocked 6 sample_waiting t'').
Proof.
  destruct (server_run_of_steps (H0 := main_only) 6 sample_start sample_start sample_waiting None)
    as [o Hr]; [apply run_start|apply sample_reached|]. exists o. split; [exact Hr|].
  destruct (server_pool_progress (H1 := main_only) 6 4 false "/out" "9000" 5 empty_process
    sample_waiting o MainThread) as [Hend|[Hun|Hw]].
  - reflexivity.
  - apply empty_fresh.
  - lia.
  - exact Hr.
  - exfalso. destruct Hend as [Hh _]. vm_compute in Hh. discriminate Hh.
  - exfalso. apply (handler_waits_blocked 6 sample_waiting); [vm_compute; reflexivity|exact Hun].
  - exact Hw.
Defined.

End ServerConcurrent.
