(* ===== verification/Daemon.v ===== *)
(** * The server program

    [server/src/aesdsocket.c]: becoming a daemon, the signal handler, and [main],
    which runs the server. The program's state is the server's process with what
    a daemon changes of a process; the server's own code runs on its part of it
    ([server]). *)

From stdpp Require Import strings.
From S2P Require Import Prelude Process Worker WorkerSpec Server ServerSpec.
From S2P Require Import ServerWorkers ServerAccept ServerRun.

Module Daemon.
Import Memory SList OutputFile Process Worker WorkerSpec Server ServerSpec.
Import ServerWorkers ServerAccept ServerRun.

Definition BACKLOG : Z := 5.
Definition BUF_SIZE : Z := 256.
Definition PORT : string := "9000".
Definition OUTPUT_FILE (USE_AESD_CHAR_DEVICE : bool) : string :=
  if USE_AESD_CHAR_DEVICE then "/dev/aesdchar" else "/var/tmp/aesdsocketdata".

Definition STDIN_FILENO : Z := 0.
Definition STDOUT_FILENO : Z := 1.
Definition STDERR_FILENO : Z := 2.

(** ** The process *)

Record dproc (F : Type) : Type := DProc {
  process : world F;
  leader : bool;            (* of a session of its own *)
  cwd : string;
  handled : list Z          (* the signals [signal_handler] is registered for *)
}.
Arguments DProc {F}.
Arguments process {F}.
Arguments leader {F}.
Arguments cwd {F}.
Arguments handled {F}.

Inductive dquery : Type :=
| DServer (q : pquery)
| QFork                               (* -1, 0 in the child, or the child *)
| QSetsid
| QChdir (path : string)
| QOpenNull                           (* [open("/dev/null", O_RDWR)] *)
| QDup2Fails (fd new : Z)
| QHandle (sig : Z).                  (* [sigaction] *)

Definition danswer (q : dquery) : Type :=
  match q with
  | DServer q => panswer q
  | QFork | QSetsid | QChdir _ | QOpenNull | QHandle _ => Z
  | QDup2Fails _ _ => bool
  end.

Definition D (F : Type) : sig := {| st := dproc F; query := dquery; answer := danswer |}.

Section daemon.
Context {F : Type} `{OutputFile F}.

Abbreviation proc := (prog (D F)).

(** What the system promises, of the server's calls as [C] says. *)
Definition system (C : contract (P F)) : contract (D F) := fun s q =>
  match q return danswer q -> Prop with
  | DServer q => C (process s) q
  | QFork => fun pid => -1 <= pid
  | QSetsid => fun r => r = -1 \/ 0 < r
  | QChdir _ | QHandle _ => fun r => r = 0 \/ r = -1
  | QOpenNull => fun fd => fd = -1 \/ (0 <= fd /\ fds (process s) !! fd = None)
  | QDup2Fails _ _ => fun _ => True
  end.

Definition set_process (w : world F) (s : dproc F) : dproc F :=
  DProc w (leader s) (cwd s) (handled s).
Definition set_leader (b : bool) (s : dproc F) : dproc F :=
  DProc (process s) b (cwd s) (handled s).
Definition set_cwd (path : string) (s : dproc F) : dproc F :=
  DProc (process s) (leader s) path (handled s).
Definition set_handled (l : list Z) (s : dproc F) : dproc F :=
  DProc (process s) (leader s) (cwd s) l.

(** The server's code. *)
Definition server {A} (p : prog (P F) A) : proc A :=
  lift (S := P F) (S' := D F) process set_process DServer (fun _ a => a) p.

Definition setsid : proc Z :=
  r ← ask (S := D F) QSetsid;
  if (r : Z) =? -1 then mret (-1)
  else modify (S := D F) (set_leader true);; mret (r : Z).

Definition chdir (path : string) : proc Z :=
  r ← ask (S := D F) (QChdir path);
  if (r : Z) =? -1 then mret (-1)
  else modify (S := D F) (set_cwd path);; mret (r : Z).

Definition open_null : proc Z :=
  fd ← ask (S := D F) QOpenNull;
  if (fd : Z) =? -1 then mret (-1)
  else server (set_fd fd FdNull);; mret (fd : Z).

(** A descriptor that is not open, or negative, is refused. *)
Definition dup2 (fd new : Z) : proc Z :=
  fails ← ask (S := D F) (QDup2Fails fd new);
  open ← get (S := D F) (fun s => if fd <? 0 then None else fds (process s) !! fd);
  match open with
  | Some d => if (fails : bool) then mret (-1) else server (set_fd new d);; mret new
  | None => mret (-1)
  end.

(** ** The program *)

Definition daemonize : proc Z :=
  r ← setsid;
  if r =? -1 then mret (-1)
  else
    r ← chdir "/";
    if r =? -1 then mret (-1)
    else
      dev_null ← open_null;
      r ← dup2 dev_null STDIN_FILENO;
      if r =? -1 then mret (-1)
      else
        r ← dup2 dev_null STDOUT_FILENO;
        if r =? -1 then mret (-1)
        else
          r ← dup2 dev_null STDERR_FILENO;
          if r =? -1 then mret (-1)
          else mret 0.

Definition signal_handler (sig : Z) : proc (outcome unit) :=
  server (syslog LogSignal);;
  if (sig =? SIGINT) || (sig =? SIGTERM) then
    server (upd_srv (srv_set_running false));;
    mret (Return tt)
  else mret (Exit (-1)).

Definition handle (sig : Z) : proc (outcome unit) :=
  result ← ask (S := D F) (QHandle sig);
  if (result : Z) =? -1 then mret (Exit (-1))
  else
    modify (S := D F) (fun s => set_handled (handled s ++ [sig]) s);;
    mret (Return tt).

(** [main] from the comment "Initialize syslog" on. *)
Definition main_server (USE_AESD_CHAR_DEVICE : bool) (fuel : nat) (daemon : bool)
    : proc (outcome Z) :=
  when_returned (handle SIGINT) (fun _ =>
  when_returned (handle SIGTERM) (fun _ =>
    server (syslog (LogStarting daemon (OUTPUT_FILE USE_AESD_CHAR_DEVICE) PORT
                      USE_AESD_CHAR_DEVICE));;
    server (aesd_server_init BUF_SIZE USE_AESD_CHAR_DEVICE (OUTPUT_FILE USE_AESD_CHAR_DEVICE));;
    result ← server (aesd_server_run fuel PORT BACKLOG);
    server (syslog (LogExiting result));;
    mret (Return result))).

(** [(argc >= 2) && (strcmp("-d", argv[1]) == 0)]; a missing argument is a null
    pointer. *)
Definition daemon_mode (argc : Z) (argv : list string) : res bool :=
  if argc >=? 2 then
    match argv !! 1%nat with
    | Some a => Ok (String.eqb "-d" a)
    | None => Err NullDeref
    end
  else Ok false.

Definition main (USE_AESD_CHAR_DEVICE : bool) (fuel : nat) (argc : Z) (argv : list string)
    : proc (outcome Z) :=
  daemon ← of_res (daemon_mode argc argv);
  if (daemon : bool) then
    pid ← ask (S := D F) QFork;
    if (pid : Z) =? -1 then mret (Return (-1))
    else if negb (pid =? 0) then mret (Exit 0)
    else
      r ← daemonize;
      if r =? -1 then mret (Return (-1))
      else main_server USE_AESD_CHAR_DEVICE fuel daemon
  else main_server USE_AESD_CHAR_DEVICE fuel daemon.

End daemon.

(** ** What the program prepares *)

Section specification.
Context {F : Type}.
Implicit Types s : dproc F.

(** The process after [daemonize]: its standard descriptors, and the one left
    over, are the null device. *)
Definition null_stdio (fd : Z) (m : gmap Z fdesc) : gmap Z fdesc :=
  <[STDERR_FILENO := FdNull]> (<[STDOUT_FILENO := FdNull]>
    (<[STDIN_FILENO := FdNull]> (<[fd := FdNull]> m))).

Definition detached s s' : Prop :=
  exists fd, 0 <= fd /\ fds (process s) !! fd = None
    /\ s' = DProc (set_fds (null_stdio fd (fds (process s))) (process s)) true "/" (handled s).

(** The timer of the timestamps and the process's timers [m'] with it, from the
    timers [m]: none, or a new one, armed unless that fails. *)
Definition timer_started (timer : Z) (m m' : gmap Z bool) : Prop :=
  (timer = 0 /\ m' = m) \/ (m !! timer = None /\ exists armed, m' = <[timer := armed]> m).

(** The server just before it runs. *)
Definition initialised (char_device daemon : bool) (timer : Z) (m : gmap Z bool) (w : world F)
    : world F :=
  set_srv (Server false BUF_SIZE char_device (OUTPUT_FILE char_device) "" (-1) timer SLIST_INIT)
    (set_mutexes (<[SRV_LOCK := false]> (mutexes w))
      (set_timers m (set_logs (logs w ++ [LogStarting daemon (OUTPUT_FILE char_device) PORT char_device]) w))).

Definition prepared (char_device daemon : bool) s s1 : Prop :=
  exists s0 timer m,
    (if daemon then detached s s0 else s0 = s)
    /\ timer_started timer (timers (process s0)) m
    /\ s1 = DProc (initialised char_device daemon timer m (process s0)) (leader s0) (cwd s0)
              (handled s0 ++ [SIGINT; SIGTERM]).

(** The two signals [main] registers the handler for. *)
Definition stop_signal (sig : Z) : bool := (sig =? SIGINT) || (sig =? SIGTERM).

(** What a contract [CD] of the program's calls allows, and what it says of the
    server's. *)
Definition allowed (CD : contract (D F)) (q : dquery) (a : danswer q) : Prop :=
  exists s, CD s q a.
Definition server_calls (CD : contract (D F)) : contract (P F) := fun w q a =>
  exists s, process s = w /\ CD s (DServer q) a.

(** Why [daemonize] may have failed. *)
Definition no_daemon (CD : contract (D F)) : Prop :=
  allowed CD QSetsid (-1) \/ allowed CD (QChdir "/") (-1) \/ allowed CD QOpenNull (-1)
  \/ exists fd new, allowed CD (QDup2Fails fd new) true.

(** Nothing but the descriptors of the process has changed. *)
Definition server_untouched s s' : Prop :=
  exists m, process s' = set_fds m (process s).

Lemma untouched_refl s : server_untouched s s.
Proof. exists (fds (process s)). by destruct s as [[] ? ? ?]. Qed.

Lemma untouched_set s s' m :
  server_untouched s s' -> server_untouched s (set_process (set_fds m (process s')) s').
Proof. intros [m' Hm]. exists m. cbn. by rewrite Hm. Qed.

(** How [main] ends. *)
Inductive main_end (CD : contract (D F)) (char_device daemon : bool) (fuel : nat) s
    : res (outcome Z * dproc F) -> Prop :=
| main_parent pid :
    daemon = true -> allowed CD QFork pid -> pid <> -1 -> pid <> 0 ->
    main_end CD char_device daemon fuel s (Ok (Exit 0, s))
| main_no_fork :
    daemon = true -> allowed CD QFork (-1) ->
    main_end CD char_device daemon fuel s (Ok (Return (-1), s))
| main_not_detached s' :
    daemon = true -> no_daemon CD -> server_untouched s s' ->
    main_end CD char_device daemon fuel s (Ok (Return (-1), s'))
| main_not_handled sig s' :
    stop_signal sig = true -> allowed CD (QHandle sig) (-1) -> server_untouched s s' ->
    main_end CD char_device daemon fuel s (Ok (Exit (-1), s'))
| main_finished s1 status w' :
    prepared char_device daemon s s1 ->
    run_outcome (server_calls CD) (process s1) [] fuel PORT BACKLOG (Ok (status, w')) ->
    main_end CD char_device daemon fuel s
      (Ok (Return status, set_process (set_logs (logs w' ++ [LogExiting status]) w') s1))
| main_faulted s1 e :
    prepared char_device daemon s s1 ->
    run_outcome (server_calls CD) (process s1) [] fuel PORT BACKLOG (Err e) ->
    main_end CD char_device daemon fuel s (Err e).

End specification.

(** ** Rules *)

Section rules.
Context {F : Type} `{OutputFileLaws F}.
Context (CD : contract (D F)) (HCD : forall s q a, CD s q a -> system posix s q a).
Implicit Types (s : dproc F) (w : world F).

Abbreviation C := (server_calls CD).

Lemma server_calls_posix w q a : C w q a -> posix w q a.
Proof. intros (s & <- & Ha). exact (HCD _ _ _ Ha). Qed.

(** The server's code runs on its part of the state. *)
Lemma wpr_server {A} (p : prog (P F) A) (Q : res (A * dproc F) -> Prop) s :
  wpr C p (fun r => match r with
                    | Ok (a, w') => Q (Ok (a, set_process w' s))
                    | Err e => Q (Err e)
                    end) (process s) ->
  wpr CD (server p) Q s.
Proof.
  intros Hp. eapply wpr_mono.
  2: { apply (wpr_lift (S := P F) (S' := D F) process set_process DServer (fun _ a => a)
         ltac:(done) ltac:(done) ltac:(by intros []) C); [by intros s' q a Ha; exists s'|exact Hp]. }
  intros [[a s']|e]; cbn; [|done]. by intros (t & -> & ?).
Qed.

(** A run of it that cannot fault. *)
Lemma wp_server {A} (p : prog (P F) A) (Q : A -> dproc F -> Prop) s :
  wp C p (fun a w' => Q a (set_process w' s)) (process s) -> wp CD (server p) Q s.
Proof.
  revert s. induction p as [a|q k IH|B f k IH|e]; intros s; unfold wp, server; cbn.
  - by destruct s.
  - intros Hk a Ha. apply IH, Hk. by exists s.
  - destruct (f (process s)) as [[b t]|e]; cbn; [|done]. intros Hk. apply IH, Hk.
  - done.
Qed.

Lemma wp_open_null s (Q : Z -> dproc F -> Prop) :
  (allowed CD QOpenNull (-1) -> Q (-1) s) ->
  (forall fd, 0 <= fd -> fds (process s) !! fd = None ->
     Q fd (set_process (set_fds (<[fd := FdNull]> (fds (process s))) (process s)) s)) ->
  wp CD open_null Q s.
Proof.
  intros Hf Hs. unfold open_null. wp_step. apply (wp_ask (S := D F)). intros fd Ha.
  pose proof (HCD _ _ _ Ha) as Hfd. cbn in fd, Hfd.
  destruct (Z.eqb_spec fd (-1)) as [->|Hne]; [by apply wp_ret, Hf; exists s|].
  destruct Hfd as [?|[Hp Hn]]; [done|]. wp_step. apply wp_server.
  unfold set_fd. wp_step. apply wp_ret. by apply Hs.
Qed.

Lemma wp_dup2 s fd new (Q : Z -> dproc F -> Prop) :
  (fd < 0 \/ fds (process s) !! fd = None \/ allowed CD (QDup2Fails fd new) true -> Q (-1) s) ->
  (forall d, 0 <= fd -> fds (process s) !! fd = Some d ->
     Q new (set_process (set_fds (<[new := d]> (fds (process s))) (process s)) s)) ->
  wp CD (dup2 fd new) Q s.
Proof.
  intros Hf Hs. unfold dup2. wp_step. apply (wp_ask (S := D F)). intros fails Ha. wp_steps.
  destruct (Z.ltb_spec fd 0); [by apply wp_ret, Hf; left|].
  destruct (fds (process s) !! fd) as [d|]; [|by apply wp_ret, Hf; right; left].
  destruct fails; [by apply wp_ret, Hf; do 2 right; exists s|]. wp_step. apply wp_server. unfold set_fd. wp_steps. by apply Hs.
Qed.

(** One of the three redirections. *)
Lemma wp_redirect s fd new (k : prog (D F) Z) (Q : Z -> dproc F -> Prop) :
  new <> -1 -> (fd < 0 \/ allowed CD (QDup2Fails fd new) true -> Q (-1) s) ->
  (0 <= fd -> fds (process s) !! fd = Some FdNull ->
     wp CD k Q (set_process (set_fds (<[new := FdNull]> (fds (process s))) (process s)) s)) ->
  (0 <= fd -> fds (process s) !! fd = Some FdNull) ->
  wp CD (r ← dup2 fd new; if r =? -1 then mret (-1) else k) Q s.
Proof.
  intros Hnew Hf Hk Hfd. wp_step. apply wp_dup2.
  { intros Hw. apply wp_ret, Hf. destruct (Z.ltb_spec fd 0) as [|Hp]; [by left|right].
    destruct Hw as [?|[Hn|?]]; [lia| |done]. by rewrite (Hfd Hp) in Hn. }
  intros d Hp Hd.
  rewrite (proj2 (Z.eqb_neq _ _) Hnew). specialize (Hfd Hp). simplify_eq. by apply Hk.
Qed.

Lemma wp_daemonize s :
  wp CD daemonize
    (fun r s' => (r = -1 /\ no_daemon CD /\ server_untouched s s') \/ (r = 0 /\ detached s s')) s.
Proof.
  pose proof (untouched_refl s) as Hs. unfold daemonize, setsid.
  do 2 wp_step. apply (wp_ask (S := D F)). intros r Ha. cbn in r.
  destruct (Z.eqb_spec r (-1)) as [->|Hr];
    [by apply wp_ret, wp_ret; left; split_and!; [|left; exists s|]|]. wp_steps.
  rewrite (proj2 (Z.eqb_neq _ _) Hr). unfold chdir. clear Ha.
  do 2 wp_step. apply (wp_ask (S := D F)). clear r Hr. intros r Ha. cbn in r.
  destruct (Z.eqb_spec r (-1)) as [->|Hr];
    [by apply wp_ret, wp_ret; left; split_and!; [|right; left; eexists|]|]. wp_steps.
  rewrite (proj2 (Z.eqb_neq _ _) Hr).
  wp_step. apply wp_open_null.
  { intros Hnull. by apply wp_redirect; [done|left; split_and!; [|do 2 right; left|]| |]. }
  intros fd Hfd Hn.
  assert (forall new, fd < 0 \/ allowed CD (QDup2Fails fd new) true -> no_daemon CD) as Hno
    by (intros new [?|?]; [lia|]; do 3 right; eauto). set (m0 := <[fd := FdNull]> _).
  assert (forall new m, m !! fd = Some FdNull -> <[new := FdNull]> m !! fd = Some (FdNull : fdesc))
    as Hnext by (intros new m Hm; rewrite lookup_insert; by case_decide).
  assert (m0 !! fd = Some FdNull) as Hm0 by apply lookup_insert_eq.
  apply wp_redirect; [done|intros Hw; left; split_and!; [done|by eapply Hno|by eexists]| |done]. intros _ _.
  apply wp_redirect; [done|intros Hw; left; split_and!; [done|by eapply Hno|by eexists]| |intros _; by apply Hnext].
  intros _ _.
  apply wp_redirect; [done|intros Hw; left; split_and!; [done|by eapply Hno|by eexists]| |intros _; by do 2 apply Hnext].
  intros _ _.
  apply wp_ret. right. split; [done|]. exists fd. by destruct s as [[] ? ? ?].
Qed.

Lemma wp_handle s sig (Q : outcome unit -> dproc F -> Prop) :
  (allowed CD (QHandle sig) (-1) -> Q (Exit (-1)) s) ->
  Q (Return tt) (set_handled (handled s ++ [sig]) s) ->
  wp CD (handle sig) Q s.
Proof.
  intros Hf Hs. unfold handle. wp_step. apply (wp_ask (S := D F)). intros r Ha. cbn in r.
  destruct (Z.eqb_spec r (-1)) as [->|_]; [by apply wp_ret, Hf; exists s|]. by wp_steps.
Qed.

Lemma wp_start_timer w (Q : unit -> world F -> Prop) :
  timer_ (srv w) = 0 ->
  (forall t m, timer_started t (timers w) m ->
     Q tt (set_srv (srv_set_timer t (srv w)) (set_timers m w))) ->
  wp C start_timestamp_timer Q w.
Proof.
  intros Ht HQ. assert (Q tt w) as Hsame.
  { specialize (HQ 0 (timers w)). rewrite <- Ht in HQ at 2.
    destruct w as [? ? ? ? ? ? ? ? ? ? []]. apply HQ. by left. }
  unfold start_timestamp_timer. wp_step. apply (wp_ask (S := P F)). intros r _. cbn in r.
  destruct (r =? -1); [by apply wp_ret|]. unfold timer_create. do 2 wp_step.
  apply (wp_ask (S := P F)). intros [r' t] Hr'.
  destruct (Z.eqb_spec r' (-1)) as [->|Hne]; [by apply wp_ret|].
  destruct (server_calls_posix _ _ _ Hr') as [[_ Hn]|?]; [|done]. cbn in Hn.
  wp_steps. rewrite (proj2 (Z.eqb_neq _ _) Hne). unfold upd_srv. wp_steps.
  unfold timer_settime. wp_step. apply (wp_ask (S := P F)). intros r2 _. cbn in r2.
  destruct (r2 =? -1); wp_steps.
  - apply (HQ t (<[t := false]> (timers w))). right. by eauto.
  - assert (timer_started t (timers w) (<[t := true]> (timers w))) as Hst by (right; eauto).
    specialize (HQ t _ Hst). rewrite <- (insert_insert_eq (timers w) t true false) in HQ. exact HQ.
Qed.

Lemma wp_server_init w size dev path (Q : unit -> world F -> Prop) :
  (forall t m, timer_started t (timers w) m ->
     Q tt (set_srv (Server false size dev path "" (-1) t SLIST_INIT)
       (set_mutexes (<[SRV_LOCK := false]> (mutexes w)) (set_timers m w)))) ->
  wp C (aesd_server_init size dev path) Q w.
Proof.
  intros HQ. unfold aesd_server_init, pthread_mutex_init, upd_srv. wp_steps.
  destruct dev; cbn [negb]; [|by apply wp_start_timer].
  apply wp_ret. specialize (HQ 0 (timers w)). destruct w. apply HQ. by left.
Qed.

Lemma initialised_pool char_device daemon timer m w :
  pool w [] -> pool (initialised char_device daemon timer m w) [].
Proof. by intros [_ _ He Hw Ht Hb]; split. Qed.

(** From the signal handlers on; [s0] is the process as [main] or [daemonize]
    left it. *)
Lemma wpr_main_server (char_device daemon : bool) fuel s s0 :
  pool (process s) [] -> server_untouched s s0 ->
  (if daemon then detached s s0 else s0 = s) ->
  wpr CD (main_server char_device fuel daemon) (main_end CD char_device daemon fuel s) s0.
Proof.
  intros Hpool [m Hm] Hd. unfold main_server, when_returned.
  apply wpr_bind_wp, wp_handle.
  { intros Ha. apply wpr_wp, wp_ret. eapply main_not_handled; [|exact Ha|]; [done|]. by exists m. }
  apply wpr_bind_wp, wp_handle.
  { intros Ha. apply wpr_wp, wp_ret. eapply main_not_handled; [|exact Ha|]; [done|]. by exists m. }
  apply wpr_bind_wp, wp_server. unfold syslog at 1. apply wp_modify.
  apply wpr_bind_wp, wp_server, wp_server_init. intros t tm Htm.
  match goal with |- wpr _ _ _ ?s => set (s1 := s) end.
  assert (prepared char_device daemon s s1) as Hprep.
  { exists s0, t, tm. split; [done|]. split; [done|]. unfold s1, set_process, set_handled; cbn. by rewrite <- app_assoc. }
  assert (pool (process s1) []) as Hpool1.
  { apply (initialised_pool char_device daemon t tm (process s0)). rewrite Hm. by apply (pool_frame (process s)). }
  apply wpr_bind, wpr_server. eapply wpr_mono.
  2: { apply wpr_aesd_server_run; [apply server_calls_posix|exact Hpool1|]. cbn. by rewrite lookup_insert_eq. }
  intros [[status w']|e] Hrun; cbv beta iota.
  - apply wpr_wp. wp_step. apply wp_server. unfold syslog. wp_steps. exact (main_finished CD _ _ _ _ s1 status w' Hprep Hrun).
  - by eapply main_faulted.
Qed.

Lemma wpr_main char_device daemon fuel argc argv s :
  pool (process s) [] -> daemon_mode argc argv = Ok daemon ->
  wpr CD (main char_device fuel argc argv) (main_end CD char_device daemon fuel s) s.
Proof.
  intros Hpool Hd. unfold main. rewrite Hd. apply wpr_bind_wp, wp_ret.
  pose proof (untouched_refl s) as Hs. destruct daemon; [|by apply wpr_main_server].
  apply wpr_bind_wp. apply (wp_ask (S := D F)). intros pid Ha. cbn in pid.
  destruct (Z.eqb_spec pid (-1)) as [->|Hp1]; [by apply wpr_wp, wp_ret, main_no_fork; [|exists s]|].
  destruct (Z.eqb_spec pid 0) as [->|Hp0]; cbn [negb];
    [|by apply wpr_wp, wp_ret, (main_parent CD _ _ _ _ pid); [|exists s| |]].
  apply wpr_bind_wp. eapply wp_mono; [|apply wp_daemonize].
  intros r s0 [(-> & Hno & Hu)|[-> Hdet]].
  - rewrite Z.eqb_refl. by apply wpr_wp, wp_ret, main_not_detached.
  - change (0 =? -1) with false. apply wpr_main_server; [done| |done]. destruct Hdet as (fd & _ & _ & ->). by eexists.
Qed.

End rules.

(** ** A signal before the server runs *)

Section signals.
Context {F : Type} `{OutputFileLaws F}.
Implicit Types (w : world F) (ps : list slot).

(** Nothing fails, the address resolves, and no signal arrives any more. *)
Definition unsignalled : contract (P F) := fun w q a =>
  posix_ok w q a
  /\ match q return panswer q -> Prop with
     | QStopped => fun stopped => stopped = false
     | QGetaddrinfo _ => fun r => r.1 = 0 /\ r.2 <> []
     | _ => fun _ => True
     end a.

Lemma unsignalled_posix w q a : unsignalled w q a -> posix w q a.
Proof. by intros [[] _]. Qed.

Lemma wpr_serve_running fuel w ps :
  pool w ps -> running (srv w) = true ->
  wpr unsignalled (serve fuel) (fun r => r = Err OutOfFuel) w.
Proof.
  revert w ps. induction fuel as [|fuel IH]; intros w ps Hpool Hrun; [done|].
  cbn [serve]. unfold load_running, get_srv. apply wpr_bind, wpr_bind_wp, wp_get.
  rewrite Hrun. cbn [negb]. apply wpr_bind_wp, (wp_ask (S := P F)). intros stopped [_ ->].
  apply wpr_wp, wp_ret. cbn [negb]. apply wpr_bind.
  eapply wpr_mono; [|by apply (wpr_accept_client _ unsignalled_posix)].
  intros r [Hf|p fd id addr arrivals garbage _ _ _ _ _ _ Hp|Hc].
  - exfalso. destruct Hf as [(r' & (w1 & [_ Hr] & _) & Hz)|[(r' & (w1 & [_ Hr] & _) & Hz)|(r' & (w1 & [_ Hr] & _) & Hz)]];
      [done|done|]. by destruct r' as [[[] ?] ?].
  - apply wpr_bind_wp. eapply wp_mono; [|by apply wp_check_workers].
    intros [] w' [kept [Hpool' _ [_ _ _ _ _ _ Hsrv] _ _ _]]. rewrite app_nil_r in Hpool'.
    apply (IH w' kept Hpool'). by rewrite Hsrv.
  - exfalso. by destruct Hc as [(r' & (w1 & [_ Hr] & _) & Hz)|(r' & (w1 & [_ Hr] & _) & Hz)].
Qed.

(** The first address is bound. *)
Lemma wp_srv_bind_first port w ps :
  pool w ps -> wp unsignalled (srv_bind port) (fun r w' => r = true /\ pool w' ps) w.
Proof.
  intros Hpool. unfold srv_bind. wp_step. apply (wp_ask (S := P F)). intros [gai infos] [_ [Hg Hi]].
  cbn in Hg, Hi. subst gai. destruct infos as [|ai infos]; [done|]. cbn [Z.eqb negb].
  unfold upd_srv, get_srv. do 3 wp_step. cbn [bind_loop]. unfold upd_srv, socket.
  do 2 wp_step. apply (wp_ask (S := P F)). intros fd [[Hfd Hok] _]. cbn in fd, Hfd, Hok.
  rewrite (proj2 (Z.eqb_neq fd _) Hok). unfold set_fd. wp_steps.
  rewrite (proj2 (Z.eqb_neq fd _) Hok). wp_step. apply (wp_ask (S := P F)).
  intros r [[_ ->] _]. cbn [Z.eqb]. unfold bind. do 2 wp_step. apply (wp_ask (S := P F)).
  intros r [[_ ->] _]. cbn [Z.eqb]. unfold set_fd. wp_steps.
  change (0 =? -1) with false. wp_steps.
  change (sock_fd_ (srv _)) with fd.
  rewrite (proj2 (Z.eqb_neq fd _) Hok). wp_steps. split; [done|]. by apply (pool_frame w).
Qed.

Lemma wpr_run_unstopped fuel port backlog w ps :
  pool w ps -> wpr unsignalled (aesd_server_run fuel port backlog) (fun r => r = Err OutOfFuel) w.
Proof.
  intros Hpool. unfold aesd_server_run. apply wpr_bind_wp.
  eapply wp_mono; [|by apply wp_srv_bind_first]. intros ? w1 [-> Hp1]. cbn [negb].
  unfold srv_listen, get_srv, listen. apply wpr_bind_wp. do 4 wp_step. apply (wp_ask (S := P F)).
  intros r [[_ ->] _]. cbn [Z.eqb]. unfold set_fd, syslog. wp_steps. cbn [negb].
  unfold upd_srv. apply wpr_bind_wp, wp_modify. apply wpr_bind.
  eapply wpr_mono; [|apply (wpr_serve_running fuel _ ps); [by apply (pool_frame w1)|done]].
  by intros r ->.
Qed.

End signals.

(** ** Theorems *)

Section theorems.
Context {F : Type} `{OutputFileLaws F}.
Implicit Types s : dproc F.

(** C19: every ending of the program, from a process without workers, on any system
    [CD] within what POSIX promises: the parent of a daemon exits with 0 and nothing
    changed; a failure of [fork], [daemonize] or [sigaction] ends it with -1 and the
    server untouched, where [CD] allows one of the calls to fail; else the server
    runs, initialised for the output file, with the handler registered for both
    signals and, for a daemon, the standard descriptors on the null device, and its
    status is the program's. *)
Theorem main_outcomes {X} (CD : contract (D F)) (o : env (D F) X) s x char_device daemon fuel argc argv :
  (forall s q a, CD s q a -> system posix s q a) -> respects CD o ->
  pool (process s) [] -> daemon_mode argc argv = Ok daemon ->
  match run o (main char_device fuel argc argv) s x with
  | Ok (r, s', x') => main_end CD char_device daemon fuel s (Ok (r, s'))
  | Err e => main_end CD char_device daemon fuel s (Err e)
  end.
Proof. intros HC Ho Hp Hd. apply (wpr_run CD); [done|]. by apply wpr_main. Qed.

(** After [SIGINT] or [SIGTERM] the server's loop ends at its next check,
    with no client accepted; another signal exits with -1. *)
Theorem signal_handler_stops {X} (o : env (D F) X) s x sig fuel :
  run o (when_returned (signal_handler sig) (fun _ => server (serve (S fuel));; mret (Return tt)))
    s x
  = let w := set_logs (logs (process s) ++ [LogSignal]) (process s) in
    Ok (if stop_signal sig
        then (Return tt, set_process (set_srv (srv_set_running false (srv w)) w) s, x)
        else (Exit (-1), set_process w s, x)).
Proof.
  unfold when_returned, signal_handler, stop_signal. cbn -[Z.eqb].
  destruct (_ || _); done.
Qed.

(** C38: a signal that arrives before the server sets [running] is lost: the
    server starts, and does not stop however long it runs. *)
Theorem early_signal_lost {X} (o : env (D F) X) s x ps sig fuel port backlog :
  respects (system unsignalled) o -> pool (process s) ps -> stop_signal sig = true ->
  run o (when_returned (signal_handler sig) (fun _ =>
           r ← server (aesd_server_run fuel port backlog); mret (Return r))) s x
  = Err OutOfFuel.
Proof.
  intros Ho Hp Hsig.
  set (p := when_returned _ _).
  assert (wpr (system unsignalled) p (fun r => r = Err OutOfFuel) s) as Hwp.
  { unfold p, when_returned, signal_handler. apply wpr_bind_wp. wp_step. apply wp_server.
    unfold syslog. wp_steps. change ((sig =? SIGINT) || (sig =? SIGTERM)) with (stop_signal sig).
    rewrite Hsig. wp_step. apply wp_server. unfold upd_srv. wp_steps.
    apply wpr_bind, wpr_server. apply (wpr_weaken unsignalled); [by intros w q a (s' & <- & Ha)|].
    eapply wpr_mono; [|by apply (wpr_run_unstopped _ _ _ _ ps), (pool_frame (process s))].
    by intros ? ->. }
  pose proof (wpr_run _ o p _ s x Ho Hwp) as Hrun.
  destruct (run o p s x) as [[[? ?] ?]|e]; [done|by injection Hrun as ->].
Qed.

End theorems.

(** ** Witnesses *)

(** A shell's child: its standard descriptors are a terminal. *)
Definition at_start : dproc plain_file :=
  let tty := FdFile "/dev/tty" 0 true in
  DProc (World ∅ ∅ ∅ ∅ ∅ ∅ ∅ {[ 0 := tty; 1 := tty; 2 := tty ]} ∅ []
           (Server false 0 false "" "" 0 0 SLIST_INIT)) false "/root" [].

Lemma at_start_pool : pool (process at_start) [].
Proof.
  assert (forall A, @holds A ∅ []) as Hh by (intros A; split; [apply dom_empty_L|constructor]).
  by split; [| |apply Hh..].
Qed.

(** The child of a [fork], where nothing else fails and the server's calls are
    answered by [o]. *)
Definition child (o : env (P plain_file) unit) : env (D plain_file) unit := fun s x q =>
  match q return danswer q * unit with
  | DServer q => o (process s) x q
  | QFork | QChdir _ | QHandle _ => (0, x)
  | QSetsid => (1, x)
  | QOpenNull => (next_key 0 (fds (process s)), x)
  | QDup2Fails _ _ => (false, x)
  end.

Lemma child_respects C o : respects C o -> respects (system C) (child o).
Proof.
  intros Ho s x q. destruct q; cbn; try done; try (by left); try apply Ho; [by right|].
  right. pose proof (next_key_gt 0 (fds (process s))).
  split; [lia|]. apply next_key_fresh.
Qed.
#[export] Hint Resolve child_respects : envs.

(** That system: no call of the program's own fails. *)
Definition in_child {F} `{OutputFile F} : contract (D F) := fun s q a =>
  system stops s q a
  /\ match q return danswer q -> Prop with
     | DServer _ => fun _ => True
     | QFork => fun pid => pid = 0
     | QSetsid => fun r => r <> -1
     | QChdir _ | QOpenNull | QHandle _ => fun r => r <> -1
     | QDup2Fails _ _ => fun fails => fails = false
     end a.

Lemma in_child_posix {F} `{OutputFile F} s q a : in_child s q a -> system posix s q a.
Proof. intros [Ha _]. destruct q; try exact Ha. by apply stops_posix. Qed.

Lemma child_in_child : respects in_child (child stop_at_once).
Proof.
  intros s x q. split; [apply child_respects, stop_at_once_stops|]. destruct q; try done.
  pose proof (next_key_gt 0 (fds (process s))). cbn. lia.
Qed.
#[export] Hint Resolve child_in_child : envs.

(** The daemon starts, and stops at once. *)
Lemma main_outcomes_witness :
  exists s' x',
    run (child stop_at_once) (main true 1 2 ["aesdsocket"; "-d"]%string) at_start tt
      = Ok (Return 0, s', x')
    /\ main_end in_child true true 1 at_start (Ok (Return 0, s')).
Proof.
  pose proof (main_outcomes in_child (child stop_at_once) at_start tt true true 1 2
    ["aesdsocket"; "-d"]%string in_child_posix child_in_child at_start_pool eq_refl) as Hend.
  assert (match run (child stop_at_once) (main true 1 2 ["aesdsocket"; "-d"]%string) at_start tt with
          | Ok (r, _, _) => r = Return 0 | Err _ => False end) as Hv by (vm_compute; reflexivity).
  revert Hend Hv.
  destruct (run (child stop_at_once) (main true 1 2 ["aesdsocket"; "-d"]%string) at_start tt)
    as [[[r s'] x']|e]; [|intros _ []].
  intros Hend ->. exists s', x'. split; [reflexivity|exact Hend].
Defined.

Lemma calm_unsignalled : respects (S := P plain_file) unsignalled calm.
Proof. intros w x q. split; [apply calm_ok|]. by destruct q. Qed.
#[export] Hint Resolve calm_unsignalled : envs.

Lemma early_signal_lost_witness :
  run (child calm) (when_returned (signal_handler SIGTERM) (fun _ =>
        r ← server (aesd_server_run 3 PORT BACKLOG); mret (Return r))) at_start tt
  = Err OutOfFuel.
Proof.
  apply (early_signal_lost (child calm) at_start tt []).
  - auto with envs.
  - apply at_start_pool.
  - reflexivity.
Defined.

End Daemon.
