(* ===== verification/Writer.v ===== *)
(** * The writer utility

    [finder-app/writer.c]: create a file and write a string to it, retrying
    short and interrupted writes. *)

From stdpp Require Export strings.
From S2P Require Import Prelude.

Open Scope Z_scope.

Module Writer.

(** ** The process *)

Definition EINTR : Z := 4.
Definition EXIT_SUCCESS : Z := 0.
Definition EXIT_FAILURE : Z := 1.

(** A message to [syslog]. *)
Inductive log : Type :=
| LogArgs (received : Z)
| LogOpen (path : bytes) (errno : Z)
| LogWriting (str path : bytes)
| LogWrite (errno : Z)
| LogClose (errno : Z).

(** The files by path, the open descriptors with their file and offset, and the
    messages logged. *)
Record proc : Type := Proc {
  files : gmap bytes bytes;
  fds : gmap Z (bytes * Z);
  logs : list log
}.

(** The system calls; each answer has the [errno] of a failure. *)
Inductive wquery : Type :=
| QCreat (path : bytes)
| QWrite (fd : Z) (data : bytes)
| QClose (fd : Z).

Definition W : sig := {| st := proc; query := wquery; answer := fun _ => (Z * Z)%type |}.

(** What the system promises: a descriptor is [-1] or new; [write] transfers some
    bytes or fails; [close] returns 0 or [-1]; a failure has an [errno]. *)
Definition system : contract W := fun s q '(r, errno) =>
  (r = -1 -> 0 < errno)
  /\ match q with
     | QCreat _ => r = -1 \/ (0 <= r /\ fds s !! r = None)
     | QWrite _ data => r = -1 \/ 0 < r <= Z.of_nat (length data)
     | QClose _ => r = 0 \/ r = -1
     end.

Definition set_files (x : gmap bytes bytes) (s : proc) : proc := Proc x (fds s) (logs s).
Definition set_fds (x : gmap Z (bytes * Z)) (s : proc) : proc := Proc (files s) x (logs s).

Definition syslog (e : log) : prog W unit :=
  modify (S := W) (fun s => Proc (files s) (fds s) (logs s ++ [e])).

(** [creat(path, 0644)]: an existing file is truncated. *)
Definition creat (path : bytes) : prog W (Z * Z) :=
  '(fd, errno) ← ask (S := W) (QCreat path);
  if fd =? -1 then mret (-1, errno)
  else
    modify (S := W) (fun s =>
      set_fds (<[fd := (path, 0)]> (fds s)) (set_files (<[path := []]> (files s)) s));;
    mret (fd, errno).

(** [old] with [data] at offset [pos]. *)
Definition overwrite (old : bytes) (pos : nat) (data : bytes) : bytes :=
  take pos old ++ data ++ drop (pos + length data) old.

Definition write (fd : Z) (data : bytes) : prog W (Z * Z) :=
  '(r, errno) ← ask (S := W) (QWrite fd data);
  if r =? -1 then mret (-1, errno)
  else
    modify (S := W) (fun s =>
      match fds s !! fd with
      | Some (path, pos) =>
          set_files (<[path := overwrite (default [] (files s !! path)) (Z.to_nat pos)
                                 (take (Z.to_nat r) data)]> (files s))
            (set_fds (<[fd := (path, pos + r)]> (fds s)) s)
      | None => s
      end);;
    mret (r, errno).

Definition close (fd : Z) : prog W (Z * Z) :=
  '(r, errno) ← ask (S := W) (QClose fd);
  modify (S := W) (fun s => set_fds (delete fd (fds s)) s);;
  mret (r, errno).

(** ** The program *)

Definition check_args (argc : Z) (argv : list bytes) : prog W (outcome unit) :=
  if negb (argc =? 3) then
    syslog (LogArgs (argc - 1));;
    mret (Exit EXIT_FAILURE)
  else mret (Return tt).

Definition create_file (path : bytes) : prog W (outcome Z) :=
  '(fd, errno) ← creat path;
  if fd =? -1 then
    syslog (LogOpen path errno);;
    mret (Exit EXIT_FAILURE)
  else mret (Return fd).

(** The [while] loop: [pstr] is [str] from [off] on. *)
Fixpoint write_loop (fuel : nat) (fd : Z) (str : bytes) (off remaining : Z) : prog W Z :=
  match fuel with
  | O => Crash OutOfFuel
  | S fuel =>
      if negb (remaining >? 0) then mret 0
      else
        '(written, errno) ← write fd (take (Z.to_nat remaining) (drop (Z.to_nat off) str));
        if written =? -1 then
          if errno =? EINTR then write_loop fuel fd str off remaining
          else mret errno
        else write_loop fuel fd str (off + written) (u64 (remaining - written))
  end.

Definition try_write (fuel : nat) (fd : Z) (str : bytes) : prog W Z :=
  let total := u64 (Z.of_nat (length str)) in
  write_loop fuel fd str 0 total.

(** [argv[i]]; a missing argument is a null pointer. *)
Definition arg (argv : list bytes) (i : nat) : prog W bytes :=
  match argv !! i with Some a => mret a | None => Crash NullDeref end.

Definition main (fuel : nat) (argc : Z) (argv : list bytes) : prog W Z :=
  checked ← check_args argc argv;
  match checked : outcome unit with
  | Exit status => mret status
  | Return _ =>
      writefile ← arg argv 1;
      writestr ← arg argv 2;
      created ← create_file writefile;
      match created : outcome Z with
      | Exit status => mret status
      | Return fd =>
          syslog (LogWriting writestr writefile);;
          result ← try_write fuel fd writestr;
          exit_status ←
            (if negb (result =? 0) then
               syslog (LogWrite result);; mret EXIT_FAILURE
             else mret EXIT_SUCCESS);
          '(r, errno) ← close fd;
          if r =? -1 then
            syslog (LogClose errno);; mret EXIT_FAILURE
          else mret exit_status
      end
  end.

(** ** Lemmas *)

Section writer.
Context (C : contract W) (HC : forall s q a, C s q a -> system s q a).

Definition may (q : wquery) (a : Z * Z) : Prop := exists s, C s q a.

(** The process with the file [path], open as [fd], holding the first bytes of
    the string. *)
Definition wrote (s : proc) (fd : Z) (path : bytes) (done : bytes) : proc :=
  Proc (<[path := done]> (files s)) (<[fd := (path, Z.of_nat (length done))]> (fds s)) (logs s).

(** Why a write may have failed. *)
Definition write_error (e : Z) : Prop := exists fd data, may (QWrite fd data) (-1, e).

Lemma wp_write_wrote s fd path done data (Q : Z * Z -> proc -> Prop) :
  (forall errno, may (QWrite fd data) (-1, errno) -> Q (-1, errno) (wrote s fd path done)) ->
  (forall r errno, 0 < r <= Z.of_nat (length data) ->
     Q (r, errno) (wrote s fd path (done ++ take (Z.to_nat r) data))) ->
  wp C (write fd data) Q (wrote s fd path done).
Proof.
  intros Hf Hs. unfold write. wp_step. apply (wp_ask (S := W)). intros [r errno] Ha.
  destruct (Z.eqb_spec r (-1)) as [->|Hr]; [by apply wp_ret, Hf; eexists|].
  destruct (HC _ _ _ Ha) as [_ [?|Hr2]]; [done|]. wp_steps.
  unfold wrote at 1. cbn [fds]. rewrite lookup_insert_eq.
  specialize (Hs r errno Hr2). revert Hs. unfold wrote, set_files, set_fds; cbn.
  rewrite lookup_insert_eq. cbn. rewrite !insert_insert_eq, Nat2Z.id.
  unfold overwrite. rewrite firstn_all, drop_ge by lia. rewrite app_nil_r, length_app, length_take.
  by replace (Z.of_nat (length done + Z.to_nat r `min` length data))
    with (Z.of_nat (length done) + r) by lia.
Qed.

(** Enough fuel when no write is interrupted. *)
Definition interrupted : Prop := exists fd data, may (QWrite fd data) (-1, EINTR).

(** How the loop ends. *)
Inductive loop_end (s : proc) (fd : Z) (path str : bytes) (fuel : nat) (rem : Z)
    : res (Z * proc) -> Prop :=
| loop_done : loop_end s fd path str fuel rem (Ok (0, wrote s fd path str))
| loop_error e done :
    0 < e -> e <> EINTR -> write_error e -> done `prefix_of` str ->
    loop_end s fd path str fuel rem (Ok (e, wrote s fd path done))
| loop_fuel :
    interrupted \/ (fuel <= Z.to_nat rem)%nat ->
    loop_end s fd path str fuel rem (Err OutOfFuel).

Lemma wpr_write_loop s fd path str fuel off rem :
  off + rem = Z.of_nat (length str) -> 0 <= off -> 0 <= rem -> Z.of_nat (length str) < 2 ^ 64 ->
  wpr C (write_loop fuel fd str off rem) (loop_end s fd path str fuel rem)
    (wrote s fd path (take (Z.to_nat off) str)).
Proof.
  intros Hsum Hoff Hrem Hlen. revert off rem Hsum Hoff Hrem.
  induction fuel as [|fuel IH]; intros off rem Hsum Hoff Hrem; cbn [write_loop].
  { apply loop_fuel. right. lia. }
  destruct (Z.gtb_spec rem 0) as [Hgt|Hle]; cbn [negb].
  2: { apply wpr_wp, wp_ret. rewrite firstn_all2 by lia. apply loop_done. }
  set (data := take (Z.to_nat rem) (drop (Z.to_nat off) str)).
  assert (Z.of_nat (length data) = rem) as Hdl.
  { unfold data. rewrite length_take, length_drop. lia. }
  apply wpr_bind_wp. apply wp_write_wrote.
  - intros errno Hm. rewrite Z.eqb_refl. destruct (Z.eqb_spec errno EINTR) as [->|Hne].
    + eapply wpr_mono; [|by apply (IH off rem)].
      intros r [|e done ? ? ? ?|_]; [apply loop_done|by apply loop_error|].
      apply loop_fuel. left. by eexists _, _.
    + apply wpr_wp, wp_ret. apply loop_error; [|done|by eexists _, _|apply prefix_take].
      destruct Hm as [s' Hm]. by apply (HC _ _ _ Hm).
  - intros r errno Hr. rewrite (proj2 (Z.eqb_neq r (-1))) by lia.
    rewrite u64_small by lia.
    replace (take (Z.to_nat off) str ++ take (Z.to_nat r) data)
      with (take (Z.to_nat (off + r)) str).
    + eapply wpr_mono; [|apply (IH (off + r) (rem - r)); lia].
      intros r' [|e done ? ? ? ?|[?|?]];
        [apply loop_done|by apply loop_error|apply loop_fuel; by left|].
      apply loop_fuel. right. lia.
    + unfold data. rewrite take_take, Nat.min_l by lia.
      by rewrite Z2Nat.inj_add, take_take_drop by lia.
Qed.

(** The errors of the file that the program logs are those of its calls. *)
Definition logged_error (l : log) : Prop :=
  match l with
  | LogWrite e => write_error e
  | LogClose e => exists fd, may (QClose fd) (-1, e)
  | _ => False
  end.

(** How the program ends when it is given its two arguments. *)
Inductive main_end (s : proc) (path str : bytes) (fuel : nat) : res (Z * proc) -> Prop :=
| main_written :
    main_end s path str fuel
      (Ok (EXIT_SUCCESS,
           Proc (<[path := str]> (files s)) (fds s) (logs s ++ [LogWriting str path])))
| main_not_created errno :
    0 < errno -> may (QCreat path) (-1, errno) ->
    main_end s path str fuel
      (Ok (EXIT_FAILURE, Proc (files s) (fds s) (logs s ++ [LogOpen path errno])))
| main_failed done errors :
    done `prefix_of` str -> errors <> [] -> Forall logged_error errors ->
    (done <> str -> exists e, In (LogWrite e) errors) ->
    main_end s path str fuel
      (Ok (EXIT_FAILURE,
           Proc (<[path := done]> (files s)) (fds s) (logs s ++ LogWriting str path :: errors)))
| main_interrupted :
    interrupted \/ (fuel <= length str)%nat -> main_end s path str fuel (Err OutOfFuel).

(** Closing the file, and the status. *)
Lemma wp_close_file s fd path done status l (Q : Z -> proc -> Prop) :
  fds s !! fd = None ->
  Q status (Proc (<[path := done]> (files s)) (fds s) (logs s ++ l)) ->
  (forall errno, logged_error (LogClose errno) -> Q EXIT_FAILURE
     (Proc (<[path := done]> (files s)) (fds s) (logs s ++ l ++ [LogClose errno]))) ->
  wp C ('(r, errno) ← close fd;
        if r =? -1 then syslog (LogClose errno);; mret EXIT_FAILURE else mret status) Q
    (Proc (<[path := done]> (files s)) (<[fd := (path, Z.of_nat (length done))]> (fds s))
       (logs s ++ l)).
Proof.
  intros Hn Hs Hf. unfold close. do 2 wp_step. apply (wp_ask (S := W)). intros [r errno] Ha.
  wp_step. apply wp_modify. apply wp_ret. unfold set_fds; cbn [files fds logs].
  rewrite delete_insert_eq, delete_id by done.
  destruct (Z.eqb_spec r (-1)) as [->|_]; [|by apply wp_ret]. unfold syslog. wp_step. apply wp_modify, wp_ret.
  cbn [files fds logs]. rewrite <- app_assoc. apply Hf.
  exists fd. by eexists.
Qed.

Lemma wpr_writer_main s path str prog_name fuel :
  Z.of_nat (length str) < 2 ^ 64 ->
  wpr C (main fuel 3 [prog_name; path; str]) (main_end s path str fuel) s.
Proof.
  intros Hlen. unfold main, check_args. cbn [Z.eqb Pos.eqb negb].
  apply wpr_bind_wp, wp_ret. apply wpr_bind_wp, wp_ret. apply wpr_bind_wp, wp_ret.
  apply wpr_bind_wp. unfold create_file, creat. do 2 wp_step. apply (wp_ask (S := W)).
  intros [fd errno] Ha. destruct (HC _ _ _ Ha) as [Herr Hfd].
  destruct (Z.eqb_spec fd (-1)) as [->|Hfd1].
  { apply wp_ret. cbv beta iota. rewrite Z.eqb_refl. unfold syslog. wp_steps.
    apply wpr_wp, wp_ret. apply main_not_created; [by apply Herr|by exists s]. }
  destruct Hfd as [?|[Hp Hn]]; [done|]. wp_step. apply wp_modify, wp_ret. cbv beta iota.
  rewrite (proj2 (Z.eqb_neq fd (-1)) Hfd1). apply wp_ret.
  unfold syslog at 1. apply wpr_bind_wp, wp_modify. apply wpr_bind.
  unfold try_write. rewrite u64_small by lia.
  set (s1 := Proc (files s) (fds s) (logs s ++ [LogWriting str path])).
  eapply wpr_mono; [|apply (wpr_write_loop s1 fd path str fuel 0 (Z.of_nat (length str))); lia].
  intros r [|e done He Hni Herror Hpre|Hf].
  - apply wpr_wp. wp_step. apply wp_ret. unfold wrote. cbn [files fds logs s1].
    apply (wp_close_file s fd path str EXIT_SUCCESS [LogWriting str path]); [done|apply main_written|].
    intros e He. apply main_failed; [done|done|by repeat constructor|done].
  - apply wpr_wp. rewrite (proj2 (Z.eqb_neq e 0)) by lia. cbn [negb]. unfold syslog at 1.
    do 2 wp_step. apply wp_modify, wp_ret. unfold wrote. cbn [files fds logs s1].
    rewrite <- app_assoc.
    apply (wp_close_file s fd path done EXIT_FAILURE [LogWriting str path; LogWrite e]); [done| |].
    + apply main_failed; [done|done|by repeat constructor|]. intros _. exists e. by left.
    + intros e' He'. apply main_failed; [done|done|by repeat constructor|]. intros _. exists e. by left.
  - apply main_interrupted. rewrite Nat2Z.id in Hf. done.
Qed.

End writer.

(** ** Theorems *)

(** C33: given a path and a string, on any system [C] within what POSIX promises, the
    program exits with 0 only with the file holding exactly the string; with 1 it has
    logged the error of a call that [C] allows to fail so, and the file holds a prefix
    of the string, or was not created; its descriptor is closed on every ending. It
    ends within one write per byte unless [C] allows a write to be interrupted. *)
Theorem main_writes {X} (C : contract W) (o : env W X) s x prog_name path str fuel :
  (forall s q a, C s q a -> system s q a) -> respects C o -> Z.of_nat (length str) < 2 ^ 64 ->
  match run o (main fuel 3 [prog_name; path; str]) s x with
  | Ok (status, s', x') => main_end C s path str fuel (Ok (status, s'))
  | Err e => main_end C s path str fuel (Err e)
  end.
Proof. intros HC Ho Hl. apply (wpr_run C); [done|]. by apply wpr_writer_main. Qed.

(** A system that does not interrupt writes. *)
Definition uninterrupted : contract W := fun s q a =>
  system s q a /\ match q with QWrite _ _ => a <> (-1, EINTR) | _ => True end.

(** Without interruptions the program ends, within one write per byte. *)
Theorem main_terminates {X} (o : env W X) s x prog_name path str fuel :
  respects uninterrupted o -> Z.of_nat (length str) < 2 ^ 64 -> (length str < fuel)%nat ->
  exists status s' x',
    run o (main fuel 3 [prog_name; path; str]) s x = Ok (status, s', x')
    /\ fds s' = fds s /\ (status = EXIT_SUCCESS -> files s' = <[path := str]> (files s)).
Proof.
  intros Ho Hl Hfu.
  pose proof (wpr_run uninterrupted o _ _ s x Ho
    (wpr_writer_main uninterrupted (fun _ _ _ H => proj1 H) s path str prog_name fuel Hl)) as Hrun.
  destruct (run o (main fuel 3 [prog_name; path; str]) s x) as [[[status s'] x']|e].
  - exists status, s', x'. split; [done|]. by inversion Hrun; subst.
  - exfalso. inversion Hrun as [| | |[(fd & data & s1 & _ & Hi)|?]]; [done|lia].
Qed.

(** With a wrong number of arguments the program exits with 1, having only
    logged the error. *)
Theorem main_usage {X} (o : env W X) s x fuel argc argv :
  argc <> 3 ->
  run o (main fuel argc argv) s x
    = Ok (EXIT_FAILURE, Proc (files s) (fds s) (logs s ++ [LogArgs (argc - 1)]), x).
Proof.
  intros Ha. unfold main, check_args. by rewrite (proj2 (Z.eqb_neq _ _) Ha).
Qed.

(** ** Witnesses *)

(** A system on which writes take one byte at a time. *)
Definition slow : env W unit := fun s x q =>
  (match q with
   | QCreat _ => (next_key 2 (fds s), 0)
   | QWrite _ data => (if decide (data = []) then -1 else 1, 5)
   | QClose _ => (0, 0)
   end, x).

Lemma slow_system : respects system slow.
Proof.
  intros s x q. destruct q; cbn.
  - pose proof (next_key_gt 2 (fds s)). pose proof (next_key_fresh 2 (fds s)). split; [lia|].
    right. split; [lia|done].
  - split; [lia|]. case_decide as Hd; [by left|right]. destruct data; [done|simpl; lia].
  - split; [lia|by left].
Qed.
#[export] Hint Resolve slow_system : envs.

Definition argv_path : bytes := [Byte.x2f; Byte.x66].
Definition argv_str : bytes := [Byte.x68; Byte.x69].

Lemma slow_uninterrupted : respects uninterrupted slow.
Proof. intros s x q. split; [apply slow_system|]. by destruct q. Qed.
#[export] Hint Resolve slow_uninterrupted : envs.

Lemma main_writes_witness :
  exists s',
    run slow (main 3 3 [[]; argv_path; argv_str]) (Proc ∅ ∅ []) tt = Ok (EXIT_SUCCESS, s', tt)
    /\ main_end uninterrupted (Proc ∅ ∅ []) argv_path argv_str 3 (Ok (EXIT_SUCCESS, s')).
Proof.
  eexists. split; [vm_compute; reflexivity|].
  exact (main_writes uninterrupted slow (Proc ∅ ∅ []) tt [] argv_path argv_str 3
    (fun _ _ _ H => proj1 H) slow_uninterrupted eq_refl).
Defined.

Lemma main_terminates_witness :
  exists status s' x',
    run slow (main 3 3 [[]; argv_path; argv_str]) (Proc ∅ ∅ []) tt = Ok (status, s', x')
    /\ fds s' = ∅ /\ (status = EXIT_SUCCESS -> files s' = {[ argv_path := argv_str ]}).
Proof.
  apply (main_terminates slow).
  - auto with envs.
  - done.
  - simpl. lia.
Defined.

Lemma main_usage_witness :
  run slow (main 3 2 [[]; argv_path]) (Proc ∅ ∅ []) tt
    = Ok (EXIT_FAILURE, Proc ∅ ∅ [LogArgs 1], tt).
Proof. apply (main_usage slow). done. Defined.

End Writer.
