(* ===== verification/SystemCalls.v ===== *)
(** * Running commands

    [examples/systemcalls/systemcalls.c]: [system], and [fork]/[execv]/[wait]
    with and without the output redirected. A function that forks is run from the
    point of view of one of the two processes: the answer to [fork] says which. *)

From S2P Require Import Prelude.

Module SystemCalls.

Definition EXIT_FAILURE : Z := 1.
Definition STDOUT_FILENO : Z := 1.

(** A process is its open descriptors, by the name of what they are open on. *)
Record proc : Type := Proc { fds : gmap Z bytes }.

Inductive squery : Type :=
| QSystem (cmd : bytes)                       (* wait status, or -1 *)
| QFork                                       (* -1, 0 in the child, or the child *)
| QExecFails (path : option bytes) (argv : list (option bytes))
| QWait                                       (* result, wait status *)
| QOpen (path : bytes)
| QDup2Fails (fd : Z).

Definition sanswer (q : squery) : Type :=
  match q with
  | QSystem _ | QFork | QOpen _ => Z
  | QExecFails _ _ | QDup2Fails _ => bool
  | QWait => Z * Z
  end.

Definition S : sig := {| st := proc; query := squery; answer := sanswer |}.

(** What the calls promise of descriptors. *)
Definition system_calls : contract S := fun s q =>
  match q return sanswer q -> Prop with
  | QOpen _ => fun fd => fd = -1 \/ (0 <= fd /\ fds s !! fd = None)
  | _ => fun _ => True
  end.

(** How a function ends: it returns, the process exits, or [execv] replaces the
    program. *)
Inductive ending : Type :=
| Returned (ok : bool)
| Exited (status : Z)
| Replaced (path : option bytes) (argv : list (option bytes)).

(** [<sys/wait.h>]. *)
Definition WIFEXITED (status : Z) : bool := Z.land status 127 =? 0.
Definition WEXITSTATUS (status : Z) : Z := Z.land (Z.shiftr status 8) 255.

Definition set_fds (m : gmap Z bytes) (s : proc) : proc := Proc m.

Definition open (path : bytes) : prog S Z :=
  fd ← ask (S := S) (QOpen path);
  if (fd : Z) =? -1 then mret (-1)
  else modify (S := S) (fun s => set_fds (<[fd := path]> (fds s)) s);; mret (fd : Z).

Definition close (fd : Z) : prog S unit :=
  modify (S := S) (fun s => set_fds (delete fd (fds s)) s).

Definition dup2 (fd new : Z) : prog S Z :=
  fails ← ask (S := S) (QDup2Fails fd);
  if (fails : bool) then mret (-1)
  else
    act (S := S) (fun s =>
      match fds s !! fd with
      | Some f => Ok (new, set_fds (<[new := f]> (fds s)) s)
      | None => Ok (-1, s)
      end).

(** ** The functions *)

Definition do_system (cmd : bytes) : prog S ending :=
  result ← ask (S := S) (QSystem cmd);
  if (result : Z) =? -1 then mret (Returned false)
  else if negb (result =? 0) then mret (Returned false)
  else mret (Returned true).

(** The [for] loop over the variable arguments. *)
Fixpoint va_loop (n : nat) (i : Z) (args : list bytes) (command : list (option bytes))
    : res (list (option bytes)) :=
  match n with
  | O => Ok command
  | Datatypes.S n =>
      match args with
      | [] => Err OutOfBounds
      | a :: args => command ← arr_set command i (Some a); va_loop n (i + 1) args command
      end
  end.

(** [char *command[count+1]], filled; the array's size must be positive. *)
Definition va_command (count : Z) (args : list bytes) : res (list (option bytes)) :=
  if count + 1 <=? 0 then Err OutOfBounds
  else
    command ← va_loop (Z.to_nat count) 0 args (replicate (Z.to_nat (count + 1)) None);
    command ← arr_set command count None;
    last ← arr_get command count;
    arr_set command count last.

(** [execv] returns only when it fails. *)
Definition do_exec (count : Z) (args : list bytes) : prog S ending :=
  command ← of_res (va_command count args);
  pid ← ask (S := S) QFork;
  if (pid : Z) =? -1 then mret (Returned false)
  else if pid =? 0 then
    path ← of_res (arr_get command 0);
    fails ← ask (S := S) (QExecFails path command);
    if (fails : bool) then mret (Exited EXIT_FAILURE)
    else mret (Replaced path command)
  else
    '(result, status) ← ask (S := S) QWait;
    if result =? -1 then mret (Returned false)
    else if WIFEXITED status && (WEXITSTATUS status =? 0) then mret (Returned true)
    else mret (Returned false).

Definition do_exec_redirect (outputfile : bytes) (count : Z) (args : list bytes)
    : prog S ending :=
  command ← of_res (va_command count args);
  fd ← open outputfile;
  if fd =? -1 then mret (Returned false)
  else
    pid ← ask (S := S) QFork;
    if (pid : Z) =? -1 then mret (Returned false)
    else if pid =? 0 then
      result ← dup2 fd STDOUT_FILENO;
      if result =? -1 then close fd;; mret (Exited EXIT_FAILURE)
      else
        close fd;;
        path ← of_res (arr_get command 0);
        fails ← ask (S := S) (QExecFails path command);
        if (fails : bool) then mret (Exited EXIT_FAILURE)
        else mret (Replaced path command)
    else
      close fd;;
      '(result, status) ← ask (S := S) QWait;
      if result =? -1 then mret (Returned false)
      else if WIFEXITED status && (WEXITSTATUS status =? 0) then mret (Returned true)
      else mret (Returned true).

(** ** Lemmas *)

Lemma va_loop_app n i args pre rest :
  i = Z.of_nat (length pre) -> (n <= length args)%nat -> (n <= length rest)%nat ->
  va_loop n i args (pre ++ rest) = Ok (pre ++ (Some <$> take n args) ++ drop n rest).
Proof.
  revert i args pre rest. induction n as [|n IH]; intros i args pre rest -> Ha Hr; [done|].
  destruct args as [|a args]; simpl in Ha; [lia|]. destruct rest as [|x rest]; simpl in Hr; [lia|].
  cbn [va_loop]. rewrite arr_set_nat by (rewrite length_app; simpl; lia). cbn [mbind res_bind].
  rewrite insert_app_r_alt, Nat.sub_diag by lia. cbn [list_insert].
  replace (pre ++ _) with ((pre ++ [Some a]) ++ rest) by by rewrite <- app_assoc.
  rewrite IH; [|rewrite length_app; simpl; lia|lia|lia].
  by rewrite <- app_assoc.
Qed.

(** The vector given to [execv]: the arguments, then a null pointer. *)
Lemma va_command_ok args :
  va_command (Z.of_nat (length args)) args = Ok ((Some <$> args) ++ [None]).
Proof.
  unfold va_command. destruct (Z.leb_spec (Z.of_nat (length args) + 1) 0); [lia|].
  rewrite Nat2Z.id.
  pose proof (va_loop_app (length args) 0 args []
    (replicate (Z.to_nat (Z.of_nat (length args) + 1)) None)) as Hl. cbn [app] in Hl.
  rewrite Hl by (rewrite ?length_replicate; simpl; lia).
  rewrite firstn_all, drop_replicate. cbn [mbind res_bind app].
  replace (Z.to_nat (Z.of_nat (length args) + 1) - length args)%nat with 1%nat by lia.
  cbn [replicate]. rewrite arr_set_nat by (rewrite length_app, length_fmap; simpl; lia).
  cbn [mbind res_bind].
  assert (<[length args := None]> ((Some <$> args) ++ [None]) = (Some <$> args) ++ [None]) as Hi.
  { apply list_insert_id. rewrite lookup_app_r by (rewrite length_fmap; lia).
    by rewrite length_fmap, Nat.sub_diag. }
  rewrite Hi, arr_get_nat, lookup_app_r by (rewrite length_fmap; lia).
  rewrite length_fmap, Nat.sub_diag. cbn [lookup list_lookup mbind res_bind].
  rewrite arr_set_nat, Hi by (rewrite length_app, length_fmap; simpl; lia). done.
Qed.

Lemma command_head (args : list bytes) :
  arr_get ((Some <$> args) ++ [None]) 0 = Ok (head args).
Proof. by destruct args. Qed.

(** A child that exited with status 0. *)
Definition child_ok (result status : Z) : bool :=
  negb (result =? -1) && WIFEXITED status && (WEXITSTATUS status =? 0).

(** ** Theorems *)

Section theorems.
Context {X : Type} (o : env S X).

(** The answers given in one run: what [fork], [wait] and [execv] do. *)
Definition answers (pid result status : Z) (exec_fails : bool) : contract S := fun s q a =>
  system_calls s q a
  /\ match q return sanswer q -> Prop with
     | QFork => fun a => a = pid
     | QWait => fun a => a = (result, status)
     | QExecFails _ _ => fun a => a = exec_fails
     | QOpen _ => fun fd => fd <> -1
     | _ => fun _ => True
     end a.

(** What [system] reports. *)
Definition system_status (r : Z) : contract S := fun _ q =>
  match q return sanswer q -> Prop with QSystem _ => eq r | _ => fun _ => True end.

(** [do_system] is [true] exactly when [system] reports the status 0. *)
Theorem do_system_result (s : proc) (x : X) (cmd : bytes) (r : Z) :
  respects (system_status r) o ->
  exists x', run o (do_system cmd) s x = Ok (Returned (r =? 0), s, x').
Proof.
  intros Ho.
  destruct (wp_run (system_status r) o (do_system cmd) (fun e s' => e = Returned (r =? 0) /\ s' = s) s x Ho)
    as (e & s' & x' & Hrun & -> & ->); [|by exists x'].
  unfold do_system. wp_step. apply (wp_ask (S := S)). intros a Ha. cbn in Ha. subst a.
  destruct (Z.eqb_spec r (-1)) as [->|_]; [by apply wp_ret|].
  destruct (r =? 0); cbn [negb]; by apply wp_ret.
Qed.

Lemma wp_do_exec pid result status fails (args : list bytes) s :
  wp (answers pid result status fails) (do_exec (Z.of_nat (length args)) args)
    (fun e s' => s' = s /\ e =
       if pid =? -1 then Returned false
       else if pid =? 0 then
         if fails then Exited EXIT_FAILURE else Replaced (head args) ((Some <$> args) ++ [None])
       else Returned (child_ok result status)) s.
Proof.
  unfold do_exec. rewrite va_command_ok. wp_step. apply wp_ret. wp_step.
  apply (wp_ask (S := S)). intros p [_ ->]. destruct (pid =? -1); [by apply wp_ret|].
  destruct (pid =? 0).
  - rewrite command_head. wp_step. apply wp_ret. wp_step. apply (wp_ask (S := S)).
    intros f [_ ->]. by destruct fails; apply wp_ret.
  - wp_step. apply (wp_ask (S := S)). intros [r st] [_ [= -> ->]]. unfold child_ok.
    destruct (result =? -1); [by apply wp_ret|]. cbn [negb andb].
    by destruct (_ && _); apply wp_ret.
Qed.

(** C34: [do_exec] in the parent is [true] exactly when the child could be
    started and waited for and exited with status 0; in the child it never
    returns: the program is replaced by the command, with its arguments and a
    null pointer, or exits with 1. *)
Theorem do_exec_result s x (args : list bytes) pid result status fails :
  respects (answers pid result status fails) o ->
  exists x',
    run o (do_exec (Z.of_nat (length args)) args) s x
      = Ok (if pid =? -1 then Returned false
            else if pid =? 0 then
              if fails then Exited EXIT_FAILURE
              else Replaced (head args) ((Some <$> args) ++ [None])
            else Returned (child_ok result status), s, x').
Proof.
  intros Ho. destruct (wp_run _ o _ _ s x Ho (wp_do_exec pid result status fails args s))
    as (e & s' & x' & Hrun & -> & ->). by exists x'.
Qed.

(** The parent of [do_exec_redirect], or a [fork] that failed. *)
Lemma wp_redirect_parent pid result status fails args outputfile s :
  pid <> 0 ->
  wp (answers pid result status fails) (do_exec_redirect outputfile (Z.of_nat (length args)) args)
    (fun e s' => exists fd, fds s !! fd = None
       /\ if pid =? -1 then e = Returned false /\ fds s' = <[fd := outputfile]> (fds s)
          else e = Returned (negb (result =? -1)) /\ fds s' = fds s) s.
Proof.
  intros Hpid. unfold do_exec_redirect. rewrite va_command_ok. wp_step. apply wp_ret.
  unfold open. do 2 wp_step. apply (wp_ask (S := S)). intros fd [Hfd Hok]. cbn in Hfd, Hok.
  rewrite (proj2 (Z.eqb_neq fd (-1)) Hok). destruct Hfd as [?|[Hp Hn]]; [done|].
  wp_step. apply wp_modify, wp_ret. rewrite (proj2 (Z.eqb_neq fd (-1)) Hok).
  wp_step. apply (wp_ask (S := S)). intros p [_ ->].
  destruct (pid =? -1); [by apply wp_ret; exists fd|].
  rewrite (proj2 (Z.eqb_neq pid 0) Hpid). unfold close. wp_step. apply wp_modify. wp_step.
  apply (wp_ask (S := S)). intros [r st] [_ [= -> ->]]. unfold set_fds; cbn [fds].
  rewrite delete_insert_eq, delete_id by done.
  destruct (result =? -1); [by apply wp_ret; exists fd|].
  by destruct (_ && _); apply wp_ret; exists fd.
Qed.

(** [do_exec_redirect] in the parent is [true] whenever the child could be
    started and waited for, with whatever status it ended; its descriptor of the
    output file is closed. *)
Theorem do_exec_redirect_ignores_status s x args outputfile pid result status fails :
  0 < pid -> respects (answers pid result status fails) o ->
  exists x',
    run o (do_exec_redirect outputfile (Z.of_nat (length args)) args) s x
      = Ok (Returned (negb (result =? -1)), s, x').
Proof.
  intros Hpid Ho.
  destruct (wp_run _ o _ _ s x Ho (wp_redirect_parent pid result status fails args outputfile s ltac:(lia)))
    as (e & s' & x' & Hrun & fd & Hn & Hend).
  rewrite (proj2 (Z.eqb_neq pid (-1))) in Hend by lia. destruct Hend as [-> Hs].
  exists x'. destruct s, s'; cbn in Hs. by subst.
Qed.

(** When [fork] fails the descriptor of the output file stays open. *)
Theorem do_exec_redirect_leaks s x args outputfile result status fails :
  respects (answers (-1) result status fails) o ->
  exists fd s' x',
    run o (do_exec_redirect outputfile (Z.of_nat (length args)) args) s x
      = Ok (Returned false, s', x')
    /\ fds s !! fd = None /\ fds s' = <[fd := outputfile]> (fds s).
Proof.
  intros Ho.
  destruct (wp_run _ o _ _ s x Ho (wp_redirect_parent (-1) result status fails args outputfile s ltac:(lia)))
    as (e & s' & x' & Hrun & fd & Hn & -> & Hs).
  by exists fd, s', x'.
Qed.

(** The child of [do_exec_redirect] never returns to the caller; where it
    runs the command, the command's standard output is the output file and the
    descriptor the file was opened as is closed. *)
Theorem do_exec_redirect_child s x args outputfile result status fails :
  fds s !! STDOUT_FILENO <> None ->
  respects (answers 0 result status fails) o ->
  exists e s' x',
    run o (do_exec_redirect outputfile (Z.of_nat (length args)) args) s x = Ok (e, s', x')
    /\ match e with
       | Returned _ => False
       | Exited status => status = EXIT_FAILURE
       | Replaced path argv =>
           fails = false /\ path = head args /\ argv = (Some <$> args) ++ [None]
           /\ fds s' = <[STDOUT_FILENO := outputfile]> (fds s)
       end.
Proof.
  intros Hout Ho. apply (wp_run (answers 0 result status fails)); [done|].
  unfold do_exec_redirect. rewrite va_command_ok. wp_step. apply wp_ret.
  unfold open. do 2 wp_step. apply (wp_ask (S := S)). intros fd [Hfd Hok]. cbn in Hfd, Hok.
  rewrite (proj2 (Z.eqb_neq fd (-1)) Hok). destruct Hfd as [?|[Hp Hn]]; [done|].
  assert (fd <> STDOUT_FILENO) as Hne by (intros ->; done).
  wp_step. apply wp_modify, wp_ret. rewrite (proj2 (Z.eqb_neq fd (-1)) Hok).
  wp_step. apply (wp_ask (S := S)). intros p [_ ->]. cbn [Z.eqb].
  unfold dup2, close. do 2 wp_step. apply (wp_ask (S := S)). intros [] _.
  { apply wp_ret. rewrite Z.eqb_refl. wp_step. apply wp_modify. by apply wp_ret. }
  eapply wp_act; [cbn; by rewrite lookup_insert_eq|]. change (STDOUT_FILENO =? -1) with false.
  wp_step. apply wp_modify. rewrite command_head. wp_step. apply wp_ret. wp_step.
  apply (wp_ask (S := S)). intros f [_ ->]. destruct fails; apply wp_ret; [done|].
  split_and!; try done. unfold set_fds; cbn [fds].
  rewrite delete_insert_ne, delete_insert_eq, delete_id by done. done.
Qed.

End theorems.

(** ** Witnesses *)

Definition fixed (pid result status : Z) (exec_fails : bool) : env S unit := fun s x q =>
  (match q return sanswer q with
   | QSystem _ => 256
   | QFork => pid
   | QExecFails _ _ => exec_fails
   | QWait => (result, status)
   | QOpen _ => next_key 2 (fds s)
   | QDup2Fails _ => false
   end, x).

Lemma fixed_answers pid result status fails :
  respects (answers pid result status fails) (fixed pid result status fails).
Proof.
  intros s x q. pose proof (next_key_gt 2 (fds s)). pose proof (next_key_fresh 2 (fds s)).
  split; destruct q; cbn; try done; [right; split; [lia|done]|lia].
Qed.

(** A process with its standard streams, and ["/bin/x y"]. *)
Definition console : proc := Proc {[ 0 := []; 1 := []; 2 := [] ]}.
Definition sample_args : list bytes := [[Byte.x2f; Byte.x78]; [Byte.x79]].
Definition sample_out : bytes := [Byte.x6f].

Lemma do_system_result_witness :
  exists x', run (fixed 7 7 0 false) (do_system [Byte.x78]) console tt
    = Ok (Returned false, console, x').
Proof. apply (do_system_result (fixed 7 7 0 false) console tt [Byte.x78] 256). by intros s x []. Defined.

Lemma do_exec_result_witness :
  exists x', run (fixed 0 0 0 false) (do_exec 2 sample_args) console tt
    = Ok (Replaced (Some [Byte.x2f; Byte.x78])
            [Some [Byte.x2f; Byte.x78]; Some [Byte.x79]; None], console, x').
Proof.
  apply (do_exec_result (fixed 0 0 0 false) console tt sample_args 0 0 0 false).
  apply fixed_answers.
Defined.

Lemma do_exec_redirect_ignores_status_witness :
  exists x', run (fixed 7 7 256 false) (do_exec_redirect sample_out 2 sample_args) console tt
    = Ok (Returned true, console, x').
Proof.
  apply (do_exec_redirect_ignores_status (fixed 7 7 256 false) console tt sample_args
           sample_out 7 7 256 false).
  - lia.
  - apply fixed_answers.
Defined.

Lemma do_exec_redirect_leaks_witness :
  exists fd s' x',
    run (fixed (-1) 0 0 false) (do_exec_redirect sample_out 2 sample_args) console tt
      = Ok (Returned false, s', x')
    /\ fds console !! fd = None /\ fds s' = <[fd := sample_out]> (fds console).
Proof.
  apply (do_exec_redirect_leaks (fixed (-1) 0 0 false) console tt sample_args sample_out 0 0 false).
  apply fixed_answers.
Defined.

Lemma do_exec_redirect_child_witness :
  exists e s' x',
    run (fixed 0 0 0 false) (do_exec_redirect sample_out 2 sample_args) console tt = Ok (e, s', x')
    /\ match e with
       | Returned _ => False
       | Exited status => status = EXIT_FAILURE
       | Replaced path argv =>
           false = false /\ path = head sample_args /\ argv = (Some <$> sample_args) ++ [None]
           /\ fds s' = <[STDOUT_FILENO := sample_out]> (fds console)
       end.
Proof.
  apply (do_exec_redirect_child (fixed 0 0 0 false) console tt sample_args sample_out 0 0 false).
  - done.
  - apply fixed_answers.
Defined.

End SystemCalls.
