(* ===== verification/Threading.v ===== *)
(** * A thread that holds a mutex for a while

    [examples/threading/threading.c] and [threading.h]: a thread that waits,
    locks a mutex, waits again and unlocks it, and the function that starts
    it. The theorem on the thread is about the calls it makes, each with the state it
    is made in and its answer. *)

From S2P Require Import Prelude.

Module Threading.

(** ** Data *)

(** [struct thread_data]. *)
Record thread_data : Type := ThreadData {
  thread_complete_success : bool;
  wait_to_obtain_ms : Z;
  wait_to_release_ms : Z;
  mutex : Z
}.

(** The allocated thread data, the mutexes (held or not), and the threads
    started, with their arguments. *)
Record proc : Type := Proc {
  datas : gmap Z thread_data;
  mutexes : gmap Z bool;
  threads : gmap Z Z
}.

Inductive tquery : Type :=
| QUsleep (usec : Z)
| QLock (m : Z)                (* an error number *)
| QUnlock (m : Z)              (* an error number *)
| QMalloc                      (* an address, and what is there *)
| QThreadCreate.               (* an error number, and the thread *)

Definition tanswer (q : tquery) : Type :=
  match q with
  | QUsleep _ | QLock _ | QUnlock _ => Z
  | QMalloc => Z * thread_data
  | QThreadCreate => Z * Z
  end.

Definition T : sig := {| st := proc; query := tquery; answer := tanswer |}.

Definition threads_system : contract T := fun s q =>
  match q return tanswer q -> Prop with
  | QUsleep _ => fun r => r = 0 \/ r = -1
  | QLock _ | QUnlock _ => fun _ => True
  | QMalloc => fun r => r.1 = 0 \/ (0 < r.1 /\ datas s !! r.1 = None)
  | QThreadCreate => fun r => r.1 <> 0 \/ threads s !! r.2 = None
  end.

Definition set_datas (x : gmap Z thread_data) (s : proc) : proc := Proc x (mutexes s) (threads s).
Definition set_mutexes (x : gmap Z bool) (s : proc) : proc := Proc (datas s) x (threads s).
Definition set_threads (x : gmap Z Z) (s : proc) : proc := Proc (datas s) (mutexes s) x.

(** ** The thread *)

Definition US_PER_MS : Z := 1000.

(** [int] multiplication; overflow is undefined. *)
Definition mul_int (a b : Z) : res Z :=
  if i32 (a * b) =? a * b then Ok (a * b) else Err SignedOverflow.

(** The argument of [usleep] is unsigned. *)
Definition try_sleep (ms : Z) : prog T bool :=
  us ← of_res (mul_int ms US_PER_MS);
  r ← ask (S := T) (QUsleep (u32 us));
  mret (negb ((r : Z) =? -1)).

Definition try_lock (m : Z) : prog T bool :=
  result ← ask (S := T) (QLock m);
  if negb ((result : Z) =? 0) then mret false
  else
    act (S := T) (fun s =>
      match mutexes s !! m with
      | Some false => Ok (true, set_mutexes (<[m := true]> (mutexes s)) s)
      | Some true => Err Deadlock
      | None => Err OutOfBounds
      end).

Definition try_unlock (m : Z) : prog T bool :=
  result ← ask (S := T) (QUnlock m);
  if negb ((result : Z) =? 0) then mret false
  else
    act (S := T) (fun s =>
      match mutexes s !! m with
      | Some true => Ok (true, set_mutexes (<[m := false]> (mutexes s)) s)
      | _ => Err BadUnlock
      end).

Definition data_at (p : Z) : prog T thread_data :=
  act (S := T) (fun s =>
    if p =? 0 then Err NullDeref
    else match datas s !! p with Some d => Ok (d, s) | None => Err OutOfBounds end).

Definition set_data (p : Z) (d : thread_data) : prog T unit :=
  modify (S := T) (fun s => set_datas (<[p := d]> (datas s)) s).

Definition set_success (b : bool) (d : thread_data) : thread_data :=
  ThreadData b (wait_to_obtain_ms d) (wait_to_release_ms d) (mutex d).

(** [a && b]. *)
Definition and_then (a b : prog T bool) : prog T bool :=
  r ← a; if (r : bool) then b else mret false.

Definition threadfunc (thread_param : Z) : prog T Z :=
  d ← data_at thread_param;
  ok ← and_then (try_sleep (wait_to_obtain_ms d))
      (and_then (try_lock (mutex d))
      (and_then (try_sleep (wait_to_release_ms d))
                (try_unlock (mutex d))));
  set_data thread_param (set_success ok d);;
  mret thread_param.

(** ** Starting it *)

Definition thread_data_create (obtain release m : Z) : prog T Z :=
  '(data, uninit) ← ask (S := T) QMalloc;
  if data =? 0 then mret 0
  else
    set_data data (ThreadData false obtain release m);;
    mret data.

(** The result and, when it is true, the new thread. *)
Definition start_thread_obtaining_mutex (m obtain release : Z) : prog T (bool * Z) :=
  data ← thread_data_create obtain release m;
  if data =? 0 then mret (false, 0)
  else
    '(result, thread) ← ask (S := T) QThreadCreate;
    if negb (result =? 0) then mret (false, 0)
    else
      modify (S := T) (fun s => set_threads (<[thread := data]> (threads s)) s);;
      mret (true, thread).

(** ** Lemmas *)

(** The milliseconds that are an [int] number of microseconds. *)
Definition sleepable (ms : Z) : Prop := -2147483 <= ms <= 2147483.

Lemma mul_int_ok ms : sleepable ms -> mul_int ms US_PER_MS = Ok (ms * 1000).
Proof.
  unfold sleepable, mul_int, US_PER_MS. intros Hms.
  rewrite i32_small by lia. by rewrite Z.eqb_refl.
Qed.

Lemma mul_int_overflow ms : ~ sleepable ms -> mul_int ms US_PER_MS = Err SignedOverflow.
Proof.
  unfold sleepable, mul_int, US_PER_MS. intros Hms.
  destruct (Z.eqb_spec (i32 (ms * 1000)) (ms * 1000)) as [He|]; [|done]. exfalso. apply Hms.
  assert (- 2 ^ 31 <= i32 (ms * 1000) < 2 ^ 31); [|lia].
  unfold i32, to_signed. pose proof (Z.mod_pos_bound (ms * 1000 + 2 ^ (32 - 1)) (2 ^ 32)).
  change (2 ^ (32 - 1)) with 2147483648 in *. change (2 ^ 32) with 4294967296 in *.
  change (2 ^ 31) with 2147483648. lia.
Qed.

Section rules.
Context (C : contract T).

Lemma wp_try_sleep ms s (Q : bool -> proc -> Prop) :
  sleepable ms ->
  (forall r, C s (QUsleep (u32 (ms * 1000))) r -> Q (negb (r =? -1)) s) ->
  wp C (try_sleep ms) Q s.
Proof.
  intros Hms HQ. unfold try_sleep. rewrite mul_int_ok by done. wp_step. apply wp_ret.
  wp_step. apply (wp_ask (S := T)). intros r Hr. by apply wp_ret, HQ.
Qed.

Lemma wp_try_lock m s (Q : bool -> proc -> Prop) :
  mutexes s !! m = Some false ->
  (forall e, C s (QLock m) e -> e <> 0 -> Q false s) ->
  Q true (set_mutexes (<[m := true]> (mutexes s)) s) ->
  wp C (try_lock m) Q s.
Proof.
  intros Hm Hf Hs. unfold try_lock. wp_step. apply (wp_ask (S := T)). intros e He. cbn in e.
  destruct (Z.eqb_spec e 0) as [->|Hne]; cbn [negb]; [|by apply wp_ret, (Hf e)].
  eapply wp_act; [cbv beta; by rewrite Hm|done].
Qed.

Lemma wp_try_unlock m s (Q : bool -> proc -> Prop) :
  mutexes s !! m = Some true ->
  (forall e, C s (QUnlock m) e -> e <> 0 -> Q false s) ->
  Q true (set_mutexes (<[m := false]> (mutexes s)) s) ->
  wp C (try_unlock m) Q s.
Proof.
  intros Hm Hf Hs. unfold try_unlock. wp_step. apply (wp_ask (S := T)). intros e He. cbn in e.
  destruct (Z.eqb_spec e 0) as [->|Hne]; cbn [negb]; [|by apply wp_ret, (Hf e)].
  eapply wp_act; [cbv beta; by rewrite Hm|done].
Qed.

End rules.

(** ** Theorems *)

Section theorems.
Context {X : Type} (o : env T X).

(** How the thread runs on its data [d]: its calls, each with the state it is made in
    and its answer, and the state it leaves. *)
Section thread_run.
Context (s : proc) (p : Z) (d : thread_data).

Definition locked : proc := set_mutexes (<[mutex d := true]> (mutexes s)) s.
Definition reports (ok : bool) (s' : proc) : proc := set_datas (<[p := set_success ok d]> (datas s)) s'.

Definition first_wait (r : Z) : call T := Call (S := T) s (QUsleep (u32 (wait_to_obtain_ms d * 1000))) r.
Definition lock (e : Z) : call T := Call (S := T) s (QLock (mutex d)) e.
Definition second_wait (r : Z) : call T :=
  Call (S := T) locked (QUsleep (u32 (wait_to_release_ms d * 1000))) r.
Definition unlock (e : Z) : call T := Call (S := T) locked (QUnlock (mutex d)) e.

Inductive thread_run : list (call T) -> proc -> Prop :=
| thread_ok r1 r2 : r1 <> -1 -> r2 <> -1 ->
    thread_run [first_wait r1; lock 0; second_wait r2; unlock 0] (reports true s)
| thread_no_wait :
    thread_run [first_wait (-1)] (reports false s)
| thread_no_lock r1 e : r1 <> -1 -> e <> 0 ->
    thread_run [first_wait r1; lock e] (reports false s)
| thread_no_second_wait r1 : r1 <> -1 ->
    thread_run [first_wait r1; lock 0; second_wait (-1)] (reports false locked)
| thread_no_unlock r1 r2 e : r1 <> -1 -> r2 <> -1 -> e <> 0 ->
    thread_run [first_wait r1; lock 0; second_wait r2; unlock e] (reports false locked).

End thread_run.

Lemma run_try_sleep ms s x l :
  sleepable ms -> exists r x',
    run (recorded o) (try_sleep ms) s (x, l)
      = Ok (negb (r =? -1), s, (x', l ++ [Call (S := T) s (QUsleep (u32 (ms * 1000))) r])).
Proof.
  intros Hms. unfold try_sleep. rewrite mul_int_ok by done. unfold run, recorded. cbn.
  destruct (o s x _) as [r x']. by exists r, x'.
Qed.

Lemma run_try_lock m s x l :
  mutexes s !! m = Some false -> exists e x',
    run (recorded o) (try_lock m) s (x, l)
      = Ok (e =? 0, if e =? 0 then set_mutexes (<[m := true]> (mutexes s)) s else s,
            (x', l ++ [Call (S := T) s (QLock m) e])).
Proof.
  intros Hm. unfold try_lock, run, recorded. cbn. destruct (o s x (QLock m)) as [e x'].
  exists e, x'. destruct (e =? 0); cbn; by rewrite ?Hm.
Qed.

Lemma run_try_unlock m s x l :
  mutexes s !! m = Some true -> exists e x',
    run (recorded o) (try_unlock m) s (x, l)
      = Ok (e =? 0, if e =? 0 then set_mutexes (<[m := false]> (mutexes s)) s else s,
            (x', l ++ [Call (S := T) s (QUnlock m) e])).
Proof.
  intros Hm. unfold try_unlock, run, recorded. cbn. destruct (o s x (QUnlock m)) as [e x'].
  exists e, x'. destruct (e =? 0); cbn; by rewrite ?Hm.
Qed.

(** The next call of the goal, run as [lem] says. *)
Ltac run_call lem r x' :=
  cbn [Z.eqb]; match goal with |- context [run _ _ _ (?x, ?l)] =>
    destruct (lem x l) as (r & x' & ->)
  end.

(** C35: the thread, started on its data with the mutex free, ends, and its calls are:
    the first wait; when that succeeds, the lock; when that succeeds, the second wait,
    with the mutex held; when that succeeds, the unlock. It reports success exactly
    when all four succeeded, and the mutex is then free again; a first wait or a lock
    that fails leaves the mutex alone; a second wait or an unlock that fails leaves it
    locked. *)
Theorem threadfunc_outcomes s x p d :
  p <> 0 -> datas s !! p = Some d -> mutexes s !! mutex d = Some false ->
  sleepable (wait_to_obtain_ms d) -> sleepable (wait_to_release_ms d) ->
  exists s' x' calls,
    run (recorded o) (threadfunc p) s (x, []) = Ok (p, s', (x', calls))
    /\ thread_run s p d calls s'.
Proof.
  intros Hp Hd Hm Ho Hr. unfold threadfunc, and_then. rewrite run_bind.
  assert (run (recorded o) (data_at p) s (x, []) = Ok (d, s, (x, []))) as ->.
  { unfold run, data_at. cbn. by rewrite (proj2 (Z.eqb_neq p 0) Hp), Hd. }
  assert (forall ok s' y, run (recorded o) (set_data p (set_success ok d);; mret p) s' y
            = Ok (p, set_datas (<[p := set_success ok d]> (datas s')) s', y)) as Hend by done.
  rewrite !run_bind. run_call (fun x l => run_try_sleep _ s x l Ho) r1 x1.
  destruct (Z.eqb_spec r1 (-1)) as [->|H1]; cbn [negb].
  { eexists _, _, _. split; [apply Hend|]. apply (thread_no_wait s p d). }
  rewrite run_bind. run_call (fun x l => run_try_lock _ s x l Hm) e1 x2.
  destruct (Z.eqb_spec e1 0) as [->|H2].
  2: { eexists _, _, _. split; [apply Hend|]. by apply (thread_no_lock s p d). }
  cbn [Z.eqb]. change (set_mutexes (<[mutex d := true]> (mutexes s)) s) with (locked s d).
  rewrite run_bind. run_call (fun x l => run_try_sleep _ (locked s d) x l Hr) r2 x3.
  destruct (Z.eqb_spec r2 (-1)) as [->|H3]; cbn [negb].
  { eexists _, _, _. split; [apply Hend|]. by apply (thread_no_second_wait s p d). }
  pose proof (lookup_insert_eq (mutexes s) (mutex d) true) as Hl.
  run_call (fun x l => run_try_unlock (mutex d) (locked s d) x l Hl) e2 x4.
  destruct (Z.eqb_spec e2 0) as [->|H4].
  2: { eexists _, _, _. split; [apply Hend|]. by apply (thread_no_unlock s p d). }
  eexists _, _, _. split; [apply Hend|]. cbn.
  rewrite insert_insert_eq, (insert_id (mutexes s)) by done. destruct s. by apply thread_ok.
Qed.

(** Only the wait of [usec] microseconds fails. *)
Definition fails_sleeping (usec : Z) : contract T := fun s q a =>
  threads_system s q a
  /\ match q return tanswer q -> Prop with
     | QUsleep n => fun r => r = if n =? usec then -1 else 0
     | QLock _ | QUnlock _ => fun e => e = 0
     | _ => fun _ => True
     end a.

(** A second wait that fails leaves the mutex locked for good: the thread
    ends without unlocking it. *)
Theorem threadfunc_keeps_mutex s x p d :
  respects (fails_sleeping (u32 (wait_to_release_ms d * 1000))) o ->
  p <> 0 -> datas s !! p = Some d -> mutexes s !! mutex d = Some false ->
  sleepable (wait_to_obtain_ms d) -> sleepable (wait_to_release_ms d) ->
  u32 (wait_to_obtain_ms d * 1000) <> u32 (wait_to_release_ms d * 1000) ->
  exists s' x',
    run o (threadfunc p) s x = Ok (p, s', x')
    /\ mutexes s' !! mutex d = Some true
    /\ datas s' !! p = Some (set_success false d).
Proof.
  intros Ho Hp Hd Hm H1 H2 Hne.
  destruct (wp_run _ o (threadfunc p) (fun r s' => r = p /\ mutexes s' !! mutex d = Some true
      /\ datas s' !! p = Some (set_success false d)) s x Ho)
    as (r & s' & x' & Hrun & -> & Hend); [|by exists s', x'].
  unfold threadfunc, and_then. wp_step. eapply wp_act.
  { rewrite (proj2 (Z.eqb_neq p 0) Hp). by rewrite Hd. }
  do 2 wp_step. apply wp_try_sleep; [done|]. intros r1 [_ ->].
  rewrite (proj2 (Z.eqb_neq _ _) Hne). cbn [Z.eqb negb].
  wp_step. apply wp_try_lock; [done|by intros e [_ ->]|].
  wp_step. apply wp_try_sleep; [done|]. intros r2 [_ ->]. rewrite Z.eqb_refl. cbn [negb].
  apply wp_ret. unfold set_data. wp_step. apply wp_modify, wp_ret. cbn.
  by rewrite !lookup_insert_eq.
Qed.

(** A wait of 2147484 milliseconds or more overflows [int] when it is
    converted to microseconds. *)
Theorem try_sleep_overflows s x ms :
  ~ sleepable ms -> run o (try_sleep ms) s x = Err SignedOverflow.
Proof. intros Hms. unfold try_sleep. by rewrite mul_int_overflow. Qed.

(** [start_thread_obtaining_mutex] starts one thread on data of its own and
    returns [true]; or returns [false] with no thread started, and then the data
    may be left allocated, which no pointer reaches any more: that is so when the
    thread could not be created. It returns [false] only where the contract [C] allows
    that [malloc] or [pthread_create] fails. *)
Theorem start_thread_outcomes (C : contract T) s x m obtain release :
  (forall s q a, C s q a -> threads_system s q a) -> respects C o ->
  exists r s' x',
    run o (start_thread_obtaining_mutex m obtain release) s x = Ok (r, s', x')
    /\ mutexes s' = mutexes s
    /\ ((r = (false, 0) /\ s' = s /\ exists a, C s QMalloc a /\ a.1 = 0)
        \/ exists p, 0 < p /\ datas s !! p = None
             /\ datas s' = <[p := ThreadData false obtain release m]> (datas s)
             /\ ((r = (false, 0) /\ threads s' = threads s
                    /\ exists s0 a, C s0 QThreadCreate a /\ a.1 <> 0)
                 \/ exists t, r = (true, t) /\ threads s !! t = None
                      /\ threads s' = <[t := p]> (threads s))).
Proof.
  intros HC Ho. apply (wp_run C); [done|].
  unfold start_thread_obtaining_mutex, thread_data_create. do 2 wp_step.
  apply (wp_ask (S := T)). intros [p uninit] Ha. destruct (Z.eqb_spec p 0) as [->|Hp0].
  { do 2 apply wp_ret. split; [done|]. left. split_and!; [done..|]. by eexists. }
  destruct (HC _ _ _ Ha) as [?|[Hpos Hn]]; [done|]. cbn in Hpos, Hn. unfold set_data. wp_step.
  apply wp_modify, wp_ret. rewrite (proj2 (Z.eqb_neq p 0) Hp0). wp_step.
  apply (wp_ask (S := T)). intros [e t] Ht. destruct (Z.eqb_spec e 0) as [->|He]; cbn [negb].
  - destruct (HC _ _ _ Ht) as [?|Hn']; [done|]. wp_step. apply wp_modify, wp_ret. split; [done|].
    right. exists p. split_and!; try done. right. by exists t.
  - apply wp_ret. split; [done|]. right. exists p. split_and!; try done. left. split_and!; [done..|]. by eexists _, _.
Qed.

End theorems.

(** ** Witnesses *)

(** A system on which waits of [usec] microseconds fail. *)
Definition bad_sleep (usec : Z) : env T unit := fun s x q =>
  (match q return tanswer q with
   | QUsleep n => if n =? usec then -1 else 0
   | QLock _ | QUnlock _ => 0
   | QMalloc => (next_key 0 (datas s), ThreadData false 0 0 0)
   | QThreadCreate => (0, next_key 0 (threads s))
   end, x).

Lemma bad_sleep_fails usec : respects (fails_sleeping usec) (bad_sleep usec).
Proof.
  intros s x q. pose proof (next_key_gt 0 (datas s)). pose proof (next_key_fresh 0 (datas s)).
  pose proof (next_key_fresh 0 (threads s)).
  split; destruct q; cbn; try done; try (by right).
  destruct (_ =? _); [by right|by left].
Qed.
#[export] Hint Resolve bad_sleep_fails : envs.

Definition sample_data : thread_data := ThreadData false 10 20 7.
Definition sample_proc : proc := Proc {[ 8 := sample_data ]} {[ 7 := false ]} ∅.

Lemma threadfunc_outcomes_witness :
  exists s' x' calls,
    run (recorded (bad_sleep 0)) (threadfunc 8) sample_proc (tt, []) = Ok (8, s', (x', calls))
    /\ thread_run sample_proc 8 sample_data calls s'.
Proof.
  apply (threadfunc_outcomes (bad_sleep 0)).
  - done.
  - reflexivity.
  - reflexivity.
  - done.
  - done.
Defined.

Lemma threadfunc_keeps_mutex_witness :
  exists s' x',
    run (bad_sleep 20000) (threadfunc 8) sample_proc tt = Ok (8, s', x')
    /\ mutexes s' !! 7 = Some true /\ datas s' !! 8 = Some (set_success false sample_data).
Proof.
  apply (threadfunc_keeps_mutex (bad_sleep 20000) sample_proc tt 8 sample_data).
  - auto with envs.
  - done.
  - reflexivity.
  - reflexivity.
  - done.
  - done.
  - done.
Defined.

Lemma try_sleep_overflows_witness :
  run (bad_sleep 0) (try_sleep 2147484) sample_proc tt = Err SignedOverflow.
Proof. apply (try_sleep_overflows (bad_sleep 0)). unfold sleepable. lia. Defined.

Lemma start_thread_outcomes_witness :
  exists r s' x',
    run (bad_sleep 0) (start_thread_obtaining_mutex 7 1 2) sample_proc tt = Ok (r, s', x')
    /\ mutexes s' = mutexes sample_proc
    /\ ((r = (false, 0) /\ s' = sample_proc
           /\ exists a, fails_sleeping 0 sample_proc QMalloc a /\ a.1 = 0)
        \/ exists p, 0 < p /\ datas sample_proc !! p = None
             /\ datas s' = <[p := ThreadData false 1 2 7]> (datas sample_proc)
             /\ ((r = (false, 0) /\ threads s' = threads sample_proc
                    /\ exists s0 a, fails_sleeping 0 s0 QThreadCreate a /\ a.1 <> 0)
                 \/ exists t, r = (true, t) /\ threads sample_proc !! t = None
                      /\ threads s' = <[t := p]> (threads sample_proc))).
Proof.
  apply (start_thread_outcomes (bad_sleep 0)).
  - by intros s q a [Ha _].
  - auto with envs.
Defined.

End Threading.
