(* ===== verification/AutotestValidate.v ===== *)
(** * The check of the test set-up

    [examples/autotest-validate] and its unit test
    [student-test/assignment1/Test_validate_username.c]: three functions that
    return constants, a program that prints two of them, and a test of the third. *)

From S2P Require Import Prelude.
From stdpp Require Import strings.

Module AutotestValidate.

Definition this_function_returns_true : bool := true.
Definition this_function_returns_false : bool := false.
Definition my_username : string := "DomenicP".

(** [cond ? "true" : "false"]. *)
Definition bool_str (b : bool) : string := if b then "true" else "false".

(** What [main] prints, line by line, and its status (0 where [main] has no
    return statement). *)
Definition main : list string * Z :=
  ([("this_function_returns_true returned " +:+ bool_str this_function_returns_true)%string;
    ("this_function_returns_false returned " +:+ bool_str this_function_returns_false)%string],
   0%Z).

(** ** The unit test *)

(** How the test ends, and whether it freed the name it was given: the assertion
    leaves the test when it fails. *)
Record outcome : Type := Outcome { passed : bool; freed : bool }.

Section test.
(** [malloc_username_from_conf_file], of the course's library: the name in
    [conf/username.txt], or null. *)
Context (malloc_username_from_conf_file : option string).

Definition test_validate_my_username : outcome :=
  if bool_decide (malloc_username_from_conf_file = Some my_username)
  then Outcome true true else Outcome false false.

(** The test passes for exactly one configured name, and only then frees it. *)
Lemma test_validate_my_username_passes :
  passed test_validate_my_username = true <-> malloc_username_from_conf_file = Some "DomenicP".
Proof. unfold test_validate_my_username. by case_bool_decide. Qed.

End test.

End AutotestValidate.
